(* ===== verification/_CoqProject ===== *)
-Q . S2P
Prelude.v
Bresenham.v
MidpointCircle.v
Grid.v
Rng.v
StbImage.v
StbIo.v
Layout.v
LayoutFacts.v
SceneInit.v
Scenario.v
Camera.v
Cli.v
GL.v
Shader.v
CameraView.v
Mesh.v
Render.v
Main.v
