(* ===== verification/Prelude.v ===== *)
(** * A verification development of the night-cityscape generator

    The program (src/) asks for a configuration, generates a static 3D
    city once and renders it every frame until the window closes.  Its
    parts, and how they interact:

    - [main.cpp]: starts GLFW, the window and GLEW, builds the shader
      program from two GLSL sources, prompts on [std::cin] for the city,
      calls [CityScene::init], then loops: poll the window's events (three
      callbacks drive the orbit [Camera]), set the viewport, update the
      camera and the scene, [scene.render(shader, camera)].
    - [scene/city_scene.cpp], class [CityScene]: [init] fixes the grid
      size, allocates the occupancy grid and runs
      [generateFuturisticLayout] (roads rasterized with [bresenhamLine],
      buildings, trees, lamps, car, pond, each placement guarded by
      [isGridCellFree] and recorded with [markGridCells], positions from
      the C library's [rand]), builds the cube, quad and pond meshes and
      loads five textures; [render] sets the camera uniforms and draws
      every feature; [update] advances two timers; the destructor
      deletes the meshes and textures.
    - [algorithms/algorithms.cpp]: [bresenhamLine] and [midpointCircle].
    - [meshes/mesh.cpp]: [buildMesh] uploads vertex and index data into a
      vertex array; [makeCube], [makeQuadXZ], [makeCircleFan].
    - [render/shader.cpp], [render/texture.cpp], [render/camera.cpp]: the
      shader program and its setters, [loadTexture] over stb_image, and
      the camera's callbacks, [position()] and [viewMatrix()].

    ** Files, in dependency order

    - [Prelude] (this file): the [city_scope] notations, the [city] hint
      database and tactics, C [int] helpers, inclusive ranges ([zrange]),
      the fuelled loop combinator [run_loop] every [while] loop becomes,
      with its termination and fuel-monotonicity lemmas, and the classes
      [FloatModel] (C [float] arithmetic) and [CMath] ([cosf], [sinf]).
    - [Bresenham], [MidpointCircle]: the two rasterizers, loop state and
      step as in the code, and [bresenhamLine] again at C [int] width
      with every operation checked for signed overflow; termination
      without overflow, endpoints, 8-connectivity, length, bounding box;
      distance tolerance, cardinal points, symmetry and the radius-0
      duplicate.
    - [Grid]: the occupancy grid behind the class [Occupancy] with the
      [vector<vector<bool>>] instance; [isGridCellFree] and
      [markGridCells]; their refinement of a set-of-cells specification.
    - [Rng]: the C generator as the class [CRand]; the Microsoft C
      runtime generator as the instance used to evaluate.
    - [StbImage]: what the bundled, cut-down stb_image.h implements: the
      integer size checks guarding the decoders' allocations, the sizes
      passed to [malloc], the build configuration selecting thread-local
      storage, the failure reason and the flip flags per thread, and the
      memory context; the exact meaning of each check, and what each
      thread reads after any interleaving of calls.
    - [StbIo]: the stdio callbacks of stb_image ([stbi__stdio_read],
      [stbi__stdio_skip], [stbi__stdio_eof]) over a model of the C
      library's binary input streams ([fgetc], [ungetc], [fseek],
      [fread], [feof], [ferror]), and the 32-bit rotate [stbi_lrot].
    - [Layout]: [CityConfig], [CityScene] and every layout method as a
      state-passing function over the scene and the generator state;
      [init] and [update].  [LayoutFacts]: the invariant [cells_inv]
      preserved by every phase, and the facts of each phase.
      [SceneInit]: the theorems on [init] as a whole.  [Scenario]: two
      configurations evaluated by the kernel.
    - [Camera]: the camera, its methods and the three callbacks as a
      step function over events, reachability and its invariant.
      [CameraView]: [position()] and [viewMatrix()].
    - [Cli]: the prompts of [main] over a token stream with libstdc++'s
      [operator>>], float words rounded to binary32 ([fl32]);
      [readConfig] and its round trip.
    - [GL]: the part of the OpenGL 3.3 core state the program uses, as a
      state monad [glM] with a draw log, the shader and program objects
      with the class [Glsl] for the compiler, the deletions (the current
      program is only flagged), the [keeps] program logic (an invariant,
      a preorder on states and a predicate on the draws appended,
      composed along [;;] and [mapM_]) and the equivalence [geom_eq] of
      states that differ only in their programs and uniforms, which
      code respecting it ([geom_resp], a [Proper] instance) maps to
      draws of the same geometry.
    - [Shader]: [Shader::Shader], [compile], [~Shader], the setters, and
      the two GLSL sources with the uniform types they declare.
    - [Mesh]: [buildMesh] call by call and the three mesh builders;
      [mesh_valid], what a draw of a mesh needs.
    - [Render]: [loadTexture], [render], [init] with its OpenGL half
      ([initFull]) and [~CityScene] ([destroyScene]); the render contract
      ([frame_draws]) refined by [render] in a Hoare-style [runs_to]; the
      frame properties of [render] proved with [keeps]: no object
      created or deleted, uniforms well typed, behaviour with a program
      that did not link (the same draws, by [geom_eq]).
    - [Main]: [main] as [main_setup] (platform, shader, prompts, init),
      [main_frame] and [main_loop] over the frames until the window
      closes, and the teardown: [glfwDestroyWindow], [glfwTerminate],
      [return], then the destructors of [scene] and [shader]
      ([scope_exit]), with GLFW's state at each exit ([Glfw]) and the
      [NULL] video mode as undefined behaviour; end-to-end safety and
      liveness of the loop, and its behaviour with a shader that did not
      link or an answer that is not a number.

    ** What the theorems show

    The layout: features pairwise disjoint, off the roads, inside the
    grid and reserved; building count, types by quota and heights by type;
    roads, lamps, car and pond where the code puts them.  The grid
    functions refine their specification.  The rasterizers terminate and
    draw what they should, [bresenhamLine] without [int] overflow for
    spans up to [INT_MAX / 3].  The prompts return exactly the in-range
    answers that are [float] values and loop forever on a non-numeric
    one.  The camera stays within its clamps.  The shader constructor reports an
    error iff the program did not link, and with its destructor leaks no
    object when the program is not current.  The size checks of stb_image accept exactly the sizes that
    do not overflow [int], except [stbi__mul2shorts_valid] with two
    negative factors.  With thread-local storage (the g++ build) each
    thread reads its own failure reason and the flip flag it set, else
    the global one.  The stdio callbacks skip and read exactly as the
    stream allows (a negative read size reads the whole rest), the
    bounded [fread] is the C one, and [stbi_lrot] rotates without losing a
    bit: it is the left rotation.  Every draw [render] issues after
    [init] is defined, is the contract's draw at its place (vertex
    array, model matrix and color), textured only with a texture that
    loaded, with uniforms of their declared types; with a program
    that did not link [render] still issues every draw of the frame, each
    with the program and the uniforms that were current before.  [main] runs every frame, redraws the whole city each time
    and issues only defined draws; the destructor frees the meshes and
    unbinds the textures.

    ** Bounds and fuel

    Every [while] loop is a [run_loop] with explicit fuel, a bound proved
    sufficient: [Bresenham.fuel] is [|x1-x0| + |y1-y0| + 1] iterations,
    [MidpointCircle.fuel] is [r + 2]; the theorems show the loop returns
    with that fuel and that more fuel does not change the result.  The
    prompt loops of [main] may really not terminate (a failed stream), so
    [readConfig] takes fuel and the theorems say both when it returns
    and when no fuel suffices.  The [for] loops are structural recursions
    over their exact index lists; the render loop is a list of frames.
    [fread] runs at most [reads_left + 1] calls of [fgetc], after which
    every call returns [EOF]; [StbIo.fread_spec] shows this is the same
    as the [n] calls of the C standard.
    Integers are C [int]s where it matters ([in_int32]):
    [Bresenham.bresenham_int_ok] bounds the spans by [INT_MAX / 3] so
    that [e2 = 2*err] fits, and [SceneInit.markPond_fits_int] bounds the
    pond radius by [46340] so that [pond_r*pond_r] fits ([main] asks
    for [2] to [15]).  Floats read from [std::cin] are rounded to
    binary32; the floats of the layout and of rendering are an interface
    ([FloatModel]) instantiated with exact rationals.

    ** Not modelled

    [stbi_load] (declared by stb_image.h but defined nowhere in the
    repository, the class [Render.Stbi]), the GLSL
    compiler (the class [GL.Glsl]), [cosf]/[sinf] (the class [CMath]) and
    the C generator (the class [Rng.CRand]) are interfaces; the C
    library's streams are modelled from the C standard.  In stb_image.h,
    [stbi__start_callbacks] and [stbi__start_file] call
    [stbi__refill_buffer], which the header declares and never defines,
    and the rest is declarations of functions with no body and
    preprocessor configuration; no source defines
    [STB_IMAGE_IMPLEMENTATION], so none of it is compiled.  The dead
    [if (!scene.init(...)) return -1] of [main] never fires: [init]
    returns [true] or throws.  The OpenGL context is not part of the
    [GL] state: the destructors [main] runs after [glfwTerminate] are
    modelled as if it were still current, and the release of a flagged
    program by a later [glUseProgram] is not modelled (no call follows
    [~Shader]).  [CameraView.position] is exact rational arithmetic.
    Output text,
    the city-name [getline], [glEnable], [glClear], [glfwSwapBuffers] and
    texture images change no modelled state and are left out; the view
    and projection matrices are kept symbolic. *)

From stdpp Require Export base list sets.
From Stdlib Require Export ZArith Lia.
From Stdlib Require Import QArith.

Declare Scope city_scope.
Delimit Scope city_scope with city.
Open Scope Z_scope.

(** A grid cell [(i, j)], as the code's [std::pair<int,int>]. *)
Abbreviation cell := (Z * Z)%type (only parsing).

(** ** C integer helpers *)

Definition INT_MIN : Z := - 2 ^ 31.
Definition INT_MAX : Z := 2 ^ 31 - 1.

(** [in_int32 z]: [z] is representable as a C [int]. *)
Definition in_int32 (z : Z) : bool := (INT_MIN <=? z) && (z <=? INT_MAX).

Lemma in_int32_spec z : in_int32 z = true <-> - 2 ^ 31 <= z <= 2 ^ 31 - 1.
Proof. unfold in_int32, INT_MIN, INT_MAX. rewrite andb_true_iff, !Z.leb_le. done. Qed.

(** ** Inclusive integer ranges: [for (int i = lo; i <= hi; i++)] *)

Definition zrange (lo hi : Z) : list Z := seqZ lo (hi - lo + 1).

Notation "lo '..=' hi" := (zrange lo hi) (at level 70, no associativity) : city_scope.
Open Scope city_scope.

Lemma elem_of_zrange lo hi k : k ∈ (lo ..= hi) <-> lo <= k <= hi.
Proof. unfold zrange. rewrite elem_of_seqZ. lia. Qed.

Lemma zrange_empty lo hi : hi < lo -> (lo ..= hi) = [].
Proof. intros. unfold zrange. apply seqZ_nil. lia. Qed.

Lemma zrange_cons lo hi : lo <= hi -> (lo ..= hi) = lo :: ((lo + 1) ..= hi).
Proof.
  intros. unfold zrange. rewrite seqZ_cons by lia. f_equal; f_equal; lia.
Qed.

Lemma length_zrange lo hi : length (lo ..= hi) = Z.to_nat (hi - lo + 1).
Proof. apply length_seqZ. Qed.

(** ** Tactics *)

(** Turn the boolean comparisons of the code into case splits on
    propositions. *)
Ltac zcase :=
  repeat match goal with
  | |- context [Z.eqb ?a ?b] => destruct (Z.eqb_spec a b)
  | |- context [Z.leb ?a ?b] => destruct (Z.leb_spec a b)
  | |- context [Z.ltb ?a ?b] => destruct (Z.ltb_spec a b)
  | H : context [Z.eqb ?a ?b] |- _ => destruct (Z.eqb_spec a b)
  | H : context [Z.leb ?a ?b] |- _ => destruct (Z.leb_spec a b)
  | H : context [Z.ltb ?a ?b] |- _ => destruct (Z.ltb_spec a b)
  end.

(** Reflect a conjunction or disjunction of boolean tests into [Prop]. *)
Ltac bool_to_prop :=
  repeat match goal with
  | H : (_ && _) = true |- _ => apply andb_prop in H as [? ?]
  | H : (_ || _) = false |- _ => apply orb_false_elim in H as [? ?]
  | H : negb _ = true |- _ => apply negb_true_iff in H
  | H : negb _ = false |- _ => apply negb_false_iff in H
  | H : (_ =? _) = true |- _ => apply Z.eqb_eq in H
  | H : (_ <=? _) = true |- _ => apply Z.leb_le in H
  | H : (_ <? _) = true |- _ => apply Z.ltb_lt in H
  | H : (_ =? _) = false |- _ => apply Z.eqb_neq in H
  | H : (_ <=? _) = false |- _ => apply Z.leb_gt in H
  | H : (_ <? _) = false |- _ => apply Z.ltb_ge in H
  end.

(** Membership of a cell in an explicit list of cells. *)
Ltac solve_mem :=
  apply list_elem_of_In; cbn [In];
  repeat (first [left; first [reflexivity | f_equal; lia] | right]).

Create HintDb city.
Create Rewrite HintDb city_rw.
#[export] Hint Rewrite elem_of_zrange : city_rw.
#[export] Hint Rewrite Z.eqb_eq Z.leb_le Z.ltb_lt andb_true_iff : city_rw.

(** ** The fuelled loop combinator

    [body s] runs one iteration from loop state [s]: it returns what the
    iteration appends to the output vector and [Some s'] to go on with
    [s'], or [None] when the loop exits ([break], or the [while]
    condition failing).  [run_loop] returns [None] only when the fuel is
    exhausted. *)

Section RunLoop.
Context {S A : Type}.

Fixpoint run_loop (fuel : nat) (body : S -> list A * option S) (s : S)
    : option (list A) :=
  match fuel with
  | O => None
  | Datatypes.S n =>
      let '(out, k) := body s in
      match k with
      | None => Some out
      | Some s' => (fun rest => out ++ rest) <$> run_loop n body s'
      end
  end.

Lemma run_loop_mono body n m s l :
  run_loop n body s = Some l -> (n <= m)%nat -> run_loop m body s = Some l.
Proof.
  revert m s l; induction n as [|n IH]; intros [|m] s l H Hle; simpl in *;
    try done; try lia.
  destruct (body s) as [out [s'|]]; [|done].
  destruct (run_loop n body s') eqn:E; simpl in H; [|done].
  rewrite (IH m s' l0 E ltac:(lia)); done.
Qed.

Lemma run_loop_unfold body n s :
  run_loop (Datatypes.S n) body s =
    match body s with
    | (out, None) => Some out
    | (out, Some s') => (fun rest => out ++ rest) <$> run_loop n body s'
    end.
Proof. simpl. by destruct (body s) as [? [?|]]. Qed.

(** Inversion of a run that returned: either this iteration exits, or
    the rest of the run returned from the next state. *)
Lemma run_loop_Some_inv n body s l :
  run_loop n body s = Some l ->
  exists n', n = Datatypes.S n' /\
    ((snd (body s) = None /\ l = fst (body s)) \/
     (exists s' r, snd (body s) = Some s' /\ run_loop n' body s' = Some r /\
                   l = fst (body s) ++ r)).
Proof.
  destruct n as [|n]; [done|]. rewrite run_loop_unfold. intros H.
  exists n. split; [done|].
  destruct (body s) as [out [s'|]]; simpl in *.
  - destruct (run_loop n body s') eqn:E; simplify_eq/=. right. eauto.
  - simplify_eq. by left.
Qed.

(** The output is closed under [f] when the output of every iteration
    is. *)
Lemma run_loop_closed (f : A -> A) body n s l :
  (forall s c, c ∈ fst (body s) -> f c ∈ fst (body s)) ->
  run_loop n body s = Some l -> forall c, c ∈ l -> f c ∈ l.
Proof.
  intros Hf. revert s l; induction n as [|n IH]; intros s l Hr c Hc; [done|].
  apply run_loop_Some_inv in Hr as (n'&[= <-]&[[_ ->]|(s'&r&_&Hr&->)]); [by apply Hf|].
  apply elem_of_app in Hc as [Hc|Hc]; apply elem_of_app; [left; by apply Hf|].
  right. eapply IH; eauto.
Qed.

(** A loop terminates when an invariant is preserved by each iteration
    that goes on and a measure decreases along it. *)
Section Terminates.
Variable body : S -> list A * option S.
Variable inv : S -> Prop.
Variable measure : S -> nat.
Hypothesis body_decreases : forall s s',
  inv s -> snd (body s) = Some s' -> inv s' /\ (measure s' < measure s)%nat.

Lemma run_loop_terminates n s :
  inv s -> (measure s < n)%nat -> is_Some (run_loop n body s).
Proof.
  revert s; induction n as [|n IH]; intros s Hi Hm; [lia|].
  rewrite run_loop_unfold.
  destruct (body s) as [out [s'|]] eqn:Eb; [|eauto].
  destruct (body_decreases s s') as [Hi' Hm']; [done|by rewrite Eb|].
  destruct (IH s' Hi' ltac:(lia)) as [l Hl]. rewrite Hl. eauto.
Qed.

(** Every output element satisfies [P] when every iteration from an
    invariant state emits only elements satisfying [P]. *)
Lemma run_loop_Forall (P : A -> Prop) n s l :
  (forall s, inv s -> Forall P (fst (body s))) ->
  inv s -> run_loop n body s = Some l -> Forall P l.
Proof.
  intros HP. revert s l; induction n as [|n IH]; intros s l Hi H; [done|].
  rewrite run_loop_unfold in H.
  pose proof (HP s Hi) as Hs.
  destruct (body s) as [out [s'|]] eqn:Eb; simpl in Hs.
  - destruct (run_loop n body s') as [r|] eqn:Er; simplify_eq/=.
    destruct (body_decreases s s') as [Hi' _]; [done|by rewrite Eb|].
    apply Forall_app; split; [done|]. eapply IH; eauto.
  - by simplify_eq.
Qed.
End Terminates.
End RunLoop.

(** ** Folds *)

(** A fold whose every step leaves the accumulator unchanged is the
    identity. *)
(** ** Lists built by [flat_map] (one block per loop iteration) *)

Lemma length_flat_map_const {A B} (f : A -> list B) (k : nat) (l : list A) :
  (forall x, length (f x) = k) -> length (flat_map f l) = (k * length l)%nat.
Proof. intros Hk. induction l as [|x l IH]; cbn; [lia|]. rewrite length_app, Hk, IH. lia. Qed.

Lemma flat_map_singleton {A B} (f : A -> B) (l : list A) : flat_map (fun x => [f x]) l = map f l.
Proof. induction l as [|x l IH]; cbn; [done|]. by rewrite IH. Qed.

Lemma map_const_repeat {A B} (f : A -> B) (b : B) (l : list A) :
  (forall x, f x = b) -> map f l = repeat b (length l).
Proof. intros Hf. induction l as [|x l IH]; cbn; [done|]. by rewrite Hf, IH. Qed.

Lemma Forall_flat_map_intro {A B} (P : B -> Prop) (f : A -> list B) (l : list A) :
  (forall x, x ∈ l -> Forall P (f x)) -> Forall P (flat_map f l).
Proof.
  intros Hf. induction l as [|x l IH]; cbn; [constructor|].
  apply Forall_app. split; [apply Hf; set_solver|]. apply IH. intros y Hy. apply Hf. set_solver.
Qed.

Lemma fold_left_fixed {A B} (f : A -> B -> A) (a : A) (l : list B) :
  (forall b, b ∈ l -> f a b = a) -> fold_left f l a = a.
Proof.
  induction l as [|b l IH]; intros Hf; simpl; [done|].
  rewrite Hf by set_solver. apply IH. set_solver.
Qed.

(** A property preserved by every step of a fold holds at its end. *)
Lemma fold_left_preserve {A B} (P : A -> Prop) (f : A -> B -> A) (l : list B) (a : A) :
  (forall a b, b ∈ l -> P a -> P (f a b)) -> P a -> P (fold_left f l a).
Proof.
  revert a; induction l as [|b l IH]; intros a Hf Ha; simpl; [done|].
  apply IH; [intros; apply Hf; set_solver | apply Hf; [set_solver|done]].
Qed.

(** ** Consecutive pairs of a list *)

Fixpoint consecutive {A} (R : A -> A -> Prop) (l : list A) : Prop :=
  match l with
  | x :: ((y :: _) as rest) => R x y /\ consecutive R rest
  | _ => True
  end.

(** ** Floating-point values

    The program stores sizes, heights and animation times as C [float].
    The layout only moves them around, multiplies by literals and
    truncates to [int]; the development is generic in the float type
    through this class, and instantiates it with exact rationals where a
    concrete run is evaluated. *)

Class FloatModel (F : Type) := {
  fl_lit : Z -> positive -> F;      (** decimal literal [n / d] *)
  fl_add : F -> F -> F;
  fl_mul : F -> F -> F;
  fl_div : F -> F -> F;
  fl_trunc : F -> Z                 (** C conversion [(int)f] *)
}.

(** The C library's [cosf] and [sinf] (and [cos], [sin] on the same
    values), as the program calls them. *)
Class CMath (F : Type) := { cosf : F -> F; sinf : F -> F }.

(** Exact rationals as floats, for evaluating concrete runs; [(int)]
    truncates toward zero. *)
#[export] Instance q_float : FloatModel Q := {
  fl_lit n d := Qmake n d;
  fl_add := Qplus;
  fl_mul := Qmult;
  fl_div := Qdiv;
  fl_trunc q := Z.quot (Qnum q) (Zpos (Qden q))
}.

(** ** Float comparisons on exact rationals

    Where a component compares floats (the camera clamps, the range checks
    of the prompts) the floats are exact rationals and [a < b] is
    [qlt a b]. *)

Definition qlt (a b : Q) : bool := negb (Qle_bool b a).

Lemma qlt_spec a b : qlt a b = true <-> (a < b)%Q.
Proof.
  unfold qlt. rewrite negb_true_iff. split.
  - intros Hf. apply Qnot_le_lt. intros Hle. apply Qle_bool_iff in Hle. congruence.
  - intros Hlt. destruct (Qle_bool b a) eqn:E; [|done].
    apply Qle_bool_iff in E. exfalso. apply (Qlt_not_le _ _ Hlt E).
Qed.

(** Case analysis on the float comparisons of a goal. *)
Ltac qcase :=
  repeat match goal with
  | |- context [qlt ?a ?b] =>
      let E := fresh "E" in
      destruct (qlt a b) eqn:E; [apply qlt_spec in E|apply not_true_iff_false in E;
                                 rewrite qlt_spec in E; apply Qnot_lt_le in E]
  | |- context [Qle_bool ?a ?b] =>
      let E := fresh "E" in
      destruct (Qle_bool a b) eqn:E; [apply Qle_bool_iff in E|apply not_true_iff_false in E;
                                      rewrite Qle_bool_iff in E; apply Qnot_le_lt in E]
  end.
