(* ===== verification/Bresenham.v ===== *)
(** * Bresenham's line rasterizer ([bresenhamLine], algorithms.cpp)

    The loop state is the current cell [(x, y)] and the error accumulator
    [err]; [dx], [dy], [sx], [sy] and the end point are fixed before the
    loop.  One iteration emits the current cell, breaks at the end point,
    and otherwise takes the x-step and the y-step guarded by [e2 = 2*err].
    The loop is [run_loop] with fuel [|x1-x0| + |y1-y0| + 1], which is
    proved sufficient.  [setup_c], [step_c] and [loop_c] are the same
    code at C [int] width, every operation checked for signed overflow;
    within [bresenham_int_ok] (end points [int]s, spans at most
    [INT_MAX / 3], so that [e2 = 2*err] fits) they compute
    [bresenhamLine], and past it [e2] overflows.  Theorems: termination
    without overflow, endpoints, 8-connectivity, exact length, and the
    closed form of horizontal and vertical lines. *)

From S2P Require Import Prelude.

Open Scope Z_scope.
Open Scope city_scope.

Module Bresenham.

(** Values computed before the loop. *)
Record params := mkParams {
  x_end : Z; y_end : Z;   (** [x1], [y1] *)
  dx : Z;                 (** [abs(x1 - x0)] *)
  dy : Z;                 (** [-abs(y1 - y0)] *)
  sx : Z; sy : Z          (** [(x0 < x1) ? 1 : -1], [(y0 < y1) ? 1 : -1] *)
}.

(** The variables the loop updates. *)
Record state := mkState { x : Z; y : Z; err : Z }.

Definition setup (x0 y0 x1 y1 : Z) : params * state :=
  let dx := Z.abs (x1 - x0) in
  let sx := if x0 <? x1 then 1 else -1 in
  let dy := - Z.abs (y1 - y0) in
  let sy := if y0 <? y1 then 1 else -1 in
  (mkParams x1 y1 dx dy sx sy, mkState x0 y0 (dx + dy)).

(** [int e2 = 2*err; if (e2 >= dy) {...} if (e2 <= dx) {...}]: both tests
    read the same [e2]. *)
Definition step (p : params) (s : state) : state :=
  let e2 := 2 * err s in
  let s1 := if dy p <=? e2 then mkState (x s + sx p) (y s) (err s + dy p) else s in
  if e2 <=? dx p then mkState (x s1) (y s1 + sy p) (err s1 + dx p) else s1.

Definition at_end (p : params) (s : state) : bool :=
  (x s =? x_end p) && (y s =? y_end p).

(** One iteration of [while (true)]: [pts.emplace_back(x,y)], then
    [if (x==x1 && y==y1) break;], then the step. *)
Definition body (p : params) (s : state) : list cell * option state :=
  ([(x s, y s)], if at_end p s then None else Some (step p s)).

Definition fuel (x0 y0 x1 y1 : Z) : nat :=
  (Z.to_nat (Z.abs (x1 - x0) + Z.abs (y1 - y0)) + 1)%nat.

Definition bresenhamLine (x0 y0 x1 y1 : Z) : list cell :=
  let '(p, s) := setup x0 y0 x1 y1 in
  default [] (run_loop (fuel x0 y0 x1 y1) (body p) s).

(** *** The loop at C [int] width

    [dx], [dy], [err] and [e2] are [int]s, and the coordinates are [int]
    parameters: [chk v] is [v] when the operation that computes it stays
    in [int], and [None] (signed overflow, undefined behaviour) when it
    does not.  [abs(INT_MIN)] overflows as well. *)
Definition chk (v : Z) : option Z := if in_int32 v then Some v else None.

(** The set-up lines [dx = abs(x1 - x0)], [dy = -abs(y1 - y0)],
    [err = dx + dy], each operation checked. *)
Definition setup_c (x0 y0 x1 y1 : Z) : option (params * state) :=
  ddx ← chk (x1 - x0); adx ← chk (Z.abs ddx);
  ddy ← chk (y1 - y0); ady ← chk (Z.abs ddy);
  e ← chk (adx + - ady);
  Some (mkParams x1 y1 adx (- ady) (if x0 <? x1 then 1 else -1) (if y0 <? y1 then 1 else -1),
        mkState x0 y0 e).

(** The loop step with [e2 = 2*err], [err += dy; x += sx;] and
    [err += dx; y += sy;] checked in the order the code runs them. *)
Definition step_c (p : params) (s : state) : option state :=
  e2 ← chk (2 * err s);
  s1 ← (if dy p <=? e2 then
          e ← chk (err s + dy p); x' ← chk (x s + sx p); Some (mkState x' (y s) e)
        else Some s);
  if e2 <=? dx p then
    e ← chk (err s1 + dx p); y' ← chk (y s1 + sy p); Some (mkState (x s1) y' e)
  else Some s1.

(** The [while (true)] loop at [int] width, with fuel: [None] when the
    fuel runs out or an operation overflows. *)
Fixpoint loop_c (n : nat) (p : params) (s : state) : option (list cell) :=
  match n with
  | O => None
  | S n =>
      if at_end p s then Some [(x s, y s)] else
      s' ← step_c p s; r ← loop_c n p s'; Some ((x s, y s) :: r)
  end.

Definition bresenhamLine_c (n : nat) (x0 y0 x1 y1 : Z) : option (list cell) :=
  '(p, s) ← setup_c x0 y0 x1 y1; loop_c n p s.

(** The inputs for which no [int] operation of the code overflows: the
    end points are [int]s and each span is at most [INT_MAX / 3], which
    keeps [e2 = 2*err] within [[-3*|dy|, 3*|dx|]]. *)
Definition bresenham_int_ok (x0 y0 x1 y1 : Z) : bool :=
  in_int32 x0 && in_int32 y0 && in_int32 x1 && in_int32 y1 &&
  (3 * Z.abs (x1 - x0) <=? INT_MAX) && (3 * Z.abs (y1 - y0) <=? INT_MAX).

(** Two cells are 8-neighbours: distinct, and at most one apart on each
    axis. *)
Definition adj8 (c d : cell) : Prop :=
  Z.abs (c.1 - d.1) <= 1 /\ Z.abs (c.2 - d.2) <= 1 /\ c <> d.

Section Invariant.
Variables x0 y0 x1 y1 : Z.

Local Abbreviation p := (fst (setup x0 y0 x1 y1)).
Local Abbreviation s0 := (snd (setup x0 y0 x1 y1)).
Local Abbreviation DX := (Z.abs (x1 - x0)).
Local Abbreviation DY := (Z.abs (y1 - y0)).

(** The loop invariant, after [a] x-steps and [b] y-steps: the cell is
    [(x0 + sx*a, y0 + sy*b)], [err = DX*(1+b) - DY*(1+a)], and along
    the major axis every iteration steps. *)
Definition inv (a b : Z) (s : state) : Prop :=
  0 <= a <= DX /\ 0 <= b <= DY /\
  x s = x0 + sx p * a /\ y s = y0 + sy p * b /\
  err s = DX * (1 + b) - DY * (1 + a) /\
  (DY <= DX -> - DY <= 2 * err s) /\
  (DX <= DY -> 2 * err s <= DX) /\
  - 3 * DY <= 2 * err s <= 3 * DX.

Lemma sx_spec : (sx p = 1 \/ sx p = -1) /\ x1 = x0 + sx p * DX.
Proof. simpl. zcase; lia. Qed.

Lemma sy_spec : (sy p = 1 \/ sy p = -1) /\ y1 = y0 + sy p * DY.
Proof. simpl. zcase; lia. Qed.

Lemma inv_init : inv 0 0 s0.
Proof. unfold inv; simpl. lia. Qed.

Lemma inv_at_end a b s :
  inv a b s -> at_end p s = true <-> a = DX /\ b = DY.
Proof.
  intros (?&?&Hx&Hy&_). unfold at_end.
  change (x_end p) with x1. change (y_end p) with y1.
  destruct sx_spec as [Hsx Hx1], sy_spec as [Hsy Hy1].
  rewrite andb_true_iff, !Z.eqb_eq, Hx, Hy.
  destruct Hsx as [Hs|Hs]; rewrite Hs in *;
    destruct Hsy as [Ht|Ht]; rewrite Ht in *; lia.
Qed.

(** One iteration away from the end point keeps the invariant, moves
    each coordinate by at most one, moves at least one of them, and
    always moves the major one. *)
Lemma inv_step a b s :
  inv a b s -> at_end p s = false ->
  exists a' b', inv a' b' (step p s) /\
    a <= a' <= a + 1 /\ b <= b' <= b + 1 /\ a + b < a' + b' /\
    (DY <= DX -> a' = a + 1) /\ (DX <= DY -> b' = b + 1).
Proof.
  intros Hi Hend.
  assert (Hne : ~ (a = DX /\ b = DY)) by (rewrite <- inv_at_end by exact Hi; congruence).
  destruct Hi as (Ha&Hb&Hx&Hy&He&Hmx&Hmy&Hb3).
  assert (Hdx : dx p = DX) by reflexivity.
  assert (Hdy : dy p = - DY) by reflexivity.
  unfold step. rewrite Hdx, Hdy.
  destruct (Z.leb_spec (- DY) (2 * err s)) as [Hxs|Hxs];
    destruct (Z.leb_spec (2 * err s) DX) as [Hys|Hys]; cbn [x y err].
  - exists (a + 1), (b + 1). unfold inv; cbn [x y err].
    rewrite Hx, Hy, He in *. nia.
  - exists (a + 1), b. unfold inv; cbn [x y err].
    rewrite Hx, Hy, He in *. nia.
  - exists a, (b + 1). unfold inv; cbn [x y err].
    rewrite Hx, Hy, He in *. nia.
  - lia.
Qed.

(** The end points are [int]s and the spans at most [INT_MAX / 3]. *)
Lemma int_ok_spec :
  bresenham_int_ok x0 y0 x1 y1 = true ->
  - 2 ^ 31 <= x0 < 2 ^ 31 /\ - 2 ^ 31 <= y0 < 2 ^ 31 /\
  - 2 ^ 31 <= x1 < 2 ^ 31 /\ - 2 ^ 31 <= y1 < 2 ^ 31 /\
  3 * DX <= 2 ^ 31 - 1 /\ 3 * DY <= 2 ^ 31 - 1.
Proof.
  unfold bresenham_int_ok, INT_MAX. rewrite !andb_true_iff, !in_int32_spec, !Z.leb_le. lia.
Qed.

Lemma chk_ok v : - 2 ^ 31 <= v <= 2 ^ 31 - 1 -> chk v = Some v.
Proof. intros Hv. unfold chk. apply in_int32_spec in Hv as ->. done. Qed.

Lemma setup_c_ok :
  bresenham_int_ok x0 y0 x1 y1 = true -> setup_c x0 y0 x1 y1 = Some (setup x0 y0 x1 y1).
Proof.
  intros Hok%int_ok_spec. unfold setup_c, setup.
  repeat (rewrite chk_ok by lia; cbn [mbind option_bind]). done.
Qed.

(** Within the bound, no operation of an iteration overflows: the
    checked step is the step.  The new cell lies between the end points
    and [e2], [err + dy] and [err + dx] stay within [3] spans. *)
Lemma step_c_ok a b s :
  bresenham_int_ok x0 y0 x1 y1 = true -> inv a b s -> at_end p s = false ->
  step_c p s = Some (step p s).
Proof.
  intros Hok%int_ok_spec Hi Hend.
  destruct (inv_step a b s Hi Hend) as (a'&b'&(?&?&Hx'&Hy'&_)&_).
  destruct Hi as (?&?&Hx&Hy&_&_&_&?), sx_spec as [Hsx Hx1], sy_spec as [Hsy Hy1].
  assert (Hdx : dx p = DX) by reflexivity. assert (Hdy : dy p = - DY) by reflexivity.
  unfold step, step_c in *. rewrite Hdx, Hdy in *.
  rewrite (chk_ok (2 * err s)) by lia; cbn [mbind option_bind].
  destruct Hsx as [Hs|Hs], Hsy as [Ht|Ht]; rewrite ?Hs, ?Ht in *;
    destruct (Z.leb_spec (- DY) (2 * err s)), (Z.leb_spec (2 * err s) DX);
    cbn [x y err mbind option_bind] in *;
    repeat (rewrite chk_ok by lia; cbn [x y err mbind option_bind]); done.
Qed.

(** The checked loop runs as the mathematical one from an invariant
    state. *)
Lemma loop_c_run n a b s :
  bresenham_int_ok x0 y0 x1 y1 = true -> inv a b s ->
  loop_c n p s = run_loop n (body p) s.
Proof.
  intros Hok. revert a b s; induction n as [|n IH]; intros a b s Hi; [done|].
  rewrite run_loop_unfold. cbn [loop_c body fst snd].
  destruct (at_end p s) eqn:He; [done|].
  destruct (inv_step a b s Hi He) as (a'&b'&Hi'&_).
  rewrite (step_c_ok a b s Hok Hi He). cbn [mbind option_bind].
  rewrite (IH a' b' _ Hi'). by destruct (run_loop n (body p) (step p s)).
Qed.

(** The distance still to cover; it decreases at every iteration. *)
Definition measure (s : state) : nat :=
  Z.to_nat (DX + DY - sx p * (x s - x0) - sy p * (y s - y0)).

Lemma measure_inv a b s : inv a b s -> measure s = Z.to_nat (DX - a + (DY - b)).
Proof.
  intros (_&_&Hx&Hy&_). unfold measure. rewrite Hx, Hy.
  destruct sx_spec as [[Hs|Hs] _], sy_spec as [[Ht|Ht] _]; rewrite Hs, Ht;
    f_equal; lia.
Qed.

Lemma body_decreases s s' :
  (exists a b, inv a b s) -> snd (body p s) = Some s' ->
  (exists a b, inv a b s') /\ (measure s' < measure s)%nat.
Proof.
  intros (a&b&Hi) Hb.
  change (snd (body p s)) with (if at_end p s then None else Some (step p s)) in Hb.
  destruct (at_end p s) eqn:He; [done|].
  assert (s' = step p s) as -> by congruence.
  destruct (inv_step a b s Hi He) as (a'&b'&Hi'&?&?&?&_).
  split; [eauto|]. rewrite (measure_inv _ _ _ Hi), (measure_inv _ _ _ Hi').
  destruct Hi as (?&?&_), Hi' as (?&?&_). lia.
Qed.

Lemma run_some : exists l, run_loop (fuel x0 y0 x1 y1) (body p) s0 = Some l.
Proof.
  assert (Hi : exists a b, inv a b s0) by (exists 0, 0; apply inv_init).
  apply (run_loop_terminates (body p) _ measure body_decreases _ s0 Hi).
  rewrite (measure_inv 0 0) by apply inv_init. unfold fuel. lia.
Qed.

Lemma bresenhamLine_run :
  run_loop (fuel x0 y0 x1 y1) (body p) s0 = Some (bresenhamLine x0 y0 x1 y1).
Proof.
  destruct run_some as [l Hl]. unfold bresenhamLine.
  destruct (setup x0 y0 x1 y1) as [p' s'] eqn:E. simpl in Hl. rewrite Hl. done.
Qed.

(** The shape of what the loop emits from an invariant state: it starts
    at the current cell, ends at [(x1, y1)], moves between 8-neighbours,
    and makes one iteration per cell of the major axis. *)
(** The two outcomes of an iteration of [body]. *)
Lemma run_body_inv n s l :
  run_loop n (body p) s = Some l ->
  (at_end p s = true /\ l = [(x s, y s)]) \/
  (at_end p s = false /\ exists n' r, n = S n' /\
     run_loop n' (body p) (step p s) = Some r /\ l = (x s, y s) :: r).
Proof.
  intros H. apply run_loop_Some_inv in H as (n'&->&[[Hs Hl]|(s'&r&Hs&Hr&Hl)]);
    change (snd (body p s)) with (if at_end p s then None else Some (step p s)) in Hs;
    change (fst (body p s)) with [(x s, y s)] in Hl;
    destruct (at_end p s); try discriminate; [by left|].
  right. split; [done|]. exists n', r. assert (s' = step p s) as -> by congruence. done.
Qed.

(** The shape of what the loop emits from an invariant state: it starts
    at the current cell, ends at [(x1, y1)], moves between 8-neighbours,
    and makes one iteration per cell of the major axis. *)
Lemma run_shape n a b s l :
  inv a b s -> run_loop n (body p) s = Some l ->
  head l = Some (x s, y s) /\ last l = Some (x1, y1) /\
  consecutive adj8 l /\
  (DY <= DX -> length l = (Z.to_nat (DX - a) + 1)%nat) /\
  (DX <= DY -> length l = (Z.to_nat (DY - b) + 1)%nat).
Proof.
  revert a b s l; induction n as [|n IH]; intros a b s l Hi Hr; [done|].
  destruct (run_body_inv _ _ _ Hr) as [[He ->]|[He (n'&l'&[= <-]&Er&->)]].
  - apply (inv_at_end a b s Hi) in He as [-> ->].
    destruct Hi as (_&_&Hx&Hy&_), sx_spec as [_ Hx1], sy_spec as [_ Hy1].
    cbn [head last consecutive length]. rewrite Hx, Hy, <- Hx1, <- Hy1.
    repeat split; intros; try done; lia.
  - destruct (inv_step a b s Hi He) as (a'&b'&Hi'&Ha'&Hb'&Hab&Hmx&Hmy).
    destruct (IH a' b' _ l' Hi' Er) as (Hh&Hl&Hc&Hlx&Hly).
    destruct l' as [|c l']; [done|]. cbn [head] in Hh.
    assert (c = (x (step p s), y (step p s))) as -> by congruence.
    split; [done|]. split; [done|]. split.
    + split; [|done].
      destruct Hi as (_&_&Hx&Hy&_), Hi' as (_&_&Hx'&Hy'&_).
      unfold adj8. rewrite Hx, Hy, Hx', Hy'; cbn [fst snd].
      destruct sx_spec as [[Hs|Hs] _], sy_spec as [[Ht|Ht] _]; rewrite Hs, Ht;
        repeat split; try lia; intros [=]; lia.
    + cbn [length] in Hlx, Hly |- *. destruct Hi as (?&?&_), Hi' as (?&?&_).
      split; intros Hm; [rewrite Hlx by done | rewrite Hly by done];
        [rewrite (Hmx Hm) | rewrite (Hmy Hm)]; lia.
Qed.

(** Horizontal segments: the y-step never fires and every iteration
    moves one cell along x. *)
Lemma run_horizontal n a s l :
  DY = 0 -> inv a 0 s -> run_loop n (body p) s = Some l ->
  l = map (fun k => (x0 + sx p * k, y0)) (seqZ a (DX - a + 1)).
Proof.
  intros HY. revert a s l; induction n as [|n IH]; intros a s l Hi Hr; [done|].
  pose proof Hi as (Ha&_&Hx&Hy&_).
  destruct (run_body_inv _ _ _ Hr) as [[He ->]|[He (n'&l'&[= <-]&Er&->)]].
  - apply (inv_at_end a 0 s Hi) in He as [-> _].
    rewrite seqZ_cons, seqZ_nil by lia. cbn [map]. rewrite Hx, Hy. f_equal; f_equal; lia.
  - destruct (inv_step a 0 s Hi He) as (a'&b'&Hi'&_&Hb'&_&Hmx&_).
    assert (b' = 0) as -> by (destruct Hi' as (_&?&_); lia).
    rewrite (Hmx ltac:(lia)) in Hi'.
    assert (a < DX) by (destruct Hi' as (?&_); lia).
    rewrite (IH _ _ _ Hi' Er), (seqZ_cons a) by lia. cbn [map].
    rewrite Hx, Hy. do 3 f_equal; lia.
Qed.

(** Vertical segments, symmetrically. *)
Lemma run_vertical n b s l :
  DX = 0 -> inv 0 b s -> run_loop n (body p) s = Some l ->
  l = map (fun k => (x0, y0 + sy p * k)) (seqZ b (DY - b + 1)).
Proof.
  intros HX. revert b s l; induction n as [|n IH]; intros b s l Hi Hr; [done|].
  pose proof Hi as (_&Hb&Hx&Hy&_).
  destruct (run_body_inv _ _ _ Hr) as [[He ->]|[He (n'&l'&[= <-]&Er&->)]].
  - apply (inv_at_end 0 b s Hi) in He as [_ ->].
    rewrite seqZ_cons, seqZ_nil by lia. cbn [map]. rewrite Hx, Hy. f_equal; f_equal; lia.
  - destruct (inv_step 0 b s Hi He) as (a'&b'&Hi'&Ha'&_&_&_&Hmy).
    assert (a' = 0) as -> by (destruct Hi' as (?&_); lia).
    rewrite (Hmy ltac:(lia)) in Hi'.
    assert (b < DY) by (destruct Hi' as (_&?&_); lia).
    rewrite (IH _ _ _ Hi' Er), (seqZ_cons b) by lia. cbn [map].
    rewrite Hx, Hy. do 3 f_equal; lia.
Qed.

(** Every emitted cell lies between its start and end point. *)
Lemma run_in_box n s l :
  (exists a b, inv a b s) -> run_loop n (body p) s = Some l ->
  Forall (fun c => Z.min x0 x1 <= c.1 <= Z.max x0 x1 /\
                   Z.min y0 y1 <= c.2 <= Z.max y0 y1) l.
Proof.
  apply (run_loop_Forall (body p) _ measure body_decreases).
  intros s' (a&b&(?&?&Hx&Hy&_)). apply Forall_singleton. cbn [fst snd].
  rewrite Hx, Hy. destruct sx_spec as [Hsx Hx1], sy_spec as [Hsy Hy1].
  destruct Hsx as [Hs|Hs]; rewrite Hs in *; destruct Hsy as [Ht|Ht]; rewrite Ht in *; lia.
Qed.
End Invariant.

(** ** Properties of [bresenhamLine] *)

(** The loop at [int] width computes [bresenhamLine] from fuel
    [|x1-x0| + |y1-y0| + 1] on, when the inputs are in the bound. *)
Lemma bresenhamLine_c_eq x0 y0 x1 y1 n :
  bresenham_int_ok x0 y0 x1 y1 = true -> (fuel x0 y0 x1 y1 <= n)%nat ->
  bresenhamLine_c n x0 y0 x1 y1 = Some (bresenhamLine x0 y0 x1 y1).
Proof.
  intros Hok Hn. unfold bresenhamLine_c. rewrite setup_c_ok by exact Hok.
  cbn [mbind option_bind].
  rewrite (surjective_pairing (setup x0 y0 x1 y1)).
  rewrite (loop_c_run x0 y0 x1 y1 n 0 0 _ Hok (inv_init x0 y0 x1 y1)).
  eapply run_loop_mono; [apply bresenhamLine_run | exact Hn].
Qed.

(** [C25] The [while (true)] loop of [bresenhamLine], run at C [int]
    width, terminates without signed overflow: when the end points are
    [int]s and each span is at most [INT_MAX / 3], every fuel from
    [|x1-x0| + |y1-y0| + 1] on gives a result, and always the segment
    [bresenhamLine]. *)
Theorem bresenhamLine_terminates x0 y0 x1 y1 n :
  bresenham_int_ok x0 y0 x1 y1 = true -> (fuel x0 y0 x1 y1 <= n)%nat ->
  bresenhamLine_c n x0 y0 x1 y1 = Some (bresenhamLine x0 y0 x1 y1).
Proof. apply bresenhamLine_c_eq. Qed.

(** The rasterized segment starts at [(x0, y0)] and ends at
    [(x1, y1)]. *)
Theorem bresenhamLine_endpoints x0 y0 x1 y1 :
  head (bresenhamLine x0 y0 x1 y1) = Some (x0, y0) /\
  last (bresenhamLine x0 y0 x1 y1) = Some (x1, y1).
Proof.
  destruct (run_shape x0 y0 x1 y1 _ 0 0 _ _ (inv_init x0 y0 x1 y1)
              (bresenhamLine_run x0 y0 x1 y1)) as (Hh&Hl&_).
  split; [exact Hh | exact Hl].
Qed.

(** Consecutive cells of the segment are distinct 8-neighbours: each
    step moves by at most one cell on each axis. *)
Lemma bresenhamLine_adj8 x0 y0 x1 y1 :
  consecutive adj8 (bresenhamLine x0 y0 x1 y1).
Proof.
  apply (run_shape x0 y0 x1 y1 _ 0 0 _ _ (inv_init x0 y0 x1 y1)
           (bresenhamLine_run x0 y0 x1 y1)).
Qed.

(** [C26] Within the [int] bound, the code's loop emits a path of
    distinct 8-neighbours from [(x0, y0)] to [(x1, y1)]. *)
Theorem bresenhamLine_connected x0 y0 x1 y1 :
  bresenham_int_ok x0 y0 x1 y1 = true ->
  exists l, bresenhamLine_c (fuel x0 y0 x1 y1) x0 y0 x1 y1 = Some l /\
    head l = Some (x0, y0) /\ last l = Some (x1, y1) /\ consecutive adj8 l.
Proof.
  intros Hok. exists (bresenhamLine x0 y0 x1 y1).
  rewrite bresenhamLine_c_eq by done.
  destruct (run_shape x0 y0 x1 y1 _ 0 0 _ _ (inv_init x0 y0 x1 y1)
              (bresenhamLine_run x0 y0 x1 y1)) as (Hh&Hl&Hc&_).
  done.
Qed.

(** The segment has exactly [max |x1-x0| |y1-y0| + 1] cells: one per
    cell of the major axis, so no cell is repeated. *)
Theorem bresenhamLine_length x0 y0 x1 y1 :
  length (bresenhamLine x0 y0 x1 y1) =
    (Z.to_nat (Z.max (Z.abs (x1 - x0)) (Z.abs (y1 - y0))) + 1)%nat.
Proof.
  destruct (run_shape x0 y0 x1 y1 _ 0 0 _ _ (inv_init x0 y0 x1 y1)
              (bresenhamLine_run x0 y0 x1 y1)) as (_&_&_&Hx&Hy).
  destruct (Z.le_ge_cases (Z.abs (y1 - y0)) (Z.abs (x1 - x0))) as [H|H].
  - rewrite Hx, Z.max_l by lia. f_equal. f_equal. lia.
  - rewrite Hy, Z.max_r by lia. f_equal. f_equal. lia.
Qed.

(** A horizontal segment is the row of cells from [x0] to [x1], in
    order. *)
Theorem bresenhamLine_horizontal x0 x1 y :
  bresenhamLine x0 y x1 y =
    map (fun k => (x0 + (if x0 <? x1 then 1 else -1) * k, y))
        (seqZ 0 (Z.abs (x1 - x0) + 1)).
Proof.
  rewrite (run_horizontal x0 y x1 y _ 0 _ _ ltac:(lia) (inv_init x0 y x1 y)
             (bresenhamLine_run x0 y x1 y)).
  f_equal. f_equal. lia.
Qed.

(** A vertical segment is the column of cells from [y0] to [y1], in
    order. *)
Theorem bresenhamLine_vertical x y0 y1 :
  bresenhamLine x y0 x y1 =
    map (fun k => (x, y0 + (if y0 <? y1 then 1 else -1) * k))
        (seqZ 0 (Z.abs (y1 - y0) + 1)).
Proof.
  rewrite (run_vertical x y0 x y1 _ 0 _ _ ltac:(lia) (inv_init x y0 x y1)
             (bresenhamLine_run x y0 x y1)).
  f_equal. f_equal. lia.
Qed.

(** Every cell of the segment lies in the bounding box of its end
    points. *)
Theorem bresenhamLine_in_box x0 y0 x1 y1 :
  Forall (fun c => Z.min x0 x1 <= c.1 <= Z.max x0 x1 /\
                   Z.min y0 y1 <= c.2 <= Z.max y0 y1) (bresenhamLine x0 y0 x1 y1).
Proof.
  apply (run_in_box x0 y0 x1 y1 _ _ _ ltac:(exists 0, 0; apply inv_init)
           (bresenhamLine_run x0 y0 x1 y1)).
Qed.

Lemma bresenhamLine_terminates_witness :
  bresenham_int_ok 0 0 5 2 = true /\ (fuel 0 0 5 2 <= 20)%nat /\
  bresenhamLine_c 20 0 0 5 2 = Some (bresenhamLine 0 0 5 2).
Proof.
  split; [reflexivity|]. split; [vm_compute; lia|].
  apply bresenhamLine_terminates; [reflexivity | vm_compute; lia].
Defined.

Lemma bresenhamLine_connected_witness :
  bresenham_int_ok (-3) 7 4 (-1) = true /\
  exists l, bresenhamLine_c (fuel (-3) 7 4 (-1)) (-3) 7 4 (-1) = Some l /\
    head l = Some (-3, 7) /\ last l = Some (4, -1) /\ consecutive adj8 l.
Proof. split; [reflexivity | apply bresenhamLine_connected; reflexivity]. Defined.

(** Past the bound the code overflows: for a horizontal span of [2^30]
    cells, [err = dx = 2^30] and the first [e2 = 2*err] is [2^31], out of
    [int]. *)
Example bresenhamLine_c_overflow :
  bresenhamLine_c 10 0 0 (2 ^ 30) 0 = None.
Proof. vm_compute. reflexivity. Qed.

Example bresenhamLine_0_0_5_2 :
  bresenhamLine 0 0 5 2 = [(0, 0); (1, 0); (2, 1); (3, 1); (4, 2); (5, 2)].
Proof. reflexivity. Qed.

Example bresenhamLine_steep :
  bresenhamLine 2 3 0 (-2) = [(2, 3); (2, 2); (1, 1); (1, 0); (0, -1); (0, -2)].
Proof. reflexivity. Qed.

End Bresenham.
