(* ===== verification/MidpointCircle.v ===== *)
(** * The midpoint circle rasterizer ([midpointCircle], algorithms.cpp)

    The loop walks the octant [x >= y >= 0] from [(r, 0)], emitting the
    eight mirror images of each point, and decides with the accumulator
    [err] whether [x] decreases.  The shifts [r << 1] and [err << 1] are
    [Z.shiftl] (their C++20 meaning; on a negative [err] they are
    undefined behaviour in earlier standards).  The loop is [run_loop] with
    fuel [r + 2].  Theorems: the loop invariant, termination, the distance
    tolerance of the spec, the cardinal points, the eight-fold symmetry and
    the output size. *)

From S2P Require Import Prelude.

Open Scope Z_scope.
Open Scope city_scope.

Module MidpointCircle.

Record state := mkState { x : Z; y : Z; dx : Z; dy : Z; err : Z }.

(** [int x = r; int y = 0; int dx = 1 - (r << 1); int dy = 0; int err = 0;] *)
Definition init (r : Z) : state := mkState r 0 (1 - Z.shiftl r 1) 0 0.

(** The eight [pts.emplace_back] of one iteration, in the code's order. *)
Definition octants (cx cy : Z) (s : state) : list cell :=
  [(cx + x s, cy + y s); (cx + y s, cy + x s); (cx - y s, cy + x s);
   (cx - x s, cy + y s); (cx - x s, cy - y s); (cx - y s, cy - x s);
   (cx + y s, cy - x s); (cx + x s, cy - y s)].

(** [y++; err += dy; dy += 2; if ((err << 1) + dx > 0) { x--; err += dx; dx += 2; }] *)
Definition step (s : state) : state :=
  let y' := y s + 1 in
  let err' := err s + dy s in
  let dy' := dy s + 2 in
  if 0 <? Z.shiftl err' 1 + dx s
  then mkState (x s - 1) y' (dx s + 2) dy' (err' + dx s)
  else mkState (x s) y' (dx s) dy' err'.

(** One test of [while (x >= y)] and, when it holds, one iteration. *)
Definition body (cx cy : Z) (s : state) : list cell * option state :=
  if y s <=? x s then (octants cx cy s, Some (step s)) else ([], None).

Definition fuel (r : Z) : nat := (Z.to_nat r + 2)%nat.

Definition midpointCircle (cx cy r : Z) : list cell :=
  default [] (run_loop (fuel r) (body cx cy) (init r)).

Section Invariant.
Variables cx cy r : Z.

(** [dx] and [dy] track [x] and [y]; [err] is [x^2 + y^2 - y - r^2]; and
    the two midpoint tests of the last decision bracket the circle. *)
Definition inv (s : state) : Prop :=
  dx s = 1 - 2 * x s /\ dy s = 2 * y s /\
  err s = x s * x s + y s * y s - y s - r * r /\
  0 <= y s /\ x s <= r /\ (y s = 0 -> x s = r) /\
  (1 <= y s -> y s <= x s ->
     (2 * x s - 1) * (2 * x s - 1) + (2 * y s - 1) * (2 * y s - 1) <= 4 * (r * r)) /\
  (1 <= y s ->
     4 * (r * r) < (2 * x s + 1) * (2 * x s + 1) + (2 * y s - 1) * (2 * y s - 1)).

Lemma circle_inv_init : inv (init r).
Proof. unfold inv, init; cbn [x y dx dy err]. rewrite Z.shiftl_mul_pow2 by lia. lia. Qed.

Lemma circle_inv_step s : inv s -> y s <= x s -> inv (step s).
Proof.
  intros (Hdx&Hdy&He&Hy0&Hxr&Hy00&H1&H2) Hxy. unfold step.
  rewrite Z.shiftl_mul_pow2 by lia. rewrite Hdx, Hdy, He.
  set (X := x s) in *. set (Y := y s) in *.
  rewrite Z.pow_1_r.
  (* The decision compares the midpoint [(X - 1/2, Y + 1/2)] with the circle. *)
  assert (HD : 2 * ((X * X + Y * Y - Y - r * r + 2 * Y) * 2 + (1 - 2 * X)) =
               (2 * X - 1) * (2 * X - 1) + (2 * Y + 1) * (2 * Y + 1) - 4 * (r * r)) by ring.
  assert (Hr : 0 <= r) by lia.
  destruct (Z.ltb_spec 0 ((X * X + Y * Y - Y - r * r + 2 * Y) * 2 + (1 - 2 * X))) as [Hd|Hd];
    unfold inv; cbn [x y dx dy err]; fold X Y;
    (destruct (Z.eq_dec Y 0) as [Hz|Hz];
     [rewrite (Hy00 Hz) in *; rewrite Hz in *|]);
    repeat split; intros; nia.
Qed.

(** Every emitted octant point lies between the circles of radius
    [r - 1] and [r + 1]. *)
Lemma inv_distance s :
  1 <= r -> inv s -> y s <= x s ->
  (r - 1) * (r - 1) <= x s * x s + y s * y s <= (r + 1) * (r + 1).
Proof.
  intros Hr (_&_&_&Hy0&Hxr&Hy00&H1&H2) Hxy.
  destruct (Z.eq_dec (y s) 0) as [Hz|Hz].
  - pose proof (Hy00 Hz) as Hx. rewrite Hx, Hz in *. nia.
  - specialize (H1 ltac:(lia) Hxy). specialize (H2 ltac:(lia)). nia.
Qed.

Definition measure (s : state) : nat := Z.to_nat (r + 1 - y s).

Lemma circle_body_decreases s s' :
  inv s -> snd (body cx cy s) = Some s' -> inv s' /\ (measure s' < measure s)%nat.
Proof.
  intros Hi Hb. unfold body in Hb.
  destruct (Z.leb_spec (y s) (x s)) as [Hxy|]; [|done].
  cbn [snd] in Hb. assert (s' = step s) as -> by congruence.
  split; [by apply circle_inv_step|].
  unfold measure. destruct Hi as (_&_&_&?&?&_).
  assert (y (step s) = y s + 1) as -> by (unfold step; destruct (_ <? _); reflexivity).
  lia.
Qed.

Lemma circle_run_some : exists l, run_loop (fuel r) (body cx cy) (init r) = Some l.
Proof.
  apply (run_loop_terminates (body cx cy) inv measure circle_body_decreases _ _ circle_inv_init).
  unfold measure, fuel, init; cbn [y]. lia.
Qed.

Lemma midpointCircle_run :
  run_loop (fuel r) (body cx cy) (init r) = Some (midpointCircle cx cy r).
Proof. destruct circle_run_some as [l Hl]. unfold midpointCircle. rewrite Hl. done. Qed.

(** Each iteration that emits anything emits eight cells and uses one
    unit of the measure. *)
Lemma run_length n s l :
  inv s -> run_loop n (body cx cy) s = Some l ->
  exists m, length l = (8 * m)%nat /\ (m <= measure s)%nat.
Proof.
  revert s l; induction n as [|n IH]; intros s l Hi Hr; [done|].
  apply run_loop_Some_inv in Hr as (n'&[= <-]&[[Hs ->]|(s'&l'&Hs&Hr&->)]);
    unfold body in *; destruct (Z.leb_spec (y s) (x s)); cbn [fst snd] in *; try done.
  - exists 0%nat. cbn [length]. lia.
  - assert (s' = step s) as -> by congruence.
    destruct (IH _ _ (circle_inv_step s Hi ltac:(done)) Hr) as (m&Hm&Hle).
    exists (S m). rewrite length_app, Hm. cbn [octants length]. split; [lia|].
    unfold measure in *. destruct Hi as (_&_&_&?&?&_).
    assert (y (step s) = y s + 1) as Hy by (unfold step; destruct (_ <? _); reflexivity).
    rewrite Hy in Hle. lia.
Qed.
End Invariant.

(** ** Properties of [midpointCircle] *)

(** The loop of [midpointCircle] terminates: from fuel [r + 2] on it
    returns, and always the same list. *)
Theorem midpointCircle_terminates cx cy r n :
  (fuel r <= n)%nat ->
  run_loop n (body cx cy) (init r) = Some (midpointCircle cx cy r).
Proof. intros Hn. eapply run_loop_mono; [apply midpointCircle_run | exact Hn]. Qed.

(** For a radius [r >= 1], every emitted cell lies between the
    circles of radius [r - 1] and [r + 1] around the center. *)
Theorem midpointCircle_distance cx cy r :
  1 <= r ->
  Forall (fun c => (r - 1) * (r - 1) <= (c.1 - cx) * (c.1 - cx) + (c.2 - cy) * (c.2 - cy)
                   <= (r + 1) * (r + 1))
         (midpointCircle cx cy r).
Proof.
  intros Hr.
  refine (run_loop_Forall (body cx cy) (inv r) (measure r) (circle_body_decreases cx cy r)
            _ _ _ _ _ (circle_inv_init r) (midpointCircle_run cx cy r)).
  intros s Hi. unfold body. destruct (Z.leb_spec (y s) (x s)) as [Hxy|]; [|done].
  pose proof (inv_distance r s Hr Hi Hxy) as Hd. cbn [fst octants].
  repeat constructor; cbn [fst snd]; nia.
Qed.

(** For [r >= 0] the four cardinal points [(cx +- r, cy)] and
    [(cx, cy +- r)] are emitted. *)
Theorem midpointCircle_cardinal cx cy r :
  0 <= r ->
  (cx + r, cy) ∈ midpointCircle cx cy r /\ (cx - r, cy) ∈ midpointCircle cx cy r /\
  (cx, cy + r) ∈ midpointCircle cx cy r /\ (cx, cy - r) ∈ midpointCircle cx cy r.
Proof.
  intros Hr. pose proof (midpointCircle_run cx cy r) as Hrun.
  apply run_loop_Some_inv in Hrun as (n'&_&[[Hs _]|(s'&l'&_&_&->)]).
  - unfold body in Hs. destruct (Z.leb_spec (y (init r)) (x (init r))); cbn in *; [done|lia].
  - unfold body. destruct (Z.leb_spec (y (init r)) (x (init r))) as [_|Hc];
      [|cbn in Hc; lia].
    cbn [fst]. unfold octants, init; cbn [x y]. rewrite ?Z.add_0_r, ?Z.sub_0_r.
    repeat split; apply elem_of_app; left; solve_mem.
Qed.

(** The emitted cells are closed under the reflection
    [x -> 2 cx - x] and under the diagonal swap around the center, hence
    under all eight symmetries of the square. *)
Theorem midpointCircle_symmetric cx cy r c :
  c ∈ midpointCircle cx cy r ->
  (2 * cx - c.1, c.2) ∈ midpointCircle cx cy r /\
  (cx + (c.2 - cy), cy + (c.1 - cx)) ∈ midpointCircle cx cy r.
Proof.
  intros Hc. pose proof (midpointCircle_run cx cy r) as Hrun.
  split; [revert c Hc | revert c Hc]; eapply run_loop_closed; try exact Hrun;
    intros s c; unfold body; destruct (_ <=? _); cbn [fst];
    try (intros Hc; by apply elem_of_nil in Hc);
    intros Hc; unfold octants in Hc;
    repeat (apply elem_of_cons in Hc as [Hc|Hc]); try (by apply elem_of_nil in Hc);
    subst c; cbn [fst snd]; unfold octants; solve_mem.
Qed.

(** The output has [8 k] cells for some [k <= r + 1]: eight per
    octant point, repeated cells on the octant boundaries kept; a negative
    radius emits nothing. *)
Theorem midpointCircle_size cx cy r :
  exists k, length (midpointCircle cx cy r) = (8 * k)%nat /\
            (k <= Z.to_nat (r + 1))%nat /\ (r < 0 -> k = 0%nat).
Proof.
  destruct (run_length cx cy r _ _ _ (circle_inv_init r) (midpointCircle_run cx cy r))
    as (m&Hm&Hle).
  exists m. unfold measure, init in Hle; cbn [y] in Hle. split; [done|]. split; [lia|].
  intros Hr. assert (Z.to_nat (r + 1 - 0) = 0%nat) as E by lia. lia.
Qed.

Lemma midpointCircle_terminates_witness :
  (fuel 5 <= 10)%nat /\ run_loop 10 (body 2 (-1)) (init 5) = Some (midpointCircle 2 (-1) 5).
Proof. split; [vm_compute; lia | apply midpointCircle_terminates; vm_compute; lia]. Defined.

Lemma midpointCircle_distance_witness :
  1 <= 4 /\
  Forall (fun c => (4 - 1) * (4 - 1) <= (c.1 - 3) * (c.1 - 3) + (c.2 - 3) * (c.2 - 3)
                   <= (4 + 1) * (4 + 1))
         (midpointCircle 3 3 4).
Proof. split; [lia | apply midpointCircle_distance; lia]. Defined.

Lemma midpointCircle_cardinal_witness :
  0 <= 3 /\
  (10 + 3, 7) ∈ midpointCircle 10 7 3 /\ (10 - 3, 7) ∈ midpointCircle 10 7 3 /\
  (10, 7 + 3) ∈ midpointCircle 10 7 3 /\ (10, 7 - 3) ∈ midpointCircle 10 7 3.
Proof. split; [lia | apply midpointCircle_cardinal; lia]. Defined.

Lemma midpointCircle_symmetric_witness :
  (1, 0) ∈ midpointCircle 0 0 1 /\
  (2 * 0 - 1, 0) ∈ midpointCircle 0 0 1 /\
  (0 + (0 - 0), 0 + (1 - 0)) ∈ midpointCircle 0 0 1.
Proof.
  assert (H : (1, 0) ∈ midpointCircle 0 0 1) by (vm_compute; left).
  split; [exact H | exact (midpointCircle_symmetric 0 0 1 (1, 0) H)].
Defined.

(** Radius [0] emits the center eight times: distance [0], outside
    the band [[(r-1)^2, (r+1)^2] = [1, 1]] that the spec states for every
    [r >= 0]. *)
Theorem midpointCircle_radius0 cx cy :
  midpointCircle cx cy 0 = repeat (cx, cy) 8.
Proof.
  unfold midpointCircle. simpl. rewrite ?Z.add_0_r, ?Z.sub_0_r. reflexivity.
Qed.

(** Radius 1: the octant points [(1, 0)] and [(1, 1)], each mirrored eight
    ways, duplicates kept. *)
Example midpointCircle_r1 :
  midpointCircle 0 0 1 =
    [(1, 0); (0, 1); (0, 1); (-1, 0); (-1, 0); (0, -1); (0, -1); (1, 0);
     (1, 1); (1, 1); (-1, 1); (-1, 1); (-1, -1); (-1, -1); (1, -1); (1, -1)].
Proof. reflexivity. Qed.

End MidpointCircle.
