(* ===== verification/Grid.v ===== *)
(** * The occupancy grid ([isGridCellFree], [markGridCells], city_scene.cpp)

    [CityScene] keeps a [gridSize x gridSize] matrix [occupiedGrid] of
    booleans.  The layout only allocates it, reads [occupiedGrid[i][j]] and
    writes [occupiedGrid[i][j] = true]; the class [Occupancy] is that
    interface, with its laws in [OccupancyLaws].  [isGridCellFree] and
    [markGridCells] are written once against the interface.  The instance
    [vgrid_occupancy] is the [vector<vector<bool>>] of the code, a list of
    rows.  The abstract specification is the set of reserved cells
    ([gset cell]); the theorems show that both operations refine it, that
    reservation is idempotent on the representation itself, and that the
    free test fails closed at the borders. *)

From S2P Require Import Prelude.
From stdpp Require Import gmap.

Open Scope Z_scope.
Open Scope city_scope.
#[local] Set Warnings "-clear-no-such-hyp".

Module Grid.

(** ** The interface *)

Class Occupancy (G : Type) := {
  grid_alloc : Z -> G;             (** [vector<vector<bool>>(n, vector<bool>(n, false))] *)
  grid_get : G -> Z -> Z -> bool;  (** [occupiedGrid[i][j]] *)
  grid_set : G -> Z -> Z -> G      (** [occupiedGrid[i][j] = true] *)
}.

(** [i >= 0 && i < gridSize && j >= 0 && j < gridSize] *)
Definition in_bounds (gridSize i j : Z) : bool :=
  (0 <=? i) && (i <? gridSize) && (0 <=? j) && (j <? gridSize).

Class OccupancyLaws (G : Type) `{Occupancy G} := {
  grid_wf : Z -> G -> Prop;
  grid_alloc_wf n : 0 <= n -> grid_wf n (grid_alloc n);
  grid_alloc_get n i j : 0 <= n -> in_bounds n i j = true -> grid_get (grid_alloc n) i j = false;
  grid_set_wf n g i j : grid_wf n g -> in_bounds n i j = true -> grid_wf n (grid_set g i j);
  grid_get_set n g i j a b :
    grid_wf n g -> in_bounds n i j = true -> in_bounds n a b = true ->
    grid_get (grid_set g i j) a b = bool_decide ((a, b) = (i, j)) || grid_get g a b;
  grid_set_id n g i j :
    grid_wf n g -> in_bounds n i j = true -> grid_get g i j = true -> grid_set g i j = g
}.

(** ** The two operations, against the interface *)

Section Operations.
Context `{Occupancy G}.

(** The cells [(i, j)] the two loops of either operation visit, in
    order: [i] from [x - size/2] to [x + size/2], [j] likewise around
    [z]; [/] is C's truncating division. *)
Definition footprint (x z size : Z) : list cell :=
  list_prod ((x - size ÷ 2) ..= (x + size ÷ 2)) ((z - size ÷ 2) ..= (z + size ÷ 2)).

(** [if (i < 0 || i >= gridSize || j < 0 || j >= gridSize ||
    occupiedGrid[i][j]) return false;], inside both loops. *)
Definition isGridCellFree (gridSize : Z) (g : G) (x z size : Z) : bool :=
  forallb (fun i =>
    forallb (fun j =>
      negb ((i <? 0) || (gridSize <=? i) || (j <? 0) || (gridSize <=? j) ||
            grid_get g i j))
      ((z - size ÷ 2) ..= (z + size ÷ 2)))
    ((x - size ÷ 2) ..= (x + size ÷ 2)).

(** The inner loop of [markGridCells] for row [i]. *)
Definition mark_row (gridSize i : Z) (g : G) (js : list Z) : G :=
  fold_left (fun g j => if in_bounds gridSize i j then grid_set g i j else g) js g.

Definition markGridCells (gridSize : Z) (g : G) (x z size : Z) : G :=
  fold_left (fun g i => mark_row gridSize i g ((z - size ÷ 2) ..= (z + size ÷ 2)))
    ((x - size ÷ 2) ..= (x + size ÷ 2)) g.
End Operations.

(** ** The [vector<vector<bool>>] implementation *)

(** Row [i] is the [i]-th list.  Reading outside the rows is undefined in
    the code; both operations only read after their bounds test, and the
    model returns [false] there. *)
#[export] Instance vgrid_occupancy : Occupancy (list (list bool)) := {
  grid_alloc n := replicate (Z.to_nat n) (replicate (Z.to_nat n) false);
  grid_get g i j := default false (g !! Z.to_nat i ≫= fun row => row !! Z.to_nat j);
  grid_set g i j := alter (fun row => <[Z.to_nat j := true]> row) (Z.to_nat i) g
}.

Definition vgrid_wf (n : Z) (g : list (list bool)) : Prop :=
  length g = Z.to_nat n /\ Forall (fun row => length row = Z.to_nat n) g.

Lemma in_bounds_spec n i j : in_bounds n i j = true <-> 0 <= i < n /\ 0 <= j < n.
Proof. unfold in_bounds. rewrite !andb_true_iff, !Z.leb_le, !Z.ltb_lt. lia. Qed.

Lemma vgrid_get_some (g : list (list bool)) n i j :
  vgrid_wf n g -> in_bounds n i j = true ->
  exists row, g !! Z.to_nat i = Some row /\ length row = Z.to_nat n /\
              grid_get g i j = default false (row !! Z.to_nat j).
Proof.
  intros [Hl Hr] Hb%in_bounds_spec.
  destruct (lookup_lt_is_Some_2 g (Z.to_nat i)) as [row Hrow]; [lia|].
  rewrite Forall_lookup in Hr.
  exists row. split; [done|]. split; [exact (Hr _ _ Hrow)|].
  change (grid_get g i j) with (default false (g !! Z.to_nat i ≫= fun row => row !! Z.to_nat j)).
  by rewrite Hrow.
Qed.

Lemma vgrid_alloc_wf n : 0 <= n -> vgrid_wf n (grid_alloc n).
Proof.
  intros Hn. split; simpl; [by rewrite length_replicate|].
  apply Forall_replicate. by rewrite length_replicate.
Qed.

Lemma vgrid_alloc_get n i j :
  0 <= n -> in_bounds n i j = true -> grid_get (grid_alloc n) i j = false.
Proof.
  intros Hn Hb%in_bounds_spec. simpl.
  rewrite lookup_replicate_2 by lia. simpl. rewrite lookup_replicate_2 by lia. done.
Qed.

Lemma vgrid_set_wf n (g : list (list bool)) i j :
  vgrid_wf n g -> in_bounds n i j = true -> vgrid_wf n (grid_set g i j).
Proof.
  intros [Hl Hr] Hb. split; simpl; [by rewrite length_alter|].
  apply Forall_alter; [done|]. intros row _ Hrow. by rewrite length_insert.
Qed.

Lemma vgrid_get_set n (g : list (list bool)) i j a b :
  vgrid_wf n g -> in_bounds n i j = true -> in_bounds n a b = true ->
  grid_get (grid_set g i j) a b = bool_decide ((a, b) = (i, j)) || grid_get g a b.
Proof.
  intros Hwf Hb Hab.
  destruct (vgrid_get_some g n a b Hwf Hab) as (row&Hrow&Hlen&Hget). rewrite Hget.
  apply in_bounds_spec in Hb, Hab. simpl.
  destruct (decide (a = i)) as [->|Hai].
  - rewrite list_lookup_alter_eq, Hrow. simpl.
    destruct (decide (b = j)) as [->|Hbj].
    + rewrite list_lookup_insert_eq by lia. rewrite bool_decide_true; done.
    + rewrite list_lookup_insert_ne by lia. rewrite bool_decide_false by congruence. done.
  - rewrite list_lookup_alter_ne by lia. rewrite Hrow, bool_decide_false by congruence.
    done.
Qed.

Lemma vgrid_set_id n (g : list (list bool)) i j :
  vgrid_wf n g -> in_bounds n i j = true -> grid_get g i j = true -> grid_set g i j = g.
Proof.
  intros Hwf Hb Hget.
  destruct (vgrid_get_some g n i j Hwf Hb) as (row&Hrow&Hlen&Hg). rewrite Hget in Hg.
  apply in_bounds_spec in Hb.
  assert (Hj : row !! Z.to_nat j = Some true).
  { by destruct (row !! Z.to_nat j) as [[]|]. }
  simpl. transitivity (alter id (Z.to_nat i) g); [|by apply list_alter_id].
  apply list_alter_ext; [|done]. intros r Hr. rewrite Hrow in Hr. injection Hr as <-.
  by apply list_insert_id.
Qed.

#[export] Instance vgrid_laws : OccupancyLaws (list (list bool)) := {
  grid_wf := vgrid_wf;
  grid_alloc_wf := vgrid_alloc_wf;
  grid_alloc_get := vgrid_alloc_get;
  grid_set_wf := vgrid_set_wf;
  grid_get_set := vgrid_get_set;
  grid_set_id := vgrid_set_id
}.

(** ** Behaviour of the operations, for every lawful implementation *)

Lemma elem_of_footprint x z size a b :
  (a, b) ∈ footprint x z size <->
  x - size ÷ 2 <= a <= x + size ÷ 2 /\ z - size ÷ 2 <= b <= z + size ÷ 2.
Proof.
  unfold footprint. rewrite list_elem_of_In, in_prod_iff, <- !list_elem_of_In,
    !elem_of_zrange. done.
Qed.

Section Laws.
Context `{OccupancyLaws G}.
Implicit Types g : G.

(** Proving an equality of booleans through the propositions they
    decide. *)
Ltac bool_eq :=
  apply Bool.eq_true_iff_eq;
  rewrite ?orb_true_iff, ?andb_true_iff, ?bool_decide_eq_true, ?elem_of_cons.

Lemma mark_row_spec n i g js :
  grid_wf n g ->
  grid_wf n (mark_row n i g js) /\
  forall a b, in_bounds n a b = true ->
    grid_get (mark_row n i g js) a b = grid_get g a b || bool_decide (a = i /\ b ∈ js).
Proof.
  unfold mark_row. revert g; induction js as [|j js IH]; intros g Hwf; simpl.
  - split; [done|]. intros a b _. rewrite bool_decide_false by set_solver.
    by rewrite orb_false_r.
  - destruct (in_bounds n i j) eqn:Hb.
    + destruct (IH (grid_set g i j) (grid_set_wf n g i j Hwf Hb)) as [Hwf' Hget].
      split; [done|]. intros a b Hab. rewrite Hget, (grid_get_set n g i j a b) by done.
      bool_eq. naive_solver.
    + destruct (IH g Hwf) as [Hwf' Hget]. split; [done|].
      intros a b Hab. rewrite Hget by done.
      bool_eq. split; [naive_solver|].
      intros [?|[-> [->|?]]]; [by left|congruence|by right].
Qed.

Lemma mark_rows_spec n g xs js :
  grid_wf n g ->
  grid_wf n (fold_left (fun g i => mark_row n i g js) xs g) /\
  forall a b, in_bounds n a b = true ->
    grid_get (fold_left (fun g i => mark_row n i g js) xs g) a b =
      grid_get g a b || bool_decide (a ∈ xs /\ b ∈ js).
Proof.
  revert g; induction xs as [|i xs IH]; intros g Hwf; cbn [fold_left].
  - split; [done|]. intros a b _. rewrite bool_decide_false by set_solver.
    by rewrite orb_false_r.
  - destruct (mark_row_spec n i g js Hwf) as [Hwf1 Hget1].
    destruct (IH _ Hwf1) as [Hwf2 Hget2]. split; [done|].
    intros a b Hab. rewrite Hget2, Hget1 by done. bool_eq. naive_solver.
Qed.

(** [markGridCells] sets exactly the in-bounds cells of the footprint
    and keeps the grid well formed. *)
Lemma markGridCells_spec n g x z size :
  grid_wf n g ->
  grid_wf n (markGridCells n g x z size) /\
  forall a b, in_bounds n a b = true ->
    grid_get (markGridCells n g x z size) a b =
      grid_get g a b || bool_decide ((a, b) ∈ footprint x z size).
Proof.
  intros Hwf. destruct (mark_rows_spec n g ((x - size ÷ 2) ..= (x + size ÷ 2))
                          ((z - size ÷ 2) ..= (z + size ÷ 2)) Hwf) as [Hwf' Hget].
  split; [exact Hwf'|]. intros a b Hab. unfold markGridCells. rewrite Hget by done.
  bool_eq. rewrite elem_of_footprint, !elem_of_zrange. done.
Qed.

(** [isGridCellFree] holds exactly when every footprint cell is in
    bounds and free. *)
Lemma isGridCellFree_spec n g x z size :
  isGridCellFree n g x z size = true <->
  forall a b, (a, b) ∈ footprint x z size ->
    in_bounds n a b = true /\ grid_get g a b = false.
Proof.
  unfold isGridCellFree. rewrite forallb_forall. setoid_rewrite forallb_forall.
  split.
  - intros Hf a b Hab. apply elem_of_footprint in Hab as [Ha Hb].
    assert (Ha' : In a ((x - size ÷ 2) ..= (x + size ÷ 2)))
      by (apply list_elem_of_In, elem_of_zrange; lia).
    assert (Hb' : In b ((z - size ÷ 2) ..= (z + size ÷ 2)))
      by (apply list_elem_of_In, elem_of_zrange; lia).
    specialize (Hf a Ha' b Hb'). apply negb_true_iff in Hf.
    rewrite !orb_false_iff in Hf. rewrite in_bounds_spec. zcase; naive_solver lia.
  - intros Hf a Ha b Hb. apply list_elem_of_In, elem_of_zrange in Ha, Hb.
    destruct (Hf a b) as [Hin Hg]; [by apply elem_of_footprint|].
    apply in_bounds_spec in Hin. rewrite Hg. zcase; try lia; done.
Qed.

Lemma mark_row_id n i g js :
  grid_wf n g ->
  (forall j, j ∈ js -> in_bounds n i j = true -> grid_get g i j = true) ->
  mark_row n i g js = g.
Proof.
  unfold mark_row. intros Hwf. induction js as [|j js IH]; intros Hall; simpl; [done|].
  destruct (in_bounds n i j) eqn:Hb.
  - rewrite (grid_set_id n g i j Hwf Hb) by (apply Hall; set_solver). apply IH. set_solver.
  - apply IH. set_solver.
Qed.

(** Reserving cells that are all reserved already changes nothing. *)
Lemma markGridCells_id n g x z size :
  grid_wf n g ->
  (forall a b, (a, b) ∈ footprint x z size -> in_bounds n a b = true ->
               grid_get g a b = true) ->
  markGridCells n g x z size = g.
Proof.
  intros Hwf Hall. apply fold_left_fixed. intros i Hi. apply mark_row_id; [done|].
  intros j Hj Hb. apply Hall; [|done]. apply elem_of_footprint.
  rewrite elem_of_zrange in Hi, Hj. lia.
Qed.

(** Reserving never frees a cell. *)
Lemma markGridCells_mono n g x z size a b :
  grid_wf n g -> in_bounds n a b = true -> grid_get g a b = true ->
  grid_get (markGridCells n g x z size) a b = true.
Proof.
  intros Hwf Hab Hg. destruct (markGridCells_spec n g x z size Hwf) as [_ ->]; [|done].
  by rewrite Hg.
Qed.

(** ** The abstract specification: a set of reserved cells *)

(** [g] represents the set [S] of reserved cells of an [n x n] grid. *)
Definition abstracts (n : Z) (g : G) (S : gset cell) : Prop :=
  grid_wf n g /\ (forall c, c ∈ S -> in_bounds n c.1 c.2 = true) /\
  forall a b, in_bounds n a b = true -> grid_get g a b = true <-> (a, b) ∈ S.

(** The spec of [isFree]: every footprint cell in bounds and not
    reserved. *)
Definition spec_free (n : Z) (S : gset cell) (x z size : Z) : Prop :=
  forall c, c ∈ footprint x z size -> in_bounds n c.1 c.2 = true /\ c ∉ S.

(** The spec of [reserve]: add the footprint, clipped to the grid. *)
Definition spec_reserve (n : Z) (S : gset cell) (x z size : Z) : gset cell :=
  S ∪ list_to_set (filter (fun c => in_bounds n c.1 c.2 = true) (footprint x z size)).

Lemma grid_alloc_abstracts n : 0 <= n -> abstracts n (grid_alloc n) ∅.
Proof.
  intros Hn. split; [by apply grid_alloc_wf|]. split; [set_solver|].
  intros a b Hab. rewrite grid_alloc_get by done. set_solver.
Qed.
End Laws.

(** ** Properties of the grid operations *)

(** [C6] [markGridCells] refines [reserve]: the grid it returns
    represents the reserved set extended with the footprint cells that lie
    inside the grid, and stays well formed. *)
Theorem markGridCells_refines `{OccupancyLaws G} n (g : G) S x z size :
  abstracts n g S ->
  abstracts n (markGridCells n g x z size) (spec_reserve n S x z size).
Proof.
  intros (Hwf&HS&Hg). destruct (markGridCells_spec n g x z size Hwf) as [Hwf' Hget].
  split; [done|]. split.
  - intros c. unfold spec_reserve. rewrite elem_of_union, elem_of_list_to_set,
      list_elem_of_filter. naive_solver.
  - intros a b Hab. rewrite Hget by done. unfold spec_reserve.
    rewrite orb_true_iff, Hg, bool_decide_eq_true by done.
    rewrite elem_of_union, elem_of_list_to_set, list_elem_of_filter. naive_solver.
Qed.

(** [C7] [isGridCellFree] refines [isFree]: it holds exactly when every
    footprint cell is inside the grid and not reserved. *)
Theorem isGridCellFree_refines `{OccupancyLaws G} n (g : G) S x z size :
  abstracts n g S ->
  isGridCellFree n g x z size = true <-> spec_free n S x z size.
Proof.
  intros (Hwf&HS&Hg). rewrite isGridCellFree_spec. unfold spec_free. split.
  - intros Hf [a b] Hab. destruct (Hf a b Hab) as [Hin Hget]. split; [done|].
    rewrite <- Hg by done. by rewrite Hget.
  - intros Hf a b Hab. destruct (Hf (a, b) Hab) as [Hin Hnot]. split; [done|].
    destruct (grid_get g a b) eqn:E; [|done]. apply Hg in E; [done|exact Hin].
Qed.

(** Reserving is idempotent, on the representation itself:
    reserving the same square twice yields the same grid as once. *)
Theorem markGridCells_idempotent `{OccupancyLaws G} n (g : G) x z size :
  grid_wf n g ->
  markGridCells n (markGridCells n g x z size) x z size = markGridCells n g x z size.
Proof.
  intros Hwf. destruct (markGridCells_spec n g x z size Hwf) as [Hwf' Hget].
  apply markGridCells_id; [done|]. intros a b Hab Hin.
  rewrite Hget by done. rewrite bool_decide_true by done. apply orb_true_r.
Qed.

(** After reserving a square, any square that shares a cell with
    it is no longer free (in particular the same square). *)
Theorem isGridCellFree_overlap `{OccupancyLaws G} n (g : G) x z size x' z' size' c :
  grid_wf n g -> c ∈ footprint x z size -> c ∈ footprint x' z' size' ->
  isGridCellFree n (markGridCells n g x z size) x' z' size' = false.
Proof.
  intros Hwf Hc Hc'. destruct c as [a b].
  destruct (isGridCellFree _ _ _ _ _) eqn:Hf; [|done].
  rewrite isGridCellFree_spec in Hf. destruct (Hf a b Hc') as [Hin Hg].
  destruct (markGridCells_spec n g x z size Hwf) as [_ Hget].
  rewrite Hget, bool_decide_true, orb_true_r in Hg by done. done.
Qed.

(** The free test fails closed: a square with a cell outside the
    grid is never free. *)
Theorem isGridCellFree_fail_closed `{Occupancy G} n (g : G) x z size a b :
  (a, b) ∈ footprint x z size -> in_bounds n a b = false ->
  isGridCellFree n g x z size = false.
Proof.
  intros Hab Hout. destruct (isGridCellFree _ _ _ _ _) eqn:Hf; [|done].
  unfold isGridCellFree in Hf. rewrite forallb_forall in Hf.
  apply elem_of_footprint in Hab as [Ha Hb].
  assert (Ha' : In a ((x - size ÷ 2) ..= (x + size ÷ 2)))
    by (apply list_elem_of_In, elem_of_zrange; lia).
  assert (Hb' : In b ((z - size ÷ 2) ..= (z + size ÷ 2)))
    by (apply list_elem_of_In, elem_of_zrange; lia).
  specialize (Hf a Ha'). rewrite forallb_forall in Hf. specialize (Hf b Hb').
  unfold in_bounds in Hout. zcase; cbn in *; try discriminate; lia.
Qed.

(** Concrete grids: a 6 x 6 grid as the code allocates it. *)
Definition grid6 : list (list bool) := grid_alloc 6.

Lemma markGridCells_refines_witness :
  abstracts 6 grid6 ∅ /\
  abstracts 6 (markGridCells 6 grid6 1 1 3) (spec_reserve 6 ∅ 1 1 3).
Proof.
  assert (Ha : abstracts 6 grid6 ∅) by (apply grid_alloc_abstracts; lia).
  split; [exact Ha | exact (markGridCells_refines 6 grid6 ∅ 1 1 3 Ha)].
Defined.

Lemma isGridCellFree_refines_witness :
  abstracts 6 grid6 ∅ /\ (isGridCellFree 6 grid6 2 2 3 = true <-> spec_free 6 ∅ 2 2 3).
Proof.
  assert (Ha : abstracts 6 grid6 ∅) by (apply grid_alloc_abstracts; lia).
  split; [exact Ha | exact (isGridCellFree_refines 6 grid6 ∅ 2 2 3 Ha)].
Defined.

Lemma markGridCells_idempotent_witness :
  grid_wf 6 grid6 /\
  markGridCells 6 (markGridCells 6 grid6 1 1 3) 1 1 3 = markGridCells 6 grid6 1 1 3.
Proof.
  assert (Hwf : grid_wf 6 grid6) by (split; [reflexivity | repeat constructor]).
  split; [exact Hwf | exact (markGridCells_idempotent 6 grid6 1 1 3 Hwf)].
Defined.

Lemma isGridCellFree_overlap_witness :
  grid_wf 6 grid6 /\ (2, 2) ∈ footprint 1 1 3 /\ (2, 2) ∈ footprint 3 3 3 /\
  isGridCellFree 6 (markGridCells 6 grid6 1 1 3) 3 3 3 = false.
Proof.
  assert (Hwf : grid_wf 6 grid6) by (split; [reflexivity | repeat constructor]).
  assert (H1 : (2, 2) ∈ footprint 1 1 3) by (apply elem_of_footprint; change (3 ÷ 2) with 1; lia).
  assert (H2 : (2, 2) ∈ footprint 3 3 3) by (apply elem_of_footprint; change (3 ÷ 2) with 1; lia).
  split; [exact Hwf|]. split; [exact H1|]. split; [exact H2|].
  exact (isGridCellFree_overlap 6 grid6 1 1 3 3 3 3 (2, 2) Hwf H1 H2).
Defined.

Lemma isGridCellFree_fail_closed_witness :
  (6, 2) ∈ footprint 5 2 3 /\ in_bounds 6 6 2 = false /\
  isGridCellFree 6 grid6 5 2 3 = false.
Proof.
  assert (H1 : (6, 2) ∈ footprint 5 2 3) by (apply elem_of_footprint; change (3 ÷ 2) with 1; lia).
  assert (H2 : in_bounds 6 6 2 = false) by reflexivity.
  split; [exact H1|]. split; [exact H2|].
  exact (isGridCellFree_fail_closed 6 grid6 5 2 3 6 2 H1 H2).
Defined.

(** The free test and the reservation on a concrete grid. *)
Example grid6_reserve :
  isGridCellFree 6 grid6 2 2 3 = true /\
  isGridCellFree 6 (markGridCells 6 grid6 1 1 1) 2 2 3 = false /\
  isGridCellFree 6 (markGridCells 6 grid6 0 0 1) 2 2 3 = true.
Proof. vm_compute. auto. Qed.

End Grid.
