(* ===== verification/Rng.v ===== *)
(** * The C library generator ([srand], [rand])

    [placeBuildingsRandomly] and [placeTrees] reseed the process-wide
    generator with [srand] and draw with [rand()].  The generator belongs
    to the C library, not to the repository; it is an interface here:
    the class [CRand] (state type, [srand], [rand], [RAND_MAX]) with its
    range law in [CRandLaws].  The layout theorems hold for every lawful
    generator.  [msvc_rand] is the linear congruential generator of the
    ISO C example implementation as shipped by the Microsoft C runtime;
    it makes the layout computable on concrete configurations. *)

From S2P Require Import Prelude.

Open Scope Z_scope.

Module Rng.

Class CRand (St : Type) := {
  srand : Z -> St;            (** [srand(seed)] *)
  rand : St -> Z * St;        (** [rand()]: the value and the next state *)
  RAND_MAX : Z
}.

Class CRandLaws (St : Type) `{CRand St} := {
  RAND_MAX_pos : 0 < RAND_MAX;
  rand_range : forall s, 0 <= fst (rand s) <= RAND_MAX
}.

(** [holdrand = holdrand * 214013 + 2531011; return (holdrand >> 16) & 0x7fff;]
    on a 32-bit unsigned [holdrand]. *)
Definition msvc_next (holdrand : Z) : Z := (holdrand * 214013 + 2531011) mod 2 ^ 32.

#[export] Instance msvc_rand : CRand Z := {
  srand seed := seed mod 2 ^ 32;
  rand s := let s' := msvc_next s in (Z.land (Z.shiftr s' 16) 32767, s');
  RAND_MAX := 32767
}.

Lemma msvc_rand_range s : 0 <= fst (rand s) <= 32767.
Proof.
  simpl. change 32767 with (Z.ones 15). rewrite Z.land_ones by lia.
  pose proof (Z.mod_pos_bound (Z.shiftr (msvc_next s) 16) (2 ^ 15) ltac:(lia)).
  change (Z.ones 15) with (2 ^ 15 - 1). lia.
Qed.

#[export] Instance msvc_rand_laws : CRandLaws Z := {
  RAND_MAX_pos := ltac:(simpl; lia);
  rand_range := msvc_rand_range
}.

(** The first values after [srand(1)] of the Microsoft C runtime. *)
Example msvc_seed1 :
  fst (rand (srand 1)) = 41 /\ fst (rand (snd (rand (srand 1)))) = 18467.
Proof. vm_compute. auto. Qed.

End Rng.
