(* ===== verification/StbImage.v ===== *)
(** * The bundled stb_image.h (src/include/stb_image.h)

    The repository ships a cut-down stb_image.h: the declarations, and
    of the implementation only the I/O context, the failure reason, the
    integer size checks that guard every allocation of the decoders, and
    the vertical-flip flag.  The decoders themselves ([stbi_load] and the
    JPEG and PNG loaders) are not in the file, and no source defines
    [STB_IMAGE_IMPLEMENTATION]; [stbi_load] stays the class
    [Render.Stbi].  This file models what the header does contain: the
    size checks on C [int]s (exact integers, with C's truncating
    division [÷]), the sizes [stbi__malloc_mad*] pass to [malloc], the
    build configuration that decides whether the library's state is
    thread-local ([STBI_THREAD_LOCAL], from the compiler's predefined
    macros), that state ([stbi__err] and its macro form,
    [stbi_failure_reason], the global and per-thread flip flags) over
    numbered threads, runs of calls interleaved between threads, and
    the memory context ([stbi__start_mem], [stbi__rewind]).  The
    theorems give each size check its exact meaning: a size is accepted
    iff every partial product and the final sum stay within [int], so
    the size computed in C never overflows; [stbi__mul2shorts_valid] is
    exact for a positive second factor and accepts overflowing products
    of two negative factors.  For every interleaving, a thread reads the
    flip flag it set itself, else the global one, and the failure reason
    of its own last failure (with thread-local storage, which g++ in
    C++11 mode and later selects) or of anybody's last failure
    (without). *)

From S2P Require Import Prelude.
From Stdlib Require Import String.

Open Scope Z_scope.

Module StbImage.

(** [SHRT_MAX] and [SHRT_MIN] of [<limits.h>]. *)
Definition SHRT_MAX : Z := 32767.
Definition SHRT_MIN : Z := -32768.

(** ** The size checks (lines 534-603) *)

(** [stbi__addsizes_valid]: [a + b] does not overflow, for [b >= 0]. *)
Definition stbi__addsizes_valid (a b : Z) : bool :=
  if b <? 0 then false else a <=? INT_MAX - b.

(** [stbi__mul2sizes_valid]: [a * b] does not overflow, for nonnegative
    factors. *)
Definition stbi__mul2sizes_valid (a b : Z) : bool :=
  if (a <? 0) || (b <? 0) then false
  else if b =? 0 then true
  else a <=? INT_MAX ÷ b.

(** [stbi__mad2sizes_valid]: [a * b + add]; the [&&] of C evaluates the
    product only once the first check passed. *)
Definition stbi__mad2sizes_valid (a b add : Z) : bool :=
  stbi__mul2sizes_valid a b && stbi__addsizes_valid (a * b) add.

Definition stbi__mad3sizes_valid (a b c add : Z) : bool :=
  stbi__mul2sizes_valid a b && stbi__mul2sizes_valid (a * b) c &&
  stbi__addsizes_valid (a * b * c) add.

Definition stbi__mad4sizes_valid (a b c d add : Z) : bool :=
  stbi__mul2sizes_valid a b && stbi__mul2sizes_valid (a * b) c &&
  stbi__mul2sizes_valid (a * b * c) d && stbi__addsizes_valid (a * b * c * d) add.

(** [stbi__malloc_mad*]: the size passed to [malloc], or [None] for the
    [NULL] returned without allocating. *)
Definition stbi__malloc_mad2 (a b add : Z) : option Z :=
  if stbi__mad2sizes_valid a b add then Some (a * b + add) else None.

Definition stbi__malloc_mad3 (a b c add : Z) : option Z :=
  if stbi__mad3sizes_valid a b c add then Some (a * b * c + add) else None.

Definition stbi__malloc_mad4 (a b c d add : Z) : option Z :=
  if stbi__mad4sizes_valid a b c d add then Some (a * b * c * d + add) else None.

(** [stbi__addints_valid]: [a + b] does not overflow. *)
Definition stbi__addints_valid (a b : Z) : bool :=
  if negb (Bool.eqb (0 <=? a) (0 <=? b)) then true
  else if (a <? 0) && (b <? 0) then INT_MIN - b <=? a
  else a <=? INT_MAX - b.

(** [stbi__mul2shorts_valid]: meant to say that [a * b] fits a [short]. *)
Definition stbi__mul2shorts_valid (a b : Z) : bool :=
  if (b =? 0) || (b =? -1) then true
  else if Bool.eqb (0 <=? a) (0 <=? b) then a <=? SHRT_MAX ÷ b
  else if b <? 0 then a <=? SHRT_MIN ÷ b
  else SHRT_MIN ÷ b <=? a.

(** ** The build configuration

    The predefined macros of the compiler and the configuration macros
    of stb_image that select the storage of the library's state. *)
Record Config := mkConfig {
  cplusplus : option Z;         (** [__cplusplus] *)
  gnuc : option Z;              (** [__GNUC__] *)
  msc_ver : option Z;           (** [_MSC_VER] *)
  stdc_version : option Z;      (** [__STDC_VERSION__] *)
  stdc_no_threads : bool;       (** [__STDC_NO_THREADS__] is defined *)
  no_thread_locals : bool;      (** [STBI_NO_THREAD_LOCALS] is defined *)
  no_failure_strings : bool;    (** [STBI_NO_FAILURE_STRINGS] is defined *)
  failure_usermsg : bool        (** [STBI_FAILURE_USERMSG] is defined *)
}.

(** [defined(M) && M >= v] *)
Definition defined_ge (m : option Z) (v : Z) : bool := if m is Some x then v <=? x else false.

(** [STBI_THREAD_LOCAL] (lines 207-223): the storage class keyword, or
    [None] when it stays undefined. *)
Definition STBI_THREAD_LOCAL (c : Config) : option string :=
  if no_thread_locals c then None
  else
    let chosen :=
      if defined_ge (cplusplus c) 201103 then Some "thread_local"%string
      else if (if gnuc c is Some v then v <? 5 else false) then Some "__thread"%string
      else if (if msc_ver c is Some _ then true else false) then Some "__declspec(thread)"%string
      else if defined_ge (stdc_version c) 201112 && negb (stdc_no_threads c)
      then Some "_Thread_local"%string
      else None in
    match chosen with
    | Some k => Some k
    | None => if gnuc c is Some _ then Some "__thread"%string else None
    end.

Definition thread_local (c : Config) : bool := if STBI_THREAD_LOCAL c is Some _ then true else false.

(** ** The library's state (lines 510-527, 629-651)

    Threads are numbered.  [stbi__g_failure_reason] and the two
    [stbi__vertically_flip_on_load_local]/[_set] variables are
    thread-local when [STBI_THREAD_LOCAL] is defined; the global flip
    flag is always shared.  Without thread-local storage the failure
    reason is the shared [g_failure_reason]. *)
Record tls := mkTls { tl_failure_reason : option string; flip_local : Z; flip_set : Z }.

Record globals := mkGlobals {
  g_failure_reason : option string;
  vertically_flip_on_load_global : Z;
  g_tls : nat -> tls
}.

(** Static storage is zero-initialized: no reason, no flip. *)
Definition globals0 : globals := mkGlobals None 0 (fun _ => mkTls None 0 0).

Definition set_tls (g : globals) (t : nat) (x : tls) : globals :=
  mkGlobals (g_failure_reason g) (vertically_flip_on_load_global g)
    (fun u => if Nat.eqb u t then x else g_tls g u).

(** [stbi__err(str)] in thread [t]: records the reason, returns [0]. *)
Definition stbi__err (c : Config) (t : nat) (str : string) (g : globals) : Z * globals :=
  (0, if thread_local c
      then set_tls g t (mkTls (Some str) (flip_local (g_tls g t)) (flip_set (g_tls g t)))
      else mkGlobals (Some str) (vertically_flip_on_load_global g) (g_tls g)).

Definition stbi_failure_reason (c : Config) (t : nat) (g : globals) : option string :=
  if thread_local c then tl_failure_reason (g_tls g t) else g_failure_reason g.

Definition stbi_set_flip_vertically_on_load (flag : Z) (g : globals) : globals :=
  mkGlobals (g_failure_reason g) flag (g_tls g).

(** Lines 639-645, compiled only with thread-local storage: [None] when
    the build has none and the call cannot link. *)
Definition stbi_set_flip_vertically_on_load_thread (c : Config) (t : nat) (flag : Z) (g : globals)
    : option globals :=
  if thread_local c then Some (set_tls g t (mkTls (tl_failure_reason (g_tls g t)) flag 1)) else None.

(** The macro [stbi__vertically_flip_on_load] read in thread [t]
    (lines 636-651). *)
Definition stbi__vertically_flip_on_load (c : Config) (t : nat) (g : globals) : Z :=
  if thread_local c
  then (if negb (flip_set (g_tls g t) =? 0) then flip_local (g_tls g t) else vertically_flip_on_load_global g)
  else vertically_flip_on_load_global g.

(** The macro [stbi__err(x,y)] (lines 605-611): [x] is the short
    reason, [y] the user message. *)
Definition stbi__err_macro (c : Config) (t : nat) (x y : string) (g : globals) : Z * globals :=
  if no_failure_strings c then (0, g)
  else if failure_usermsg c then stbi__err c t y g else stbi__err c t x g.

(** [stbi__errpuc(x,y)] (line 614): [NULL] once the reason is recorded. *)
Definition stbi__errpuc (c : Config) (t : nat) (x y : string) (g : globals) : option Z * globals :=
  (None, snd (stbi__err_macro c t x y g)).

(** ** Calls from several threads

    A call of the library's state-changing entry points by thread [t];
    a run is an interleaving of such calls.  [CallErr] is a decoder
    failing through [stbi__errpuc]. *)
Inductive stbi_call :=
| CallErr (x y : string)
| CallSetFlip (flag : Z)
| CallSetFlipThread (flag : Z).

Definition stbi_step (c : Config) (g : globals) (tc : nat * stbi_call) : option globals :=
  let '(t, call) := tc in
  match call with
  | CallErr x y => Some (snd (stbi__errpuc c t x y g))
  | CallSetFlip flag => Some (stbi_set_flip_vertically_on_load flag g)
  | CallSetFlipThread flag => stbi_set_flip_vertically_on_load_thread c t flag g
  end.

Fixpoint stbi_run (c : Config) (g : globals) (l : list (nat * stbi_call)) : option globals :=
  match l with
  | [] => Some g
  | tc :: l => g' ← stbi_step c g tc; stbi_run c g' l
  end.

(** ** The memory context (lines 357-383, 433-437)

    The buffer pointers as offsets into the caller's memory. *)
Record stbi__context := mkContext {
  read_from_callbacks : Z; callback_already_read : Z; io_read_null : bool;
  img_buffer : Z; img_buffer_end : Z;
  img_buffer_original : Z; img_buffer_original_end : Z
}.

Definition stbi__start_mem (s : stbi__context) (buffer len : Z) : stbi__context :=
  mkContext 0 0 true buffer (buffer + len) buffer (buffer + len).

Definition stbi__rewind (s : stbi__context) : stbi__context :=
  mkContext (read_from_callbacks s) (callback_already_read s) (io_read_null s)
    (img_buffer_original s) (img_buffer_original_end s)
    (img_buffer_original s) (img_buffer_original_end s).

(** ** Properties *)

Lemma INT_MAX_val : INT_MAX = 2147483647.
Proof. reflexivity. Qed.

Lemma INT_MIN_val : INT_MIN = -2147483648.
Proof. reflexivity. Qed.

Lemma addsizes_valid_spec a b : stbi__addsizes_valid a b = true <-> 0 <= b /\ a + b <= INT_MAX.
Proof.
  unfold stbi__addsizes_valid. rewrite INT_MAX_val. destruct (Z.ltb_spec b 0); [split; [discriminate|lia]|].
  rewrite Z.leb_le. lia.
Qed.

Lemma mul2sizes_valid_spec a b : stbi__mul2sizes_valid a b = true <-> 0 <= a /\ 0 <= b /\ a * b <= INT_MAX.
Proof.
  unfold stbi__mul2sizes_valid. rewrite INT_MAX_val.
  destruct (Z.ltb_spec a 0), (Z.ltb_spec b 0); cbn [orb]; try (split; [discriminate|lia]).
  destruct (Z.eqb_spec b 0) as [->|Hb]; [split; [intros _; lia|done]|].
  rewrite Z.leb_le, Z.quot_div_nonneg by lia. split; intros Hm.
  - pose proof (Z.mul_div_le 2147483647 b ltac:(lia)). nia.
  - apply Z.div_le_lower_bound; lia.
Qed.

Lemma mad4sizes_valid_spec a b c d add :
  stbi__mad4sizes_valid a b c d add = true <->
  0 <= a /\ 0 <= b /\ 0 <= c /\ 0 <= d /\ 0 <= add /\ a * b <= INT_MAX /\ a * b * c <= INT_MAX /\
  a * b * c * d <= INT_MAX /\ a * b * c * d + add <= INT_MAX.
Proof.
  unfold stbi__mad4sizes_valid. rewrite !andb_true_iff, !mul2sizes_valid_spec, addsizes_valid_spec, INT_MAX_val.
  split.
  - intros ((((?&?&?)&?&?&?)&?&?&?)&?&?). repeat split; lia.
  - intros (?&?&?&?&?&?&?&?&?). repeat split; nia.
Qed.

(** [C29] [stbi__malloc_mad4] allocates exactly when the size
    [a * b * c * d + add] can be computed in [int]: all factors and the
    addend are nonnegative and every partial product and the sum stay
    at most [INT_MAX]; the size it then passes to [malloc] is that
    exact value, so the C computation never overflows. *)
Theorem stbi__malloc_mad4_size a b c d add n :
  stbi__malloc_mad4 a b c d add = Some n <->
  (0 <= a /\ 0 <= b /\ 0 <= c /\ 0 <= d /\ 0 <= add /\ a * b <= INT_MAX /\ a * b * c <= INT_MAX /\
   a * b * c * d <= INT_MAX /\ a * b * c * d + add <= INT_MAX) /\ n = a * b * c * d + add.
Proof.
  unfold stbi__malloc_mad4. rewrite <- mad4sizes_valid_spec.
  destruct (stbi__mad4sizes_valid a b c d add); split.
  - by intros [= <-].
  - by intros [_ ->].
  - discriminate.
  - by intros [? _].
Qed.

(** [stbi__addints_valid] is exact: for two [int]s it holds iff
    their sum is an [int]. *)
Theorem stbi__addints_valid_spec a b :
  in_int32 a = true -> in_int32 b = true ->
  stbi__addints_valid a b = true <-> in_int32 (a + b) = true.
Proof.
  unfold in_int32, stbi__addints_valid. rewrite !andb_true_iff, !Z.leb_le, INT_MAX_val, INT_MIN_val.
  intros Ha Hb.
  destruct (Z.leb_spec 0 a), (Z.leb_spec 0 b), (Z.ltb_spec a 0), (Z.ltb_spec b 0);
    cbn [Bool.eqb negb andb]; rewrite ?Z.leb_le; try lia; split; lia.
Qed.

(** For a positive second factor, [stbi__mul2shorts_valid] says exactly
    that the product fits a [short]. *)
Lemma stbi__mul2shorts_valid_pos a b :
  0 < b -> stbi__mul2shorts_valid a b = true <-> SHRT_MIN <= a * b <= SHRT_MAX.
Proof.
  intros Hb. unfold stbi__mul2shorts_valid, SHRT_MIN, SHRT_MAX.
  rewrite (proj2 (Z.eqb_neq b 0)), (proj2 (Z.eqb_neq b (-1))) by lia. cbn [orb].
  destruct (Z.leb_spec 0 a), (Z.leb_spec 0 b); try lia; cbn [Bool.eqb].
  - rewrite Z.leb_le, Z.quot_div_nonneg by lia. split; intros Hm.
    + pose proof (Z.mul_div_le 32767 b Hb). nia.
    + apply Z.div_le_lower_bound; lia.
  - rewrite (proj2 (Z.ltb_ge b 0)) by lia. rewrite Z.leb_le.
    replace (-32768 ÷ b) with (- (32768 / b))
      by (rewrite <- Z.quot_div_nonneg, <- Z.quot_opp_l by lia; reflexivity).
    split; intros Hm.
    + split; [|nia]. pose proof (Z.mul_div_le 32768 b Hb). nia.
    + assert (- a <= 32768 / b) by (apply Z.div_le_lower_bound; lia). lia.
Qed.

(** [C30] [stbi__mul2shorts_valid] accepts [SHRT_MIN] times any negative
    [short], though every such product overflows a [short]: with two
    negative factors it tests [a <= SHRT_MAX / b], which for [b < 0] is
    the bound of the wrong side, and [b = -1] is accepted outright. *)
Theorem stbi__mul2shorts_valid_shrt_min b :
  SHRT_MIN <= b <= -1 ->
  stbi__mul2shorts_valid SHRT_MIN b = true /\ SHRT_MAX < SHRT_MIN * b.
Proof.
  unfold stbi__mul2shorts_valid, SHRT_MIN, SHRT_MAX. intros Hb. split; [|nia].
  destruct (Z.eqb_spec b (-1)) as [->|Hb1]; [done|].
  rewrite (proj2 (Z.eqb_neq b 0)) by lia. cbn [orb].
  destruct (Z.leb_spec 0 (-32768)); [lia|]. destruct (Z.leb_spec 0 b); [lia|]. cbn [Bool.eqb].
  apply Z.leb_le. rewrite <- (Z.opp_involutive b), Z.quot_opp_r, Z.quot_div_nonneg by lia.
  assert (32767 / - b <= 16384) by (apply Z.div_le_upper_bound; lia). lia.
Qed.

(** ** Interleavings of calls *)

(** The last value [f] picks out of a run. *)
Definition latest {A} (f : nat * stbi_call -> option A) (l : list (nat * stbi_call)) : option A :=
  fold_left (fun acc tc => match f tc with Some a => Some a | None => acc end) l None.

(** Thread [t]'s own calls of the thread setter, and everybody's calls
    of the global one. *)
Definition own_flip (t : nat) (tc : nat * stbi_call) : option Z :=
  match tc with (u, CallSetFlipThread f) => if Nat.eqb u t then Some f else None | _ => None end.

Definition global_flip (tc : nat * stbi_call) : option Z :=
  match tc with (_, CallSetFlip f) => Some f | _ => None end.

(** The reasons a thread can read: its own failures with thread-local
    storage, everybody's without. *)
Definition seen_err (c : Config) (t : nat) (tc : nat * stbi_call) : option string :=
  match tc with
  | (u, CallErr x y) =>
      if thread_local c && negb (Nat.eqb u t) then None
      else Some (if failure_usermsg c then y else x)
  | _ => None
  end.

Lemma latest_snoc {A} (f : nat * stbi_call -> option A) l x :
  latest f (l ++ [x]) = match f x with Some a => Some a | None => latest f l end.
Proof. unfold latest. by rewrite fold_left_app. Qed.

Lemma stbi_run_snoc c g l x : stbi_run c g (l ++ [x]) = (g' ← stbi_run c g l; stbi_step c g' x).
Proof.
  revert g. induction l as [|y l IH]; intros g; cbn [stbi_run app mbind option_bind].
  - by destruct (stbi_step c g x).
  - destruct (stbi_step c g y); [apply IH|done].
Qed.

Lemma set_tls_at g u x t : g_tls (set_tls g u x) t = if Nat.eqb t u then x else g_tls g t.
Proof. done. Qed.

Section Interleaving.
Variable c : Config.

(** What every run leaves in the flip variables. *)
Lemma stbi_run_flip l g :
  thread_local c = true -> stbi_run c globals0 l = Some g ->
  vertically_flip_on_load_global g = default 0 (latest global_flip l) /\
  forall t, match latest (own_flip t) l with
            | Some f => flip_set (g_tls g t) = 1 /\ flip_local (g_tls g t) = f
            | None => flip_set (g_tls g t) = 0
            end.
Proof.
  intros Htl. revert g. induction l as [|[u call] l IH] using rev_ind; intros g Hr.
  { injection Hr as <-. done. }
  rewrite stbi_run_snoc in Hr. destruct (stbi_run c globals0 l) as [g0|] eqn:E; [|discriminate].
  destruct (IH g0 eq_refl) as [Hg Ht]. cbn [mbind option_bind] in Hr.
  rewrite latest_snoc. split.
  - destruct call as [x y|f|f]; cbn in Hr |- *.
    + unfold stbi__errpuc, stbi__err_macro, stbi__err in Hr. rewrite Htl in Hr.
      by destruct (no_failure_strings c), (failure_usermsg c); injection Hr as <-.
    + by injection Hr as <-.
    + unfold stbi_set_flip_vertically_on_load_thread in Hr. rewrite Htl in Hr. by injection Hr as <-.
  - intros t. specialize (Ht t). rewrite latest_snoc.
    destruct call as [x y|f|f]; cbn in Hr |- *.
    + unfold stbi__errpuc, stbi__err_macro, stbi__err in Hr. rewrite Htl in Hr.
      destruct (no_failure_strings c), (failure_usermsg c); injection Hr as <-; [done|..];
        cbn; (destruct (Nat.eqb_spec t u) as [<-|]; [by destruct (latest (own_flip t) l)|done]).
    + by injection Hr as <-.
    + unfold stbi_set_flip_vertically_on_load_thread in Hr. rewrite Htl in Hr. injection Hr as <-.
      cbn. destruct (Nat.eqb_spec u t) as [->|]; [by rewrite Nat.eqb_refl|].
      rewrite (proj2 (Nat.eqb_neq t u)) by congruence. exact Ht.
Qed.

(** What every run leaves as failure reasons. *)
Lemma stbi_run_reason l g :
  no_failure_strings c = false -> stbi_run c globals0 l = Some g ->
  forall t, stbi_failure_reason c t g = latest (seen_err c t) l.
Proof.
  intros Hns. revert g. induction l as [|[u call] l IH] using rev_ind; intros g Hr t.
  { injection Hr as <-. unfold stbi_failure_reason. by destruct (thread_local c). }
  rewrite stbi_run_snoc in Hr. destruct (stbi_run c globals0 l) as [g0|] eqn:E; [|discriminate].
  specialize (IH g0 eq_refl t). cbn [mbind option_bind] in Hr. rewrite latest_snoc.
  unfold stbi_failure_reason in *.
  destruct call as [x y|f|f]; cbn in Hr |- *.
  - unfold stbi__errpuc, stbi__err_macro, stbi__err in Hr. rewrite Hns in Hr.
    destruct (thread_local c) eqn:Htl, (failure_usermsg c); injection Hr as <-; cbn; try done;
      (destruct (Nat.eqb_spec t u) as [<-|]; [by rewrite Nat.eqb_refl|];
       rewrite (proj2 (Nat.eqb_neq u t)) by congruence; exact IH).
  - injection Hr as <-. done.
  - unfold stbi_set_flip_vertically_on_load_thread in Hr. destruct (thread_local c) eqn:Htl; [|done].
    injection Hr as <-. cbn. destruct (Nat.eqb_spec t u) as [<-|]; exact IH.
Qed.
End Interleaving.

(** [C31] With thread-local storage, the flip flag a decoder of thread
    [t] reads after any interleaving of calls is the last value [t] set
    with [stbi_set_flip_vertically_on_load_thread], and only if [t]
    never called it the last value set with the global
    [stbi_set_flip_vertically_on_load] (0 if none): other threads'
    thread settings never reach it. *)
Theorem stbi_flip_interleaving c l g t :
  thread_local c = true -> stbi_run c globals0 l = Some g ->
  stbi__vertically_flip_on_load c t g =
    match latest (own_flip t) l with
    | Some f => f
    | None => default 0 (latest global_flip l)
    end.
Proof.
  intros Htl Hr. destruct (stbi_run_flip c l g Htl Hr) as [Hg Ht]. specialize (Ht t).
  unfold stbi__vertically_flip_on_load. rewrite Htl.
  destruct (latest (own_flip t) l) as [f|]; [destruct Ht as [-> ->]; done|]. by rewrite Ht.
Qed.

(** [C32] After any interleaving of calls, [stbi_failure_reason] in
    thread [t] is the reason of the last failure it can see: with
    thread-local storage the last failure of [t] itself, without it the
    last failure of any thread; the reason is the short one, or the
    user message under [STBI_FAILURE_USERMSG]. *)
Theorem stbi_failure_reason_interleaving c l g t :
  no_failure_strings c = false -> stbi_run c globals0 l = Some g ->
  stbi_failure_reason c t g = latest (seen_err c t) l.
Proof. intros Hns Hr. exact (stbi_run_reason c l g Hns Hr t). Qed.

(** A run fails exactly when a thread calls the thread setter in a build
    without thread-local storage, where it is not compiled. *)
Lemma stbi_run_fails c g l :
  stbi_run c g l = None <-> thread_local c = false /\ exists t f, In (t, CallSetFlipThread f) l.
Proof.
  revert g. induction l as [|[u call] l IH]; intros g; cbn [stbi_run].
  { split; [discriminate|]. intros (_&t&f&[]). }
  assert (Hcons : forall g', stbi_run c g' l = None ->
            thread_local c = false /\ exists t f, In (t, CallSetFlipThread f) ((u, call) :: l)).
  { intros g' (Htl&t&f&Hin)%IH. split; [done|]. exists t, f. by right. }
  destruct call as [x y|f|f]; cbn [stbi_step mbind option_bind].
  - split; [apply Hcons|]. intros (Htl&t&f&[[=]|Hin]). apply IH. split; [done|]. by exists t, f.
  - split; [apply Hcons|]. intros (Htl&t&f'&[[=]|Hin]). apply IH. split; [done|]. by exists t, f'.
  - unfold stbi_set_flip_vertically_on_load_thread. destruct (thread_local c) eqn:Htl.
    + cbn [mbind option_bind]. split; [apply Hcons|]. intros (?&_). discriminate.
    + split; [|done]. intros _. split; [done|]. exists u, f. by left.
Qed.

(** ** Concrete values *)

(** A 65536 x 65536 RGB image is refused: its size overflows [int]. *)
Example malloc_mad3_refuses : stbi__malloc_mad3 65536 65536 3 0 = None.
Proof. vm_compute. reflexivity. Qed.

Example malloc_mad3_road : stbi__malloc_mad3 512 512 3 0 = Some 786432.
Proof. vm_compute. reflexivity. Qed.

Lemma stbi__addints_valid_spec_witness :
  in_int32 INT_MAX = true /\ in_int32 1 = true /\
  (stbi__addints_valid INT_MAX 1 = true <-> in_int32 (INT_MAX + 1) = true).
Proof.
  assert (Ha : in_int32 INT_MAX = true) by reflexivity. assert (Hb : in_int32 1 = true) by reflexivity.
  split; [exact Ha|]. split; [exact Hb|]. exact (stbi__addints_valid_spec INT_MAX 1 Ha Hb).
Defined.

Lemma stbi__mul2shorts_valid_shrt_min_witness :
  SHRT_MIN <= -2 <= -1 /\ stbi__mul2shorts_valid SHRT_MIN (-2) = true /\ SHRT_MAX < SHRT_MIN * -2.
Proof.
  assert (Hb : SHRT_MIN <= -2 <= -1) by (unfold SHRT_MIN; lia).
  split; [exact Hb|]. exact (stbi__mul2shorts_valid_shrt_min (-2) Hb).
Defined.

(** ** Builds and threads *)

(** g++ in C++17 mode (the repository's C++ sources), GCC compiling C89,
    and a C99 compiler that is not GCC. *)
Definition gpp17 : Config := mkConfig (Some 201703) (Some 13) None None false false false false.
Definition gcc_c89 : Config := mkConfig None (Some 13) None None false false false false.
Definition cc_c99 : Config := mkConfig None None None (Some 199901) false false false false.

Example ex_thread_local :
  STBI_THREAD_LOCAL gpp17 = Some "thread_local"%string /\
  STBI_THREAD_LOCAL gcc_c89 = Some "__thread"%string /\ STBI_THREAD_LOCAL cc_c99 = None.
Proof. vm_compute. repeat split. Qed.

(** Thread 1 sets the global flag, thread 2 its own, then each fails. *)
Definition ex_calls : list (nat * stbi_call) :=
  [(1%nat, CallSetFlip 1); (2%nat, CallSetFlipThread 0);
   (1%nat, CallErr "bad png" "Corrupt PNG"); (2%nat, CallErr "too large" "Image too large")].

(** With thread-local storage each thread keeps its own flag and reason;
    without it a thread reads the other's failure, and the thread setter
    is missing. *)
Example ex_threads :
  (exists g, stbi_run gpp17 globals0 ex_calls = Some g /\
     stbi__vertically_flip_on_load gpp17 1%nat g = 1 /\ stbi__vertically_flip_on_load gpp17 2%nat g = 0 /\
     stbi_failure_reason gpp17 1%nat g = Some "bad png"%string) /\
  stbi_run cc_c99 globals0 ex_calls = None /\
  (exists g, stbi_run cc_c99 globals0 (List.filter (fun tc => if tc is (_, CallSetFlipThread _) then false else true) ex_calls) = Some g /\
     stbi_failure_reason cc_c99 1%nat g = Some "too large"%string).
Proof. split; [eexists; split; [reflexivity|]; vm_compute; repeat split|]. split; [reflexivity|].
  eexists. split; [reflexivity|]. vm_compute. reflexivity. Qed.

Lemma stbi_flip_interleaving_witness :
  thread_local gpp17 = true /\
  exists g, stbi_run gpp17 globals0 ex_calls = Some g /\
    stbi__vertically_flip_on_load gpp17 2%nat g =
      match latest (own_flip 2%nat) ex_calls with Some f => f | None => default 0 (latest global_flip ex_calls) end.
Proof.
  split; [reflexivity|]. eexists. split; [reflexivity|].
  apply (stbi_flip_interleaving gpp17 ex_calls _ 2%nat); reflexivity.
Defined.

Lemma stbi_failure_reason_interleaving_witness :
  no_failure_strings gpp17 = false /\
  exists g, stbi_run gpp17 globals0 ex_calls = Some g /\
    stbi_failure_reason gpp17 1%nat g = latest (seen_err gpp17 1%nat) ex_calls.
Proof.
  split; [reflexivity|]. eexists. split; [reflexivity|].
  apply (stbi_failure_reason_interleaving gpp17 ex_calls _ 1%nat); reflexivity.
Defined.

End StbImage.
