(* ===== verification/StbIo.v ===== *)
(** * stb_image's stdio callbacks and bit rotation (src/include/stb_image.h)

    [stbi__stdio_read], [stbi__stdio_skip] and [stbi__stdio_eof] (lines
    399-417) are the [stbi_io_callbacks] (lines 35-40) through which a
    decoder reads a [FILE]; [stbi__stdio_callbacks] (lines 419-424)
    bundles them.  They call the C library's [fread], [fseek], [fgetc],
    [ungetc], [feof] and [ferror], modelled here from the C standard on a
    binary stream open for reading: its bytes, the file position
    indicator, the character [ungetc] pushed back, and the end-of-file
    and error indicators.  [stbi_lrot] (lines 250-254) is the header's
    32-bit rotate.

    [fread] is [n] calls of [fgetc] that stop at the first [EOF]; the
    model runs at most [reads_left] + 1 of them, which [fread_spec]
    shows is the same as running [n].  The theorems: [stbi__stdio_skip]
    moves the position by [n] (or not at all when the target would be
    negative) and leaves the end-of-file indicator set exactly when the
    new position is at or past the end; [stbi__stdio_read] reads the
    next [size] bytes, all of the rest for a negative [size];
    [stbi_lrot] is a rotation of the 32 bits, undone by the opposite
    rotation. *)

From S2P Require Import Prelude.

Open Scope Z_scope.

Module StbIo.

(** ** The C library's binary input streams *)

Definition EOF : Z := -1.

(** A [FILE] open for reading in binary mode. *)
Record FILE := mkFILE {
  f_data : list Z;          (** the file's bytes, each in [[0, 255]] *)
  f_pos : Z;                (** the file position indicator *)
  f_unget : option Z;       (** the character pushed back by [ungetc] *)
  f_eof : bool;             (** the end-of-file indicator *)
  f_err : bool              (** the error indicator *)
}.

(** [fgetc]: [EOF] when the end-of-file indicator is set; else the
    pushed-back character, or the byte at the position; at or past the
    end, [EOF] and the end-of-file indicator set. *)
Definition fgetc (f : FILE) : Z * FILE :=
  if f_eof f then (EOF, f)
  else match f_unget f with
  | Some c => (c, mkFILE (f_data f) (f_pos f + 1) None false (f_err f))
  | None =>
      match (if f_pos f <? 0 then None else f_data f !! Z.to_nat (f_pos f)) with
      | Some c => (c, mkFILE (f_data f) (f_pos f + 1) None false (f_err f))
      | None => (EOF, mkFILE (f_data f) (f_pos f) None true (f_err f))
      end
  end.

(** [ungetc(c, f)]: pushes back [c] converted to [unsigned char],
    clears the end-of-file indicator and decrements the position; [EOF]
    is refused, and so is a second push-back before a read (the one
    character of push-back the standard guarantees). *)
Definition ungetc (c : Z) (f : FILE) : Z * FILE :=
  if c =? EOF then (EOF, f)
  else match f_unget f with
  | Some _ => (EOF, f)
  | None => (c mod 256, mkFILE (f_data f) (f_pos f - 1) (Some (c mod 256)) false (f_err f))
  end.

(** [fseek(f, n, SEEK_CUR)]: a target before the start of the file fails
    with [-1] (POSIX [EINVAL]) and changes nothing; otherwise the
    position moves, the push-back is dropped and the end-of-file
    indicator cleared.  Seeking past the end is allowed. *)
Definition fseek_cur (f : FILE) (n : Z) : Z * FILE :=
  if f_pos f + n <? 0 then (-1, f)
  else (0, mkFILE (f_data f) (f_pos f + n) None false (f_err f)).

Definition feof (f : FILE) : bool := f_eof f.
Definition ferror (f : FILE) : bool := f_err f.

(** [k] calls of [fgetc], stopping at the first [EOF]. *)
Fixpoint fgetc_n (k : nat) (f : FILE) : list Z * FILE :=
  match k with
  | O => ([], f)
  | S k =>
      let '(c, f1) := fgetc f in
      if c =? EOF then ([], f1)
      else let '(cs, f2) := fgetc_n k f1 in (c :: cs, f2)
  end.

(** How many more calls of [fgetc] can return a character. *)
Definition reads_left (f : FILE) : nat :=
  if f_eof f then 0
  else (if f_unget f is Some _ then 1 else 0) + (length (f_data f) - Z.to_nat (f_pos f)).

(** [fread(data, 1, n, f)]: [n] calls of [fgetc]; past [reads_left]
    they all return [EOF], so at most [reads_left f + 1] are run. *)
Definition fread (n : Z) (f : FILE) : list Z * FILE :=
  fgetc_n (Z.to_nat (Z.min n (Z.of_nat (S (reads_left f))))) f.

(** The conversion of a 64-bit [size_t] count to [int], modulo [2^32]
    as GCC does it. *)
Definition to_int32 (z : Z) : Z := (z + 2 ^ 31) mod 2 ^ 32 - 2 ^ 31.

(** ** The callbacks (lines 35-40, 399-424) *)

(** [stbi_io_callbacks] over the type [U] of the [user] pointer's
    target: [read] fills [data] with up to [size] bytes and returns how
    many it read, [skip] skips [n] bytes, [eof] tests for the end. *)
Record stbi_io_callbacks (U : Type) := mkCallbacks {
  io_read : U -> Z -> Z * list Z * U;
  io_skip : U -> Z -> U;
  io_eof : U -> Z
}.

(** [return (int) fread(data,1,size,f);], [f] the [user] pointer cast
    to [FILE] pointer: the [int] [size] converts to [size_t], 64 bits
    wide. *)
Definition stbi__stdio_read (f : FILE) (size : Z) : Z * list Z * FILE :=
  let '(cs, f') := fread (size mod 2 ^ 64) f in
  (to_int32 (Z.of_nat (length cs)), cs, f').

(** [fseek(f, n, SEEK_CUR); ch = fgetc(f); if (ch != EOF) { ungetc(ch, f); }]
    with [f] the [user] pointer cast to [FILE] pointer: the read and
    push-back set the end-of-file indicator when the skip went to or
    past the end.  The result of [fseek] is ignored. *)
Definition stbi__stdio_skip (f : FILE) (n : Z) : FILE :=
  let '(_, f1) := fseek_cur f n in
  let '(ch, f2) := fgetc f1 in
  if negb (ch =? EOF) then snd (ungetc ch f2) else f2.

(** [return feof(f) || ferror(f);] *)
Definition stbi__stdio_eof (f : FILE) : Z :=
  if feof f || ferror f then 1 else 0.

Definition stbi__stdio_callbacks : stbi_io_callbacks FILE :=
  mkCallbacks FILE stbi__stdio_read stbi__stdio_skip stbi__stdio_eof.

(** ** [stbi_lrot] (lines 250-254) *)

(** [(((x) << (y)) | ((x) >> (-(y) & 31)))] on a 32-bit unsigned [x]:
    the left shift wraps modulo [2^32]; a shift by a negative amount or
    by 32 or more is undefined, [None]. *)
Definition stbi_lrot (x y : Z) : option Z :=
  if (y <? 0) || (32 <=? y) then None
  else Some (Z.lor (Z.shiftl x y mod 2 ^ 32) (Z.shiftr x (Z.land (- y) 31))).

(** ** Properties *)

Section Streams.
Implicit Types (f : FILE) (d : list Z).

(** The bytes of a file. *)
Definition bytes d : Prop := Forall (fun b => 0 <= b < 256) d.

(** A read that returns a character uses up one of [reads_left]. *)
Lemma fgetc_progress f c f1 : fgetc f = (c, f1) -> c <> EOF -> (reads_left f1 < reads_left f)%nat.
Proof.
  destruct f as [d p u e r]. unfold fgetc, reads_left. cbn [f_eof f_unget f_pos f_data f_err].
  destruct e; [by intros [= <- _]|]. destruct u as [c'|].
  - intros [= <- <-] _. cbn. lia.
  - destruct (Z.ltb_spec p 0); [by intros [= <- _]|].
    destruct (d !! Z.to_nat p) as [c'|] eqn:Hl; [|by intros [= <- _]].
    intros [= <- <-] _. apply lookup_lt_Some in Hl. cbn. lia.
Qed.

(** Past [reads_left], more calls of [fgetc] change nothing. *)
Lemma fgetc_n_enough k k' f :
  (reads_left f < k)%nat -> (reads_left f < k')%nat -> fgetc_n k f = fgetc_n k' f.
Proof.
  revert k' f. induction k as [|k IH]; intros [|k'] f Hk Hk'; try lia. cbn [fgetc_n].
  destruct (fgetc f) as [c f1] eqn:E. destruct (Z.eqb_spec c EOF); [done|].
  pose proof (fgetc_progress _ _ _ E n). by rewrite (IH k' f1) by lia.
Qed.

(** On a clean stream the reads return the bytes from the position on. *)
Lemma fgetc_n_clean k d p r :
  bytes d -> 0 <= p -> fst (fgetc_n k (mkFILE d p None false r)) = take k (drop (Z.to_nat p) d).
Proof.
  intros Hd. revert p. induction k as [|k IH]; intros p Hp; [done|]. cbn [fgetc_n]. unfold fgetc.
  cbn [f_eof f_unget f_pos f_data f_err]. rewrite (proj2 (Z.ltb_ge p 0)) by lia.
  destruct (d !! Z.to_nat p) as [c|] eqn:Hl.
  - pose proof (Forall_lookup_1 _ _ _ _ Hd Hl : 0 <= c < 256) as Hc. rewrite (proj2 (Z.eqb_neq c EOF)) by (unfold EOF; lia).
    destruct (fgetc_n k _) as [cs f2] eqn:E. cbn [fst]. rewrite (drop_S _ _ _ Hl).
    specialize (IH (p + 1) ltac:(lia)). rewrite E in IH. cbn [fst] in IH.
    rewrite IH, Z2Nat.inj_add by lia. by rewrite Nat.add_1_r.
  - cbn. apply lookup_ge_None in Hl. by rewrite drop_ge.
Qed.

(** What [fgetc] and the push-back of [stbi__stdio_skip] leave, from a
    clean stream at [q]: the end-of-file indicator tells whether [q] is
    at or past the end, and reading goes on from [q]. *)
Lemma peek_spec d q r :
  bytes d -> 0 <= q ->
  let g := let '(ch, f2) := fgetc (mkFILE d q None false r) in
           if negb (ch =? EOF) then snd (ungetc ch f2) else f2 in
  stbi__stdio_eof g = (if (q <? Z.of_nat (length d)) && negb r then 0 else 1) /\
  forall k, fst (fgetc_n k g) = take k (drop (Z.to_nat q) d).
Proof.
  intros Hd Hq. unfold fgetc at 1. cbn [f_eof f_unget f_pos f_data f_err]. rewrite (proj2 (Z.ltb_ge q 0)) by lia.
  destruct (d !! Z.to_nat q) as [c|] eqn:Hl.
  - pose proof (Forall_lookup_1 _ _ _ _ Hd Hl : 0 <= c < 256) as Hc. pose proof (lookup_lt_Some _ _ _ Hl).
    rewrite (proj2 (Z.eqb_neq c EOF)) by (unfold EOF; lia). cbn [negb].
    unfold ungetc. rewrite (proj2 (Z.eqb_neq c EOF)) by (unfold EOF; lia). cbn [f_unget snd].
    rewrite Z.mod_small by lia. split.
    + unfold stbi__stdio_eof, feof, ferror. cbn. rewrite (proj2 (Z.ltb_lt q _)) by lia. by destruct r.
    + intros [|k]; [done|]. cbn [fgetc_n]. unfold fgetc at 1. cbn [f_eof f_unget f_pos f_data f_err].
      rewrite (proj2 (Z.eqb_neq c EOF)) by (unfold EOF; lia).
      replace (q + 1 - 1 + 1) with (q + 1) by lia.
      pose proof (fgetc_n_clean k d (q + 1) r Hd ltac:(lia)) as E.
      destruct (fgetc_n k _) as [cs f2]. cbn [fst] in *. rewrite E, (drop_S _ _ _ Hl).
      by replace (Z.to_nat (q + 1)) with (S (Z.to_nat q)) by lia.
  - apply lookup_ge_None in Hl. cbn. split.
    + unfold stbi__stdio_eof, feof, ferror. cbn. by rewrite (proj2 (Z.ltb_ge q _)) by lia.
    + intros [|k]; [done|]. cbn. by rewrite drop_ge by lia.
Qed.

(** The bounded [fread] is the C one: for every count [n], running at
    most [reads_left + 1] calls of [fgetc] gives the bytes and the stream
    that [n] calls give. *)
Lemma fread_spec n f : 0 <= n -> fread n f = fgetc_n (Z.to_nat n) f.
Proof.
  intros Hn. unfold fread. destruct (Z.le_ge_cases n (Z.of_nat (S (reads_left f)))).
  - by rewrite Z.min_l.
  - rewrite Z.min_r by lia. apply fgetc_n_enough; lia.
Qed.

(** [stbi__stdio_read] is the C call: [size] converted to
    [size_t], that many calls of [fgetc] stopping at the first [EOF],
    and their count converted back to [int]. *)
Theorem stbi__stdio_read_fgetc f size :
  stbi__stdio_read f size =
    let '(cs, f') := fgetc_n (Z.to_nat (size mod 2 ^ 64)) f in (to_int32 (Z.of_nat (length cs)), cs, f').
Proof. unfold stbi__stdio_read. by rewrite fread_spec by (apply Z.mod_pos_bound; lia). Qed.

(** [C33] [stbi__stdio_skip] on a clean stream at [pos] moves it to
    [pos + n], or leaves it at [pos] when that would be before the
    start (the failure of [fseek] is ignored); then [stbi__stdio_eof]
    reports the end exactly when the new position is at or past the end
    of the file (or the stream has an error), and reading goes on from
    the new position. *)
Theorem stbi__stdio_skip_spec f n :
  bytes (f_data f) -> 0 <= f_pos f -> f_unget f = None -> f_eof f = false ->
  let p := if f_pos f + n <? 0 then f_pos f else f_pos f + n in
  let f' := stbi__stdio_skip f n in
  stbi__stdio_eof f' = (if (p <? Z.of_nat (length (f_data f))) && negb (f_err f) then 0 else 1) /\
  forall k, fst (fgetc_n k f') = take k (drop (Z.to_nat p) (f_data f)).
Proof.
  destruct f as [d q u e r]. cbn [f_data f_pos f_unget f_eof f_err]. intros Hd Hq -> ->.
  unfold stbi__stdio_skip, fseek_cur. cbn [f_data f_pos f_err].
  destruct (Z.ltb_spec (q + n) 0); apply peek_spec; (done || lia).
Qed.

(** [C34] [stbi__stdio_read] on a clean stream returns the next [size]
    bytes and their count; a negative [size] converts to a [size_t]
    above [2^63], so the call reads all the rest of the file, whatever
    the room in [data]. *)
Theorem stbi__stdio_read_spec f size :
  bytes (f_data f) -> 0 <= f_pos f -> f_unget f = None -> f_eof f = false ->
  Z.of_nat (length (f_data f)) < 2 ^ 31 ->
  let '(cnt, cs, _) := stbi__stdio_read f size in
  cs = take (Z.to_nat (size mod 2 ^ 64)) (drop (Z.to_nat (f_pos f)) (f_data f)) /\
  cnt = Z.of_nat (length cs).
Proof.
  destruct f as [d q u e r]. cbn [f_data f_pos f_unget f_eof f_err]. intros Hd Hq -> -> Hl.
  unfold stbi__stdio_read. rewrite fread_spec by (apply Z.mod_pos_bound; lia).
  pose proof (fgetc_n_clean (Z.to_nat (size mod 2 ^ 64)) d q r Hd Hq) as E.
  destruct (fgetc_n _ _) as [cs f2]. cbn [fst] in E. subst cs. split; [done|].
  unfold to_int32. rewrite length_take, length_drop.
  rewrite Z.mod_small; lia.
Qed.
End Streams.

(** ** Bits of a 32-bit word *)

Section Rotate.

Lemma testbit_above32 x n : 0 <= x < 2 ^ 32 -> 32 <= n -> Z.testbit x n = false.
Proof. intros Hx Hn. rewrite <- (Z.mod_small x (2 ^ 32)) by lia. apply Z.mod_pow2_bits_high. lia. Qed.

Lemma eq_bits32 a b :
  0 <= a < 2 ^ 32 -> 0 <= b < 2 ^ 32 -> (forall i, 0 <= i < 32 -> Z.testbit a i = Z.testbit b i) -> a = b.
Proof.
  intros Ha Hb Hi. apply Z.bits_inj'. intros n Hn.
  destruct (Z.lt_ge_cases n 32); [apply Hi; lia|]. by rewrite !testbit_above32.
Qed.

Lemma lt_pow32 z : 0 <= z -> (forall i, 32 <= i -> Z.testbit z i = false) -> z < 2 ^ 32.
Proof.
  intros Hz Hb. destruct (Z.lt_ge_cases z (2 ^ 32)) as [|Hge]; [done|].
  assert (Hl : 32 <= Z.log2 z) by (apply Z.log2_le_pow2; lia).
  pose proof (Z.bit_log2 z ltac:(lia)) as Ht. by rewrite Hb in Ht.
Qed.

(** [-(y) & 31] for a shift [0 <= y < 32]. *)
Lemma land_neg31 y : 0 <= y < 32 -> Z.land (- y) 31 = if y =? 0 then 0 else 32 - y.
Proof.
  intros Hy. change 31 with (Z.ones 5). rewrite Z.land_ones by lia.
  destruct (Z.eqb_spec y 0) as [->|]; [done|].
  symmetry. apply (Z.mod_unique _ _ (-1)); [left|]; cbn; lia.
Qed.

(** [(i - y) mod 32] without [mod]. *)
Lemma mod32_sub i y : 0 <= i < 32 -> 0 <= y < 32 -> (i - y) mod 32 = if y <=? i then i - y else i + 32 - y.
Proof.
  intros Hi Hy. destruct (Z.leb_spec y i).
  - apply Z.mod_small. lia.
  - symmetry. apply (Z.mod_unique _ _ (-1)); [left|]; lia.
Qed.

(** [stbi_lrot x y] is defined for [0 <= y < 32], stays a 32-bit value,
    and its bit [i] is bit [(i - y) mod 32] of [x]. *)
Lemma stbi_lrot_bits x y :
  0 <= x < 2 ^ 32 -> 0 <= y < 32 ->
  exists z, stbi_lrot x y = Some z /\ 0 <= z < 2 ^ 32 /\
    forall i, 0 <= i < 32 -> Z.testbit z i = Z.testbit x ((i - y) mod 32).
Proof.
  intros Hx Hy. unfold stbi_lrot. rewrite (proj2 (Z.ltb_ge y 0)), (proj2 (Z.leb_gt 32 y)) by lia.
  cbn [orb]. eexists. split; [reflexivity|]. rewrite land_neg31 by done.
  assert (Hbit : forall i, 0 <= i -> Z.testbit (Z.lor (Z.shiftl x y mod 2 ^ 32)
            (Z.shiftr x (if y =? 0 then 0 else 32 - y))) i =
          if 32 <=? i then false else Z.testbit x ((i - y) mod 32)).
  { intros i Hi. rewrite Z.lor_spec, Z.shiftr_spec by (destruct (y =? 0); lia).
    destruct (Z.leb_spec 32 i).
    - rewrite Z.mod_pow2_bits_high by lia. destruct (y =? 0); apply testbit_above32; lia.
    - rewrite Z.mod_pow2_bits_low, mod32_sub by lia.
      destruct (Z.leb_spec y i), (Z.eqb_spec y 0) as [->|].
      + rewrite Z.shiftl_0_r, Z.add_0_r, Z.sub_0_r. apply orb_diag.
      + rewrite Z.shiftl_spec_high, (testbit_above32 x (i + (32 - y))) by lia. apply orb_false_r.
      + lia.
      + rewrite Z.shiftl_spec_low by lia. cbn [orb]. f_equal. lia. }
  split; [split|].
  - apply Z.lor_nonneg. split; [apply Z.mod_pos_bound; lia|]. apply Z.shiftr_nonneg. lia.
  - apply lt_pow32; [apply Z.lor_nonneg; split; [apply Z.mod_pos_bound; lia|apply Z.shiftr_nonneg; lia]|].
    intros i Hi. rewrite Hbit by lia. by rewrite (proj2 (Z.leb_le 32 i)).
  - intros i Hi. rewrite Hbit by lia. by rewrite (proj2 (Z.leb_gt 32 i)) by lia.
Qed.

(** Rotating a 32-bit word left by [y] and then by [(32 - y) mod 32]
    gives the word back: [stbi_lrot] loses no bit. *)
Theorem stbi_lrot_roundtrip x y :
  0 <= x < 2 ^ 32 -> 0 <= y < 32 ->
  (z ← stbi_lrot x y; stbi_lrot z ((32 - y) mod 32)) = Some x.
Proof.
  intros Hx Hy. destruct (stbi_lrot_bits x y Hx Hy) as (z&Ez&Hz&Bz).
  assert (Hy' : 0 <= (32 - y) mod 32 < 32) by (apply Z.mod_pos_bound; lia).
  destruct (stbi_lrot_bits z _ Hz Hy') as (w&Ew&Hw&Bw).
  rewrite Ez. cbn [mbind option_bind]. rewrite Ew. f_equal.
  apply eq_bits32; [done..|]. intros i Hi. rewrite Bw, Bz by (done || apply Z.mod_pos_bound; lia).
  f_equal. rewrite Zminus_mod_idemp_l.
  replace (i - (32 - y) mod 32 - y) with (i - y - (32 - y) mod 32) by lia.
  rewrite Zminus_mod_idemp_r. replace (i - y - (32 - y)) with (i + (-1) * 32) by lia.
  rewrite Z.mod_add, Z.mod_small by lia. reflexivity.
Qed.
End Rotate.

(** ** Concrete streams *)

(** The eight bytes of the PNG signature, at the start of the file. *)
Definition ex_file : FILE := mkFILE [137; 80; 78; 71; 13; 10; 26; 10] 0 None false false.

Lemma ex_file_bytes : bytes (f_data ex_file).
Proof. unfold bytes. cbn. repeat constructor; lia. Qed.

(** Skipping four bytes and reading three gives [13; 10; 26]; skipping
    past the end sets the end-of-file indicator; a backward skip before
    the start does nothing. *)
Example ex_skip_read :
  fst (fgetc_n 3 (stbi__stdio_skip ex_file 4)) = [13; 10; 26] /\
  stbi__stdio_eof (stbi__stdio_skip ex_file 8) = 1 /\
  stbi__stdio_eof (stbi__stdio_skip ex_file 7) = 0 /\
  fst (fgetc_n 2 (stbi__stdio_skip ex_file (-3))) = [137; 80].
Proof. vm_compute. repeat split. Qed.

(** [stbi__stdio_eof] reports the end only once a read has run into
    it: after reading exactly the eight bytes of the file it still
    returns 0, and a one-byte read that finds nothing sets it. *)
Example ex_eof_late :
  let '(_, _, f1) := stbi__stdio_read ex_file 8 in
  stbi__stdio_eof f1 = 0 /\ reads_left f1 = 0%nat /\
  let '(cnt, _, f2) := stbi__stdio_read f1 1 in cnt = 0 /\ stbi__stdio_eof f2 = 1.
Proof. vm_compute. repeat split. Qed.

(** A read of [-1] bytes takes the whole file. *)
Example ex_read_negative : stbi__stdio_read ex_file (-1) = (8, f_data ex_file, snd (fgetc_n 9 ex_file)).
Proof. vm_compute. reflexivity. Qed.

Lemma stbi__stdio_skip_spec_witness :
  bytes (f_data ex_file) /\ 0 <= f_pos ex_file /\ f_unget ex_file = None /\ f_eof ex_file = false /\
  stbi__stdio_eof (stbi__stdio_skip ex_file 4) =
    (if ((if f_pos ex_file + 4 <? 0 then f_pos ex_file else f_pos ex_file + 4) <?
         Z.of_nat (length (f_data ex_file))) && negb (f_err ex_file) then 0 else 1) /\
  forall k, fst (fgetc_n k (stbi__stdio_skip ex_file 4)) =
    take k (drop (Z.to_nat (if f_pos ex_file + 4 <? 0 then f_pos ex_file else f_pos ex_file + 4))
                 (f_data ex_file)).
Proof.
  assert (Hp : 0 <= f_pos ex_file) by (cbn; lia).
  split; [exact ex_file_bytes|]. split; [exact Hp|]. split; [reflexivity|]. split; [reflexivity|].
  exact (stbi__stdio_skip_spec ex_file 4 ex_file_bytes Hp eq_refl eq_refl).
Defined.

Lemma stbi__stdio_read_spec_witness :
  bytes (f_data ex_file) /\ Z.of_nat (length (f_data ex_file)) < 2 ^ 31 /\
  let '(cnt, cs, _) := stbi__stdio_read ex_file (-1) in
  cs = take (Z.to_nat (-1 mod 2 ^ 64)) (drop (Z.to_nat (f_pos ex_file)) (f_data ex_file)) /\
  cnt = Z.of_nat (length cs).
Proof.
  assert (Hl : Z.of_nat (length (f_data ex_file)) < 2 ^ 31) by (cbn; lia).
  split; [exact ex_file_bytes|]. split; [exact Hl|].
  exact (stbi__stdio_read_spec ex_file (-1) ex_file_bytes ltac:(cbn; lia) eq_refl eq_refl Hl).
Defined.

(** [C35] [stbi_lrot x y] is the left rotation of the 32-bit word [x] by
    [y]: for [0 <= y < 32] it is defined, is a 32-bit word, its bit [i]
    is bit [(i - y) mod 32] of [x] (each bit moves [y] places up, the top
    [y] wrap to the bottom), and rotating it by [(32 - y) mod 32] gives
    [x] back. *)
Theorem stbi_lrot_rotates x y :
  0 <= x < 2 ^ 32 -> 0 <= y < 32 ->
  exists z, stbi_lrot x y = Some z /\ 0 <= z < 2 ^ 32 /\
    (forall i, 0 <= i < 32 -> Z.testbit z i = Z.testbit x ((i - y) mod 32)) /\
    stbi_lrot z ((32 - y) mod 32) = Some x.
Proof.
  intros Hx Hy. destruct (stbi_lrot_bits x y Hx Hy) as (z&Ez&Hz&Bz).
  exists z. do 3 (split; [done|]).
  pose proof (stbi_lrot_roundtrip x y Hx Hy) as Hr. rewrite Ez in Hr. exact Hr.
Qed.

Lemma stbi_lrot_rotates_witness :
  0 <= 2147483649 < 2 ^ 32 /\ 0 <= 1 < 32 /\
  exists z, stbi_lrot 2147483649 1 = Some z /\ 0 <= z < 2 ^ 32 /\
    (forall i, 0 <= i < 32 -> Z.testbit z i = Z.testbit 2147483649 ((i - 1) mod 32)) /\
    stbi_lrot z ((32 - 1) mod 32) = Some 2147483649.
Proof.
  split; [lia|]. split; [lia|]. exact (stbi_lrot_rotates 2147483649 1 ltac:(lia) ltac:(lia)).
Defined.

(** [stbi_lrot 0x80000001 1 = 3], and back. *)
Example ex_lrot : stbi_lrot 2147483649 1 = Some 3 /\ stbi_lrot 3 31 = Some 2147483649.
Proof. vm_compute. split; reflexivity. Qed.


End StbIo.
