(* ===== verification/Layout.v ===== *)
(** * The layout engine of [CityScene] (city_scene.cpp)

    The scene is the record [CityScene] with the members of the class
    that generation touches; the C library generator state is threaded
    beside it.  Every method is a function from the scene (and the
    generator state) to the new scene, in the order
    [generateFuturisticLayout] calls them: roads, buildings, trees,
    lamps, car, pond.  The occupancy grid is used through the
    [Grid.Occupancy] interface, the generator through [Rng.CRand], and
    floats through [FloatModel]. *)

From S2P Require Import Prelude Bresenham Grid Rng.
From Stdlib Require Import QArith.

Open Scope Z_scope.
Open Scope city_scope.

Module Layout.
Import Bresenham Grid Rng.

Section Scene.
Context {F : Type} `{FloatModel F}.
Context {G : Type} `{Occupancy G}.
Context {Rs : Type} `{CRand Rs}.

(** [struct CityConfig] *)
Record CityConfig := mkConfig {
  citySize : Z; numBuildings : Z;
  numSkyscrapers : Z; numTowers : Z; numOfficeBuildings : Z;
  buildingStyle : Z;
  towerWidth : F; towerHeight : F;
  buildingWidth : F; buildingHeight : F;
  skyscraperWidth : F; skyscraperHeight : F;
  pondRadius : F
}.

(** The members of [CityScene] that [init], the layout and [update]
    read or write (meshes and textures are handles of the renderer). *)
Record CityScene := mkScene {
  roadCells : list cell;
  buildingCells : list cell;
  buildingHeights : list F;
  buildingTypes : list Z;
  treeCells : list cell;
  streetLamps : list cell;
  carPosition : cell;
  pond_cx : Z; pond_cy : Z; pond_r : Z;
  config : CityConfig;
  gridSize : Z;
  waterTime : F; ripplePhase : F;
  occupiedGrid : G
}.

(** Member assignments. *)
Definition set_grid (g : G) (sc : CityScene) : CityScene :=
  mkScene (roadCells sc) (buildingCells sc) (buildingHeights sc) (buildingTypes sc)
    (treeCells sc) (streetLamps sc) (carPosition sc) (pond_cx sc) (pond_cy sc)
    (pond_r sc) (config sc) (gridSize sc) (waterTime sc) (ripplePhase sc) g.

Definition set_roads (l : list cell) (sc : CityScene) : CityScene :=
  mkScene l (buildingCells sc) (buildingHeights sc) (buildingTypes sc)
    (treeCells sc) (streetLamps sc) (carPosition sc) (pond_cx sc) (pond_cy sc)
    (pond_r sc) (config sc) (gridSize sc) (waterTime sc) (ripplePhase sc) (occupiedGrid sc).

Definition set_buildings (cs : list cell) (hs : list F) (ts : list Z) (sc : CityScene)
    : CityScene :=
  mkScene (roadCells sc) cs hs ts
    (treeCells sc) (streetLamps sc) (carPosition sc) (pond_cx sc) (pond_cy sc)
    (pond_r sc) (config sc) (gridSize sc) (waterTime sc) (ripplePhase sc) (occupiedGrid sc).

Definition set_trees (l : list cell) (sc : CityScene) : CityScene :=
  mkScene (roadCells sc) (buildingCells sc) (buildingHeights sc) (buildingTypes sc)
    l (streetLamps sc) (carPosition sc) (pond_cx sc) (pond_cy sc)
    (pond_r sc) (config sc) (gridSize sc) (waterTime sc) (ripplePhase sc) (occupiedGrid sc).

Definition set_lamps (l : list cell) (sc : CityScene) : CityScene :=
  mkScene (roadCells sc) (buildingCells sc) (buildingHeights sc) (buildingTypes sc)
    (treeCells sc) l (carPosition sc) (pond_cx sc) (pond_cy sc)
    (pond_r sc) (config sc) (gridSize sc) (waterTime sc) (ripplePhase sc) (occupiedGrid sc).

Definition set_car (c : cell) (sc : CityScene) : CityScene :=
  mkScene (roadCells sc) (buildingCells sc) (buildingHeights sc) (buildingTypes sc)
    (treeCells sc) (streetLamps sc) c (pond_cx sc) (pond_cy sc)
    (pond_r sc) (config sc) (gridSize sc) (waterTime sc) (ripplePhase sc) (occupiedGrid sc).

Definition set_pond (cx cy r : Z) (sc : CityScene) : CityScene :=
  mkScene (roadCells sc) (buildingCells sc) (buildingHeights sc) (buildingTypes sc)
    (treeCells sc) (streetLamps sc) (carPosition sc) cx cy r
    (config sc) (gridSize sc) (waterTime sc) (ripplePhase sc) (occupiedGrid sc).

(** [CityScene::isGridCellFree] and [CityScene::markGridCells] on the
    scene's own grid. *)
Definition isFree (sc : CityScene) (x z size : Z) : bool :=
  isGridCellFree (gridSize sc) (occupiedGrid sc) x z size.

Definition mark (sc : CityScene) (x z size : Z) : CityScene :=
  set_grid (markGridCells (gridSize sc) (occupiedGrid sc) x z size) sc.

(** ** Roads *)

(** [generateFuturisticLayout], lines 127-140: two Bresenham segments
    appended to [roadCells], then every cell of [roadCells] reserved. *)
Definition placeRoads (sc : CityScene) : CityScene :=
  let center := gridSize sc ÷ 2 in
  let road1 := bresenhamLine 5 center (gridSize sc - 5) center in
  let road2 := bresenhamLine center 5 center (gridSize sc - 5) in
  let sc1 := set_roads (roadCells sc ++ road1 ++ road2) sc in
  fold_left (fun sc c => mark sc c.1 c.2 1) (roadCells sc1) sc1.

(** ** Random placement *)

(** The attempt loop shared by buildings and trees:
    [for (attempts = 0; attempts < budget && !validPos; attempts++)
       { x = lo + rand() % span; z = lo + rand() % span;
         if (isGridCellFree(x, z, size)) validPos = true; }]. *)
Fixpoint findFreeCell (budget : nat) (lo span size : Z) (sc : CityScene) (s : Rs)
    : option cell * Rs :=
  match budget with
  | O => (None, s)
  | Datatypes.S k =>
      let '(r1, s1) := rand s in
      let x := lo + Z.rem r1 span in
      let '(r2, s2) := rand s1 in
      let z := lo + Z.rem r2 span in
      if isFree sc x z size then (Some (x, z), s2)
      else findFreeCell k lo span size sc s2
  end.

(** [getFuturisticHeight(type, index)] *)
Definition getFuturisticHeight (cfg : CityConfig) (type : Z) : F :=
  if type =? 0 then skyscraperHeight cfg
  else if type =? 1 then towerHeight cfg
  else if type =? 2 then fl_mul (buildingHeight cfg) (fl_lit 7 10)
  else fl_lit 15 1.

(** The recount loop over [buildingTypes] (lines 208-213):
    skyscrapers, towers, other. *)
Definition countTypes (types : list Z) : Z * Z * Z :=
  fold_left (fun '(sky, tow, bld) t =>
               if t =? 0 then (sky + 1, tow, bld)
               else if t =? 1 then (sky, tow + 1, bld)
               else (sky, tow, bld + 1)) types (0, 0, 0).

(** The type of a newly placed building (lines 201-218). *)
Definition chooseType (cfg : CityConfig) (types : list Z) : Z :=
  if buildingStyle cfg =? 1 then 0
  else if buildingStyle cfg =? 2 then 1
  else let '(sky, tow, _) := countTypes types in
       if sky <? numSkyscrapers cfg then 0
       else if tow <? numTowers cfg then 1
       else 2.

(** One iteration of the building loop. *)
Definition placeBuilding (st : CityScene * Rs) (i : Z) : CityScene * Rs :=
  let '(sc, s) := st in
  let gs := gridSize sc in
  match findFreeCell 100 5 (gs - 10) 5 sc s with
  | (None, s') => (sc, s')
  | (Some (x, z), s') =>
      let sc1 := set_buildings (buildingCells sc ++ [(x, z)]) (buildingHeights sc)
                   (buildingTypes sc) sc in
      let sc2 := mark sc1 x z 5 in
      let type := chooseType (config sc2) (buildingTypes sc2) in
      (set_buildings (buildingCells sc2) (buildingHeights sc2 ++
                       [getFuturisticHeight (config sc2) type])
                     (buildingTypes sc2 ++ [type]) sc2, s')
  end.

(** [placeBuildingsRandomly]: clear, [srand(12345)], one iteration per
    requested building. *)
Definition placeBuildingsRandomly (sc : CityScene) (s : Rs) : CityScene * Rs :=
  let sc0 := set_buildings [] [] [] sc in
  fold_left placeBuilding (seqZ 0 (numBuildings (config sc))) (sc0, srand 12345).

(** One iteration of the tree loop. *)
Definition placeTree (st : CityScene * Rs) (i : Z) : CityScene * Rs :=
  let '(sc, s) := st in
  match findFreeCell 50 3 (gridSize sc - 6) 3 sc s with
  | (None, s') => (sc, s')
  | (Some (x, z), s') => (mark (set_trees (treeCells sc ++ [(x, z)]) sc) x z 3, s')
  end.

(** [placeTrees]: clear, [srand(54321)], [citySize * 8] iterations
    ([citySize] is prompted in [[1, 3]], so the product is an [int]). *)
Definition placeTrees (sc : CityScene) (s : Rs) : CityScene * Rs :=
  fold_left placeTree (seqZ 0 (citySize (config sc) * 8)) (set_trees [] sc, srand 54321).

(** ** Street lamps *)

(** The values of [i] in [for (int i = lo; i < hi; i += step)], for a
    positive [step]. *)
Definition stride (lo hi step : Z) : list Z :=
  map (fun k => lo + step * k) (seqZ 0 ((hi - lo + step - 1) / step)).

(** [if (cond && isGridCellFree(x, z)) { streetLamps.push_back({x, z});
    markGridCells(x, z); }] *)
Definition tryLamp (cond : bool) (sc : CityScene) (x z : Z) : CityScene :=
  if cond && isFree sc x z 1
  then mark (set_lamps (streetLamps sc ++ [(x, z)]) sc) x z 1
  else sc.

Definition lampsAlongH (center : Z) (sc : CityScene) (i : Z) : CityScene :=
  if 3 <? Z.abs (i - center) then
    let sc1 := tryLamp (center + 2 <? gridSize sc) sc i (center + 2) in
    tryLamp (0 <=? center - 2) sc1 i (center - 2)
  else sc.

Definition lampsAlongV (center : Z) (sc : CityScene) (j : Z) : CityScene :=
  if 3 <? Z.abs (j - center) then
    let sc1 := tryLamp (center + 2 <? gridSize sc) sc (center + 2) j in
    tryLamp (0 <=? center - 2) sc1 (center - 2) j
  else sc.

Definition placeStreetLamps (sc : CityScene) : CityScene :=
  let center := gridSize sc ÷ 2 in
  let sc0 := set_lamps [] sc in
  let sc1 := fold_left (lampsAlongH center) (stride 8 (gridSize sc - 8) 6) sc0 in
  fold_left (lampsAlongV center) (stride 8 (gridSize sc1 - 8) 6) sc1.

(** [placeRandomCar] *)
Definition placeRandomCar (sc : CityScene) : CityScene :=
  let center := gridSize sc ÷ 2 in set_car (center - 5, center) sc.

(** ** Pond *)

(** Lines 155-169: the pond's center and radius, then every grid cell
    of the clipped bounding box with [dx*dx + dy*dy <= r*r].  The
    arithmetic is unbounded; it is the code's [int] arithmetic for a
    radius up to [46340] ([SceneInit.markPond_fits_int]), beyond which
    [pond_r*pond_r] overflows. *)
Definition markPond (sc : CityScene) : CityScene :=
  let center := gridSize sc ÷ 2 in
  let cx := center + 8 in
  let cy := center - 8 in
  let r := fl_trunc (pondRadius (config sc)) in
  let gs := gridSize sc in
  let g := fold_left (fun g i =>
             fold_left (fun g j =>
               if ((i - cx) * (i - cx) + (j - cy) * (j - cy) <=? r * r) &&
                  in_bounds gs i j
               then grid_set g i j else g)
               (Z.max 0 (cy - r) ..= Z.min (gs - 1) (cy + r)) g)
             (Z.max 0 (cx - r) ..= Z.min (gs - 1) (cx + r)) (occupiedGrid sc) in
  set_grid g (set_pond cx cy r sc).

(** [generateFuturisticLayout] *)
Definition generateFuturisticLayout (sc : CityScene) (s : Rs) : CityScene * Rs :=
  let sc1 := placeRoads sc in
  let '(sc2, s2) := placeBuildingsRandomly sc1 s in
  let '(sc3, s3) := placeTrees sc2 s2 in
  let sc4 := placeStreetLamps sc3 in
  let sc5 := placeRandomCar sc4 in
  (markPond sc5, s3).

(** [gridSize = (citySize == 1) ? 50 : (citySize == 2) ? 70 : 100;] *)
Definition gridSizeFor (citySize : Z) : Z :=
  if citySize =? 1 then 50 else if citySize =? 2 then 70 else 100.

(** [init] up to the layout: the configuration, the grid size and a
    fresh all-free grid; the other members keep their values. *)
Definition initScene (sc : CityScene) (cfg : CityConfig) : CityScene :=
  let gs := gridSizeFor (citySize cfg) in
  mkScene (roadCells sc) (buildingCells sc) (buildingHeights sc)
    (buildingTypes sc) (treeCells sc) (streetLamps sc) (carPosition sc)
    (pond_cx sc) (pond_cy sc) (pond_r sc) cfg gs
    (waterTime sc) (ripplePhase sc) (grid_alloc gs).

(** [waterTime = 0.0f; ripplePhase = 0.0f;] *)
Definition resetTimers (sc : CityScene) : CityScene :=
  mkScene (roadCells sc) (buildingCells sc) (buildingHeights sc)
    (buildingTypes sc) (treeCells sc) (streetLamps sc) (carPosition sc)
    (pond_cx sc) (pond_cy sc) (pond_r sc) (config sc) (gridSize sc)
    (fl_lit 0 1) (fl_lit 0 1) (occupiedGrid sc).

(** [init(citySize, numBuildings, buildingStyle, towerW, towerH,
    buildingW, buildingH, skyW, skyH, pondR, numSky, numTow, numOff)]:
    the configuration, the grid, the layout and the animation timers
    (mesh creation and texture loading are not part of the model); it
    always returns [true]. *)
Definition init (sc : CityScene) (s : Rs)
    (citySize numBuildings buildingStyle : Z) (towerW towerH buildingW buildingH skyW skyH
    pondR : F) (numSky numTow numOff : Z) : CityScene * Rs :=
  let cfg := mkConfig citySize numBuildings numSky numTow numOff buildingStyle
               towerW towerH buildingW buildingH skyW skyH pondR in
  let '(sc2, s2) := generateFuturisticLayout (initScene sc cfg) s in
  (resetTimers sc2, s2).

(** [update(dt)]: [waterTime += dt * 2.0f; ripplePhase += dt * 3.0f;] *)
Definition update (sc : CityScene) (dt : F) : CityScene :=
  mkScene (roadCells sc) (buildingCells sc) (buildingHeights sc) (buildingTypes sc)
    (treeCells sc) (streetLamps sc) (carPosition sc) (pond_cx sc) (pond_cy sc)
    (pond_r sc) (config sc) (gridSize sc)
    (fl_add (waterTime sc) (fl_mul dt (fl_lit 2 1)))
    (fl_add (ripplePhase sc) (fl_mul dt (fl_lit 3 1))) (occupiedGrid sc).
End Scene.

Arguments CityConfig F : clear implicits.
Arguments CityScene F G : clear implicits.

(** Reduces the member accessors of the scene through the setters. *)
Ltac scene_simpl :=
  cbn [roadCells buildingCells buildingHeights buildingTypes treeCells streetLamps
       carPosition pond_cx pond_cy pond_r config gridSize waterTime ripplePhase
       occupiedGrid set_grid set_roads set_buildings set_trees set_lamps set_car
       set_pond mark isFree initScene resetTimers fst snd] in *.

(** ** Concrete instances for evaluation *)

(** A default-constructed [CityScene]: empty vectors; the scalar members
    are not initialized by the code and are zero here. *)
Definition freshScene : CityScene Q (list (list bool)) :=
  mkScene [] [] [] [] [] [] (0, 0) 0 0 0
    (mkConfig 0 0 0 0 0 0 0%Q 0%Q 0%Q 0%Q 0%Q 0%Q 0%Q) 0 0%Q 0%Q [].

End Layout.
