(* ===== verification/LayoutFacts.v ===== *)
(** * Invariants and behaviour of the layout engine

    The cells the placed features occupy ([placed]: the 5x5 building
    footprints, the 3x3 tree footprints, the lamp cells) are tracked
    against the grid by [cells_inv]: the grid is well formed, no cell is
    claimed twice, every claimed cell is inside the grid and reserved,
    no claimed cell is a road cell, and every road cell inside the grid
    is reserved.  Every phase of [generateFuturisticLayout] preserves it,
    because every placement is guarded by [isGridCellFree] and followed by
    [markGridCells].  The file also proves the frame facts of each phase,
    the road and car positions, the building types and heights, and the
    pond reservation. *)

From S2P Require Import Prelude Bresenham Grid Rng Layout.

Open Scope Z_scope.
Open Scope city_scope.
#[local] Set Warnings "-clear-no-such-hyp".

Module LayoutFacts.
Import Bresenham Grid Rng Layout.

Lemma NoDup_list_prod {A B} (xs : list A) (ys : list B) :
  NoDup xs -> NoDup ys -> NoDup (list_prod xs ys).
Proof.
  intros Hx Hy. induction Hx as [|x xs Hnx Hx IH]; simpl; [constructor|].
  apply NoDup_app. split; [apply NoDup_fmap_2; [intros ?? [=]; done|done]|].
  split; [|done]. intros [a b] Ha Hb.
  apply list_elem_of_In, in_map_iff in Ha as (y&[= <- <-]&_).
  apply list_elem_of_In, in_prod_iff in Hb as [Hb _]. by apply Hnx, list_elem_of_In.
Qed.

Lemma NoDup_footprint x z size : NoDup (footprint x z size).
Proof. apply NoDup_list_prod; apply NoDup_seqZ. Qed.

Section CellsInv.
Context `{OccupancyLaws G}.

(** The claimed cells [P] are distinct, inside the grid and reserved,
    off the roads, and the in-bounds road cells are reserved. *)
Definition cells_inv (gs : Z) (g : G) (roads P : list cell) : Prop :=
  grid_wf gs g /\ NoDup P /\
  (forall c, c ∈ P -> in_bounds gs c.1 c.2 = true /\ grid_get g c.1 c.2 = true) /\
  (forall c, c ∈ P -> c ∉ roads) /\
  (forall c, c ∈ roads -> in_bounds gs c.1 c.2 = true -> grid_get g c.1 c.2 = true).

Lemma cells_inv_perm gs g roads P P' :
  P ≡ₚ P' -> cells_inv gs g roads P -> cells_inv gs g roads P'.
Proof.
  intros Hp (Hwf&Hnd&Hin&Hoff&Hr). split; [done|]. rewrite <- Hp. split; [done|].
  setoid_rewrite <- Hp. done.
Qed.

Lemma cells_inv_drop gs g roads P Q :
  cells_inv gs g roads (P ++ Q) -> cells_inv gs g roads Q.
Proof.
  intros (Hwf&Hnd&Hin&Hoff&Hr). apply NoDup_app in Hnd as (_&_&Hnd).
  split; [done|]. split; [done|]. split; [|split; [|done]].
  - intros c Hc. apply Hin. set_solver.
  - intros c Hc. apply Hoff. set_solver.
Qed.

(** Reserving more cells keeps the invariant. *)
Lemma cells_inv_set gs g roads P i j :
  in_bounds gs i j = true -> cells_inv gs g roads P -> cells_inv gs (grid_set g i j) roads P.
Proof.
  intros Hb (Hwf&Hnd&Hin&Hoff&Hr). split; [by apply grid_set_wf|]. split; [done|].
  split; [|split; [done|]].
  - intros c Hc. destruct (Hin c Hc) as [Hcb Hg]. split; [done|].
    rewrite (grid_get_set gs g i j) by done. rewrite Hg. apply orb_true_r.
  - intros c Hc Hcb. rewrite (grid_get_set gs g i j) by done. rewrite Hr by done.
    apply orb_true_r.
Qed.

Lemma cells_inv_mark gs g roads P x z size :
  cells_inv gs g roads P -> cells_inv gs (markGridCells gs g x z size) roads P.
Proof.
  intros (Hwf&Hnd&Hin&Hoff&Hr). destruct (markGridCells_spec gs g x z size Hwf) as [Hwf' Hg].
  split; [done|]. split; [done|]. split; [|split; [done|]].
  - intros c Hc. destruct (Hin c Hc) as [Hcb Hget]. split; [done|].
    rewrite Hg, Hget by done. done.
  - intros c Hc Hcb. rewrite Hg, Hr by done. done.
Qed.

(** A placement guarded by [isGridCellFree] and followed by
    [markGridCells] extends the claimed cells with the footprint. *)
Lemma cells_inv_place gs g roads P x z size :
  cells_inv gs g roads P -> isGridCellFree gs g x z size = true ->
  cells_inv gs (markGridCells gs g x z size) roads (P ++ footprint x z size).
Proof.
  intros HI Hfree. pose proof (cells_inv_mark gs g roads P x z size HI) as HI'.
  destruct HI as (Hwf&Hnd&Hin&Hoff&Hr).
  destruct HI' as (Hwf'&_&Hin'&_&Hr').
  destruct (markGridCells_spec gs g x z size Hwf) as [_ Hg].
  rewrite isGridCellFree_spec in Hfree.
  split; [done|]. split; [|split; [|split; [|done]]].
  - apply NoDup_app. split; [done|]. split; [|apply NoDup_footprint].
    intros [a b] Ha Hb. destruct (Hfree a b Hb) as [_ Hf].
    destruct (Hin _ Ha) as [_ Ht]. simpl in Ht. congruence.
  - intros [a b] Hc. apply elem_of_app in Hc as [Hc|Hc]; [by apply Hin'|].
    destruct (Hfree a b Hc) as [Hb _]. split; [done|]. simpl.
    rewrite Hg, bool_decide_true by done. apply orb_true_r.
  - intros [a b] Hc. apply elem_of_app in Hc as [Hc|Hc]; [by apply Hoff|].
    intros Hroad. destruct (Hfree a b Hc) as [Hb Hf].
    specialize (Hr _ Hroad Hb). simpl in Hr. congruence.
Qed.
End CellsInv.

Section SceneInv.
Context {F : Type} `{FloatModel F}.
Context `{OccupancyLaws G}.
Context {Rs : Type} `{CRand Rs}.
Implicit Types sc : CityScene F G.

(** The cells claimed by the buildings (5 x 5), the trees (3 x 3) and
    the lamps (1 x 1). *)
Definition bplaced sc : list cell := flat_map (fun c => footprint c.1 c.2 5) (buildingCells sc).
Definition tplaced sc : list cell := flat_map (fun c => footprint c.1 c.2 3) (treeCells sc).
Definition lplaced sc : list cell := flat_map (fun c => footprint c.1 c.2 1) (streetLamps sc).
Definition placed sc : list cell := bplaced sc ++ tplaced sc ++ lplaced sc.

(** The invariant after each phase of the layout: the roads reserved,
    then the buildings, then the trees, then every feature.  The
    features of the later phases are not counted before their phase
    clears and refills them. *)
Definition roads_inv sc : Prop :=
  cells_inv (gridSize sc) (occupiedGrid sc) (roadCells sc) [].
Definition binv sc : Prop :=
  cells_inv (gridSize sc) (occupiedGrid sc) (roadCells sc) (bplaced sc).
Definition tinv sc : Prop :=
  cells_inv (gridSize sc) (occupiedGrid sc) (roadCells sc) (bplaced sc ++ tplaced sc).
Definition scene_inv sc : Prop :=
  cells_inv (gridSize sc) (occupiedGrid sc) (roadCells sc) (placed sc).

(** The members a phase of the layout does not change. *)
Definition frame sc sc' : Prop :=
  roadCells sc' = roadCells sc /\ gridSize sc' = gridSize sc /\ config sc' = config sc.

Lemma frame_refl sc : frame sc sc.
Proof. done. Qed.

Lemma frame_trans sc1 sc2 sc3 : frame sc1 sc2 -> frame sc2 sc3 -> frame sc1 sc3.
Proof. intros (?&?&?) (?&?&?). unfold frame. split; [congruence|split; congruence]. Qed.

(** A successful search returns a free square. *)
Lemma findFreeCell_free budget lo span size sc s x z s' :
  findFreeCell budget lo span size sc s = (Some (x, z), s') ->
  isFree sc x z size = true.
Proof.
  revert s; induction budget as [|k IH]; intros s Hf; cbn [findFreeCell] in Hf; [done|].
  destruct (rand s) as [r1 s1]. destruct (rand s1) as [r2 s2].
  destruct (isFree sc (lo + Z.rem r1 span) (lo + Z.rem r2 span) size) eqn:E; [|eauto].
  injection Hf as Hx Hz _. rewrite <- Hx, <- Hz. exact E.
Qed.

(** ** Buildings *)

Lemma placeBuilding_frame st i : frame (fst st) (fst (placeBuilding st i)).
Proof.
  destruct st as [sc s]. unfold placeBuilding.
  destruct (findFreeCell _ _ _ _ _ _) as [[[x z]|] s']; done.
Qed.

Lemma placeBuilding_inv st i : binv (fst st) -> binv (fst (placeBuilding st i)).
Proof.
  destruct st as [sc s]. unfold placeBuilding.
  destruct (findFreeCell _ _ _ _ _ _) as [[[x z]|] s'] eqn:Ef; [|done].
  apply findFreeCell_free in Ef. unfold binv, bplaced. scene_simpl. intros HI.
  rewrite flat_map_app. cbn [flat_map]. rewrite app_nil_r.
  exact (cells_inv_place _ _ _ _ x z 5 HI Ef).
Qed.

Lemma placeBuildingsRandomly_frame sc s : frame sc (fst (placeBuildingsRandomly sc s)).
Proof.
  unfold placeBuildingsRandomly.
  apply (fold_left_preserve (fun st => frame sc (fst st))); [|done].
  intros st i _ Hf. eapply frame_trans; [exact Hf | apply placeBuilding_frame].
Qed.

Lemma placeBuildingsRandomly_inv sc s :
  roads_inv sc -> binv (fst (placeBuildingsRandomly sc s)).
Proof.
  intros HI. unfold placeBuildingsRandomly.
  apply (fold_left_preserve (fun st => binv (fst st))).
  - intros st i _. apply placeBuilding_inv.
  - exact HI.
Qed.

(** ** Trees *)

Lemma placeTree_frame st i : frame (fst st) (fst (placeTree st i)).
Proof.
  destruct st as [sc s]. unfold placeTree.
  destruct (findFreeCell _ _ _ _ _ _) as [[[x z]|] s']; done.
Qed.

Lemma placeTree_inv st i : tinv (fst st) -> tinv (fst (placeTree st i)).
Proof.
  destruct st as [sc s]. unfold placeTree.
  destruct (findFreeCell _ _ _ _ _ _) as [[[x z]|] s'] eqn:Ef; [|done].
  apply findFreeCell_free in Ef. unfold tinv, bplaced, tplaced. scene_simpl. intros HI.
  rewrite flat_map_app. cbn [flat_map]. rewrite app_nil_r, app_assoc.
  exact (cells_inv_place _ _ _ _ x z 3 HI Ef).
Qed.

Lemma placeTrees_frame sc s : frame sc (fst (placeTrees sc s)).
Proof.
  unfold placeTrees.
  apply (fold_left_preserve (fun st => frame sc (fst st))); [|done].
  intros st i _ Hf. eapply frame_trans; [exact Hf | apply placeTree_frame].
Qed.

Lemma placeTrees_inv sc s : binv sc -> tinv (fst (placeTrees sc s)).
Proof.
  intros HI. unfold placeTrees.
  apply (fold_left_preserve (fun st => tinv (fst st))).
  - intros st i _. apply placeTree_inv.
  - unfold tinv, binv, tplaced in *. scene_simpl. by rewrite app_nil_r.
Qed.
(** ** Street lamps *)

Lemma tryLamp_frame cond sc x z : frame sc (tryLamp cond sc x z).
Proof. unfold tryLamp. by destruct (cond && _). Qed.

Lemma tryLamp_inv cond sc x z : scene_inv sc -> scene_inv (tryLamp cond sc x z).
Proof.
  unfold tryLamp. destruct (cond && isFree sc x z 1) eqn:Ec; [|done].
  apply andb_true_iff in Ec as [_ Ef].
  unfold scene_inv, placed, lplaced. scene_simpl. intros HI.
  rewrite flat_map_app. cbn [flat_map]. rewrite app_nil_r, !app_assoc.
  rewrite !app_assoc in HI. exact (cells_inv_place _ _ _ _ x z 1 HI Ef).
Qed.

Lemma lampsAlongH_frame center sc i : frame sc (lampsAlongH center sc i).
Proof.
  unfold lampsAlongH. destruct (3 <? _); [|done].
  eapply frame_trans; apply tryLamp_frame.
Qed.

Lemma lampsAlongV_frame center sc j : frame sc (lampsAlongV center sc j).
Proof.
  unfold lampsAlongV. destruct (3 <? _); [|done].
  eapply frame_trans; apply tryLamp_frame.
Qed.

Lemma placeStreetLamps_frame sc : frame sc (placeStreetLamps sc).
Proof.
  unfold placeStreetLamps.
  assert (Hh : frame sc (fold_left (lampsAlongH (gridSize sc ÷ 2))
                            (stride 8 (gridSize sc - 8) 6) (set_lamps [] sc))).
  { apply (fold_left_preserve (frame sc)); [|done].
    intros sc' i _ Hf. eapply frame_trans; [exact Hf|apply lampsAlongH_frame]. }
  apply (fold_left_preserve (frame sc)); [|exact Hh].
  intros sc' j _ Hf. eapply frame_trans; [exact Hf|apply lampsAlongV_frame].
Qed.

Lemma placeStreetLamps_inv sc : tinv sc -> scene_inv (placeStreetLamps sc).
Proof.
  intros HI. unfold placeStreetLamps.
  apply fold_left_preserve.
  { intros sc' j _ Hj. unfold lampsAlongV. destruct (3 <? _); [|done].
    by apply tryLamp_inv, tryLamp_inv. }
  apply fold_left_preserve.
  { intros sc' i _ Hi. unfold lampsAlongH. destruct (3 <? _); [|done].
    by apply tryLamp_inv, tryLamp_inv. }
  unfold scene_inv, tinv, placed, lplaced in *. scene_simpl.
  by rewrite app_nil_r.
Qed.

(** ** Car and pond *)

Lemma placeRandomCar_frame sc : frame sc (placeRandomCar sc).
Proof. done. Qed.

Lemma placeRandomCar_inv sc : scene_inv sc -> scene_inv (placeRandomCar sc).
Proof. done. Qed.

Lemma markPond_frame sc : frame sc (markPond sc).
Proof. done. Qed.

Lemma markPond_inv sc : scene_inv sc -> scene_inv (markPond sc).
Proof.
  unfold scene_inv, placed, bplaced, tplaced, lplaced, markPond. scene_simpl. intros HI.
  apply fold_left_preserve; [|done]. intros g i _ Hg.
  apply fold_left_preserve; [|done]. intros g' j _ Hg'.
  destruct (_ && in_bounds _ i j) eqn:Eb; [|done].
  apply andb_true_iff in Eb as [_ Eb]. by apply cells_inv_set.
Qed.
(** ** Roads *)

Lemma mark_cells_set_grid (L : list cell) sc :
  fold_left (fun sc c => mark sc c.1 c.2 1) L sc =
  set_grid (fold_left (fun g c => markGridCells (gridSize sc) g c.1 c.2 1) L
              (occupiedGrid sc)) sc.
Proof.
  revert sc; induction L as [|c L IH]; intros sc; [by destruct sc|].
  cbn [fold_left]. rewrite IH. reflexivity.
Qed.

(** Reserving a list of single cells keeps the grid well formed, keeps
    reserved cells reserved and reserves every in-bounds cell of the
    list. *)
Lemma mark_cells_spec gs (g : G) (L : list cell) :
  grid_wf gs g ->
  let g' := fold_left (fun g c => markGridCells gs g c.1 c.2 1) L g in
  grid_wf gs g' /\
  (forall a b, in_bounds gs a b = true -> grid_get g a b = true -> grid_get g' a b = true) /\
  (forall c, c ∈ L -> in_bounds gs c.1 c.2 = true -> grid_get g' c.1 c.2 = true).
Proof.
  revert g; induction L as [|[x z] L IH]; intros g Hwf; cbn [fold_left].
  - split; [done|]. split; [done|]. set_solver.
  - destruct (markGridCells_spec gs g x z 1 Hwf) as [Hwf1 Hg1].
    destruct (IH _ Hwf1) as (Hwf2&Hmono&Hin). split; [done|]. split.
    + intros a b Hb Hg. apply Hmono; [done|]. rewrite Hg1, Hg by done. done.
    + intros c Hc Hb. apply elem_of_cons in Hc as [->|Hc]; [|by apply Hin].
      apply Hmono; [done|]. cbn [fst snd]. rewrite Hg1 by done.
      rewrite bool_decide_true; [apply orb_true_r|].
      apply elem_of_footprint. change (1 ÷ 2) with 0. lia.
Qed.

Lemma placeRoads_spec sc :
  grid_wf (gridSize sc) (occupiedGrid sc) ->
  let center := gridSize sc ÷ 2 in
  roadCells (placeRoads sc) =
    roadCells sc ++ bresenhamLine 5 center (gridSize sc - 5) center ++
    bresenhamLine center 5 center (gridSize sc - 5) /\
  gridSize (placeRoads sc) = gridSize sc /\ config (placeRoads sc) = config sc /\
  grid_wf (gridSize sc) (occupiedGrid (placeRoads sc)) /\
  (forall c, c ∈ roadCells (placeRoads sc) -> in_bounds (gridSize sc) c.1 c.2 = true ->
             grid_get (occupiedGrid (placeRoads sc)) c.1 c.2 = true).
Proof.
  intros Hwf center. unfold placeRoads. rewrite mark_cells_set_grid.
  scene_simpl. destruct (mark_cells_spec _ _ (roadCells sc ++
    bresenhamLine 5 (gridSize sc ÷ 2) (gridSize sc - 5) (gridSize sc ÷ 2) ++
    bresenhamLine (gridSize sc ÷ 2) 5 (gridSize sc ÷ 2) (gridSize sc - 5)) Hwf)
    as (Hwf'&_&Hin).
  repeat split; try done.
Qed.

(** After the roads, the road cells are reserved and nothing else is
    claimed. *)
Lemma placeRoads_inv sc :
  grid_wf (gridSize sc) (occupiedGrid sc) -> roads_inv (placeRoads sc).
Proof.
  intros Hwf. destruct (placeRoads_spec sc Hwf) as (_&Hgs&_&Hwf'&Hin).
  unfold roads_inv. rewrite Hgs. split; [done|]. split; [constructor|].
  split; [set_solver|]. split; [set_solver|]. exact Hin.
Qed.

(** The whole layout keeps the invariant, starting from any scene with
    a well-formed grid: each phase clears the members it fills. *)
Lemma generate_inv sc s :
  grid_wf (gridSize sc) (occupiedGrid sc) ->
  scene_inv (fst (generateFuturisticLayout sc s)).
Proof.
  intros Hwf%placeRoads_inv. unfold generateFuturisticLayout.
  pose proof (placeBuildingsRandomly_inv _ s Hwf) as HI2.
  destruct (placeBuildingsRandomly (placeRoads sc) s) as [sc2 s2].
  pose proof (placeTrees_inv sc2 s2 HI2) as HI3.
  destruct (placeTrees sc2 s2) as [sc3 s3]. cbn [fst] in *.
  apply markPond_inv, placeRandomCar_inv, placeStreetLamps_inv. exact HI3.
Qed.
(** ** Building types and heights *)

(** The number of entries of a list that [p] accepts. *)
Definition count_of (p : Z -> bool) (types : list Z) : Z := Z.of_nat (length (List.filter p types)).

(** [C24] The recount loop of [placeBuilding] counts: [countTypes] is the
    number of skyscrapers (type 0), of towers (type 1) and of the other
    types, each a filter of the list. *)
Theorem countTypes_count types :
  countTypes types = (count_of (fun t => t =? 0) types, count_of (fun t => t =? 1) types,
                      count_of (fun t => negb (t =? 0) && negb (t =? 1)) types).
Proof.
  unfold countTypes, count_of. induction types as [|x l IH] using rev_ind; [done|].
  rewrite fold_left_app, IH. cbn [fold_left]. rewrite !List.filter_app, !length_app.
  cbn [List.filter]. destruct (Z.eqb_spec x 0), (Z.eqb_spec x 1); cbn [length negb andb]; f_equal; try f_equal; lia.
Qed.

(** The type the [k]-th placed building receives: by style, and for the
    mixed style by quota in the order skyscraper, tower, office. *)
Definition quotaType (cfg : CityConfig F) (k : Z) : Z :=
  if buildingStyle cfg =? 1 then 0
  else if buildingStyle cfg =? 2 then 1
  else if k <? Z.max 0 (numSkyscrapers cfg) then 0
  else if k <? Z.max 0 (numSkyscrapers cfg) + numTowers cfg then 1
  else 2.

Lemma countTypes_quota cfg (k : nat) :
  buildingStyle cfg <> 1 -> buildingStyle cfg <> 2 ->
  let '(sky, tow, _) := countTypes (map (quotaType cfg) (seqZ 0 (Z.of_nat k))) in
  sky = Z.min (Z.of_nat k) (Z.max 0 (numSkyscrapers cfg)) /\
  tow = Z.max 0 (Z.min (Z.of_nat k - Z.max 0 (numSkyscrapers cfg)) (numTowers cfg)).
Proof.
  intros Hn1 Hn2. unfold countTypes. induction k as [|k IH].
  - simpl. lia.
  - rewrite seqZ_S, map_app, fold_left_app.
    destruct (fold_left _ _ (0, 0, 0)) as [[sky tow] bld]. destruct IH as [-> ->].
    cbn [map fold_left]. unfold quotaType.
    rewrite <- Z.eqb_neq in Hn1, Hn2. rewrite Hn1, Hn2. zcase; lia.
Qed.

Lemma chooseType_quota cfg types :
  types = map (quotaType cfg) (seqZ 0 (Z.of_nat (length types))) ->
  chooseType cfg types = quotaType cfg (Z.of_nat (length types)).
Proof.
  intros Ht. unfold chooseType, quotaType.
  destruct (Z.eqb_spec (buildingStyle cfg) 1); [done|].
  destruct (Z.eqb_spec (buildingStyle cfg) 2); [done|].
  pose proof (countTypes_quota cfg (length types) ltac:(done) ltac:(done)) as Hc.
  rewrite <- Ht in Hc. destruct (countTypes types) as [[sky tow] bld].
  destruct Hc as [-> ->]. zcase; lia.
Qed.

(** The building members: one type and one height per placed
    building, the types following [quotaType], the heights given by
    [getFuturisticHeight]. *)
Definition buildings_inv (cfg : CityConfig F) sc : Prop :=
  config sc = cfg /\
  length (buildingTypes sc) = length (buildingCells sc) /\
  buildingTypes sc = map (quotaType cfg) (seqZ 0 (Z.of_nat (length (buildingTypes sc)))) /\
  buildingHeights sc = map (getFuturisticHeight cfg) (buildingTypes sc).

Lemma placeBuilding_buildings cfg st i :
  buildings_inv cfg (fst st) -> buildings_inv cfg (fst (placeBuilding st i)).
Proof.
  destruct st as [sc s]. unfold placeBuilding.
  destruct (findFreeCell _ _ _ _ _ _) as [[[x z]|] s']; [|done].
  unfold buildings_inv. scene_simpl. intros (Hc&Hl&Ht&Hh).
  rewrite Hc, (chooseType_quota cfg (buildingTypes sc) Ht).
  rewrite !length_app, Hl. cbn [length]. split; [done|]. split; [done|]. split.
  - rewrite Nat2Z.inj_add, seqZ_app by lia. rewrite map_app. rewrite <- Hl, <- Ht.
    cbn [Z.of_nat]. rewrite seqZ_cons, seqZ_nil by lia. simpl. repeat f_equal; lia.
  - rewrite Hh, map_app. done.
Qed.

Lemma placeBuildingsRandomly_buildings sc s :
  buildings_inv (config sc) (fst (placeBuildingsRandomly sc s)).
Proof.
  unfold placeBuildingsRandomly.
  apply (fold_left_preserve (fun st => buildings_inv (config sc) (fst st))).
  - intros st i _. by apply placeBuilding_buildings.
  - done.
Qed.

(** Each iteration places at most one building. *)
Lemma placeBuildingsRandomly_count sc s :
  (length (buildingCells (fst (placeBuildingsRandomly sc s))) <=
     Z.to_nat (numBuildings (config sc)))%nat.
Proof.
  unfold placeBuildingsRandomly. rewrite <- (length_seqZ 0 (numBuildings (config sc))).
  generalize (seqZ 0 (numBuildings (config sc))) as l.
  assert (Hstep : forall st i, (length (buildingCells (fst (placeBuilding st i))) <=
                                S (length (buildingCells (fst st))))%nat).
  { intros [sc' s'] i. unfold placeBuilding.
    destruct (findFreeCell _ _ _ _ _ _) as [[[x z]|] s'']; scene_simpl;
      [rewrite length_app; simpl|]; lia. }
  intros l. assert (Hgen : forall st, (length (buildingCells (fst (fold_left placeBuilding l st)))
                                 <= length l + length (buildingCells (fst st)))%nat).
  { induction l as [|i l IH]; intros st; simpl; [lia|].
    specialize (IH (placeBuilding st i)). specialize (Hstep st i). lia. }
  specialize (Hgen (set_buildings [] [] [] sc, srand 12345)). scene_simpl. simpl in Hgen. lia.
Qed.

(** The phases after the buildings leave the building members alone. *)
Definition bframe sc sc' : Prop :=
  buildingCells sc' = buildingCells sc /\ buildingHeights sc' = buildingHeights sc /\
  buildingTypes sc' = buildingTypes sc /\ config sc' = config sc.

Lemma bframe_trans sc1 sc2 sc3 : bframe sc1 sc2 -> bframe sc2 sc3 -> bframe sc1 sc3.
Proof. intros (?&?&?&?) (?&?&?&?). unfold bframe. repeat split; congruence. Qed.

Lemma placeTrees_bframe sc s : bframe sc (fst (placeTrees sc s)).
Proof.
  unfold placeTrees. apply (fold_left_preserve (fun st => bframe sc (fst st))); [|done].
  intros [sc' s'] i _ Hb. eapply bframe_trans; [exact Hb|]. unfold placeTree.
  destruct (findFreeCell _ _ _ _ _ _) as [[[x z]|] s'']; done.
Qed.

Lemma placeStreetLamps_bframe sc : bframe sc (placeStreetLamps sc).
Proof.
  assert (Ht : forall c sc' x z, bframe sc' (tryLamp c sc' x z))
    by (intros; unfold tryLamp; by destruct (_ && _)).
  unfold placeStreetLamps. apply fold_left_preserve.
  { intros sc' j _ Hb. eapply bframe_trans; [exact Hb|]. unfold lampsAlongV.
    destruct (3 <? _); [|done]. eapply bframe_trans; apply Ht. }
  apply fold_left_preserve; [|done].
  intros sc' i _ Hb. eapply bframe_trans; [exact Hb|]. unfold lampsAlongH.
  destruct (3 <? _); [|done]. eapply bframe_trans; apply Ht.
Qed.
(** ** Lamp positions *)

(** A lamp two cells beside the horizontal road, or beside the vertical
    one, more than three cells from the crossing. *)
Definition lamp_pos (center : Z) (l : cell) : Prop :=
  ((l.2 = center + 2 \/ l.2 = center - 2) /\ 3 < Z.abs (l.1 - center)) \/
  ((l.1 = center + 2 \/ l.1 = center - 2) /\ 3 < Z.abs (l.2 - center)).

Lemma tryLamp_pos center cond sc x z :
  (cond = true -> lamp_pos center (x, z)) ->
  Forall (lamp_pos center) (streetLamps sc) ->
  Forall (lamp_pos center) (streetLamps (tryLamp cond sc x z)).
Proof.
  intros Hp Hl. unfold tryLamp. destruct cond; [|done]. cbn [andb].
  destruct (isFree sc x z 1); [|done]. scene_simpl.
  apply Forall_app. split; [done|]. apply Forall_singleton. by apply Hp.
Qed.

Lemma placeStreetLamps_pos sc :
  Forall (lamp_pos (gridSize sc ÷ 2)) (streetLamps (placeStreetLamps sc)).
Proof.
  unfold placeStreetLamps. set (c := gridSize sc ÷ 2).
  apply fold_left_preserve.
  { intros sc' j _ Hl. unfold lampsAlongV.
    destruct (Z.ltb_spec 3 (Z.abs (j - c))) as [Hj|]; [|done].
    apply tryLamp_pos; [intros _; right; cbn; lia|].
    apply tryLamp_pos; [intros _; right; cbn; lia|done]. }
  apply fold_left_preserve; [|constructor].
  intros sc' i _ Hl. unfold lampsAlongH.
  destruct (Z.ltb_spec 3 (Z.abs (i - c))) as [Hi|]; [|done].
  apply tryLamp_pos; [intros _; left; cbn; lia|].
  apply tryLamp_pos; [intros _; left; cbn; lia|done].
Qed.

(** ** The pond *)

(** One guarded [occupiedGrid[i][j] = true] per cell of a rectangle. *)
Lemma guarded_sets_spec gs (g : G) (P : Z -> Z -> bool) (xs ys : list Z) :
  grid_wf gs g ->
  let g' := fold_left (fun g i => fold_left (fun g j =>
              if P i j && in_bounds gs i j then grid_set g i j else g) ys g) xs g in
  grid_wf gs g' /\
  (forall a b, in_bounds gs a b = true -> grid_get g a b = true -> grid_get g' a b = true) /\
  (forall a b, a ∈ xs -> b ∈ ys -> P a b = true -> in_bounds gs a b = true ->
               grid_get g' a b = true).
Proof.
  assert (Hrow : forall i (g : G) ys, grid_wf gs g ->
    let g' := fold_left (fun g j => if P i j && in_bounds gs i j then grid_set g i j else g)
                ys g in
    grid_wf gs g' /\
    (forall a b, in_bounds gs a b = true -> grid_get g a b = true -> grid_get g' a b = true) /\
    (forall b, b ∈ ys -> P i b = true -> in_bounds gs i b = true -> grid_get g' i b = true)).
  { intros i g0 ys0. revert g0; induction ys0 as [|j ys0 IH]; intros g0 Hwf; cbn [fold_left].
    - split; [done|]. split; [done|]. set_solver.
    - destruct (P i j && in_bounds gs i j) eqn:E.
      + apply andb_true_iff in E as [Ep Eb].
        destruct (IH _ (grid_set_wf gs g0 i j Hwf Eb)) as (Hwf'&Hm&Hin).
        split; [done|]. split.
        * intros a b Hab Hg. apply Hm; [done|]. rewrite (grid_get_set gs) by done.
          rewrite Hg. apply orb_true_r.
        * intros b Hb Hp Hib. apply elem_of_cons in Hb as [->|Hb]; [|by apply Hin].
          apply Hm; [done|]. rewrite (grid_get_set gs) by done.
          rewrite bool_decide_true by done. done.
      + destruct (IH _ Hwf) as (Hwf'&Hm&Hin). split; [done|]. split; [done|].
        intros b Hb Hp Hib. apply elem_of_cons in Hb as [->|Hb]; [|by apply Hin].
        rewrite Hp, Hib in E. done. }
  revert g; induction xs as [|i xs IH]; intros g Hwf; cbn [fold_left].
  - split; [done|]. split; [done|]. set_solver.
  - destruct (Hrow i g ys Hwf) as (Hwf1&Hm1&Hin1).
    destruct (IH _ Hwf1) as (Hwf2&Hm2&Hin2). split; [done|]. split.
    + intros a b Hab Hg. by apply Hm2, Hm1.
    + intros a b Ha Hb Hp Hib. apply elem_of_cons in Ha as [->|Ha]; [|by apply Hin2].
      apply Hm2; [done|]. by apply Hin1.
Qed.

(** After [markPond], every in-bounds cell of the pond's disk is
    reserved. *)
Lemma disk_box (u v r : Z) : 0 <= r -> u * u + v * v <= r * r -> - r <= u <= r.
Proof. intros Hr Hd. nia. Qed.

Lemma markPond_disk sc :
  grid_wf (gridSize sc) (occupiedGrid sc) ->
  let sc' := markPond sc in
  0 <= pond_r sc' ->
  forall a b, in_bounds (gridSize sc') a b = true ->
    (a - pond_cx sc') * (a - pond_cx sc') + (b - pond_cy sc') * (b - pond_cy sc')
      <= pond_r sc' * pond_r sc' ->
    grid_get (occupiedGrid sc') a b = true.
Proof.
  intros Hwf sc' Hr a b Hab Hd. subst sc'. unfold markPond in *. scene_simpl.
  set (cx := gridSize sc ÷ 2 + 8) in *. set (cy := gridSize sc ÷ 2 - 8) in *.
  set (r := fl_trunc (pondRadius (config sc))) in *.
  destruct (guarded_sets_spec (gridSize sc) (occupiedGrid sc)
              (fun i j => (i - cx) * (i - cx) + (j - cy) * (j - cy) <=? r * r)
              (Z.max 0 (cx - r) ..= Z.min (gridSize sc - 1) (cx + r))
              (Z.max 0 (cy - r) ..= Z.min (gridSize sc - 1) (cy + r)) Hwf)
    as (_&_&Hin).
  pose proof (disk_box _ _ _ Hr Hd). pose proof (disk_box (b - cy) (a - cx) r Hr ltac:(lia)).
  apply in_bounds_spec in Hab as Hab'.
  apply Hin; [apply elem_of_zrange; lia|apply elem_of_zrange; lia|cbn beta|done].
  by apply Z.leb_le.
Qed.
End SceneInv.

End LayoutFacts.
