(* ===== verification/SceneInit.v ===== *)
(** * [CityScene::init]: the layout of a whole scene

    The theorems of this file are stated on [init] (city_scene.cpp lines
    24-94), for every float model, every lawful occupancy grid and every
    C generator: the features it places are pairwise disjoint, off the
    roads, inside the grid and reserved; the roads are the two segments
    through the center; the building types follow the style and the
    quotas and the heights follow the types; the lamps, the car and the
    pond are where the code puts them.  The [Generate] section first
    collects the facts of [generateFuturisticLayout] from the phase
    lemmas of [LayoutFacts]. *)

From S2P Require Import Prelude Bresenham Grid Rng Layout LayoutFacts.
From Stdlib Require Import QArith.

Open Scope Z_scope.
Open Scope city_scope.

Module SceneInit.
Import Bresenham Grid Rng Layout LayoutFacts.

Lemma elem_of_map_seqZ {A} (f : Z -> A) n k y : 0 <= k < n -> y = f k -> y ∈ map f (seqZ 0 n).
Proof. intros Hk ->. apply list_elem_of_In, in_map, list_elem_of_In, elem_of_seqZ. lia. Qed.

(** The two roads of [generateFuturisticLayout] on a grid of size [g]:
    the row [z = g/2] and the column [x = g/2], from 5 to [g - 5]. *)
Lemma road_horizontal g : 11 <= g ->
  bresenhamLine 5 (g ÷ 2) (g - 5) (g ÷ 2) = map (fun k => (5 + k, g ÷ 2)) (seqZ 0 (g - 9)).
Proof.
  intros Hg.
  rewrite (run_horizontal 5 (g ÷ 2) (g - 5) (g ÷ 2) _ 0 _ _ ltac:(by rewrite Z.sub_diag) (inv_init _ _ _ _)
             (bresenhamLine_run _ _ _ _)).
  cbn [setup fst sx]. rewrite (proj2 (Z.ltb_lt 5 (g - 5))) by lia.
  replace (Z.abs (g - 5 - 5) - 0 + 1) with (g - 9) by lia.
  apply map_ext. intros k. f_equal. lia.
Qed.

Lemma road_vertical g : 11 <= g ->
  bresenhamLine (g ÷ 2) 5 (g ÷ 2) (g - 5) = map (fun k => (g ÷ 2, 5 + k)) (seqZ 0 (g - 9)).
Proof.
  intros Hg.
  rewrite (run_vertical (g ÷ 2) 5 (g ÷ 2) (g - 5) _ 0 _ _ ltac:(by rewrite Z.sub_diag) (inv_init _ _ _ _)
             (bresenhamLine_run _ _ _ _)).
  cbn [setup fst sy]. rewrite (proj2 (Z.ltb_lt 5 (g - 5))) by lia.
  replace (Z.abs (g - 5 - 5) - 0 + 1) with (g - 9) by lia.
  apply map_ext. intros k. f_equal. lia.
Qed.

Section Generate.
Context {F : Type} `{FloatModel F}.
Context `{OccupancyLaws G}.
Context {Rs : Type} `{CRand Rs}.
Implicit Types sc : CityScene F G.

Lemma placeRoads_members sc :
  let center := gridSize sc ÷ 2 in
  roadCells (placeRoads sc) =
    roadCells sc ++ bresenhamLine 5 center (gridSize sc - 5) center ++
    bresenhamLine center 5 center (gridSize sc - 5) /\
  gridSize (placeRoads sc) = gridSize sc /\ config (placeRoads sc) = config sc.
Proof. unfold placeRoads. rewrite mark_cells_set_grid. scene_simpl. done. Qed.

(** The phases after the roads keep the roads, the grid size and the
    configuration. *)
Lemma generate_frame sc s :
  frame (placeRoads sc) (fst (generateFuturisticLayout sc s)).
Proof.
  unfold generateFuturisticLayout.
  pose proof (placeBuildingsRandomly_frame (placeRoads sc) s) as Hf1.
  destruct (placeBuildingsRandomly (placeRoads sc) s) as [sc2 s2].
  pose proof (placeTrees_frame sc2 s2) as Hf2.
  destruct (placeTrees sc2 s2) as [sc3 s3]. cbn [fst] in *.
  eapply frame_trans; [exact Hf1|]. eapply frame_trans; [exact Hf2|].
  eapply frame_trans; [apply placeStreetLamps_frame|].
  eapply frame_trans; [apply placeRandomCar_frame|]. apply markPond_frame.
Qed.

(** The phases after the buildings keep the building members. *)
Lemma generate_bframe sc s :
  bframe (fst (placeBuildingsRandomly (placeRoads sc) s)) (fst (generateFuturisticLayout sc s)).
Proof.
  unfold generateFuturisticLayout.
  destruct (placeBuildingsRandomly (placeRoads sc) s) as [sc2 s2]. cbn [fst].
  pose proof (placeTrees_bframe sc2 s2) as Hb.
  destruct (placeTrees sc2 s2) as [sc3 s3]. cbn [fst] in *.
  eapply bframe_trans; [exact Hb|]. eapply bframe_trans; [apply placeStreetLamps_bframe|].
  repeat split.
Qed.

(** The lamps, the car and the pond's geometry after the layout. *)
Lemma generate_tail sc s :
  let sc' := fst (generateFuturisticLayout sc s) in
  let center := gridSize sc ÷ 2 in
  Forall (lamp_pos center) (streetLamps sc') /\ carPosition sc' = (center - 5, center) /\
  pond_cx sc' = center + 8 /\ pond_cy sc' = center - 8 /\
  pond_r sc' = fl_trunc (pondRadius (config sc)).
Proof.
  unfold generateFuturisticLayout.
  destruct (placeRoads_members sc) as (_&Hg0&Hc0).
  pose proof (placeBuildingsRandomly_frame (placeRoads sc) s) as (_&Hg1&Hc1).
  destruct (placeBuildingsRandomly (placeRoads sc) s) as [sc2 s2].
  pose proof (placeTrees_frame sc2 s2) as (_&Hg2&Hc2).
  destruct (placeTrees sc2 s2) as [sc3 s3]. cbn [fst] in *.
  pose proof (placeStreetLamps_pos sc3) as Hl.
  destruct (placeStreetLamps_frame sc3) as (_&Hg4&Hc4).
  unfold markPond, placeRandomCar. scene_simpl.
  rewrite Hg4, Hc4, Hg2, Hc2, Hg1, Hc1, Hg0, Hc0 in *. done.
Qed.

(** Every in-bounds cell of the pond's disk is reserved after the
    layout, when the radius is not negative. *)
Lemma generate_pond sc s :
  grid_wf (gridSize sc) (occupiedGrid sc) ->
  let sc' := fst (generateFuturisticLayout sc s) in
  0 <= pond_r sc' ->
  forall a b, in_bounds (gridSize sc') a b = true ->
    (a - pond_cx sc') * (a - pond_cx sc') + (b - pond_cy sc') * (b - pond_cy sc')
      <= pond_r sc' * pond_r sc' ->
    grid_get (occupiedGrid sc') a b = true.
Proof.
  intros Hwf%placeRoads_inv. unfold generateFuturisticLayout.
  pose proof (placeBuildingsRandomly_inv _ s Hwf) as HI2.
  destruct (placeBuildingsRandomly (placeRoads sc) s) as [sc2 s2].
  pose proof (placeTrees_inv sc2 s2 HI2) as HI3.
  destruct (placeTrees sc2 s2) as [sc3 s3]. cbn [fst] in *.
  apply markPond_disk.
  exact (proj1 (placeRandomCar_inv _ (placeStreetLamps_inv _ HI3))).
Qed.
End Generate.

Section Init.
Context {F : Type} `{FloatModel F}.
Context `{OccupancyLaws G}.
Context {Rs : Type} `{CRand Rs}.
Variables (sc : CityScene F G) (s : Rs) (cs nb st ns nt no : Z) (tw th bw bh sw sh pr : F).

Local Abbreviation cfg := (mkConfig cs nb ns nt no st tw th bw bh sw sh pr).
Local Abbreviation out := (fst (init sc s cs nb st tw th bw bh sw sh pr ns nt no)).
Local Abbreviation gs := (gridSizeFor cs).

Lemma gridSizeFor_ge : 50 <= gridSizeFor cs.
Proof. unfold gridSizeFor. zcase; lia. Qed.

Lemma center_bounds : 25 <= gs ÷ 2 /\ 2 * (gs ÷ 2) = gs.
Proof. unfold gridSizeFor. destruct (cs =? 1), (cs =? 2); vm_compute; split; congruence. Qed.

(** [init] is the layout of the freshly configured scene, with the
    timers reset. *)
Lemma init_unfold :
  out = resetTimers (fst (generateFuturisticLayout (initScene sc cfg) s)).
Proof. unfold init. by destruct (generateFuturisticLayout _ _). Qed.

Lemma init_scene_inv : scene_inv out.
Proof.
  rewrite init_unfold. pose proof (generate_inv (initScene sc cfg) s) as HI.
  unfold scene_inv, placed, bplaced, tplaced, lplaced in *. scene_simpl.
  apply HI, grid_alloc_wf. cbn [citySize]. pose proof gridSizeFor_ge. lia.
Qed.

Lemma init_members :
  roadCells out = roadCells sc ++ bresenhamLine 5 (gs ÷ 2) (gs - 5) (gs ÷ 2) ++
                  bresenhamLine (gs ÷ 2) 5 (gs ÷ 2) (gs - 5) /\
  gridSize out = gs /\ config out = cfg.
Proof.
  rewrite init_unfold. destruct (generate_frame (initScene sc cfg) s) as (Hr&Hg&Hc).
  destruct (placeRoads_members (initScene sc cfg)) as (Hr0&Hg0&Hc0).
  scene_simpl. rewrite Hr, Hg, Hc, Hr0, Hg0, Hc0. done.
Qed.

(** [C3] The features [init] places never share a cell: the 5x5
    footprints of the buildings, the 3x3 footprints of the trees and the
    lamp cells are pairwise disjoint (and each footprint has no repeated
    cell). *)
Theorem init_features_disjoint : NoDup (placed out).
Proof. exact (proj1 (proj2 init_scene_inv)). Qed.

(** [C4] No cell of a placed building, tree or lamp is a road cell. *)
Theorem init_features_off_roads c : c ∈ placed out -> c ∉ roadCells out.
Proof. exact (proj1 (proj2 (proj2 (proj2 init_scene_inv))) c). Qed.

(** [C5] Every cell of a placed feature lies inside the grid and is
    reserved in [occupiedGrid]; so is every road cell inside the grid. *)
Theorem init_features_reserved :
  (forall c, c ∈ placed out ->
     in_bounds (gridSize out) c.1 c.2 = true /\ grid_get (occupiedGrid out) c.1 c.2 = true) /\
  (forall c, c ∈ roadCells out -> in_bounds (gridSize out) c.1 c.2 = true ->
     grid_get (occupiedGrid out) c.1 c.2 = true).
Proof.
  destruct init_scene_inv as (_&_&Hin&_&Hr). split; [exact Hin|exact Hr].
Qed.

Lemma init_buildings : buildings_inv cfg out.
Proof.
  rewrite init_unfold. destruct (generate_bframe (initScene sc cfg) s) as (Hc&Hh&Ht&Hcf).
  destruct (placeRoads_members (initScene sc cfg)) as (_&_&Hc0).
  pose proof (placeBuildingsRandomly_buildings (placeRoads (initScene sc cfg)) s) as Hb.
  rewrite Hc0 in Hb. unfold buildings_inv in *. scene_simpl. rewrite Hc, Hh, Ht, Hcf. exact Hb.
Qed.

Lemma init_tail :
  Forall (lamp_pos (gs ÷ 2)) (streetLamps out) /\ carPosition out = (gs ÷ 2 - 5, gs ÷ 2) /\
  pond_cx out = gs ÷ 2 + 8 /\ pond_cy out = gs ÷ 2 - 8 /\ pond_r out = fl_trunc pr.
Proof. rewrite init_unfold. exact (generate_tail (initScene sc cfg) s). Qed.

(** [C27] [init] appends to [roadCells] the row [z = gridSize/2] and then
    the column [x = gridSize/2], each from 5 to [gridSize - 5] in
    increasing order ([roadCells] is not cleared first). *)
Theorem init_roads :
  let r := fst (init sc s cs nb st tw th bw bh sw sh pr ns nt no) in
  roadCells r = roadCells sc ++ map (fun k => (5 + k, gs ÷ 2)) (seqZ 0 (gs - 9)) ++
                  map (fun k => (gs ÷ 2, 5 + k)) (seqZ 0 (gs - 9)).
Proof.
  cbv zeta.
  destruct init_members as (Hr&_&_). pose proof gridSizeFor_ge.
  rewrite Hr, road_horizontal, road_vertical by lia. done.
Qed.

(** The center cell lies on both roads and is appended twice, so
    [roadCells] is never a list of distinct cells. *)
Theorem init_roads_center_twice :
  let r := fst (init sc s cs nb st tw th bw bh sw sh pr ns nt no) in
  ~ NoDup (roadCells r).
Proof.
  cbv zeta.
  destruct init_members as (Hr&_&_). pose proof gridSizeFor_ge.
  rewrite Hr, road_horizontal, road_vertical by lia.
  intros (_&_&Hnd)%NoDup_app. apply NoDup_app in Hnd as (_&Hdisj&_).
  apply (Hdisj (gs ÷ 2, gs ÷ 2)).
  - apply (elem_of_map_seqZ _ _ (gs ÷ 2 - 5)); [|f_equal; lia].
    pose proof center_bounds. lia.
  - apply (elem_of_map_seqZ _ _ (gs ÷ 2 - 5)); [|f_equal; lia].
    pose proof center_bounds. lia.
Qed.

(** [C8] The [k]-th building [init] places gets type [quotaType cfg k]:
    every building is a skyscraper in style 1 and a tower in style 2; in
    the mixed style the first [numSkyscrapers] are skyscrapers, the next
    [numTowers] towers and the rest office buildings. *)
Theorem init_building_types :
  buildingTypes out = map (quotaType cfg) (seqZ 0 (Z.of_nat (length (buildingTypes out)))).
Proof. exact (proj1 (proj2 (proj2 init_buildings))). Qed.

(** [C10] [buildingTypes] and [buildingHeights] have one entry per
    building of [buildingCells], and each height is
    [getFuturisticHeight] of the building's type. *)
Theorem init_building_heights :
  length (buildingTypes out) = length (buildingCells out) /\
  buildingHeights out = map (getFuturisticHeight cfg) (buildingTypes out).
Proof. destruct init_buildings as (_&Hl&_&Hh). done. Qed.

(** In style 1 every building is a skyscraper of height
    [skyscraperHeight]; in style 2 every building is a tower of height
    [towerHeight]. *)
Theorem init_uniform_styles :
  let r := fst (init sc s cs nb st tw th bw bh sw sh pr ns nt no) in
  (st = 1 -> Forall (fun t => t = 0) (buildingTypes r) /\ Forall (fun h => h = sh) (buildingHeights r)) /\
  (st = 2 -> Forall (fun t => t = 1) (buildingTypes r) /\ Forall (fun h => h = th) (buildingHeights r)).
Proof.
  cbv zeta.
  destruct init_buildings as (_&_&Ht&Hh). rewrite Hh, Ht.
  split; intros ->; rewrite !Forall_map; split; apply Forall_forall; intros k _; done.
Qed.

(** [C9] [init] places at most [numBuildings] buildings. *)
Theorem init_building_count :
  let r := fst (init sc s cs nb st tw th bw bh sw sh pr ns nt no) in
  (length (buildingCells r) <= Z.to_nat nb)%nat.
Proof.
  cbv zeta.
  rewrite init_unfold. destruct (generate_bframe (initScene sc cfg) s) as (Hc&_).
  destruct (placeRoads_members (initScene sc cfg)) as (_&_&Hc0).
  pose proof (placeBuildingsRandomly_count (placeRoads (initScene sc cfg)) s) as Hn.
  rewrite Hc0 in Hn. scene_simpl. rewrite Hc. exact Hn.
Qed.

(** Every street lamp stands two cells beside a road, on either
    side, more than three cells away from the crossing. *)
Theorem init_lamp_positions :
  let r := fst (init sc s cs nb st tw th bw bh sw sh pr ns nt no) in
  Forall (lamp_pos (gs ÷ 2)) (streetLamps r).
Proof.
  cbv zeta. exact (proj1 init_tail). Qed.

(** The car is parked on the horizontal road, five cells west of
    the center. *)
Theorem init_car_on_road :
  let r := fst (init sc s cs nb st tw th bw bh sw sh pr ns nt no) in
  carPosition r = (gs ÷ 2 - 5, gs ÷ 2) /\ carPosition r ∈ roadCells r.
Proof.
  cbv zeta.
  destruct init_tail as (_&Hc&_). destruct init_members as (Hr&_&_).
  pose proof gridSizeFor_ge. split; [done|]. rewrite Hc, Hr, road_horizontal by lia.
  apply elem_of_app; right. apply elem_of_app; left.
  apply (elem_of_map_seqZ _ _ (gs ÷ 2 - 10)); [|f_equal; lia].
  pose proof center_bounds. lia.
Qed.

(** The [int] arithmetic of the pond loop (lines 159-163) does not
    overflow for a radius up to [46340], the largest whose square is an
    [int]: [dx], [dy], [dx*dx + dy*dy] over the grid, [pond_r*pond_r] and
    the loop bounds [pond_cx + pond_r], [pond_cy - pond_r] all fit, so
    [markPond]'s unbounded arithmetic is the code's there.  [main]
    prompts for a radius in [[2, 15]]. *)
Lemma markPond_fits_int r i j :
  0 <= r <= 46340 -> 0 <= i < gs -> 0 <= j < gs ->
  Forall (fun v => in_int32 v = true)
    [i - (gs ÷ 2 + 8); j - (gs ÷ 2 - 8);
     (i - (gs ÷ 2 + 8)) * (i - (gs ÷ 2 + 8)) + (j - (gs ÷ 2 - 8)) * (j - (gs ÷ 2 - 8));
     r * r; gs ÷ 2 + 8 + r; gs ÷ 2 - 8 - r].
Proof.
  intros Hr Hi Hj. pose proof center_bounds as [Hc Hc2].
  assert (gs <= 100) by (unfold gridSizeFor; zcase; lia).
  set (c := gs ÷ 2) in *.
  repeat (apply Forall_cons_2; [apply in_int32_spec; nia|]); apply Forall_nil_2.
Qed.

(** [C28] The pond is centered at [(gridSize/2 + 8, gridSize/2 - 8)] with
    the truncated radius, and when that radius is between [0] and
    [46340] (so that [pond_r*pond_r] is an [int]) every cell of its disk
    inside the grid is reserved. *)
Theorem init_pond_reserved :
  0 <= fl_trunc pr <= 46340 ->
  pond_cx out = gs ÷ 2 + 8 /\ pond_cy out = gs ÷ 2 - 8 /\ pond_r out = fl_trunc pr /\
  forall a b, in_bounds gs a b = true ->
    (a - (gs ÷ 2 + 8)) * (a - (gs ÷ 2 + 8)) + (b - (gs ÷ 2 - 8)) * (b - (gs ÷ 2 - 8))
      <= fl_trunc pr * fl_trunc pr ->
    grid_get (occupiedGrid out) a b = true.
Proof.
  intros [Hr _]. destruct init_tail as (_&_&Hx&Hy&Hp). destruct init_members as (_&Hg&_).
  split; [done|]. split; [done|]. split; [done|]. intros a b Hb Hd.
  rewrite init_unfold in *. scene_simpl.
  apply (generate_pond (initScene sc cfg) s); scene_simpl;
    [apply grid_alloc_wf; cbn [citySize]; pose proof gridSizeFor_ge; lia|congruence..].
Qed.

(** The layout does not depend on the generator's state before
    [init]: both placement phases reseed it ([srand(12345)],
    [srand(54321)]), so two runs with the same configuration produce
    the same scene and leave the generator in the same state. *)
Theorem init_seed_independent (s' : Rs) :
  init sc s cs nb st tw th bw bh sw sh pr ns nt no =
  init sc s' cs nb st tw th bw bh sw sh pr ns nt no.
Proof. reflexivity. Qed.
End Init.

(** ** A concrete run

    The spec's example: [citySize 1] (a 50 x 50 grid), 5 buildings in
    style 1, towers 20 x 60, buildings 12 x 40, skyscrapers 15 x 90, a
    pond of radius 5, exact rationals as floats, the Microsoft C
    generator and list-of-rows grids. *)
Definition example_run : CityScene Q (list (list bool)) * Z :=
  init freshScene 1 1 5 1 (20#1) (60#1) (12#1) (40#1) (15#1) (90#1) (5#1) 0 0 0.

(** The pond's center [(33, 17)] is reserved in the example run. *)
Lemma init_pond_reserved_witness :
  0 <= fl_trunc (5#1) <= 46340 /\ grid_get (occupiedGrid (fst example_run)) 33 17 = true.
Proof.
  assert (Hr : 0 <= fl_trunc (5#1) <= 46340)
    by (split; apply Z.leb_le; vm_compute; reflexivity).
  split; [exact Hr|].
  destruct (init_pond_reserved freshScene 1 1 5 1 0 0 0 (20#1) (60#1) (12#1) (40#1)
              (15#1) (90#1) (5#1) Hr) as (_&_&_&Hd).
  apply Hd; [vm_compute; reflexivity|apply Z.leb_le; vm_compute; reflexivity].
Defined.

(** The first building of the example run is at [(29, 9)]; its first
    road cell is [(5, 25)]. *)
Lemma init_features_off_roads_witness :
  (29, 9) ∈ placed (fst example_run) /\ (29, 9) ∉ roadCells (fst example_run).
Proof.
  unfold example_run.
  assert (H : (29, 9) ∈ placed (fst (init freshScene 1 1 5 1 (20#1) (60#1) (12#1) (40#1) (15#1) (90#1) (5#1) 0 0 0)))
    by (apply (bool_decide_unpack _); vm_compute; reflexivity).
  pose proof (init_features_off_roads freshScene 1 1 5 1 0 0 0 (20#1) (60#1) (12#1) (40#1) (15#1) (90#1) (5#1) (29, 9)) as Hr.
  split; [exact H | exact (Hr H)].
Defined.

Lemma init_features_reserved_witness :
  (29, 9) ∈ placed (fst example_run) /\ (5, 25) ∈ roadCells (fst example_run) /\
  in_bounds (gridSize (fst example_run)) 5 25 = true /\
  grid_get (occupiedGrid (fst example_run)) 29 9 = true /\
  grid_get (occupiedGrid (fst example_run)) 5 25 = true.
Proof.
  unfold example_run.
  assert (Hb : (29, 9) ∈ placed (fst (init freshScene 1 1 5 1 (20#1) (60#1) (12#1) (40#1) (15#1) (90#1) (5#1) 0 0 0)))
    by (apply (bool_decide_unpack _); vm_compute; reflexivity).
  assert (Hr : (5, 25) ∈ roadCells (fst (init freshScene 1 1 5 1 (20#1) (60#1) (12#1) (40#1) (15#1) (90#1) (5#1) 0 0 0)))
    by (apply (bool_decide_unpack _); vm_compute; reflexivity).
  assert (Hi : in_bounds (gridSize (fst (init freshScene 1 1 5 1 (20#1) (60#1) (12#1) (40#1) (15#1) (90#1) (5#1) 0 0 0))) 5 25 = true) by (vm_compute; reflexivity).
  pose proof (init_features_reserved freshScene 1 1 5 1 0 0 0 (20#1) (60#1) (12#1) (40#1) (15#1) (90#1) (5#1)) as [Hp Hq].
  split; [exact Hb|]. split; [exact Hr|]. split; [exact Hi|].
  split; [exact (proj2 (Hp (29, 9) Hb)) | exact (Hq (5, 25) Hr Hi)].
Defined.

Lemma init_uniform_styles_witness :
  (1 = 1 /\ Forall (fun t => t = 0) (buildingTypes (fst example_run))) /\
  Forall (fun h => h = 90#1) (buildingHeights (fst example_run)).
Proof.
  unfold example_run.
  pose proof (init_uniform_styles freshScene 1 1 5 1 0 0 0 (20#1) (60#1) (12#1) (40#1) (15#1) (90#1) (5#1)) as [H1 _].
  destruct (H1 eq_refl) as [Ht Hh]. split; [split; [reflexivity|exact Ht]|exact Hh].
Defined.

End SceneInit.
