(* ===== verification/Scenario.v ===== *)
(** * Concrete runs of [init]

    Two configurations evaluated by the kernel, with exact rationals as
    floats, the Microsoft C generator and list-of-rows grids: the spec's
    example run ([SceneInit.example_run]: a 50 x 50 grid, five
    skyscrapers) and a mixed-style run on a 70 x 70 grid in which a
    building stands inside the pond, because the pond's cells are
    reserved only after every building and tree has been placed
    (city_scene.cpp lines 155-169). *)

From S2P Require Import Prelude Bresenham Grid Rng Layout LayoutFacts SceneInit.
From Stdlib Require Import QArith.

Open Scope Z_scope.

Module Scenario.
Import Grid Rng Layout LayoutFacts SceneInit.

(** [citySize 2] (70 x 70), 12 buildings in the mixed style, 4
    skyscrapers, 4 towers and 4 office buildings, a pond of radius 10. *)
Definition mixed_run : CityScene Q (list (list bool)) * Z :=
  init freshScene 1 2 12 3 (20#1) (60#1) (12#1) (40#1) (15#1) (90#1) (10#1) 4 4 4.

(** In the spec's example run the five buildings are skyscrapers of
    height 90 at [(29,9)], [(40,10)], [(42,18)], [(44,5)] and [(8,17)];
    the roads hold 82 cells, the car is at [(20,25)] and the pond is
    centered at [(33,17)] with radius 5. *)
Example example_run_layout :
  let sc := fst example_run in
  buildingCells sc = [(29, 9); (40, 10); (42, 18); (44, 5); (8, 17)] /\
  buildingTypes sc = [0; 0; 0; 0; 0] /\
  buildingHeights sc = [90#1; 90#1; 90#1; 90#1; 90#1] /\
  length (roadCells sc) = 82%nat /\ carPosition sc = (20, 25) /\
  (pond_cx sc, pond_cy sc, pond_r sc) = (33, 17, 5).
Proof. vm_compute. repeat split. Qed.

(** In the mixed run the cell [(46,19)] of the building placed at
    [(48,17)] lies inside the pond's disk (center [(43,27)], radius 10):
    the pond is drawn over a building. *)
Example mixed_run_pond_overlap :
  let sc := fst mixed_run in
  (48, 17) ∈ buildingCells sc /\ (46, 19) ∈ placed sc /\
  (46 - pond_cx sc) * (46 - pond_cx sc) + (19 - pond_cy sc) * (19 - pond_cy sc)
    <= pond_r sc * pond_r sc.
Proof.
  split; [|split]; [apply (bool_decide_unpack _); vm_compute; reflexivity..|].
  apply Z.leb_le. vm_compute. reflexivity.
Qed.

End Scenario.
