(* ===== verification/Camera.v ===== *)
(** * The orbit camera and the input callbacks

    [Camera] (render/camera.h, camera.cpp) holds [yaw], [pitch],
    [distance], [target], [autoRotate] and [rotationSpeed];
    [processMouseDelta], [processScroll], [update] and
    [toggleAutoRotate] change them.  main.cpp drives it through three
    GLFW callbacks sharing the globals [rightMouseDown], [lastX] and
    [lastY], and calls [camera.update(0.016f)] once per frame.  The floats
    are exact rationals here ([0.1f] is [1/10]); the clamps compare
    exactly, so their bounds are those of the code.  [position] and
    [viewMatrix] are in [CameraView]. *)

From S2P Require Import Prelude.
From Stdlib Require Import QArith Lqa.

Module Camera.

Open Scope Q_scope.

Record Camera := mkCamera {
  yaw : Q; pitch : Q; distance : Q;
  target : Q * Q * Q;
  autoRotate : bool;
  rotationSpeed : Q
}.

(** [Camera() {}] with the member initializers of camera.h. *)
Definition default_camera : Camera := mkCamera (-90) (-20) 25 (0, 0, 0) false 15.

(** [yaw += dx * 0.1f; pitch += dy * 0.1f;] then the two clamps. *)
Definition processMouseDelta (c : Camera) (dx dy : Q) : Camera :=
  let yaw' := yaw c + dx * (1 # 10) in
  let p1 := pitch c + dy * (1 # 10) in
  let p2 := if qlt 89 p1 then 89 else p1 in
  let p3 := if qlt p2 (-89) then -89 else p2 in
  mkCamera yaw' p3 (distance c) (target c) (autoRotate c) (rotationSpeed c).

(** [distance -= dy;] then the two clamps. *)
Definition processScroll (c : Camera) (dy : Q) : Camera :=
  let d1 := distance c - dy in
  let d2 := if qlt d1 5 then 5 else d1 in
  let d3 := if qlt 150 d2 then 150 else d2 in
  mkCamera (yaw c) (pitch c) d3 (target c) (autoRotate c) (rotationSpeed c).

(** [if (autoRotate) { yaw += rotationSpeed * deltaTime;
    if (yaw >= 360.0f) yaw -= 360.0f; }] *)
Definition update (c : Camera) (deltaTime : Q) : Camera :=
  if autoRotate c then
    let y1 := yaw c + rotationSpeed c * deltaTime in
    let y2 := if Qle_bool 360 y1 then y1 - 360 else y1 in
    mkCamera y2 (pitch c) (distance c) (target c) (autoRotate c) (rotationSpeed c)
  else c.

Definition toggleAutoRotate (c : Camera) : Camera :=
  mkCamera (yaw c) (pitch c) (distance c) (target c) (negb (autoRotate c)) (rotationSpeed c).

(** ** The callbacks of main.cpp *)

(** The camera and the globals the callbacks share. *)
Record Input := mkInput {
  camera : Camera;
  rightMouseDown : bool;
  lastX : Q; lastY : Q
}.

(** [GLFW_MOUSE_BUTTON_RIGHT] and [GLFW_PRESS]. *)
Definition MOUSE_BUTTON_RIGHT : Z := 1.
Definition PRESS : Z := 1.

(** The events the window delivers: a cursor position, a mouse button
    with its action, a scroll offset, and a frame of the main loop. *)
Inductive event :=
| CursorPos (xpos ypos : Q)
| MouseButton (button action : Z)
| Scroll (yoff : Q)
| Frame.

(** [cursor_cb]: outside a drag only the last position is recorded. *)
Definition cursor_cb (st : Input) (xpos ypos : Q) : Input :=
  if negb (rightMouseDown st) then mkInput (camera st) (rightMouseDown st) xpos ypos
  else let dx := xpos - lastX st in
       let dy := lastY st - ypos in
       mkInput (processMouseDelta (camera st) dx dy) (rightMouseDown st) xpos ypos.

Definition mouse_button_cb (st : Input) (button action : Z) : Input :=
  if (button =? MOUSE_BUTTON_RIGHT)%Z
  then mkInput (camera st) (action =? PRESS)%Z (lastX st) (lastY st)
  else st.

Definition scroll_cb (st : Input) (y : Q) : Input :=
  mkInput (processScroll (camera st) y) (rightMouseDown st) (lastX st) (lastY st).

(** One iteration of the render loop as far as the camera goes:
    [camera.update(0.016f)]. *)
Definition frame (st : Input) : Input :=
  mkInput (update (camera st) (16 # 1000)) (rightMouseDown st) (lastX st) (lastY st).

Definition handle (st : Input) (e : event) : Input :=
  match e with
  | CursorPos x y => cursor_cb st x y
  | MouseButton b a => mouse_button_cb st b a
  | Scroll y => scroll_cb st y
  | Frame => frame st
  end.

(** The state main.cpp starts the loop in: the default camera with
    [target = (0,0,0)], [distance = 80], [pitch = -15], no button down,
    [lastX = lastY = 0]. *)
Definition main_input : Input :=
  mkInput (mkCamera (yaw default_camera) (-15) 80 (0, 0, 0)
             (autoRotate default_camera) (rotationSpeed default_camera))
          false 0 0.

(** The states reachable from [main_input] by a sequence of events. *)
Inductive reachable : Input -> Prop :=
| reach_init : reachable main_input
| reach_step st e : reachable st -> reachable (handle st e).

(** ** Properties *)

(** The reference clamp: [v] brought into [[lo, hi]]. *)
Definition clamp (lo hi v : Q) : Q := if qlt v lo then lo else if qlt hi v then hi else v.

(** The camera's bounds: pitch within 89 degrees of the horizon, distance
    between 5 and 150. *)
Definition cam_ok (c : Camera) : Prop :=
  -89 <= pitch c <= 89 /\ 5 <= distance c <= 150.

Section Callbacks.
Implicit Types (c : Camera) (st : Input).

(** [processMouseDelta] clamps the pitch: the new pitch is
    [pitch + dy/10] brought into [[-89, 89]], whatever the deltas; the
    yaw moves by [dx/10] and nothing else changes. *)
Theorem processMouseDelta_clamps c dx dy :
  pitch (processMouseDelta c dx dy) == clamp (-89) 89 (pitch c + dy * (1 # 10)) /\
  yaw (processMouseDelta c dx dy) = yaw c + dx * (1 # 10) /\
  distance (processMouseDelta c dx dy) = distance c.
Proof.
  unfold processMouseDelta, clamp. cbn [pitch yaw distance].
  split; [|done]. qcase; lra.
Qed.

Lemma processMouseDelta_ok c dx dy : cam_ok c -> cam_ok (processMouseDelta c dx dy).
Proof. intros [_ Hd]. unfold processMouseDelta, cam_ok. cbn [pitch distance]. qcase; lra. Qed.

Lemma processScroll_ok c dy : cam_ok c -> cam_ok (processScroll c dy).
Proof. intros [Hp _]. unfold processScroll, cam_ok. cbn [pitch distance]. qcase; lra. Qed.

Lemma update_ok c dt : cam_ok c -> cam_ok (update c dt).
Proof. unfold update. by destruct (autoRotate c). Qed.

Lemma handle_ok st e : cam_ok (camera st) -> cam_ok (camera (handle st e)).
Proof.
  intros Hc. destruct e as [x y|b a|y|]; cbn [handle].
  - unfold cursor_cb. destruct (negb _); [done|]. by apply processMouseDelta_ok.
  - unfold mouse_button_cb. by destruct (_ =? _)%Z.
  - by apply processScroll_ok.
  - by apply update_ok.
Qed.

Lemma handle_autoRotate st e : autoRotate (camera (handle st e)) = autoRotate (camera st).
Proof.
  destruct e as [x y|b a|y|]; cbn [handle].
  - unfold cursor_cb. by destruct (negb _).
  - unfold mouse_button_cb. by destruct (_ =? _)%Z.
  - done.
  - unfold frame, update. cbn [camera]. destruct (autoRotate (camera st)) eqn:E; cbn; congruence.
Qed.

(** [C21] Whatever the events, the camera stays within its bounds: the
    pitch in [[-89, 89]] and the distance in [[5, 150]]. *)
Theorem reachable_cam_ok st : reachable st -> cam_ok (camera st).
Proof.
  induction 1 as [|st e _ IH].
  - split; cbn; lra.
  - by apply handle_ok.
Qed.

(** Auto-rotation is never switched on ([toggleAutoRotate] is never
    called), so the per-frame [camera.update(0.016f)] never changes the
    camera. *)
Theorem reachable_frame_noop st : reachable st -> camera (frame st) = camera st.
Proof.
  intros Hr. assert (Ha : autoRotate (camera st) = false).
  { induction Hr as [|st e _ IH]; [done|]. by rewrite handle_autoRotate. }
  unfold frame, update. cbn [camera]. by rewrite Ha.
Qed.

(** With auto-rotation on, a step of less than a full turn keeps the
    yaw in [[0, 360)]. *)
Theorem update_yaw_range c dt :
  autoRotate c = true -> 0 <= yaw c < 360 -> 0 <= rotationSpeed c * dt < 360 ->
  0 <= yaw (update c dt) < 360.
Proof. intros Ha Hy Hs. unfold update. rewrite Ha. cbn [yaw]. qcase; lra. Qed.
End Callbacks.

(** A drag from [(0,0)] to [(0,-2000)] pushes the pitch against its upper
    bound; the camera stays within bounds. *)
Definition drag_events : list event :=
  [MouseButton MOUSE_BUTTON_RIGHT PRESS; CursorPos 0 0; CursorPos 0 (-2000); Frame].

Lemma reachable_events evs : reachable (fold_left handle evs main_input).
Proof.
  assert (Hgen : forall st, reachable st -> reachable (fold_left handle evs st)).
  { induction evs as [|e evs IH]; intros st Hst; [done|]. apply IH. by constructor. }
  apply Hgen. constructor.
Qed.

Lemma reachable_cam_ok_witness :
  reachable (fold_left handle drag_events main_input) /\
  cam_ok (camera (fold_left handle drag_events main_input)).
Proof.
  split; [apply reachable_events|]. apply reachable_cam_ok, reachable_events.
Defined.

Lemma reachable_frame_noop_witness :
  reachable (fold_left handle drag_events main_input) /\
  camera (frame (fold_left handle drag_events main_input)) =
    camera (fold_left handle drag_events main_input).
Proof.
  split; [apply reachable_events|]. apply reachable_frame_noop, reachable_events.
Defined.

Lemma update_yaw_range_witness :
  let c := toggleAutoRotate default_camera in
  let c' := mkCamera 350 (pitch c) (distance c) (target c) (autoRotate c) (rotationSpeed c) in
  autoRotate c' = true /\ (0 <= yaw c' < 360) /\ (0 <= rotationSpeed c' * (16 # 1000) < 360) /\
  0 <= yaw (update c' (16 # 1000)) < 360.
Proof.
  cbn zeta. split; [reflexivity|]. split; [cbn; lra|]. split; [cbn; lra|].
  apply update_yaw_range; [reflexivity|cbn; lra|cbn; lra].
Defined.

(** The drag of [drag_events] ends at the pitch bound. *)
Example drag_pitch : pitch (camera (fold_left handle drag_events main_input)) == 89.
Proof. reflexivity. Qed.

End Camera.
