(* ===== verification/Cli.v ===== *)
(** * The configuration prompts of [main]

    main.cpp lines 118-209 read the configuration from [std::cin] with
    one [do { std::cin >> v; } while (out of range);] loop per value,
    then call [CityScene::init].  The input after the city-name line is a
    list of whitespace-separated words ([token]); a stream is the words
    left and the fail bit.  [operator>>] is modelled as libstdc++ does it
    (C++11): on a failed stream, or at end of input, nothing is read and
    the variable keeps its value; a word that is not a number writes [0]
    and sets the fail bit; an [int] read of a decimal word takes its
    integer digits and leaves the fraction in the stream; an [int]
    literal out of range writes [INT_MAX] or [INT_MIN] and sets the fail
    bit.  A [float] read rounds the word's value to the nearest binary32
    number ([fl32]), and a value that rounds to infinity writes
    [+-FLT_MAX] and sets the fail bit.  Each prompt loop is a fuelled
    recursion; [readConfig] runs them in the code's order and branches
    on the style as the code does.  The uninitialized locals
    ([citySize], [buildingStyle] and the seven floats) are parameters. *)

From S2P Require Import Prelude.
From Stdlib Require Import QArith Qabs Lqa.

Open Scope Z_scope.

Module Cli.

(** A word of the input. *)
Inductive token :=
| TInt (z : Z)          (** an integer literal, e.g. [12] or [-3] *)
| TReal (q : Q)         (** a decimal literal with an integer part, e.g. [2.5] *)
| TFrac (q : Q)         (** a fraction without integer part, e.g. [.5] *)
| TJunk.                (** a word that does not start a number *)

Record istream := mkStream { toks : list token; failed : bool }.

Definition fail_stream (ins : istream) : istream := mkStream (toks ins) true.

(** [std::cin >> v] for an [int v]. *)
Definition read_int (v : Z) (ins : istream) : Z * istream :=
  if failed ins then (v, ins) else
  match toks ins with
  | [] => (v, fail_stream ins)
  | TInt z :: t =>
      if z <? INT_MIN then (INT_MIN, mkStream t true)
      else if INT_MAX <? z then (INT_MAX, mkStream t true)
      else (z, mkStream t false)
  | TReal q :: t =>
      let z := Z.quot (Qnum q) (Zpos (Qden q)) in
      (z, mkStream (TFrac (Qabs (q - inject_Z z)) :: t) false)
  | (TFrac _ | TJunk) :: t => (0, mkStream (toks ins) true)
  end.

(** *** Decimal to [float]

    [operator>>] converts a number word with [strtof]: the value rounded
    to the nearest IEEE 754 binary32 number, ties to even, with 24
    significand bits, exponents down to [-126] and subnormals below;
    [None] when the rounded value is infinite. *)

(** [floor (log2 (n / d))] for positive [n], [d]. *)
Definition log2_frac (n d : Z) : Z :=
  let k := Z.log2 n - Z.log2 d in
  if (if 0 <=? k then d * 2 ^ k <=? n else d <=? n * 2 ^ (- k)) then k else k - 1.

(** [n / d] rounded to the nearest integer, ties to even, for positive
    [d]. *)
Definition round_ne (n d : Z) : Z :=
  let q := n / d in
  let r := n mod d in
  if 2 * r <? d then q else if d <? 2 * r then q + 1 else if Z.even q then q else q + 1.

(** The binary32 rounding of [x], in lowest terms: [m * 2^e] with
    [e = max(floor(log2 |x|), -126) - 23] and [m] the rounded
    significand. *)
Definition fl32 (x : Q) : option Q :=
  let n := Z.abs (Qnum x) in
  let d := Zpos (Qden x) in
  if n =? 0 then Some 0%Q else
  let e := Z.max (log2_frac n d) (-126) - 23 in
  let m := if 0 <=? e then round_ne n (d * 2 ^ e) else round_ne (n * 2 ^ (- e)) d in
  if (0 <=? e) && (2 ^ 128 <=? m * 2 ^ e) then None
  else Some (Qred (if 0 <=? e then Qmake (Z.sgn (Qnum x) * m * 2 ^ e) 1
                   else Qmake (Z.sgn (Qnum x) * m) (Z.to_pos (2 ^ (- e))))).

(** [std::numeric_limits<float>::max()] *)
Definition FLT_MAX : Q := inject_Z ((2 ^ 24 - 1) * 2 ^ 104).

(** [std::cin >> v] for a [float v]: the rounded value; a word whose
    value rounds to infinity writes [+-FLT_MAX] and sets the fail bit
    (libstdc++'s [__convert_to_v]). *)
Definition read_float_word (x : Q) (t : list token) : Q * istream :=
  match fl32 x with
  | Some y => (y, mkStream t false)
  | None => (if Qlt_le_dec x 0 then Qopp FLT_MAX else FLT_MAX, mkStream t true)
  end.

Definition read_float (v : Q) (ins : istream) : Q * istream :=
  if failed ins then (v, ins) else
  match toks ins with
  | [] => (v, fail_stream ins)
  | TInt z :: t => read_float_word (inject_Z z) t
  | (TReal q | TFrac q) :: t => read_float_word q t
  | TJunk :: t => (0%Q, mkStream (toks ins) true)
  end.

(** [do { std::cout << prompt; std::cin >> v; } while (bad(v));] with at
    most [fuel] iterations. *)
Fixpoint prompt_int (fuel : nat) (bad : Z -> bool) (v : Z) (ins : istream)
    : option (Z * istream) :=
  match fuel with
  | O => None
  | S f => let '(v', ins') := read_int v ins in
           if bad v' then prompt_int f bad v' ins' else Some (v', ins')
  end.

Fixpoint prompt_float (fuel : nat) (bad : Q -> bool) (v : Q) (ins : istream)
    : option (Q * istream) :=
  match fuel with
  | O => None
  | S f => let '(v', ins') := read_float v ins in
           if bad v' then prompt_float f bad v' ins' else Some (v', ins')
  end.

(** [v < lo || v > hi] *)
Definition out_int (lo hi v : Z) : bool := (v <? lo) || (hi <? v).
Definition out_float (lo hi v : Q) : bool := qlt v lo || qlt hi v.

(** The locals main declares without an initializer. *)
Record Uninit := mkUninit {
  u_citySize : Z; u_buildingStyle : Z;
  u_towerWidth : Q; u_towerHeight : Q; u_buildingWidth : Q; u_buildingHeight : Q;
  u_skyscraperWidth : Q; u_skyscraperHeight : Q; u_pondRadius : Q
}.

(** The arguments main passes to [scene.init], in the order of the call. *)
Record Answers := mkAnswers {
  citySize : Z; numBuildings : Z; buildingStyle : Z;
  towerWidth : Q; towerHeight : Q; buildingWidth : Q; buildingHeight : Q;
  skyscraperWidth : Q; skyscraperHeight : Q; pondRadius : Q;
  numSkyscrapers : Z; numTowers : Z; numOfficeBuildings : Z
}.

(** Lines 137-163: the building counts by style, as
    [(numSkyscrapers, numTowers, numOfficeBuildings, numBuildings)]. *)
Definition readCounts (fuel : nat) (style : Z) (ins : istream)
    : option (Z * Z * Z * Z * istream) :=
  if style =? 1 then
    '(n, ins) ← prompt_int fuel (out_int 5 20) 0 ins; Some (n, 0, 0, n, ins)
  else if style =? 2 then
    '(n, ins) ← prompt_int fuel (out_int 5 20) 0 ins; Some (0, n, 0, n, ins)
  else
    '(ns, ins) ← prompt_int fuel (out_int 1 10) 0 ins;
    '(nt, ins) ← prompt_int fuel (out_int 1 10) 0 ins;
    '(no, ins) ← prompt_int fuel (out_int 1 10) 0 ins;
    Some (ns, nt, no, ns + nt + no, ins).

(** Lines 167-176 (and likewise 178-187, 189-198): a width and a height,
    read only when [cond] holds. *)
Definition readDims (fuel : nat) (cond : bool) (wlo whi hlo hhi : Q) (w h : Q)
    (ins : istream) : option (Q * Q * istream) :=
  if cond then
    '(w, ins) ← prompt_float fuel (out_float wlo whi) w ins;
    '(h, ins) ← prompt_float fuel (out_float hlo hhi) h ins;
    Some (w, h, ins)
  else Some (w, h, ins).

(** Lines 125-209: the prompts in order, and the arguments of [init]. *)
Definition readConfig (fuel : nat) (u : Uninit) (ins : istream) : option (Answers * istream) :=
  '(cs, ins) ← prompt_int fuel (out_int 1 3) (u_citySize u) ins;
  '(st, ins) ← prompt_int fuel (out_int 1 3) (u_buildingStyle u) ins;
  '(ns, nt, no, nb, ins) ← readCounts fuel st ins;
  '(sw, sh, ins) ← readDims fuel ((st =? 1) || (st =? 3)) 1 10 10 100
                    (u_skyscraperWidth u) (u_skyscraperHeight u) ins;
  '(tw, th, ins) ← readDims fuel ((st =? 2) || (st =? 3)) 1 5 5 50
                    (u_towerWidth u) (u_towerHeight u) ins;
  '(bw, bh, ins) ← readDims fuel (st =? 3) 1 8 3 80
                    (u_buildingWidth u) (u_buildingHeight u) ins;
  '(pr, ins) ← prompt_float fuel (out_float 2 15) (u_pondRadius u) ins;
  Some (mkAnswers cs nb st tw th bw bh sw sh pr ns nt no, ins).

(** ** The prompt loops *)

Section Prompt.
Variable bad : Z -> bool.

Lemma prompt_int_sound fuel v ins v' ins' :
  prompt_int fuel bad v ins = Some (v', ins') -> bad v' = false.
Proof.
  revert v ins; induction fuel as [|f IH]; intros v ins; [done|]. cbn [prompt_int].
  destruct (read_int v ins) as [w is1]. destruct (bad w) eqn:E; [apply IH|].
  by intros [= <- _].
Qed.

(** Once the stream has failed, the value never changes again. *)
Lemma prompt_int_stuck fuel v ins :
  failed ins = true -> bad v = true -> prompt_int fuel bad v ins = None.
Proof.
  intros Hf Hb. induction fuel as [|f IH]; [done|]. cbn [prompt_int].
  unfold read_int. rewrite Hf, Hb. exact IH.
Qed.

(** Words that are valid [int]s but out of range are skipped, and the
    first in-range word is returned. *)
Lemma prompt_int_answers fuel v bads z rest :
  Forall (fun b => in_int32 b = true /\ bad b = true) bads ->
  in_int32 z = true -> bad z = false -> (length bads < fuel)%nat ->
  prompt_int fuel bad v (mkStream (map TInt bads ++ TInt z :: rest) false) =
    Some (z, mkStream rest false).
Proof.
  unfold in_int32, INT_MIN, INT_MAX.
  intros Hbs Hz Hg. revert v fuel; induction Hbs as [|b bads [Hb Hbb] _ IH]; intros v fuel Hn;
    (destruct fuel as [|f]; [cbn in Hn; lia|]); cbn [prompt_int map app]; unfold read_int;
    cbn [failed toks]; unfold INT_MIN, INT_MAX.
  - apply andb_true_iff in Hz as [Hz1 Hz2]. apply Z.leb_le in Hz1, Hz2.
    rewrite (proj2 (Z.ltb_ge _ _)), (proj2 (Z.ltb_ge _ _)) by lia. by rewrite Hg.
  - apply andb_true_iff in Hb as [Hb1 Hb2]. apply Z.leb_le in Hb1, Hb2.
    rewrite (proj2 (Z.ltb_ge _ _)), (proj2 (Z.ltb_ge _ _)) by lia. rewrite Hbb.
    apply IH. cbn in Hn. lia.
Qed.
End Prompt.

Section PromptFloat.
Variable bad : Q -> bool.

Lemma prompt_float_sound fuel v ins v' ins' :
  prompt_float fuel bad v ins = Some (v', ins') -> bad v' = false.
Proof.
  revert v ins; induction fuel as [|f IH]; intros v ins; [done|]. cbn [prompt_float].
  destruct (read_float v ins) as [w is1]. destruct (bad w) eqn:E; [apply IH|].
  by intros [= <- _].
Qed.
End PromptFloat.

Lemma out_int_false lo hi v : out_int lo hi v = false <-> lo <= v <= hi.
Proof. unfold out_int. rewrite orb_false_iff, !Z.ltb_ge. lia. Qed.

Lemma out_float_false lo hi v : out_float lo hi v = false <-> (lo <= v <= hi)%Q.
Proof.
  unfold out_float. rewrite orb_false_iff, <- !not_true_iff_false, !qlt_spec.
  split; [intros [H1 H2]; split; apply Qnot_lt_le; assumption|].
  intros [H1 H2]; split; apply Qle_not_lt; assumption.
Qed.

#[local] Hint Resolve prompt_int_sound prompt_float_sound : city.

(** ** What [readConfig] guarantees *)

(** The ranges the prompts enforce, for the values the style uses. *)
Definition answers_ok (a : Answers) : Prop :=
  1 <= citySize a <= 3 /\ 1 <= buildingStyle a <= 3 /\ (2 <= pondRadius a <= 15)%Q /\
  (buildingStyle a = 1 -> 5 <= numBuildings a <= 20 /\ numSkyscrapers a = numBuildings a /\
                          numTowers a = 0 /\ numOfficeBuildings a = 0) /\
  (buildingStyle a = 2 -> 5 <= numBuildings a <= 20 /\ numTowers a = numBuildings a /\
                          numSkyscrapers a = 0 /\ numOfficeBuildings a = 0) /\
  (buildingStyle a = 3 -> 1 <= numSkyscrapers a <= 10 /\ 1 <= numTowers a <= 10 /\
                          1 <= numOfficeBuildings a <= 10 /\
                          numBuildings a = numSkyscrapers a + numTowers a + numOfficeBuildings a) /\
  (buildingStyle a <> 2 -> (1 <= skyscraperWidth a <= 10)%Q /\ (10 <= skyscraperHeight a <= 100)%Q) /\
  (buildingStyle a <> 1 -> (1 <= towerWidth a <= 5)%Q /\ (5 <= towerHeight a <= 50)%Q) /\
  (buildingStyle a = 3 -> (1 <= buildingWidth a <= 8)%Q /\ (3 <= buildingHeight a <= 80)%Q).

Lemma readCounts_ok fuel st ins ns nt no nb ins' :
  1 <= st <= 3 -> readCounts fuel st ins = Some (ns, nt, no, nb, ins') ->
  (st = 1 -> 5 <= nb <= 20 /\ ns = nb /\ nt = 0 /\ no = 0) /\
  (st = 2 -> 5 <= nb <= 20 /\ nt = nb /\ ns = 0 /\ no = 0) /\
  (st = 3 -> 1 <= ns <= 10 /\ 1 <= nt <= 10 /\ 1 <= no <= 10 /\ nb = ns + nt + no).
Proof.
  intros Hst. unfold readCounts. zcase.
  - destruct (prompt_int _ _ _ _) as [[k i1]|] eqn:E; [|done]. cbn. intros [= <- <- <- <- _].
    apply prompt_int_sound, out_int_false in E. repeat split; lia.
  - destruct (prompt_int _ _ _ _) as [[k i1]|] eqn:E; [|done]. cbn. intros [= <- <- <- <- _].
    apply prompt_int_sound, out_int_false in E. repeat split; lia.
  - destruct (prompt_int _ _ _ ins) as [[a i1]|] eqn:E1; [|done]. cbn.
    destruct (prompt_int _ _ _ i1) as [[b i2]|] eqn:E2; [|done]. cbn.
    destruct (prompt_int _ _ _ i2) as [[c i3]|] eqn:E3; [|done]. cbn. intros [= <- <- <- <- _].
    apply prompt_int_sound, out_int_false in E1, E2, E3. repeat split; lia.
Qed.

Lemma readDims_ok fuel cond wlo whi hlo hhi w h ins w' h' ins' :
  readDims fuel cond wlo whi hlo hhi w h ins = Some (w', h', ins') ->
  (cond = true -> (wlo <= w' <= whi)%Q /\ (hlo <= h' <= hhi)%Q) /\
  (cond = false -> w' = w /\ h' = h).
Proof.
  unfold readDims. destruct cond; [|intros [= <- <- _]; done].
  destruct (prompt_float _ _ _ ins) as [[a i1]|] eqn:E1; [|done]. cbn.
  destruct (prompt_float _ _ _ i1) as [[b i2]|] eqn:E2; [|done]. cbn. intros [= <- <- _].
  apply prompt_float_sound, out_float_false in E1, E2. split; [|done]. by intros _.
Qed.

Lemma prompt_int_first f bad v z rest :
  in_int32 z = true -> bad z = false ->
  prompt_int (S f) bad v (mkStream (TInt z :: rest) false) = Some (z, mkStream rest false).
Proof.
  intros Hz Hg. apply (prompt_int_answers bad (S f) v [] z rest); [constructor|done|done|cbn; lia].
Qed.

(** A word whose value is a [float] is read exactly. *)
Lemma prompt_float_first f bad v q rest :
  bad q = false -> fl32 q = Some q ->
  prompt_float (S f) bad v (mkStream (TReal q :: rest) false) = Some (q, mkStream rest false).
Proof. intros Hg Hq. cbn. unfold read_float_word. rewrite Hq. by rewrite Hg. Qed.

(** The words that answer every prompt [main] asks for the answers [a]. *)
Definition answer_tokens (a : Answers) : list token :=
  let st := buildingStyle a in
  [TInt (citySize a); TInt st] ++
  (if st =? 1 then [TInt (numBuildings a)]
   else if st =? 2 then [TInt (numBuildings a)]
   else [TInt (numSkyscrapers a); TInt (numTowers a); TInt (numOfficeBuildings a)]) ++
  (if (st =? 1) || (st =? 3) then [TReal (skyscraperWidth a); TReal (skyscraperHeight a)] else []) ++
  (if (st =? 2) || (st =? 3) then [TReal (towerWidth a); TReal (towerHeight a)] else []) ++
  (if st =? 3 then [TReal (buildingWidth a); TReal (buildingHeight a)] else []) ++
  [TReal (pondRadius a)].

(** The sizes a style asks for are [float] values, which the reads
    give back exactly. *)
Definition answers_f32 (a : Answers) : Prop :=
  fl32 (pondRadius a) = Some (pondRadius a) /\
  (buildingStyle a <> 2 -> fl32 (skyscraperWidth a) = Some (skyscraperWidth a) /\
                           fl32 (skyscraperHeight a) = Some (skyscraperHeight a)) /\
  (buildingStyle a <> 1 -> fl32 (towerWidth a) = Some (towerWidth a) /\
                           fl32 (towerHeight a) = Some (towerHeight a)) /\
  (buildingStyle a = 3 -> fl32 (buildingWidth a) = Some (buildingWidth a) /\
                          fl32 (buildingHeight a) = Some (buildingHeight a)).

(** The values a style does not ask for keep the uninitialized ones. *)
Definition keeps_uninit (u : Uninit) (a : Answers) : Prop :=
  (buildingStyle a = 2 -> skyscraperWidth a = u_skyscraperWidth u /\
                          skyscraperHeight a = u_skyscraperHeight u) /\
  (buildingStyle a = 1 -> towerWidth a = u_towerWidth u /\ towerHeight a = u_towerHeight u) /\
  (buildingStyle a <> 3 -> buildingWidth a = u_buildingWidth u /\
                           buildingHeight a = u_buildingHeight u).

Lemma small_int32 z : 0 <= z <= 100 -> in_int32 z = true.
Proof. intros Hz. unfold in_int32, INT_MIN, INT_MAX. apply andb_true_iff; split; apply Z.leb_le; lia. Qed.

Ltac cli_step :=
  first [ rewrite prompt_int_first by (first [apply small_int32 | apply out_int_false]; lia)
        | rewrite prompt_float_first by (first [apply out_float_false; assumption | assumption]) ];
  cbn [mbind option_bind].

(** [C22] Answering every prompt with an in-range value, each size a
    [float] value, makes [readConfig] return exactly those answers and
    consume exactly their words: the prompts parse what [answer_tokens]
    prints, whatever follows. *)
Theorem readConfig_roundtrip f u a rest :
  answers_ok a -> answers_f32 a -> keeps_uninit u a ->
  readConfig (S f) u (mkStream (answer_tokens a ++ rest) false) = Some (a, mkStream rest false).
Proof.
  destruct a as [cs nb st tw th bw bh sw sh pr ns nt no].
  unfold answers_ok, answers_f32, keeps_uninit, answer_tokens, readConfig, readCounts, readDims.
  cbn [citySize numBuildings buildingStyle towerWidth towerHeight buildingWidth buildingHeight
       skyscraperWidth skyscraperHeight pondRadius numSkyscrapers numTowers numOfficeBuildings].
  intros (Hcs&Hst&Hpr&H1&H2&H3&Hsky&Htow&Hbld) (Fpr&Fsky&Ftow&Fbld) (Ku1&Ku2&Ku3).
  rewrite <- !app_assoc. cbn [app].
  cli_step. cli_step.
  assert (st = 1 \/ st = 2 \/ st = 3) as [ -> | [ -> | -> ] ] by lia; cbn [Z.eqb orb app Pos.eqb].
  - destruct H1 as (Hn&->&->&->); [done|]. destruct Hsky as [Hsw Hsh]; [lia|].
    destruct Fsky as [Fsw Fsh]; [lia|].
    destruct Ku2 as [-> ->]; [done|]. destruct Ku3 as [-> ->]; [lia|].
    do 4 cli_step. reflexivity.
  - destruct H2 as (Hn&->&->&->); [done|]. destruct Htow as [Htw Hth]; [lia|].
    destruct Ftow as [Ftw Fth]; [lia|].
    destruct Ku1 as [-> ->]; [done|]. destruct Ku3 as [-> ->]; [lia|].
    do 4 cli_step. reflexivity.
  - destruct H3 as (Hs&Ht&Ho&->); [done|]. destruct Hsky as [Hsw Hsh]; [lia|].
    destruct Htow as [Htw Hth]; [lia|]. destruct Hbld as [Hbw Hbh]; [done|].
    destruct Fsky as [Fsw Fsh]; [lia|]. destruct Ftow as [Ftw Fth]; [lia|].
    destruct Fbld as [Fbw Fbh]; [done|].
    do 10 cli_step. reflexivity.
Qed.

(** [C23] Whatever the input, when the prompts finish, the values main
    passes to [init] are in the ranges the prompts announce: city size
    and style in [1..3], 5 to 20 buildings of one type or 1 to 10 of
    each in the mixed style, the sizes of the used types and the pond
    radius in their ranges. *)
Theorem readConfig_ok fuel u ins a ins' :
  readConfig fuel u ins = Some (a, ins') -> answers_ok a.
Proof.
  unfold readConfig.
  destruct (prompt_int fuel _ _ ins) as [[cs i1]|] eqn:E1; [|done]. cbn [mbind option_bind].
  destruct (prompt_int fuel _ _ i1) as [[st i2]|] eqn:E2; [|done]. cbn [mbind option_bind].
  destruct (readCounts fuel st i2) as [[[[[ns nt] no] nb] i3]|] eqn:E3; [|done].
  cbn [mbind option_bind].
  destruct (readDims _ _ _ _ _ _ _ _ i3) as [[[sw sh] i4]|] eqn:E4; [|done]. cbn [mbind option_bind].
  destruct (readDims _ _ _ _ _ _ _ _ i4) as [[[tw th] i5]|] eqn:E5; [|done]. cbn [mbind option_bind].
  destruct (readDims _ _ _ _ _ _ _ _ i5) as [[[bw bh] i6]|] eqn:E6; [|done]. cbn [mbind option_bind].
  destruct (prompt_float _ _ _ i6) as [[pr i7]|] eqn:E7; [|done]. cbn [mbind option_bind].
  intros [= <- _].
  apply prompt_int_sound, out_int_false in E1, E2. apply readCounts_ok in E3; [|done].
  apply readDims_ok in E4 as [E4 _], E5 as [E5 _], E6 as [E6 _].
  apply prompt_float_sound, out_float_false in E7.
  unfold answers_ok. cbn [citySize numBuildings buildingStyle towerWidth towerHeight buildingWidth
    buildingHeight skyscraperWidth skyscraperHeight pondRadius numSkyscrapers numTowers
    numOfficeBuildings].
  do 6 (split; [tauto|]).
  assert (st = 1 \/ st = 2 \/ st = 3) as [ -> | [ -> | -> ] ] by lia; cbn in E4, E5, E6;
    repeat split; try lia; try (apply E4; done); try (apply E5; done); try (apply E6; done).
Qed.

(** A word that is not a number as the first answer hangs [main]:
    the read fails, writes [0], which is out of range, and every later
    read of the failed stream leaves [0] in place, so no amount of fuel
    ends the loop. *)
Theorem readConfig_junk_hangs fuel u t :
  readConfig fuel u (mkStream (TJunk :: t) false) = None.
Proof.
  unfold readConfig. destruct fuel as [|f]; [done|]. cbn [prompt_int read_int failed toks].
  rewrite prompt_int_stuck by done. done.
Qed.

(** A decimal city size such as [2.5] is read as [2], and the style
    prompt then reads [.5], fails and hangs. *)
Lemma readConfig_decimal_hangs fuel u q t :
  1 <= Z.quot (Qnum q) (Zpos (Qden q)) <= 3 ->
  readConfig fuel u (mkStream (TReal q :: t) false) = None.
Proof.
  intros Hq. unfold readConfig. destruct fuel as [|f]; [done|].
  cbn [prompt_int read_int failed toks].
  rewrite (proj2 (out_int_false _ _ _)) by exact Hq. cbn [mbind option_bind].
  destruct f as [|f]; [done|]. cbn [prompt_int read_int failed toks].
  rewrite prompt_int_stuck by done. done.
Qed.

(** ** Concrete runs *)

Definition u0 : Uninit := mkUninit 0 0 0 0 0 0 0 0 0.

(** The spec's example answered at the prompts: small city, 5
    skyscrapers 4 x 90, pond radius 5. *)
Definition example_answers : Answers :=
  mkAnswers 1 5 1 0 0 0 0 4 90 5 5 0 0.

Lemma readConfig_roundtrip_witness :
  answers_ok example_answers /\ answers_f32 example_answers /\ keeps_uninit u0 example_answers /\
  readConfig 1 u0 (mkStream (answer_tokens example_answers) false) =
    Some (example_answers, mkStream [] false).
Proof.
  assert (Hok : answers_ok example_answers)
    by (unfold answers_ok; cbn; repeat split; try lia; try discriminate; vm_compute; discriminate).
  assert (Hf : answers_f32 example_answers)
    by (unfold answers_f32; cbn; repeat split; try reflexivity; lia).
  assert (Hu : keeps_uninit u0 example_answers) by (unfold keeps_uninit; cbn; repeat split; lia).
  split; [exact Hok|]. split; [exact Hf|]. split; [exact Hu|].
  rewrite <- (app_nil_r (answer_tokens example_answers)).
  apply (readConfig_roundtrip 0 u0 example_answers []); assumption.
Defined.

(** The edge cases of the rounding: the least subnormal [2^-149] is
    exact, [2^-150] ties to [0] and [1.5 * 2^-149] to [2^-148];
    [FLT_MAX] is exact, [2^128 - 2^103] (half an ulp above it) rounds to
    infinity and one less to [FLT_MAX]; [2^24 + 1] and [2^24 + 3] tie to
    the even significand; [-0.1] rounds to [-13421773 * 2^-27]. *)
Example fl32_cases :
  fl32 (1 # 2 ^ 149) = Some (1 # 2 ^ 149) /\ fl32 (1 # 2 ^ 150) = Some 0%Q /\
  fl32 (3 # 2 ^ 150) = Some (1 # 2 ^ 148) /\
  fl32 FLT_MAX = Some FLT_MAX /\ fl32 (inject_Z (2 ^ 128 - 2 ^ 103)) = None /\
  fl32 (inject_Z (2 ^ 128 - 2 ^ 103 - 1)) = Some FLT_MAX /\
  fl32 (inject_Z 16777217) = Some (inject_Z 16777216) /\
  fl32 (inject_Z 16777219) = Some (inject_Z 16777220) /\
  fl32 (-(1 # 10)) = Some (-(13421773 # 134217728))%Q.
Proof. vm_compute. repeat split; reflexivity. Qed.

(** [2.3] is not a [float]: the read gives [2.2999999523162841796875],
    the nearest one, and [1e39] overflows to [FLT_MAX] with the fail
    bit set. *)
Example read_float_rounds :
  read_float 0 (mkStream [TReal (23 # 10); TInt (10 ^ 39)] false) =
    (9646899 # 4194304, mkStream [TInt (10 ^ 39)] false) /\
  read_float 0 (mkStream [TInt (10 ^ 39)] false) = (FLT_MAX, mkStream [] true).
Proof. split; vm_compute; reflexivity. Qed.

(** The range test reads the rounded value: a pond radius of
    [15.0000001], above the announced [15.0], rounds to [15] and is
    accepted. *)
Example prompt_float_rounded_in_range :
  prompt_float 1 (out_float 2 15) 0 (mkStream [TReal (150000001 # 10000000)] false) =
    Some (15%Q, mkStream [] false).
Proof. vm_compute. reflexivity. Qed.

Lemma readConfig_ok_witness :
  readConfig 2 u0 (mkStream [TInt 7; TInt 1; TInt 1; TInt 30; TInt 5; TReal 4; TReal 90; TReal 5] false) =
    Some (example_answers, mkStream [] false) /\ answers_ok example_answers.
Proof.
  assert (H : readConfig 2 u0 (mkStream [TInt 7; TInt 1; TInt 1; TInt 30; TInt 5; TReal 4;
                                         TReal 90; TReal 5] false) =
              Some (example_answers, mkStream [] false)) by (vm_compute; reflexivity).
  split; [exact H|]. exact (readConfig_ok _ _ _ _ _ H).
Defined.

End Cli.
