(* ===== verification/GL.v ===== *)
(** * The OpenGL calls of the program, as a state machine

    The program talks to OpenGL through a handful of calls: name
    generation ([glGenVertexArrays], [glGenBuffers], [glGenTextures]),
    bindings ([glBindVertexArray], [glBindBuffer], [glActiveTexture],
    [glBindTexture], [glUseProgram]), data upload ([glBufferData],
    [glVertexAttribPointer], [glEnableVertexAttribArray]), shader and
    program objects ([glCreateShader], [glShaderSource],
    [glCompileShader], [glCreateProgram], [glAttachShader],
    [glLinkProgram], the status queries, [glDeleteShader],
    [glDeleteProgram]), uniforms, [glDrawElements], and the deletions of
    the destructor ([glDeleteVertexArrays], [glDeleteBuffers],
    [glDeleteTextures]).  OpenGL is not
    part of the repository; this file
    models the part of the OpenGL 3.3 core state those calls read and
    write, following the specification: the element-array binding is
    state of the bound vertex array, the array-buffer binding is global,
    attribute pointers capture the array buffer bound when they are set,
    uniforms belong to the program in use, [glUseProgram] of a program
    that did not link is an error that leaves the current program, and
    whether a shader compiles or a program links is up to the GLSL
    compiler (the class [Glsl]).  Every draw is recorded with a
    snapshot of what it reads, so the frame [render] produces is a list
    of draws.  Code that calls OpenGL is written in the state monad
    [glM]; matrices are kept symbolic, as the list of [glm] operations
    that built them from the identity.  The file ends with the
    well-formedness of the object stores ([objects_wf]), the relation
    [shading_same] (what code that only builds objects leaves alone) and
    the program logic [keeps] with its tactic [keeps_tac]. *)

From S2P Require Import Prelude.
From stdpp Require Import gmap strings.

Open Scope Z_scope.

Module GL.

(** The two shader stages the program uses. *)
Inductive shader_kind := VERTEX_SHADER | FRAGMENT_SHADER.

#[export] Instance shader_kind_eq_dec : EqDecision shader_kind.
Proof. solve_decision. Defined.

(** The GLSL compiler and linker of the driver: whether a shader
    source compiles for its stage, and whether compiled shaders link. *)
Class Glsl := {
  glsl_compiles : shader_kind -> string -> bool;
  glsl_links : list (shader_kind * string) -> bool
}.

Section GL.
Context {F : Type} `{Glsl}.

Definition vec3 : Type := F * F * F.

(** [glm::translate], [glm::rotate] (the angle as the code writes it
    in degrees, before [glm::radians]) and [glm::scale], applied in
    order to the identity, [glm::perspective] (field of view in
    degrees, aspect, near, far) and [glm::lookAt(eye, center, up)]. *)
Inductive mat_op :=
| Translate (v : vec3)
| Rotate (angle_deg : F) (axis : vec3)
| Scale (v : vec3)
| Perspective (fovy_deg aspect near far : F)
| LookAt (eye center up : vec3).

Definition mat : Type := list mat_op.

(** The contents of a buffer object: [float]s or [unsigned int]s. *)
Inductive bufdata :=
| Floats (l : list F)
| Uints (l : list Z).

(** The value of a uniform. *)
Inductive uval :=
| UMat (m : mat)
| UVec3 (v : vec3)
| UFloat (f : F)
| UInt (z : Z).

(** [glVertexAttribPointer(index, size, GL_FLOAT, GL_FALSE, stride, offset)]
    with the array buffer bound at the time; stride and offset in
    floats. *)
Record attrib := mkAttrib { a_buffer : Z; a_size : Z; a_stride : Z; a_offset : Z }.

(** What a [glDrawElements(GL_TRIANGLES, count, GL_UNSIGNED_INT, 0)]
    reads: the vertex array, its element buffer, the count, the
    program and its uniforms, and the texture bindings. *)
Record draw := mkDraw {
  d_vao : Z; d_ebo : option Z; d_count : Z;
  d_program : Z; d_uniforms : gmap (Z * string) uval;
  d_textures : gmap Z Z
}.

(** A shader object: its stage, its source, [GL_COMPILE_STATUS] and
    whether [glDeleteShader] flagged it. *)
Record shader_obj := mkShaderObj {
  sh_kind : shader_kind; sh_source : string; sh_compiled : bool; sh_deleted : bool
}.

(** A program object: its attached shaders, [GL_LINK_STATUS] and
    [GL_DELETE_STATUS] (flagged by [glDeleteProgram] while current). *)
Record program_obj := mkProgramObj { p_shaders : list Z; p_linked : bool; p_deleted : bool }.

Record state := mkState {
  gl_next : Z;                          (** the last name handed out *)
  gl_vao : Z;                           (** [GL_VERTEX_ARRAY_BINDING] *)
  gl_array : Z;                         (** [GL_ARRAY_BUFFER_BINDING] *)
  gl_bufs : gmap Z bufdata;             (** buffer objects' data stores *)
  gl_ebo : gmap Z Z;                    (** each vertex array's element buffer *)
  gl_attribs : gmap (Z * Z) attrib;     (** (vertex array, index) pointers *)
  gl_enabled : gset (Z * Z);            (** enabled (vertex array, index) *)
  gl_unit : Z;                          (** [GL_ACTIVE_TEXTURE], as a unit number *)
  gl_tex : gmap Z Z;                    (** unit -> bound 2D texture *)
  gl_program : Z;                       (** [GL_CURRENT_PROGRAM] *)
  gl_uniforms : gmap (Z * string) uval; (** (program, name) -> value *)
  gl_draws : list draw;                 (** the draws issued, oldest first *)
gl_shaders : gmap Z shader_obj;       (** shader objects *)
gl_programs : gmap Z program_obj      (** program objects *)
}.

(** A fresh context: nothing bound, no objects, no draws. *)
Definition empty : state := mkState 0 0 0 ∅ ∅ ∅ ∅ 0 ∅ 0 ∅ [] ∅ ∅.

(** ** The state monad *)

Definition glM (A : Type) : Type := state -> A * state.

#[global] Instance glM_ret : MRet glM := fun A a st => (a, st).
#[global] Instance glM_bind : MBind glM :=
  fun A B (f : A -> glM B) (m : glM A) st => let '(a, st') := m st in f a st'.

Definition modify (f : state -> state) : glM unit := fun st => (tt, f st).

(** ** The calls *)

(** [glGen*(1, &name)], [glCreateShader] and [glCreateProgram] name
    allocation: a name not handed out before. *)
Definition glGen : glM Z := fun st =>
  let n := gl_next st + 1 in
  (n, mkState n (gl_vao st) (gl_array st) (gl_bufs st) (gl_ebo st) (gl_attribs st)
        (gl_enabled st) (gl_unit st) (gl_tex st) (gl_program st) (gl_uniforms st)
        (gl_draws st) (gl_shaders st) (gl_programs st)).

Definition glBindVertexArray (v : Z) : glM unit := modify (fun st =>
  mkState (gl_next st) v (gl_array st) (gl_bufs st) (gl_ebo st) (gl_attribs st)
    (gl_enabled st) (gl_unit st) (gl_tex st) (gl_program st) (gl_uniforms st)
    (gl_draws st) (gl_shaders st) (gl_programs st)).

(** The two buffer targets the program uses. *)
Inductive target := ARRAY_BUFFER | ELEMENT_ARRAY_BUFFER.

(** [glBindBuffer]: the element-array binding is stored in the bound
    vertex array. *)
Definition glBindBuffer (t : target) (b : Z) : glM unit := modify (fun st =>
  match t with
  | ARRAY_BUFFER =>
      mkState (gl_next st) (gl_vao st) b (gl_bufs st) (gl_ebo st) (gl_attribs st)
        (gl_enabled st) (gl_unit st) (gl_tex st) (gl_program st) (gl_uniforms st)
        (gl_draws st) (gl_shaders st) (gl_programs st)
  | ELEMENT_ARRAY_BUFFER =>
      mkState (gl_next st) (gl_vao st) (gl_array st) (gl_bufs st)
        (<[gl_vao st := b]> (gl_ebo st)) (gl_attribs st)
        (gl_enabled st) (gl_unit st) (gl_tex st) (gl_program st) (gl_uniforms st)
        (gl_draws st) (gl_shaders st) (gl_programs st)
  end).

(** [glBufferData]: replaces the data store of the buffer bound to the
    target. *)
Definition glBufferData (t : target) (d : bufdata) : glM unit := modify (fun st =>
  let b := match t with
           | ARRAY_BUFFER => Some (gl_array st)
           | ELEMENT_ARRAY_BUFFER => gl_ebo st !! gl_vao st
           end in
  match b with
  | Some b =>
      mkState (gl_next st) (gl_vao st) (gl_array st) (<[b := d]> (gl_bufs st)) (gl_ebo st)
        (gl_attribs st) (gl_enabled st) (gl_unit st) (gl_tex st) (gl_program st)
        (gl_uniforms st) (gl_draws st) (gl_shaders st) (gl_programs st)
  | None => st
  end).

Definition glEnableVertexAttribArray (i : Z) : glM unit := modify (fun st =>
  mkState (gl_next st) (gl_vao st) (gl_array st) (gl_bufs st) (gl_ebo st) (gl_attribs st)
    ({[(gl_vao st, i)]} ∪ gl_enabled st) (gl_unit st) (gl_tex st) (gl_program st)
    (gl_uniforms st) (gl_draws st) (gl_shaders st) (gl_programs st)).

Definition glVertexAttribPointer (i size stride offset : Z) : glM unit := modify (fun st =>
  mkState (gl_next st) (gl_vao st) (gl_array st) (gl_bufs st) (gl_ebo st)
    (<[(gl_vao st, i) := mkAttrib (gl_array st) size stride offset]> (gl_attribs st))
    (gl_enabled st) (gl_unit st) (gl_tex st) (gl_program st) (gl_uniforms st)
    (gl_draws st) (gl_shaders st) (gl_programs st)).

(** [glActiveTexture(GL_TEXTURE0 + u)] *)
Definition glActiveTexture (u : Z) : glM unit := modify (fun st =>
  mkState (gl_next st) (gl_vao st) (gl_array st) (gl_bufs st) (gl_ebo st) (gl_attribs st)
    (gl_enabled st) u (gl_tex st) (gl_program st) (gl_uniforms st)
    (gl_draws st) (gl_shaders st) (gl_programs st)).

(** [glBindTexture(GL_TEXTURE_2D, t)] on the active unit. *)
Definition glBindTexture (t : Z) : glM unit := modify (fun st =>
  mkState (gl_next st) (gl_vao st) (gl_array st) (gl_bufs st) (gl_ebo st) (gl_attribs st)
    (gl_enabled st) (gl_unit st) (<[gl_unit st := t]> (gl_tex st)) (gl_program st)
    (gl_uniforms st) (gl_draws st) (gl_shaders st) (gl_programs st)).

(** [GL_LINK_STATUS] of a program name ([false] for a name that is no
    program). *)
Definition program_linked (st : state) (p : Z) : bool :=
  match gl_programs st !! p with Some po => p_linked po | None => false end.

(** [glUseProgram(p)]: [GL_INVALID_OPERATION] and no change when [p] is
    not a linked program (0 unbinds). *)
Definition glUseProgram (p : Z) : glM unit := modify (fun st =>
  if (p =? 0) || program_linked st p then
    mkState (gl_next st) (gl_vao st) (gl_array st) (gl_bufs st) (gl_ebo st) (gl_attribs st)
      (gl_enabled st) (gl_unit st) (gl_tex st) p (gl_uniforms st)
      (gl_draws st) (gl_shaders st) (gl_programs st)
  else st).

(** [glUniform*(glGetUniformLocation(p, name), v)]: the location is
    looked up in [p] and the value goes to the current program.  For a
    program that did not link the location is [-1] and the value is
    dropped; it is stored when [p] is the current program (the code sets
    uniforms only after [use()]); the location of another program in the
    current one is not modelled and dropped as well. *)
Definition glUniform (p : Z) (name : string) (v : uval) : glM unit := modify (fun st =>
  if program_linked st p && (gl_program st =? p) then
    mkState (gl_next st) (gl_vao st) (gl_array st) (gl_bufs st) (gl_ebo st) (gl_attribs st)
      (gl_enabled st) (gl_unit st) (gl_tex st) (gl_program st)
      (<[(p, name) := v]> (gl_uniforms st)) (gl_draws st) (gl_shaders st) (gl_programs st)
  else st).

Definition glDrawElements (count : Z) : glM unit := modify (fun st =>
  mkState (gl_next st) (gl_vao st) (gl_array st) (gl_bufs st) (gl_ebo st) (gl_attribs st)
    (gl_enabled st) (gl_unit st) (gl_tex st) (gl_program st) (gl_uniforms st)
    (gl_draws st ++ [mkDraw (gl_vao st) (gl_ebo st !! gl_vao st) count (gl_program st)
                       (gl_uniforms st) (gl_tex st)]) (gl_shaders st) (gl_programs st)).

(** *** Deleting buffers, vertex arrays and textures *)

(** [glDeleteVertexArrays(1, &v)]: the array's element-buffer binding
    and attribute state go; a bound array reverts to 0; name 0 is
    ignored. *)
Definition glDeleteVertexArrays (v : Z) : glM unit := modify (fun st =>
  if v =? 0 then st else
  mkState (gl_next st) (if gl_vao st =? v then 0 else gl_vao st) (gl_array st) (gl_bufs st)
    (delete v (gl_ebo st)) (filter (fun kv => kv.1.1 <> v) (gl_attribs st))
    (filter (fun k => k.1 <> v) (gl_enabled st)) (gl_unit st) (gl_tex st) (gl_program st)
    (gl_uniforms st) (gl_draws st) (gl_shaders st) (gl_programs st)).

(** [glDeleteBuffers(1, &b)]: the data store goes; the array-buffer
    binding, and the bound array's element-buffer binding and attribute
    pointers, revert to 0 when they name [b] (bindings in arrays not
    bound keep the dead name); name 0 is ignored. *)
Definition glDeleteBuffers (b : Z) : glM unit := modify (fun st =>
  if b =? 0 then st else
  mkState (gl_next st) (gl_vao st) (if gl_array st =? b then 0 else gl_array st)
    (delete b (gl_bufs st))
    (if bool_decide (gl_ebo st !! gl_vao st = Some b) then delete (gl_vao st) (gl_ebo st)
     else gl_ebo st)
    (filter (fun kv => ~ (kv.1.1 = gl_vao st /\ a_buffer kv.2 = b)) (gl_attribs st))
    (gl_enabled st) (gl_unit st) (gl_tex st) (gl_program st)
    (gl_uniforms st) (gl_draws st) (gl_shaders st) (gl_programs st)).

(** [glDeleteTextures(1, &t)]: every unit that has [t] bound reverts to
    0; name 0 is ignored. *)
Definition glDeleteTextures (t : Z) : glM unit := modify (fun st =>
  if t =? 0 then st else
  mkState (gl_next st) (gl_vao st) (gl_array st) (gl_bufs st) (gl_ebo st) (gl_attribs st)
    (gl_enabled st) (gl_unit st) (filter (fun kv => kv.2 <> t) (gl_tex st)) (gl_program st)
    (gl_uniforms st) (gl_draws st) (gl_shaders st) (gl_programs st)).

(** *** Shader and program objects *)

(** Replaces the shader and program stores. *)
Definition set_objects (shs : gmap Z shader_obj) (ps : gmap Z program_obj) : glM unit :=
  modify (fun st =>
    mkState (gl_next st) (gl_vao st) (gl_array st) (gl_bufs st) (gl_ebo st) (gl_attribs st)
      (gl_enabled st) (gl_unit st) (gl_tex st) (gl_program st) (gl_uniforms st)
      (gl_draws st) shs ps).

Definition get : glM state := fun st => (st, st).

(** [glCreateShader(kind)] *)
Definition glCreateShader (k : shader_kind) : glM Z :=
  s ← glGen; st ← get;
  set_objects (<[s := mkShaderObj k "" false false]> (gl_shaders st)) (gl_programs st) ;;
  mret s.

(** [glShaderSource(s, 1, &src, NULL)] *)
Definition glShaderSource (s : Z) (src : string) : glM unit :=
  st ← get;
  match gl_shaders st !! s with
  | Some so => set_objects (<[s := mkShaderObj (sh_kind so) src (sh_compiled so) (sh_deleted so)]>
                              (gl_shaders st)) (gl_programs st)
  | None => mret tt
  end.

(** [glCompileShader(s)]: the status is the GLSL compiler's verdict on
    the source. *)
Definition glCompileShader (s : Z) : glM unit :=
  st ← get;
  match gl_shaders st !! s with
  | Some so =>
      set_objects (<[s := mkShaderObj (sh_kind so) (sh_source so)
                           (glsl_compiles (sh_kind so) (sh_source so)) (sh_deleted so)]>
                     (gl_shaders st)) (gl_programs st)
  | None => mret tt
  end.

(** [glGetShaderiv(s, GL_COMPILE_STATUS, &ok)] *)
Definition glGetShaderCompileStatus (s : Z) : glM bool :=
  st ← get; mret (default false (sh_compiled <$> gl_shaders st !! s)).

(** [glCreateProgram()] *)
Definition glCreateProgram : glM Z :=
  p ← glGen; st ← get;
  set_objects (gl_shaders st) (<[p := mkProgramObj [] false false]> (gl_programs st)) ;;
  mret p.

(** [glAttachShader(p, s)] *)
Definition glAttachShader (p s : Z) : glM unit :=
  st ← get;
  match gl_programs st !! p with
  | Some po => set_objects (gl_shaders st)
                 (<[p := mkProgramObj (p_shaders po ++ [s]) (p_linked po) (p_deleted po)]> (gl_programs st))
  | None => mret tt
  end.

(** The stage and source of each attached shader, and whether all of
    them compiled. *)
Definition attached (st : state) (l : list Z) : list (shader_kind * string) :=
  omap (fun s => (fun so => (sh_kind so, sh_source so)) <$> gl_shaders st !! s) l.
Definition all_compiled (st : state) (l : list Z) : bool :=
  forallb (fun s => default false (sh_compiled <$> gl_shaders st !! s)) l.

(** [glLinkProgram(p)]: linking fails when an attached shader did not
    compile; otherwise the GLSL linker decides. *)
Definition glLinkProgram (p : Z) : glM unit :=
  st ← get;
  match gl_programs st !! p with
  | Some po =>
      let ok := all_compiled st (p_shaders po) && glsl_links (attached st (p_shaders po)) in
      set_objects (gl_shaders st) (<[p := mkProgramObj (p_shaders po) ok (p_deleted po)]> (gl_programs st))
  | None => mret tt
  end.

(** [glGetProgramiv(p, GL_LINK_STATUS, &ok)] *)
Definition glGetProgramLinkStatus (p : Z) : glM bool :=
  st ← get; mret (program_linked st p).

(** [glDeleteShader(s)]: the shader is flagged, and goes away once no
    program has it attached. *)
Definition glDeleteShader (s : Z) : glM unit :=
  st ← get;
  match gl_shaders st !! s with
  | Some so =>
      let in_use := bool_decide (map_Exists (fun _ po => s ∈ p_shaders po) (gl_programs st)) in
      set_objects (if in_use
                   then <[s := mkShaderObj (sh_kind so) (sh_source so) (sh_compiled so) true]>
                          (gl_shaders st)
                   else delete s (gl_shaders st)) (gl_programs st)
  | None => mret tt
  end.

(** [glDeleteProgram(p)]: a name that is no program (0 included) is
    ignored.  The current program is only flagged for deletion: it stays
    in use, with its shaders, until it stops being current (the code
    makes no OpenGL call after deleting its program, so that later
    release in [glUseProgram] is not modelled).  Any other program goes
    away, and flagged shaders it held that no other program holds go
    with it. *)
Definition glDeleteProgram (p : Z) : glM unit :=
  st ← get;
  match gl_programs st !! p with
  | None => mret tt
  | Some po =>
      if gl_program st =? p then
        set_objects (gl_shaders st)
          (<[p := mkProgramObj (p_shaders po) (p_linked po) true]> (gl_programs st))
      else
        let ps := delete p (gl_programs st) in
        let keep s so := negb (sh_deleted so) ||
                         bool_decide (map_Exists (fun _ po => s ∈ p_shaders po) ps) in
        set_objects (filter (fun kv => keep kv.1 kv.2 = true) (gl_shaders st)) ps
  end.

(** ** Well-formed object stores *)

(** Names above the counter are unused (the current program
    included), programs hold shaders named below it, and a shader
    flagged for deletion is still held by some program (otherwise
    [glDeleteShader] would have deleted it). *)
Definition objects_wf (st : state) : Prop :=
  0 <= gl_next st /\ gl_program st <= gl_next st /\
  (forall k, gl_next st < k -> gl_shaders st !! k = None /\ gl_programs st !! k = None) /\
  (forall p po s, gl_programs st !! p = Some po -> s ∈ p_shaders po -> s <= gl_next st) /\
  (forall s so, gl_shaders st !! s = Some so -> sh_deleted so = true ->
     map_Exists (fun _ po => s ∈ p_shaders po) (gl_programs st)).

Lemma empty_objects_wf : objects_wf empty.
Proof.
  unfold objects_wf, empty; cbn [gl_next gl_shaders gl_programs gl_program].
  split; [done|]. split; [done|]. split; [by intros|]. split; intros *; by rewrite lookup_empty.
Qed.

(** ** What code that only builds objects leaves alone

    The current program, the uniforms, the program objects and the
    draws: [buildMesh] and [loadTexture] create buffers, vertex arrays
    and textures and leave these as they were. *)
Definition shading_same (st st' : state) : Prop :=
  gl_program st' = gl_program st /\ gl_uniforms st' = gl_uniforms st /\
  gl_programs st' = gl_programs st /\ gl_draws st' = gl_draws st.

Lemma shading_same_refl st : shading_same st st.
Proof. done. Qed.

Lemma shading_same_trans a b c : shading_same a b -> shading_same b c -> shading_same a c.
Proof. intros (?&?&?&?) (?&?&?&?). repeat split; congruence. Qed.

Lemma shading_same_linked st st' p : shading_same st st' -> program_linked st' p = program_linked st p.
Proof. intros (_&_&Hp&_). unfold program_linked. by rewrite Hp. Qed.

(** ** Running a list of calls *)

Definition mapM_ {A} (f : A -> glM unit) : list A -> glM unit :=
  fix go l := match l with [] => mret tt | x :: l => f x ;; go l end.
End GL.

Arguments state : clear implicits.
Arguments glM : clear implicits.
Arguments draw : clear implicits.
Arguments bufdata : clear implicits.
Arguments uval : clear implicits.
Arguments mat_op : clear implicits.
Arguments mat : clear implicits.
Arguments vec3 : clear implicits.

(** Runs straight-line OpenGL code on a state: the monad, the calls and
    the state's fields. *)
Ltac gl_run :=
  cbv beta iota zeta delta [mbind glM_bind mret glM_ret glGen glBindVertexArray glBindBuffer
    glBufferData glEnableVertexAttribArray glVertexAttribPointer glActiveTexture glBindTexture
    glDrawElements modify set_objects get glCreateShader glShaderSource
    glCompileShader glGetShaderCompileStatus glCreateProgram glAttachShader glLinkProgram
    glGetProgramLinkStatus glDeleteShader glDeleteProgram glDeleteVertexArrays glDeleteBuffers
    glDeleteTextures gl_next gl_vao gl_array gl_bufs
    gl_ebo gl_attribs gl_enabled gl_unit gl_tex gl_program gl_uniforms gl_draws gl_shaders
    gl_programs sh_kind sh_source sh_compiled sh_deleted p_shaders p_linked p_deleted program_linked
    all_compiled attached fst snd].

(** [glUseProgram] and [glUniform] on a linked program that is (for
    [glUniform]) the current one. *)
Lemma glUseProgram_linked {F} p (st : state F) :
  program_linked st p = true ->
  glUseProgram p st =
    (tt, mkState (gl_next st) (gl_vao st) (gl_array st) (gl_bufs st) (gl_ebo st) (gl_attribs st)
           (gl_enabled st) (gl_unit st) (gl_tex st) p (gl_uniforms st)
           (gl_draws st) (gl_shaders st) (gl_programs st)).
Proof. intros H. unfold glUseProgram, modify. by rewrite H, orb_true_r. Qed.

Lemma glUniform_linked {F} p name v (st : state F) :
  program_linked st p = true -> gl_program st = p ->
  glUniform p name v st =
    (tt, mkState (gl_next st) (gl_vao st) (gl_array st) (gl_bufs st) (gl_ebo st) (gl_attribs st)
           (gl_enabled st) (gl_unit st) (gl_tex st) (gl_program st)
           (<[(p, name) := v]> (gl_uniforms st)) (gl_draws st) (gl_shaders st) (gl_programs st)).
Proof. intros H Hp. unfold glUniform, modify. by rewrite H, Hp, Z.eqb_refl. Qed.

(** Without a linked program both are errors that change nothing. *)
Lemma glUseProgram_unlinked {F} p (st : state F) :
  p <> 0 -> program_linked st p = false -> glUseProgram p st = (tt, st).
Proof. intros H0 H. unfold glUseProgram, modify. rewrite H. by destruct (Z.eqb_spec p 0). Qed.

Lemma glUniform_unlinked {F} p name v (st : state F) :
  program_linked st p = false -> glUniform p name v st = (tt, st).
Proof. intros H. unfold glUniform, modify. by rewrite H. Qed.

(** Runs straight-line code that uses a linked program: [gl_run], and
    each [glUseProgram] and [glUniform] once its state is known. *)
Ltac gl_cond := cbn [program_linked gl_programs gl_program]; first [assumption | reflexivity].
Ltac gl_exec :=
  gl_run;
  repeat (first [rewrite glUseProgram_linked by gl_cond | rewrite glUniform_linked by gl_cond];
          gl_run).

(** Lookups in maps updated at other keys. *)
Ltac map_simpl :=
  repeat first [rewrite lookup_insert_eq | rewrite lookup_insert_ne by (intros ?; simplify_eq; lia)].



(** ** Frame properties of OpenGL code

    [keeps I R Pd m]: from a state where [I] holds, [m] ends in a state
    where [I] holds again, related to the first by [R], having appended
    to the draw list only draws that satisfy [Pd].  With [R] a preorder
    this composes along [;;] and [mapM_], so a property of every call a
    piece of code makes is a property of the code. *)
Section Keeps.
Context {F : Type} `{Glsl}.
Variables (I : state F -> Prop) (R : state F -> state F -> Prop) (Pd : draw F -> Prop).

Definition keeps (m : glM F unit) : Prop :=
  forall st, I st -> I (m st).2 /\ R st (m st).2 /\
    exists new, gl_draws (m st).2 = gl_draws st ++ new /\ Forall Pd new.

Hypothesis Rrefl : forall st, R st st.
Hypothesis Rtrans : forall a b c, R a b -> R b c -> R a c.

Lemma keeps_seq m1 m2 : keeps m1 -> keeps m2 -> keeps (m1 ;; m2).
Proof.
  intros K1 K2 st Hst. cbv [mbind glM_bind]. destruct (m1 st) as [[] st1] eqn:E1.
  destruct (K1 st Hst) as (I1&R1&n1&Hd1&Hf1). rewrite E1 in I1, R1, Hd1. cbn in I1, R1, Hd1.
  destruct (K2 st1 I1) as (I2&R2&n2&Hd2&Hf2). split; [done|]. split; [eauto|].
  exists (n1 ++ n2). rewrite Hd2, Hd1, app_assoc. split; [done|]. by apply Forall_app.
Qed.

Lemma keeps_mapM {A} (f : A -> glM F unit) l : (forall x, keeps (f x)) -> keeps (mapM_ f l).
Proof.
  intros Hf. induction l as [|x l IH]; cbn [mapM_]; [|by apply keeps_seq].
  intros st Hst. split; [done|]. split; [done|]. exists []. by rewrite app_nil_r.
Qed.

(** A call that issues no draw. *)
Lemma keeps_nodraw (m : glM F unit) :
  (forall st, I st -> I (m st).2 /\ R st (m st).2 /\ gl_draws (m st).2 = gl_draws st) -> keeps m.
Proof.
  intros Hm st Hst. destruct (Hm st Hst) as (HI&HR&Hd). split; [done|]. split; [done|].
  exists []. by rewrite Hd, app_nil_r.
Qed.
End Keeps.

(** Proves [keeps] of straight-line code and loops with the tactic [leaf] for its
    calls. *)
Ltac keeps_tac leaf :=
  repeat first [ apply keeps_seq | apply keeps_mapM; intros ? | progress cbv beta
               | match goal with |- context [let '(_, _) := ?e in _] => destruct e end
               | solve [leaf] ].

(** ** The geometry of the draws

    [geom_eq] relates two states that agree on everything but the
    program objects, the current program and the uniforms, and whose
    draw logs agree on what each draw draws ([draw_shape]: vertex array,
    element buffer, count, textures).  [geom_resp m] says that [m]
    respects it: code whose draws' geometry does not depend on the
    program it runs with. *)
Section Geometry.
Context {F : Type} `{Glsl}.

Definition draw_shape (d : draw F) : Z * option Z * Z * gmap Z Z :=
  (d_vao d, d_ebo d, d_count d, d_textures d).

Definition geom_eq (a b : state F) : Prop :=
  gl_next a = gl_next b /\ gl_vao a = gl_vao b /\ gl_array a = gl_array b /\
  gl_bufs a = gl_bufs b /\ gl_ebo a = gl_ebo b /\ gl_attribs a = gl_attribs b /\
  gl_enabled a = gl_enabled b /\ gl_unit a = gl_unit b /\ gl_tex a = gl_tex b /\
  map draw_shape (gl_draws a) = map draw_shape (gl_draws b).

#[global] Instance geom_eq_equiv : Equivalence geom_eq.
Proof. split; [intros a | intros a b | intros a b c]; unfold geom_eq; intuition congruence. Qed.

Definition geom_resp (m : glM F unit) : Prop := Proper (geom_eq ==> geom_eq) (fun st => (m st).2).

Lemma geom_seq m1 m2 : geom_resp m1 -> geom_resp m2 -> geom_resp (m1 ;; m2).
Proof.
  intros H1 H2 a b Hab. cbv [mbind glM_bind]. specialize (H1 a b Hab). cbv beta in H1.
  destruct (m1 a) as [[] a1], (m1 b) as [[] b1]. exact (H2 _ _ H1).
Qed.

Lemma geom_mapM {A} (f : A -> glM F unit) l : (forall x, geom_resp (f x)) -> geom_resp (mapM_ f l).
Proof. intros Hf. induction l; cbn [mapM_]; [intros a b Hab; exact Hab | by apply geom_seq]. Qed.

(** Code that changes nothing a draw's geometry reads respects it. *)
Lemma geom_silent m : (forall st, geom_eq st (m st).2) -> geom_resp m.
Proof. intros Hm a b Hab. cbn. rewrite <- (Hm a), <- (Hm b). exact Hab. Qed.

Ltac geom_leaf :=
  intros [] [] (?&?&?&?&?&?&?&?&?&Hd); cbn [gl_next gl_vao gl_array gl_bufs gl_ebo gl_attribs
    gl_enabled gl_unit gl_tex gl_draws] in *; subst; gl_run; unfold geom_eq; cbn;
  rewrite ?map_app, ?Hd; repeat split.

Lemma geom_bindVA v : geom_resp (glBindVertexArray v).
Proof. geom_leaf. Qed.

Lemma geom_active u : geom_resp (glActiveTexture u).
Proof. geom_leaf. Qed.

Lemma geom_bindTex t : geom_resp (glBindTexture t).
Proof. geom_leaf. Qed.

Lemma geom_draw c : geom_resp (glDrawElements c).
Proof. geom_leaf. Qed.

Lemma geom_use p : geom_resp (glUseProgram p).
Proof.
  apply geom_silent. intros st. unfold glUseProgram, modify.
  destruct (_ || _); [|reflexivity]. unfold geom_eq; cbn. repeat split.
Qed.

Lemma geom_uniform p name v : geom_resp (glUniform p name v).
Proof.
  apply geom_silent. intros st. unfold glUniform, modify.
  destruct (_ && _); [|reflexivity]. unfold geom_eq; cbn. repeat split.
Qed.
End Geometry.

Create HintDb geom.
#[export] Hint Resolve geom_bindVA geom_active geom_bindTex geom_draw geom_use geom_uniform : geom.

(** Proves [geom_resp] of straight-line code and loops. *)
Ltac geom_tac :=
  repeat first [ apply geom_seq | apply geom_mapM; intros ? | progress cbv beta
               | match goal with |- context [let '(_, _) := ?e in _] => destruct e end
               | solve [eauto with geom] ].

End GL.
