(* ===== verification/Shader.v ===== *)
(** * The shader program (render/shader.cpp)

    [Shader::Shader(vsrc, fsrc)] compiles a vertex and a fragment shader
    with [Shader::compile], links them into a program, reports a failed
    compilation or link on [std::cerr] (the reports are the list of
    [shader_error]s the constructor returns) and deletes the two shader
    objects; the object keeps the program name in [id], which
    [Shader::~Shader] deletes.  The setters wrap [glUseProgram] and
    [glUniform*(glGetUniformLocation(id, name), ...)].  The two GLSL
    sources main.cpp builds its shader from are the strings
    [vertexSrc] and [fragmentSrc]; whether they compile and link is up
    to the driver's [GL.Glsl].  The [uniform T name;] lines of the two
    strings are read off by [uniforms_of], which gives the type each
    uniform is declared with ([declared]) and which values a
    [glUniform*] call may give it ([typed_set]). *)

From S2P Require Import Prelude GL.
From stdpp Require Import gmap strings.
From Stdlib Require Import QArith Ascii.

Open Scope Z_scope.

Module Shader.
Import GL.

(** [class Shader { GLuint id; ... }] *)
Record Shader := mkShader { id : Z }.

(** What [Shader::Shader] writes to [std::cerr]: a compile error of a
    shader object or a link error of the program. *)
Inductive shader_error := CompileError (s : Z) | LinkError (p : Z).

Section Shader.
Context {F : Type} `{Glsl}.
Implicit Types (sh : Shader).

(** [Shader::compile(type, src)], lines 24-34. *)
Definition compile (k : shader_kind) (src : string) : glM F (Z * list shader_error) :=
  s ← glCreateShader k;
  glShaderSource s src ;;
  glCompileShader s ;;
  ok ← glGetShaderCompileStatus s;
  mret (s, if (ok : bool) then [] else [CompileError s]).

(** [Shader::Shader(vsrc, fsrc)], lines 5-18. *)
Definition newShader (vsrc fsrc : string) : glM F (Shader * list shader_error) :=
  '(vs, e1) ← compile VERTEX_SHADER vsrc;
  '(fs, e2) ← compile FRAGMENT_SHADER fsrc;
  p ← glCreateProgram;
  glAttachShader p vs ;;
  glAttachShader p fs ;;
  glLinkProgram p ;;
  ok ← glGetProgramLinkStatus p;
  glDeleteShader vs ;;
  glDeleteShader fs ;;
  mret (mkShader p, e1 ++ e2 ++ (if (ok : bool) then [] else [LinkError p])).

(** [Shader::~Shader()]: [if (id) glDeleteProgram(id);] *)
Definition deleteShader sh : glM F unit :=
  if id sh =? 0 then mret tt else glDeleteProgram (id sh).

(** The setters, lines 35-47. *)
Definition use sh : glM F unit := glUseProgram (id sh).
Definition setMat4 sh (name : string) (m : mat F) : glM F unit := glUniform (id sh) name (UMat m).
Definition setVec3 sh (name : string) (v : vec3 F) : glM F unit := glUniform (id sh) name (UVec3 v).
Definition setFloat sh (name : string) (v : F) : glM F unit := glUniform (id sh) name (UFloat v).
Definition setInt sh (name : string) (v : Z) : glM F unit := glUniform (id sh) name (UInt v).
End Shader.


(** ** Properties *)

(** Evaluates straight-line code on shader and program objects: the
    calls, lookups of the keys just written, and the list helpers. *)
Ltac obj_run :=
  map_simpl; gl_run;
  cbv beta iota zeta delta [forallb app omap list_omap fmap option_fmap option_map default
    Datatypes.id].

(** [glDeleteShader] of a shader a program holds only flags it. *)
Ltac attached_held :=
  rewrite bool_decide_eq_true_2 by
    (eexists _, _; split; [apply lookup_insert_eq | cbn; set_solver]).

Section Props.
Context {F : Type} `{Glsl}.

(** [Shader::Shader] hands out three fresh names (vertex shader, fragment
    shader, program), leaves both shaders attached and flagged for
    deletion, links the program exactly when both sources compile and
    the driver links them, and reports each failed step in order. *)
Lemma newShader_spec vsrc fsrc (st : state F) :
  let '((sh, errs), st') := newShader vsrc fsrc st in
  let n := gl_next st in
  let cv := glsl_compiles VERTEX_SHADER vsrc in
  let cf := glsl_compiles FRAGMENT_SHADER fsrc in
  let ok := cv && cf && glsl_links [(VERTEX_SHADER, vsrc); (FRAGMENT_SHADER, fsrc)] in
  id sh = n + 3 /\ gl_next st' = n + 3 /\
  gl_programs st' = <[n + 3 := mkProgramObj [n + 1; n + 2] ok false]> (gl_programs st) /\
  gl_shaders st' = <[n + 2 := mkShaderObj FRAGMENT_SHADER fsrc cf true]>
                     (<[n + 1 := mkShaderObj VERTEX_SHADER vsrc cv true]> (gl_shaders st)) /\
  gl_draws st' = gl_draws st /\ gl_program st' = gl_program st /\ gl_uniforms st' = gl_uniforms st /\
  gl_bufs st' = gl_bufs st /\ gl_ebo st' = gl_ebo st /\ gl_attribs st' = gl_attribs st /\
  errs = (if cv then [] else [CompileError (n + 1)]) ++
         (if cf then [] else [CompileError (n + 2)]) ++ (if ok then [] else [LinkError (n + 3)]).
Proof.
  destruct st as [n v a bufs ebos attrs en u tex p unis draws shs ps].
  unfold newShader, compile. gl_run. do 8 obj_run.
  attached_held. do 4 obj_run. attached_held. do 4 obj_run.
  replace (n + 3) with (n + 1 + 1 + 1) by lia. replace (n + 2) with (n + 1 + 1) by lia.
  rewrite andb_true_r. repeat split; try reflexivity; apply map_eq; intros k;
    destruct (decide (k = n + 1)), (decide (k = n + 1 + 1)), (decide (k = n + 1 + 1 + 1));
    subst; try lia; map_simpl; reflexivity.
Qed.

(** Under [objects_wf], no program holds a shader named above the
    counter. *)
Lemma objects_wf_not_held (st : state F) s :
  objects_wf st -> gl_next st < s -> ~ map_Exists (fun _ po => s ∈ p_shaders po) (gl_programs st).
Proof. intros (_&_&_&Hatt&_) Hs (p&po&Hp&Hin). pose proof (Hatt p po s Hp Hin). lia. Qed.

(** [C14] [Shader::Shader] reports an error on [std::cerr] exactly when
    the program it returns is not linked: a constructed [Shader] is
    usable iff nothing was reported, and a failure is never silent. *)
Theorem newShader_errors vsrc fsrc (st : state F) :
  let '((sh, errs), st') := newShader vsrc fsrc st in
  errs = [] <-> program_linked st' (id sh) = true.
Proof.
  pose proof (newShader_spec vsrc fsrc st) as Hs.
  destruct (newShader vsrc fsrc st) as [[sh errs] st'].
  destruct Hs as (Hid&_&Hp&_&_&_&_&_&_&_&He). unfold program_linked.
  rewrite Hp, Hid, lookup_insert_eq, He. cbn [p_linked].
  destruct (glsl_compiles VERTEX_SHADER vsrc), (glsl_compiles FRAGMENT_SHADER fsrc),
    (glsl_links _); cbn; split; congruence.
Qed.

(** [C15] Constructing a [Shader] and destroying it releases every object
    it created: on a context with well-formed object stores, the shader
    and program stores after [~Shader] are those before [Shader::Shader]
    (the two shader objects, flagged at construction, go with the
    program). *)
Theorem shader_no_leak vsrc fsrc (st : state F) :
  objects_wf st ->
  let '((sh, _), st1) := newShader vsrc fsrc st in
  let st2 := (deleteShader sh st1).2 in
  gl_shaders st2 = gl_shaders st /\ gl_programs st2 = gl_programs st.
Proof.
  intros Hwf. pose proof (newShader_spec vsrc fsrc st) as Hs.
  destruct (newShader vsrc fsrc st) as [[sh errs] st1].
  destruct Hs as (Hid&_&Hp&Hsh&_&Hcur&_). pose proof Hwf as (Hn&Hpc&Hfree&_&Hflag).
  unfold deleteShader. rewrite Hid, (proj2 (Z.eqb_neq _ _)) by lia.
  unfold glDeleteProgram. cbv [mbind glM_bind get set_objects modify mret glM_ret].
  rewrite Hp, lookup_insert_eq, Hcur, (proj2 (Z.eqb_neq _ _)) by lia.
  cbn [gl_shaders gl_programs snd]. rewrite delete_insert_id by (apply Hfree; lia).
  split; [|done]. rewrite Hsh.
  pose proof (objects_wf_not_held st (gl_next st + 1) Hwf ltac:(lia)) as N1.
  pose proof (objects_wf_not_held st (gl_next st + 2) Hwf ltac:(lia)) as N2.
  rewrite map_filter_insert_not'; cbn [fst snd sh_deleted].
  2: { by rewrite bool_decide_eq_false_2. }
  2: { intros y. rewrite lookup_insert_ne by lia. by rewrite (proj1 (Hfree (gl_next st + 2) ltac:(lia))). }
  rewrite map_filter_insert_not'; cbn [fst snd sh_deleted].
  2: { by rewrite bool_decide_eq_false_2. }
  2: { intros y. by rewrite (proj1 (Hfree (gl_next st + 1) ltac:(lia))). }
  apply map_filter_id. intros s so Hso. cbn [fst snd].
  destruct (sh_deleted so) eqn:Hd; [|done]. cbn.
  apply bool_decide_eq_true_2. by apply (Hflag s so).
Qed.
End Props.

(** The GLSL sources of main.cpp (lines 10-63), as the raw string
    literals hold them. *)
Definition vertexSrc : string := "
#version 330 core
layout(location=0) in vec3 aPos;
layout(location=1) in vec3 aNormal;
layout(location=2) in vec2 aUV;
uniform mat4 model;
uniform mat4 view;
uniform mat4 proj;
out vec3 vNormal;
out vec3 vFragPos;
out vec2 vUV;
void main(){
    vFragPos = vec3(model * vec4(aPos,1.0));
    vNormal = mat3(transpose(inverse(model))) * aNormal;
    vUV = aUV;
    gl_Position = proj * view * vec4(vFragPos, 1.0);
}
".

Definition fragmentSrc : string := "
#version 330 core
in vec3 vNormal;
in vec3 vFragPos;
in vec2 vUV;
out vec4 FragColor;
uniform sampler2D tex;
uniform vec3 lightPos;
uniform vec3 viewPos;
uniform vec3 baseColor;
uniform float useTexture;
uniform int texIndex;
void main(){
    vec3 N = normalize(vNormal);
    vec3 L = normalize(lightPos - vFragPos);
    float diff = max(dot(N,L), 0.0);
    vec3 color = baseColor;
    if (useTexture > 0.5) {
        color = texture(tex, vUV).rgb;
    }
    
    // Night lighting with lower ambient
    vec3 ambient = 0.15 * color;
    vec3 diffuse = diff * color * 0.6;
    
    // Subtle specular for natural materials
    vec3 viewDir = normalize(viewPos - vFragPos);
    vec3 H = normalize(L + viewDir);
    float spec = pow(max(dot(N,H), 0.0), 16.0);
    vec3 specular = vec3(0.2) * spec;

    vec3 result = ambient + diffuse + specular;
    FragColor = vec4(result, 1.0);
}
".

(** ** The uniforms the sources declare

    What the GLSL compiler reads of the [uniform T name;] lines of the
    two sources: each uniform's name and type.  A value set with
    [glUniformMatrix4fv], [glUniform3fv], [glUniform1f] or [glUniform1i]
    ([UMat], [UVec3], [UFloat], [UInt]) fits a [mat4], a [vec3], a
    [float], an [int] or a [sampler2D] uniform. *)
Inductive glsl_type := GMat4 | GVec3 | GFloat | GInt | GSampler2D.

Definition glsl_type_of (w : string) : option glsl_type :=
  if String.eqb w "mat4" then Some GMat4
  else if String.eqb w "vec3" then Some GVec3
  else if String.eqb w "float" then Some GFloat
  else if String.eqb w "int" then Some GInt
  else if String.eqb w "sampler2D" then Some GSampler2D
  else None.

(** The pieces of [s] between the occurrences of [c]. *)
Fixpoint split_on (c : Ascii.ascii) (s : string) : list string :=
  match s with
  | EmptyString => [EmptyString]
  | String a s' =>
      let rest := split_on c s' in
      if Ascii.eqb a c then EmptyString :: rest
      else match rest with w :: ws => String a w :: ws | [] => [String a EmptyString] end
  end.

Definition words (l : string) : list string :=
  List.filter (fun w => negb (String.eqb w "")) (split_on " "%char l).

(** A line [uniform T name;]. *)
Definition uniform_decl (l : string) : option (string * glsl_type) :=
  match words l with
  | [kw; ty; nm] =>
      match String.eqb kw "uniform", String.get (String.length nm - 1) nm, glsl_type_of ty with
      | true, Some ";"%char, Some t => Some (String.substring 0 (String.length nm - 1) nm, t)
      | _, _, _ => None
      end
  | _ => None
  end.

Definition uniforms_of (src : string) : list (string * glsl_type) :=
  omap uniform_decl (split_on "010"%char src).

(** The type a uniform of the linked program is declared with. *)
Definition declared (name : string) : option glsl_type :=
  snd <$> List.find (fun d => String.eqb d.1 name) (uniforms_of vertexSrc ++ uniforms_of fragmentSrc).

Definition uval_fits {F} (v : uval F) (t : glsl_type) : bool :=
  match v, t with
  | UMat _, GMat4 | UVec3 _, GVec3 | UFloat _, GFloat | UInt _, GInt | UInt _, GSampler2D => true
  | _, _ => false
  end.

(** A value that fits the declaration of its name. *)
Definition typed_set {F} (name : string) (v : uval F) : bool :=
  match declared name with Some t => uval_fits v t | None => false end.

(** ** A concrete driver

    A GLSL compiler that accepts any nonempty source and links a vertex
    shader with a fragment shader: the stand-in used to run the
    constructor on the sources of main.cpp. *)
Definition glsl_accepting : Glsl :=
  {| glsl_compiles k src := negb (String.eqb src "");
     glsl_links l := bool_decide (map fst l = [VERTEX_SHADER; FRAGMENT_SHADER]) |}.

(** A driver without GLSL 3.30 support: no source compiles. *)
Definition glsl_rejecting : Glsl :=
  {| glsl_compiles k src := false; glsl_links l := false |}.

(** main.cpp's shader on a fresh context is program 3, linked, with no
    error reported; destroying it releases its objects. *)
Lemma shader_no_leak_witness :
  objects_wf (GL.empty (F := Q)) /\
  let '((sh, _), st1) := newShader (F := Q) (H := glsl_accepting) vertexSrc fragmentSrc GL.empty in
  let st2 := (deleteShader sh st1).2 in
  gl_shaders st2 = gl_shaders (GL.empty (F := Q)) /\ gl_programs st2 = gl_programs (GL.empty (F := Q)).
Proof.
  split; [exact empty_objects_wf|].
  exact (shader_no_leak (F := Q) (H := glsl_accepting) vertexSrc fragmentSrc GL.empty empty_objects_wf).
Defined.

(** The uniforms main.cpp's sources declare. *)
Example main_uniforms :
  uniforms_of vertexSrc ++ uniforms_of fragmentSrc =
    [("model", GMat4); ("view", GMat4); ("proj", GMat4); ("tex", GSampler2D);
     ("lightPos", GVec3); ("viewPos", GVec3); ("baseColor", GVec3); ("useTexture", GFloat);
     ("texIndex", GInt)].
Proof. vm_compute. reflexivity. Qed.

Example main_shader :
  fst (newShader (F := Q) (H := glsl_accepting) vertexSrc fragmentSrc GL.empty) = (mkShader 3, []).
Proof. vm_compute. reflexivity. Qed.

(** With that driver the constructor reports both compile errors and the
    link error, and still returns program 3. *)
Example main_shader_rejected :
  fst (newShader (F := Q) (H := glsl_rejecting) vertexSrc fragmentSrc GL.empty) =
    (mkShader 3, [CompileError 1; CompileError 2; LinkError 3]).
Proof. vm_compute. reflexivity. Qed.

End Shader.
