(* ===== verification/CameraView.v ===== *)
(** * The camera's eye point and view matrix (render/camera.cpp lines 5-14)

    [Camera::position()] turns yaw and pitch (degrees, through
    [glm::radians]) into a unit direction and steps back from the target
    by [distance] along it; [Camera::viewMatrix()] is
    [glm::lookAt(position(), target, (0,1,0))], kept symbolic as a
    [GL.LookAt].  [cos] and [sin] are the class [CMath], and the
    arithmetic is exact on rationals, not [float]: the lemma that the
    eye orbits the target at [distance] holds for any [CMath] that
    satisfies [cos^2 + sin^2 = 1] (class [CMathLaws]), such as the
    rational half-angle parametrization [ratcirc], and says nothing of
    the sign of the step or of the degree conversion. *)

From S2P Require Import Prelude GL Camera.
From Stdlib Require Import QArith Qfield Lqa.

Module CameraView.
Import GL Camera.

Open Scope Q_scope.

(** [glm::radians(deg)]: [deg * 0.01745329251994329576923690768489]. *)
Definition radians (deg : Q) : Q :=
  deg * Qmake 1745329251994329576923690768489 100000000000000000000000000000000.

(** The Pythagorean identity of the math library's [cos] and [sin]. *)
Class CMathLaws `{CMath Q} := {
  cos_sin_sq : forall x, cosf x * cosf x + sinf x * sinf x == 1
}.

Section View.
Context `{CMath Q}.

(** [dir = (cos(yaw) cos(pitch), sin(pitch), sin(yaw) cos(pitch));
    return target - dir * distance;] *)
Definition position (c : Camera) : vec3 Q :=
  let cy := cosf (radians (yaw c)) in
  let sy := sinf (radians (yaw c)) in
  let cp := cosf (radians (pitch c)) in
  let sp := sinf (radians (pitch c)) in
  let '(tx, ty, tz) := target c in
  (tx - cy * cp * distance c, ty - sp * distance c, tz - sy * cp * distance c).

(** [glm::lookAt(position(), target, glm::vec3(0,1,0))] *)
Definition viewMatrix (c : Camera) : mat Q := [LookAt (position c) (target c) (0, 1, 0)].
End View.

(** ** Properties *)

Section Laws.
Context `{CMath Q} `{!CMathLaws}.

(** The eye orbits the target: [position()] lies at distance
    [distance] from [target], whatever the yaw and pitch. *)
Theorem position_orbit c :
  let '(px, py, pz) := position c in
  let '(tx, ty, tz) := target c in
  (px - tx) * (px - tx) + (py - ty) * (py - ty) + (pz - tz) * (pz - tz) ==
    distance c * distance c.
Proof.
  unfold position. destruct (target c) as [[tx ty] tz].
  set (cy := cosf (radians (yaw c))). set (sy := sinf (radians (yaw c))).
  set (cp := cosf (radians (pitch c))). set (sp := sinf (radians (pitch c))).
  set (d := distance c).
  pose proof (cos_sin_sq (radians (yaw c))) as Ey. pose proof (cos_sin_sq (radians (pitch c))) as Ep.
  fold cy sy in Ey. fold cp sp in Ep.
  transitivity (d * d * (cp * cp * (cy * cy + sy * sy) + sp * sp)); [ring|].
  rewrite Ey. transitivity (d * d * (cp * cp + sp * sp)); [ring|]. rewrite Ep. ring.
Qed.
End Laws.

(** ** A rational trigonometry

    [cos x = (1 - t^2) / (1 + t^2)], [sin x = 2t / (1 + t^2)] with
    [t = x / 2]: the half-angle parametrization of the unit circle, a
    rational approximation of [cos] and [sin] near 0 that satisfies the
    identity exactly. *)
Definition ratcirc : CMath Q :=
  {| cosf x := (1 - (x / 2) * (x / 2)) / (1 + (x / 2) * (x / 2));
     sinf x := 2 * (x / 2) / (1 + (x / 2) * (x / 2)) |}.

Lemma ratcirc_laws : @CMathLaws ratcirc.
Proof.
  constructor. intros x. cbn [cosf sinf ratcirc].
  assert (Hd : ~ 4 + x * x == 0) by (intros Hz; nra).
  field. exact Hd.
Qed.


End CameraView.
