(* ===== verification/Mesh.v ===== *)
(** * Mesh construction (meshes/mesh.cpp)

    [buildMesh] generates a vertex array and two buffers, uploads the
    interleaved vertex data (position, normal, uv: 8 floats per vertex)
    and the triangle indices, and records three attribute pointers; it is
    written in the [GL.glM] monad call by call.  [makeCube],
    [makeQuadXZ] and [makeCircleFan] compute their vertex and index
    arrays and call it.  The cube and quad vertex tables are the C arrays
    with every entry doubled ([half n] is [n / 2]).  [cosf] and [sinf]
    come from the C library: they are the class [Prelude.CMath]. *)

From S2P Require Import Prelude GL.
From stdpp Require Import gmap strings.

Open Scope Z_scope.
Open Scope city_scope.

Module Mesh.
Import GL.

(** [struct Mesh { GLuint vao, vbo, ebo; GLsizei elemCount; }] *)
Record Mesh := mkMesh { vao : Z; vbo : Z; ebo : Z; elemCount : Z }.

Section Meshes.
Context {F : Type} `{FloatModel F} `{CMath F}.

(** [buildMesh(verts, idx, strideFloats)], lines 6-28. *)
Definition buildMesh (verts : list F) (idx : list Z) (strideFloats : Z) : glM F Mesh :=
  vao ← glGen; vbo ← glGen; ebo ← glGen;
  glBindVertexArray vao ;;
  glBindBuffer ARRAY_BUFFER vbo ;;
  glBufferData ARRAY_BUFFER (Floats verts) ;;
  glBindBuffer ELEMENT_ARRAY_BUFFER ebo ;;
  glBufferData ELEMENT_ARRAY_BUFFER (Uints idx) ;;
  glEnableVertexAttribArray 0 ;;
  glVertexAttribPointer 0 3 strideFloats 0 ;;
  glEnableVertexAttribArray 1 ;;
  glVertexAttribPointer 1 3 strideFloats 3 ;;
  glEnableVertexAttribArray 2 ;;
  glVertexAttribPointer 2 2 strideFloats 6 ;;
  glBindVertexArray 0 ;;
  mret (mkMesh vao vbo ebo (Z.of_nat (length idx))).

Definition half (n : Z) : F := fl_lit n 2.

(** [makeCube], lines 30-75: 24 vertices, 12 triangles. *)
Definition cube_V : list F := map half [
  -1;-1; 1;   0; 0; 2;   0; 0;
   1;-1; 1;   0; 0; 2;   2; 0;
   1; 1; 1;   0; 0; 2;   2; 2;
  -1; 1; 1;   0; 0; 2;   0; 2;
  -1;-1;-1;   0; 0;-2;   0; 0;
   1;-1;-1;   0; 0;-2;   2; 0;
   1; 1;-1;   0; 0;-2;   2; 2;
  -1; 1;-1;   0; 0;-2;   0; 2;
  -1;-1;-1;  -2; 0; 0;   0; 0;
  -1;-1; 1;  -2; 0; 0;   2; 0;
  -1; 1; 1;  -2; 0; 0;   2; 2;
  -1; 1;-1;  -2; 0; 0;   0; 2;
   1;-1;-1;   2; 0; 0;   0; 0;
   1;-1; 1;   2; 0; 0;   2; 0;
   1; 1; 1;   2; 0; 0;   2; 2;
   1; 1;-1;   2; 0; 0;   0; 2;
  -1; 1; 1;   0; 2; 0;   0; 0;
   1; 1; 1;   0; 2; 0;   2; 0;
   1; 1;-1;   0; 2; 0;   2; 2;
  -1; 1;-1;   0; 2; 0;   0; 2;
  -1;-1; 1;   0;-2; 0;   0; 0;
   1;-1; 1;   0;-2; 0;   2; 0;
   1;-1;-1;   0;-2; 0;   2; 2;
  -1;-1;-1;   0;-2; 0;   0; 2].

Definition cube_idx : list Z := [
  0;1;2; 0;2;3;
  4;5;6; 4;6;7;
  8;9;10; 8;10;11;
  12;13;14; 12;14;15;
  16;17;18; 16;18;19;
  20;21;22; 20;22;23].

Definition makeCube : glM F Mesh := buildMesh cube_V cube_idx 8.

(** [makeQuadXZ], lines 77-88: the unit square of the XZ plane. *)
Definition quad_V : list F := map half [
  -1; 0; 1;   0; 2; 0;   0; 2;
   1; 0; 1;   0; 2; 0;   2; 2;
   1; 0;-1;   0; 2; 0;   2; 0;
  -1; 0;-1;   0; 2; 0;   0; 0].

Definition quad_idx : list Z := [0;1;2; 0;2;3].

Definition makeQuadXZ : glM F Mesh := buildMesh quad_V quad_idx 8.

(** One ring vertex of [makeCircleFan] (lines 100-107). *)
Definition ring_vertex (cx cz radius : F) (segments i : Z) : list F :=
  let a := fl_div (fl_mul (fl_mul (fl_lit i 1) (fl_lit 2 1)) (fl_lit 314159265 100000000))
                  (fl_lit segments 1) in
  let cos_a := cosf a in
  let sin_a := sinf a in
  let x := fl_add cx (fl_mul radius cos_a) in
  let z := fl_add cz (fl_mul radius sin_a) in
  [x; fl_lit 1 100; z; fl_lit 0 1; fl_lit 1 1; fl_lit 0 1;
   fl_mul (fl_add cos_a (fl_lit 1 1)) (fl_lit 1 2);
   fl_mul (fl_add sin_a (fl_lit 1 1)) (fl_lit 1 2)].

Definition fan_verts (cx cz radius : F) (segments : Z) : list F :=
  [cx; fl_lit 1 100; cz; fl_lit 0 1; fl_lit 1 1; fl_lit 0 1; fl_lit 1 2; fl_lit 1 2] ++
  flat_map (ring_vertex cx cz radius segments) (0 ..= segments).

(** [for (int i=1;i<=segments;i++) { idx: 0, i, i+1 }] *)
Definition fan_idx (segments : Z) : list Z :=
  flat_map (fun i => [0; i; i + 1]) (1 ..= segments).

(** [makeCircleFan(cx, cz, radius, segments)], lines 90-115.
    [verts.reserve((segments+2)*8)] throws [std::length_error] when the
    size is negative (it converts to a huge [size_t]); that is the
    [None] result, before any OpenGL call. *)
Definition makeCircleFan (cx cz radius : F) (segments : Z) : glM F (option Mesh) :=
  if (segments + 2) * 8 <? 0 then mret None
  else m ← buildMesh (fan_verts cx cz radius segments) (fan_idx segments) 8; mret (Some m).
End Meshes.

(** ** Properties *)

Section Props.
Context {F : Type} `{FloatModel F} `{CMath F}.
Implicit Types (st : state F) (verts : list F) (idx : list Z).

(** [buildMesh] hands out three fresh names, stores the data in the new
    buffers, ties the element buffer and the three attribute pointers to
    the new vertex array, unbinds it, and leaves every older object, the
    textures, the uniforms and the draws alone. *)
Lemma buildMesh_spec verts idx stride st :
  let '(m, st') := buildMesh verts idx stride st in
  let n := gl_next st in
  vao m = n + 1 /\ vbo m = n + 2 /\ ebo m = n + 3 /\ elemCount m = Z.of_nat (length idx) /\
  gl_next st' = n + 3 /\ gl_vao st' = 0 /\
  gl_ebo st' !! vao m = Some (ebo m) /\
  gl_bufs st' !! vbo m = Some (Floats verts) /\ gl_bufs st' !! ebo m = Some (Uints idx) /\
  gl_attribs st' !! (vao m, 0) = Some (mkAttrib (vbo m) 3 stride 0) /\
  gl_attribs st' !! (vao m, 1) = Some (mkAttrib (vbo m) 3 stride 3) /\
  gl_attribs st' !! (vao m, 2) = Some (mkAttrib (vbo m) 2 stride 6) /\
  (forall k, k <= n -> gl_bufs st' !! k = gl_bufs st !! k /\ gl_ebo st' !! k = gl_ebo st !! k /\
                       forall i, gl_attribs st' !! (k, i) = gl_attribs st !! (k, i)) /\
  gl_draws st' = gl_draws st /\ gl_tex st' = gl_tex st /\ gl_unit st' = gl_unit st /\
  gl_uniforms st' = gl_uniforms st /\ gl_program st' = gl_program st /\
  gl_programs st' = gl_programs st.
Proof.
  destruct st as [n v a bufs ebos attrs en u tex p unis draws shs ps]. unfold buildMesh. gl_run.
  rewrite lookup_insert_eq. gl_run. cbn [vao vbo ebo elemCount].
  repeat split; try lia; try (intros k0 Hk0; split; [|split; [|intros i0]]);
    map_simpl; try reflexivity; try (f_equal; lia).
  all: intros i0; map_simpl; reflexivity.
Qed.

(** The meshes leave the program, its uniforms, the program objects
    and the draws alone. *)
Lemma buildMesh_shading verts idx stride st : shading_same st (buildMesh verts idx stride st).2.
Proof.
  pose proof (buildMesh_spec verts idx stride st) as Hs.
  destruct (buildMesh verts idx stride st). cbn [snd] in *.
  destruct Hs as (_&_&_&_&_&_&_&_&_&_&_&_&_&Hd&_&_&Hu&Hp&Hps). by repeat split.
Qed.

Lemma makeCube_shading st : shading_same st (makeCube st).2.
Proof. unfold makeCube. apply buildMesh_shading. Qed.

Lemma makeQuadXZ_shading st : shading_same st (makeQuadXZ st).2.
Proof. unfold makeQuadXZ. apply buildMesh_shading. Qed.

Lemma makeCircleFan_shading cx cz radius segments st :
  shading_same st (makeCircleFan cx cz radius segments st).2.
Proof.
  unfold makeCircleFan. destruct (_ <? 0); [done|]. cbv [mbind glM_bind mret glM_ret].
  pose proof (buildMesh_shading (fan_verts cx cz radius segments) (fan_idx segments) 8 st).
  destruct (buildMesh _ _ 8 st). done.
Qed.

(** What [glDrawElements(GL_TRIANGLES, m.elemCount, GL_UNSIGNED_INT, 0)]
    on [m]'s vertex array needs: its element buffer holds [elemCount]
    indices, attribute 0 reads 8-float vertices from [m.vbo], and every
    index names a vertex of that buffer.  The names are ones the
    context has handed out. *)
Definition mesh_valid st (m : Mesh) : Prop :=
  exists verts idx,
    gl_ebo st !! vao m = Some (ebo m) /\ gl_bufs st !! ebo m = Some (Uints idx) /\
    gl_attribs st !! (vao m, 0) = Some (mkAttrib (vbo m) 3 8 0) /\
    gl_bufs st !! vbo m = Some (Floats verts) /\
    elemCount m = Z.of_nat (length idx) /\
    Forall (fun i => 0 <= i /\ 8 * (i + 1) <= Z.of_nat (length verts)) idx /\
    0 < vao m <= gl_next st /\ 0 < vbo m <= gl_next st /\ 0 < ebo m <= gl_next st.

(** [mesh_valid] reads the objects and the name counter only. *)
Lemma mesh_valid_frame st st' m :
  (forall k, k <= gl_next st -> gl_bufs st' !! k = gl_bufs st !! k /\
     gl_ebo st' !! k = gl_ebo st !! k /\ forall i, gl_attribs st' !! (k, i) = gl_attribs st !! (k, i)) ->
  gl_next st <= gl_next st' -> mesh_valid st m -> mesh_valid st' m.
Proof.
  intros Hk Hn (verts&idx&He&Hi&Ha&Hv&Hc&Hr&Hva&Hvb&Heb).
  exists verts, idx. destruct (Hk (vao m)) as (_&He'&Ha'); [lia|].
  destruct (Hk (ebo m)) as (Hi'&_&_); [lia|]. destruct (Hk (vbo m)) as (Hv'&_&_); [lia|].
  rewrite He', Ha', Hi', Hv'. repeat split; done || lia.
Qed.

Lemma buildMesh_valid verts idx st :
  0 <= gl_next st ->
  Forall (fun i => 0 <= i /\ 8 * (i + 1) <= Z.of_nat (length verts)) idx ->
  let '(m, st') := buildMesh verts idx 8 st in
  mesh_valid st' m /\ gl_next st' = gl_next st + 3 /\
  (forall m0, mesh_valid st m0 -> mesh_valid st' m0).
Proof.
  intros Hn Hidx. pose proof (buildMesh_spec verts idx 8 st) as Hs.
  destruct (buildMesh verts idx 8 st) as [m st'].
  destruct Hs as (Hva&Hvb&Heb&Hc&Hnx&_&He&Hv&Hi&Ha&_&_&Hk&_).
  split; [|split; [done|]].
  - exists verts, idx. repeat split; done || lia.
  - intros m0. apply mesh_valid_frame; [exact Hk|lia].
Qed.

(** [makeCube] builds a drawable mesh of 24 vertices and 36 indices. *)
Lemma makeCube_valid st :
  0 <= gl_next st ->
  let '(m, st') := makeCube st in
  mesh_valid st' m /\ elemCount m = 36 /\ gl_next st' = gl_next st + 3 /\
  forall m0, mesh_valid st m0 -> mesh_valid st' m0.
Proof.
  intros Hn. unfold makeCube. pose proof (buildMesh_spec cube_V cube_idx 8 st) as Hc.
  pose proof (buildMesh_valid cube_V cube_idx st Hn) as Hv.
  destruct (buildMesh cube_V cube_idx 8 st) as [m st'].
  destruct Hv as (Hv&Hn'&Hk).
  { unfold cube_V, cube_idx. rewrite length_map.
    replace (Z.of_nat (length _)) with 192 by reflexivity. repeat constructor; lia. }
  split; [done|]. split; [|done]. rewrite (proj1 (proj2 (proj2 (proj2 Hc)))). done.
Qed.

(** [makeQuadXZ] builds a drawable mesh of 4 vertices and 6 indices. *)
Lemma makeQuadXZ_valid st :
  0 <= gl_next st ->
  let '(m, st') := makeQuadXZ st in
  mesh_valid st' m /\ elemCount m = 6 /\ gl_next st' = gl_next st + 3 /\
  forall m0, mesh_valid st m0 -> mesh_valid st' m0.
Proof.
  intros Hn. unfold makeQuadXZ. pose proof (buildMesh_spec quad_V quad_idx 8 st) as Hc.
  pose proof (buildMesh_valid quad_V quad_idx st Hn) as Hv.
  destruct (buildMesh quad_V quad_idx 8 st) as [m st'].
  destruct Hv as (Hv&Hn'&Hk).
  { unfold quad_V, quad_idx. rewrite length_map.
    replace (Z.of_nat (length _)) with 32 by reflexivity. repeat constructor; lia. }
  split; [done|]. split; [|done]. rewrite (proj1 (proj2 (proj2 (proj2 Hc)))). done.
Qed.

Lemma length_fan_verts cx cz radius segments :
  -1 <= segments -> length (fan_verts cx cz radius segments) = (8 * Z.to_nat (segments + 2))%nat.
Proof.
  intros Hs. unfold fan_verts. rewrite length_app, (length_flat_map_const _ 8) by done.
  rewrite length_zrange. cbn [length]. lia.
Qed.

(** For [segments >= -2], [makeCircleFan] does not throw and builds a
    drawable mesh of [3 * segments] indices over [segments + 2]
    vertices. *)
Lemma makeCircleFan_valid cx cz radius segments st :
  0 <= gl_next st -> -2 <= segments ->
  let '(om, st') := makeCircleFan cx cz radius segments st in
  exists m, om = Some m /\ mesh_valid st' m /\ elemCount m = 3 * Z.max 0 segments /\
    gl_next st' = gl_next st + 3 /\ forall m0, mesh_valid st m0 -> mesh_valid st' m0.
Proof.
  intros Hn Hs. unfold makeCircleFan. rewrite (proj2 (Z.ltb_ge _ _)) by lia.
  assert (Hlen : length (fan_verts cx cz radius segments) =
                 (8 + 8 * Z.to_nat (segments + 1))%nat).
  { unfold fan_verts. rewrite length_app, (length_flat_map_const _ 8) by done.
    rewrite length_zrange. cbn [length]. f_equal. f_equal. lia. }
  pose proof (buildMesh_spec (fan_verts cx cz radius segments) (fan_idx segments) 8 st) as Hc.
  pose proof (buildMesh_valid (fan_verts cx cz radius segments) (fan_idx segments) st Hn) as Hv.
  destruct (buildMesh _ _ 8 st) as [m st'] eqn:E. cbv [mbind glM_bind mret glM_ret]. rewrite E.
  destruct Hv as (Hv&Hn'&Hk).
  { unfold fan_idx. apply Forall_flat_map_intro. intros i Hi%elem_of_zrange.
    rewrite Hlen. repeat constructor; lia. }
  exists m. split; [done|]. split; [done|]. split; [|done].
  rewrite (proj1 (proj2 (proj2 (proj2 Hc)))). unfold fan_idx.
  rewrite (length_flat_map_const _ 3) by done. rewrite length_zrange. lia.
Qed.
End Props.

End Mesh.
