(* ===== verification/Render.v ===== *)
(** * Drawing the scene: [CityScene::render], the OpenGL half of [init] and [~CityScene]

    [render] (city_scene.cpp lines 317-479) sets the camera uniforms, then
    draws, in this order: the ground (one cube), one quad per road cell,
    the pond fan, one cube per building (textured by type), two cubes per
    tree, two per lamp and four for the car.  The uniforms go through the
    setters of [Shader], textures come from [loadTexture]
    (render/texture.cpp), whose image decoder (stb_image, a library) is
    the class [Stbi].  The camera's [viewMatrix()] and [position()] and
    the viewport are arguments ([Main] passes them).  The per-building
    loop reads [buildingHeights[i]] and [buildingTypes[i]] for every
    index of [buildingCells]; an index past the end of either vector is
    undefined behaviour, which is the [None] of [render].

    [initFull] is [CityScene::init] as a whole: the layout of
    [Layout.init] interleaved, in the code's order, with the creation of
    the cube and quad meshes, the pond fan (at [cellToWorld] of the pond
    center, 64 segments) and the five textures, with the fallback of the
    skyscraper texture to the building texture.  [destroyScene] is the
    destructor (lines 11-22).

    The theorems: [render] refines the render contract [frame_draws]
    ([runs_to]); every draw after [init] is defined; the textures and
    uniform types of the draws; with [GL.keeps], that [render] creates
    and deletes no object and what it does with a program that did not
    link; what the destructor frees. *)

From S2P Require Import Prelude Grid Rng Layout LayoutFacts SceneInit GL Mesh Shader.
From stdpp Require Import gmap strings.
From Stdlib Require Import QArith.

Open Scope Z_scope.

Module Render.
Import Grid Rng Layout LayoutFacts SceneInit GL Mesh Shader.

(** stb_image's [stbi_load]: the image's width and height, or [None]
    when the file cannot be decoded. *)
Class Stbi := { stbi_load : string -> option (Z * Z) }.

(** The OpenGL objects a [CityScene] owns. *)
Record SceneGL := mkSceneGL {
  cubeMesh : Mesh; quadMesh : Mesh; pondMesh : Mesh;
  buildingTex : Z; towerTex : Z; skyscraperTex : Z; roadTex : Z; pondTex : Z
}.

Section Render.
Context {F : Type} `{FloatModel F} `{CMath F}.
Context {G : Type} `{Occupancy G}.
Context {Rs : Type} `{CRand Rs}.
Context `{Stbi}.
Implicit Types (sc : CityScene F G) (sg : SceneGL) (sh : Shader).

Definition lit (n : Z) : F := fl_lit n 1.

(** ** [loadTexture] (texture.cpp lines 4-24) *)

Definition loadTexture (path : string) : glM F Z :=
  match stbi_load path with
  | None => mret 0
  | Some _ => tex ← glGen; glBindTexture tex ;; mret tex
  end.

(** ** [cellToWorld] (city_scene.cpp lines 96-102) *)

Definition cellToWorld sc (i j : Z) : F * F :=
  let startX := fl_div (lit (- gridSize sc)) (lit 2) in
  let startZ := fl_div (lit (- gridSize sc)) (lit 2) in
  (fl_add startX (lit i), fl_add startZ (lit j)).

(** [glBindVertexArray(m.vao); glDrawElements(GL_TRIANGLES, m.elemCount,
    GL_UNSIGNED_INT, 0); glBindVertexArray(0);] *)
Definition drawMesh (m : Mesh) : glM F unit :=
  glBindVertexArray (vao m) ;; glDrawElements (elemCount m) ;; glBindVertexArray 0.

(** [tex ? 1.0f : 0.0f] *)
Definition texFlag (t : Z) : F := if t =? 0 then lit 0 else lit 1.

Definition up : vec3 F := (lit 0, lit 1, lit 0).

(** ** The pieces of [render] *)

(** Lines 331-338. *)
Definition drawGround sh sc sg : glM F unit :=
  let model := [Translate (lit 0, fl_lit (-501) 1000, lit 0);
                Scale (lit (gridSize sc), lit 1, lit (gridSize sc))] in
  setMat4 sh "model" model ;;
  setVec3 sh "baseColor" (fl_lit 1 10, fl_lit 15 100, fl_lit 1 10) ;;
  setFloat sh "useTexture" (lit 0) ;;
  drawMesh (cubeMesh sg).

(** The model matrix of a road cell (lines 345-354). *)
Definition roadModel sc (center : Z) (c : cell) : mat F :=
  let '(wx, wz) := cellToWorld sc c.1 c.2 in
  let m := [Translate (wx, fl_lit 2 100, wz)] in
  let m := if c.1 =? center then m ++ [Rotate (lit 90) up] else m in
  m ++ [Scale (lit 1, lit 1, lit 1)].

(** One iteration of the road loop (lines 344-360). *)
Definition drawRoad sh sc sg (center : Z) (c : cell) : glM F unit :=
  setMat4 sh "model" (roadModel sc center c) ;;
  setVec3 sh "baseColor" (fl_lit 2 10, fl_lit 2 10, fl_lit 2 10) ;;
  setFloat sh "useTexture" (texFlag (roadTex sg)) ;;
  setInt sh "tex" 0 ;;
  drawMesh (quadMesh sg).

(** Lines 363-373. *)
Definition drawPond sh sg : glM F unit :=
  glActiveTexture 0 ;;
  glBindTexture (pondTex sg) ;;
  setMat4 sh "model" [] ;;
  setVec3 sh "baseColor" (lit 1, lit 1, lit 1) ;;
  setFloat sh "useTexture" (texFlag (pondTex sg)) ;;
  setInt sh "tex" 0 ;;
  drawMesh (pondMesh sg).

(** The buildings the loop of lines 379-407 visits:
    [(buildingCells[i], buildingHeights[i], buildingTypes[i])] for
    [i < buildingCells.size()], or [None] when an index is past the end
    of [buildingHeights] or [buildingTypes]. *)
Definition building_instances sc : option (list (cell * F * Z)) :=
  mapM (fun i => c ← buildingCells sc !! i; h ← buildingHeights sc !! i;
                 t ← buildingTypes sc !! i; Some (c, h, t))
       (seq 0 (length (buildingCells sc))).

Definition typeTex sg (type : Z) : Z :=
  if type =? 0 then skyscraperTex sg else if type =? 1 then towerTex sg else buildingTex sg.

Definition typeWidth sc (type : Z) : F :=
  if type =? 0 then skyscraperWidth (config sc)
  else if type =? 1 then towerWidth (config sc) else buildingWidth (config sc).

(** [CityScene::getFuturisticColor] (lines 302-309): a color per
    building type, which nothing calls; [render] draws every building
    with [baseColor] white. *)
Definition getFuturisticColor (type : Z) : vec3 F :=
  if type =? 0 then (fl_lit 7 10, fl_lit 7 10, fl_lit 8 10)
  else if type =? 1 then (fl_lit 6 10, fl_lit 5 10, fl_lit 4 10)
  else if type =? 2 then (fl_lit 8 10, fl_lit 8 10, fl_lit 7 10)
  else (fl_lit 6 10, fl_lit 6 10, fl_lit 6 10).

Definition buildingModel sc (b : cell * F * Z) : mat F :=
  let '(c, height, type) := b in
  let '(wx, wz) := cellToWorld sc c.1 c.2 in
  let width := typeWidth sc type in
  let depth := fl_mul width (fl_lit 9 10) in
  [Translate (wx, fl_div height (lit 2), wz); Scale (width, height, depth)].

(** One iteration of the building loop. *)
Definition drawBuilding sh sc sg (b : cell * F * Z) : glM F unit :=
  let currentTex := typeTex sg b.2 in
  glBindTexture currentTex ;;
  setMat4 sh "model" (buildingModel sc b) ;;
  setVec3 sh "baseColor" (lit 1, lit 1, lit 1) ;;
  setFloat sh "useTexture" (texFlag currentTex) ;;
  setInt sh "tex" 0 ;;
  drawMesh (cubeMesh sg).

(** A translated and scaled cube of one color. *)
Definition drawBox sh sg (t s : vec3 F) (color : vec3 F) : glM F unit :=
  setMat4 sh "model" [Translate t; Scale s] ;;
  setVec3 sh "baseColor" color ;;
  drawMesh (cubeMesh sg).

(** Lines 413-429: trunk and foliage. *)
Definition drawTree sh sc sg (c : cell) : glM F unit :=
  let '(wx, wz) := cellToWorld sc c.1 c.2 in
  drawBox sh sg (wx, lit 1, wz) (fl_lit 3 10, lit 2, fl_lit 3 10)
          (fl_lit 4 10, fl_lit 2 10, fl_lit 1 10) ;;
  drawBox sh sg (wx, fl_lit 25 10, wz) (fl_lit 15 10, fl_lit 15 10, fl_lit 15 10)
          (fl_lit 1 10, fl_lit 6 10, fl_lit 1 10).

(** Lines 433-449: pole and lamp head. *)
Definition drawLamp sh sc sg (c : cell) : glM F unit :=
  let '(wx, wz) := cellToWorld sc c.1 c.2 in
  drawBox sh sg (wx, fl_lit 25 10, wz) (fl_lit 1 10, lit 5, fl_lit 1 10)
          (fl_lit 2 10, fl_lit 2 10, fl_lit 2 10) ;;
  drawBox sh sg (wx, fl_lit 52 10, wz) (fl_lit 3 10, fl_lit 2 10, fl_lit 3 10)
          (lit 1, fl_lit 9 10, fl_lit 6 10).

(** Lines 452-478: body, roof and two headlights ([a - 0.3f] is
    [a + (-0.3f)], which is exact in IEEE arithmetic). *)
Definition drawCar sh sc sg : glM F unit :=
  let '(cx, cz) := cellToWorld sc (carPosition sc).1 (carPosition sc).2 in
  drawBox sh sg (cx, fl_lit 4 10, cz) (lit 2, fl_lit 8 10, lit 1)
          (fl_lit 8 10, fl_lit 1 10, fl_lit 1 10) ;;
  drawBox sh sg (cx, lit 1, cz) (fl_lit 16 10, fl_lit 4 10, fl_lit 8 10)
          (fl_lit 7 10, fl_lit 1 10, fl_lit 1 10) ;;
  drawBox sh sg (fl_add cx (fl_lit 11 10), fl_lit 5 10, fl_add cz (fl_lit 3 10))
          (fl_lit 1 10, fl_lit 2 10, fl_lit 2 10) (lit 1, lit 1, fl_lit 9 10) ;;
  drawBox sh sg (fl_add cx (fl_lit 11 10), fl_lit 5 10, fl_add cz (fl_lit (-3) 10))
          (fl_lit 1 10, fl_lit 2 10, fl_lit 2 10) (lit 1, lit 1, fl_lit 9 10).

(** [render(shader, cam)] with [view = cam.viewMatrix()],
    [viewPos = cam.position()] and the viewport's width and height. *)
Definition render sc sg sh (view : mat F) (viewPos : vec3 F) (vw vh : Z)
    : option (glM F unit) :=
  bs ← building_instances sc;
  Some (
    use sh ;;
    setMat4 sh "view" view ;;
    let aspect := fl_div (lit vw) (lit vh) in
    setMat4 sh "proj" [Perspective (lit 45) aspect (fl_lit 1 10) (lit 200)] ;;
    setVec3 sh "lightPos" (lit 0, lit 8, lit 0) ;;
    setVec3 sh "viewPos" viewPos ;;
    drawGround sh sc sg ;;
    glActiveTexture 0 ;;
    glBindTexture (roadTex sg) ;;
    mapM_ (drawRoad sh sc sg (gridSize sc ÷ 2)) (roadCells sc) ;;
    drawPond sh sg ;;
    glActiveTexture 0 ;;
    mapM_ (drawBuilding sh sc sg) bs ;;
    setFloat sh "useTexture" (lit 0) ;;
    mapM_ (drawTree sh sc sg) (treeCells sc) ;;
    setFloat sh "useTexture" (lit 0) ;;
    mapM_ (drawLamp sh sc sg) (streetLamps sc) ;;
    drawCar sh sc sg).

(** ** [init] as a whole (city_scene.cpp lines 24-94) *)

Definition initFull sc (s : Rs) (citySize numBuildings buildingStyle : Z)
    (towerW towerH buildingW buildingH skyW skyH pondR : F) (numSky numTow numOff : Z)
    : glM F (option (CityScene F G * SceneGL * Rs)) :=
  let cfg := mkConfig citySize numBuildings numSky numTow numOff buildingStyle
               towerW towerH buildingW buildingH skyW skyH pondR in
  let sc1 := initScene sc cfg in
  cube ← makeCube;
  quad ← makeQuadXZ;
  let '(sc2, s2) := generateFuturisticLayout sc1 s in
  let '(wx, wz) := cellToWorld sc2 (pond_cx sc2) (pond_cy sc2) in
  opond ← makeCircleFan wx wz (lit (pond_r sc2)) 64;
  match opond with
  | None => mret None
  | Some pond =>
      let sc3 := resetTimers sc2 in
      btex ← loadTexture "assets/building.jpg";
      ttex ← loadTexture "assets/tower.png";
      stex ← loadTexture "assets/skyscraper.jpg";
      let stex := if stex =? 0 then btex else stex in
      rtex ← loadTexture "assets/road.jpg";
      ptex ← loadTexture "assets/pond.jpg";
      mret (Some (sc3, mkSceneGL cube quad pond btex ttex stex rtex ptex, s2))
  end.

(** ** [~CityScene] (city_scene.cpp lines 11-22) *)

(** [if (m.vao) { glDeleteVertexArrays(1, &m.vao); glDeleteBuffers(1,
    &m.vbo); glDeleteBuffers(1, &m.ebo); }] *)
Definition deleteMesh (m : Mesh) : glM F unit :=
  if vao m =? 0 then mret tt
  else glDeleteVertexArrays (vao m) ;; glDeleteBuffers (vbo m) ;; glDeleteBuffers (ebo m).

(** [if (t) glDeleteTextures(1, &t);] *)
Definition deleteTexture (t : Z) : glM F unit :=
  if t =? 0 then mret tt else glDeleteTextures t.

Definition destroyScene sg : glM F unit :=
  deleteMesh (cubeMesh sg) ;; deleteMesh (quadMesh sg) ;; deleteMesh (pondMesh sg) ;;
  deleteTexture (buildingTex sg) ;; deleteTexture (towerTex sg) ;;
  deleteTexture (skyscraperTex sg) ;; deleteTexture (roadTex sg) ;; deleteTexture (pondTex sg).
End Render.

(** ** The render contract and its refinement *)

Section Frame.
Context {F : Type} `{FloatModel F} `{CMath F}.
Context {G : Type} `{Occupancy G}.
Context {Rs : Type} `{CRand Rs}.
Context `{Stbi}.
Implicit Types (sc : CityScene F G) (sg : SceneGL) (sh : Shader) (st : state F).

(** ** The code of [render]

    [render_body] is the code [render] runs once the building instances
    are known, and [render_pieces] unfolds the draw helpers and the
    shader setters down to the OpenGL calls. *)
Definition render_body sh sc sg (view : mat F) (viewPos : vec3 F) (vw vh : Z)
    (bs : list (cell * F * Z)) : glM F unit :=
  use sh ;; setMat4 sh "view" view ;;
  setMat4 sh "proj" [Perspective (lit 45) (fl_div (lit vw) (lit vh)) (fl_lit 1 10) (lit 200)] ;;
  setVec3 sh "lightPos" (lit 0, lit 8, lit 0) ;; setVec3 sh "viewPos" viewPos ;;
  drawGround sh sc sg ;; glActiveTexture 0 ;; glBindTexture (roadTex sg) ;;
  mapM_ (drawRoad sh sc sg (gridSize sc ÷ 2)) (roadCells sc) ;;
  drawPond sh sg ;; glActiveTexture 0 ;; mapM_ (drawBuilding sh sc sg) bs ;;
  setFloat sh "useTexture" (lit 0) ;; mapM_ (drawTree sh sc sg) (treeCells sc) ;;
  setFloat sh "useTexture" (lit 0) ;; mapM_ (drawLamp sh sc sg) (streetLamps sc) ;;
  drawCar sh sc sg.

Lemma render_body_eq sh sc sg view viewPos vw vh bs :
  building_instances sc = Some bs ->
  render sc sg sh view viewPos vw vh = Some (render_body sh sc sg view viewPos vw vh bs).
Proof. intros Hb. unfold render, render_body. rewrite Hb. reflexivity. Qed.

Ltac render_pieces :=
  unfold render_body, drawGround, drawRoad, drawPond, drawBuilding, drawBox, drawTree, drawLamp,
    drawCar, drawMesh, use, setMat4, setVec3, setFloat, setInt.

(** A draw of the frame as the render contract describes it. *)
Record idraw := mkIDraw { i_mesh : Mesh; i_model : mat F; i_color : vec3 F; i_useTex : F; i_tex : option Z }.

Definition ground_draw sc sg : idraw :=
  mkIDraw (cubeMesh sg) [Translate (lit 0, fl_lit (-501) 1000, lit 0);
                         Scale (lit (gridSize sc), lit 1, lit (gridSize sc))]
    (fl_lit 1 10, fl_lit 15 100, fl_lit 1 10) (lit 0) None.

Definition road_draw sc sg (c : cell) : idraw :=
  mkIDraw (quadMesh sg) (roadModel sc (gridSize sc ÷ 2) c) (fl_lit 2 10, fl_lit 2 10, fl_lit 2 10)
    (texFlag (roadTex sg)) (Some (roadTex sg)).

Definition pond_draw sg : idraw :=
  mkIDraw (pondMesh sg) [] (lit 1, lit 1, lit 1) (texFlag (pondTex sg)) (Some (pondTex sg)).

Definition building_draw sc sg (b : cell * F * Z) : idraw :=
  mkIDraw (cubeMesh sg) (buildingModel sc b) (lit 1, lit 1, lit 1)
    (texFlag (typeTex sg b.2)) (Some (typeTex sg b.2)).

(** An untextured cube. *)
Definition box_draw sg (t s c : vec3 F) : idraw :=
  mkIDraw (cubeMesh sg) [Translate t; Scale s] c (lit 0) None.

Definition tree_draws sc sg (c : cell) : list idraw :=
  let '(wx, wz) := cellToWorld sc c.1 c.2 in
  [box_draw sg (wx, lit 1, wz) (fl_lit 3 10, lit 2, fl_lit 3 10) (fl_lit 4 10, fl_lit 2 10, fl_lit 1 10);
   box_draw sg (wx, fl_lit 25 10, wz) (fl_lit 15 10, fl_lit 15 10, fl_lit 15 10)
            (fl_lit 1 10, fl_lit 6 10, fl_lit 1 10)].

Definition lamp_draws sc sg (c : cell) : list idraw :=
  let '(wx, wz) := cellToWorld sc c.1 c.2 in
  [box_draw sg (wx, fl_lit 25 10, wz) (fl_lit 1 10, lit 5, fl_lit 1 10) (fl_lit 2 10, fl_lit 2 10, fl_lit 2 10);
   box_draw sg (wx, fl_lit 52 10, wz) (fl_lit 3 10, fl_lit 2 10, fl_lit 3 10) (lit 1, fl_lit 9 10, fl_lit 6 10)].

Definition car_draws sc sg : list idraw :=
  let '(cx, cz) := cellToWorld sc (carPosition sc).1 (carPosition sc).2 in
  [box_draw sg (cx, fl_lit 4 10, cz) (lit 2, fl_lit 8 10, lit 1) (fl_lit 8 10, fl_lit 1 10, fl_lit 1 10);
   box_draw sg (cx, lit 1, cz) (fl_lit 16 10, fl_lit 4 10, fl_lit 8 10) (fl_lit 7 10, fl_lit 1 10, fl_lit 1 10);
   box_draw sg (fl_add cx (fl_lit 11 10), fl_lit 5 10, fl_add cz (fl_lit 3 10))
            (fl_lit 1 10, fl_lit 2 10, fl_lit 2 10) (lit 1, lit 1, fl_lit 9 10);
   box_draw sg (fl_add cx (fl_lit 11 10), fl_lit 5 10, fl_add cz (fl_lit (-3) 10))
            (fl_lit 1 10, fl_lit 2 10, fl_lit 2 10) (lit 1, lit 1, fl_lit 9 10)].

(** The frame the render contract describes: ground, roads, pond,
    buildings, trees, lamps, car. *)
Definition frame_draws sc sg (bs : list (cell * F * Z)) : list idraw :=
  [ground_draw sc sg] ++ map (road_draw sc sg) (roadCells sc) ++ [pond_draw sg] ++
  map (building_draw sc sg) bs ++ flat_map (tree_draws sc sg) (treeCells sc) ++
  flat_map (lamp_draws sc sg) (streetLamps sc) ++ car_draws sc sg.

Section Run.
Variables (sh : Shader) (view : mat F) (proj : mat F) (E : gmap Z Z).

Definition matches (d : draw F) (i : idraw) : Prop :=
  d_vao d = vao (i_mesh i) /\ d_ebo d = E !! vao (i_mesh i) /\
  d_count d = elemCount (i_mesh i) /\ d_program d = id sh /\
  d_uniforms d !! (id sh, "view") = Some (UMat view) /\
  d_uniforms d !! (id sh, "proj") = Some (UMat proj) /\
  d_uniforms d !! (id sh, "model") = Some (UMat (i_model i)) /\
  d_uniforms d !! (id sh, "baseColor") = Some (UVec3 (i_color i)) /\
  d_uniforms d !! (id sh, "useTexture") = Some (UFloat (i_useTex i)) /\
  (forall t, i_tex i = Some t -> d_textures d !! 0 = Some t).

Definition runs_to (P : state F -> Prop) (m : glM F unit) (ds : list idraw) (Q : state F -> Prop) : Prop :=
  forall st, P st -> Q (m st).2 /\
    exists new, gl_draws (m st).2 = gl_draws st ++ new /\ Forall2 matches new ds.

Lemma runs_to_seq P Q S m1 m2 ds1 ds2 :
  runs_to P m1 ds1 Q -> runs_to Q m2 ds2 S -> runs_to P (m1 ;; m2) (ds1 ++ ds2) S.
Proof.
  intros Hm1 Hm2 st HP. cbv [mbind glM_bind]. destruct (m1 st) as [[] st1] eqn:E1.
  destruct (Hm1 st HP) as [HQ (n1&Hd1&Hf1)]. rewrite E1 in HQ, Hd1. cbn in HQ, Hd1.
  destruct (Hm2 st1 HQ) as [HS (n2&Hd2&Hf2)]. split; [done|].
  exists (n1 ++ n2). rewrite Hd2, Hd1, app_assoc. split; [done|]. by apply Forall2_app.
Qed.

Lemma runs_to_mapM {A} (I : state F -> Prop) (f : A -> glM F unit) (g : A -> list idraw) l :
  (forall x, runs_to I (f x) (g x) I) -> runs_to I (mapM_ f l) (flat_map g l) I.
Proof.
  intros Hf. induction l as [|x l IH]; cbn [mapM_ flat_map].
  - intros st HI. split; [done|]. exists []. by rewrite app_nil_r.
  - apply runs_to_seq with I; [apply Hf|apply IH].
Qed.

Lemma runs_to_weaken P P' Q Q' m ds :
  (forall st, P' st -> P st) -> (forall st, Q st -> Q' st) -> runs_to P m ds Q -> runs_to P' m ds Q'.
Proof. intros HP HQ Hm st Hst. destruct (Hm st (HP st Hst)) as [HQst Hn]. split; [by apply HQ|done]. Qed.

Definition I0 (st : state F) : Prop :=
  gl_ebo st = E /\ program_linked st (id sh) = true /\ gl_program st = id sh /\
  gl_uniforms st !! (id sh, "view") = Some (UMat view) /\
  gl_uniforms st !! (id sh, "proj") = Some (UMat proj).

Definition Iebo (st : state F) : Prop := gl_ebo st = E /\ program_linked st (id sh) = true.
Definition Iprog (st : state F) : Prop :=
  gl_ebo st = E /\ program_linked st (id sh) = true /\ gl_program st = id sh.
Definition Iview (st : state F) : Prop :=
  gl_ebo st = E /\ program_linked st (id sh) = true /\ gl_program st = id sh /\
  gl_uniforms st !! (id sh, "view") = Some (UMat view).

Definition Itex (t : Z) (st : state F) : Prop := I0 st /\ gl_unit st = 0 /\ gl_tex st !! 0 = Some t.
Definition Iunit (st : state F) : Prop := I0 st /\ gl_unit st = 0.


Definition Inotex (st : state F) : Prop :=
  I0 st /\ gl_uniforms st !! (id sh, "useTexture") = Some (UFloat (lit 0)).

Ltac piece :=
  let HI := fresh "HI" in
  intros [n v a bufs ebos attrs en u tex p unis draws shs ps] HI;
  unfold Itex, Iunit, Inotex in HI |- *; unfold I0, Iebo, Iprog, Iview in HI |- *;
  repeat match goal with Hc : _ /\ _ |- _ => destruct Hc end;
  cbn [gl_ebo gl_program gl_uniforms gl_unit gl_tex program_linked gl_programs] in *; subst;
  unfold drawGround, drawRoad, drawPond, drawBuilding, drawBox, setMat4, setVec3, setFloat,
    setInt, drawMesh, use;
  gl_exec; split;
  [repeat split; cbn; map_simpl; done
  |eexists; split; [first [reflexivity | symmetry; apply app_nil_r]|]; repeat constructor; cbn; map_simpl; try done;
   try (intros ? [= <-]; done)].

Lemma ground_runs sc sg :
  runs_to I0 (drawGround sh sc sg) [ground_draw sc sg] I0.
Proof. piece. Qed.

Lemma road_runs sc sg c :
  runs_to (Itex (roadTex sg)) (drawRoad sh sc sg (gridSize sc ÷ 2) c) [road_draw sc sg c]
    (Itex (roadTex sg)).
Proof. piece. Qed.

Lemma pond_runs sg : runs_to I0 (drawPond sh sg) [pond_draw sg] I0.
Proof. piece. Qed.

Lemma unit_start : runs_to I0 (glActiveTexture 0) [] Iunit.
Proof. piece. Qed.

Lemma building_runs sc sg b :
  runs_to Iunit (drawBuilding sh sc sg b) [building_draw sc sg b] Iunit.
Proof. piece. Qed.

Lemma notex_start : runs_to I0 (setFloat sh "useTexture" (lit 0)) [] Inotex.
Proof. piece. Qed.

Lemma box_runs sg t s0 c : runs_to Inotex (drawBox sh sg t s0 c) [box_draw sg t s0 c] Inotex.
Proof. piece. Qed.

Lemma tree_runs sc sg c : runs_to Inotex (drawTree sh sc sg c) (tree_draws sc sg c) Inotex.
Proof.
  unfold drawTree, tree_draws. destruct (cellToWorld sc c.1 c.2).
  apply (runs_to_seq Inotex Inotex Inotex _ _ [_] [_]); apply box_runs.
Qed.

Lemma lamp_runs sc sg c : runs_to Inotex (drawLamp sh sc sg c) (lamp_draws sc sg c) Inotex.
Proof.
  unfold drawLamp, lamp_draws. destruct (cellToWorld sc c.1 c.2).
  apply (runs_to_seq Inotex Inotex Inotex _ _ [_] [_]); apply box_runs.
Qed.

Lemma car_runs sc sg : runs_to Inotex (drawCar sh sc sg) (car_draws sc sg) Inotex.
Proof.
  unfold drawCar, car_draws. destruct (cellToWorld sc _ _).
  apply (runs_to_seq Inotex Inotex Inotex _ _ [_] [_;_;_]); [apply box_runs|].
  apply (runs_to_seq Inotex Inotex Inotex _ _ [_] [_;_]); [apply box_runs|].
  apply (runs_to_seq Inotex Inotex Inotex _ _ [_] [_]); apply box_runs.
Qed.

Lemma use_runs : runs_to Iebo (use sh) [] Iprog.
Proof. piece. Qed.

Lemma view_runs : runs_to Iprog (setMat4 sh "view" view) [] Iview.
Proof. piece. Qed.

Lemma proj_runs : runs_to Iview (setMat4 sh "proj" proj) [] I0.
Proof. piece. Qed.

Lemma vec3_runs name v : name <> "view" -> name <> "proj" -> runs_to I0 (setVec3 sh name v) [] I0.
Proof.
  intros Hn1 Hn2 [] (He&Hl&Hp&Hv&Hpr). unfold setVec3, I0 in *.
  rewrite glUniform_linked by done. cbn in He, Hl, Hp, Hv, Hpr |- *. subst.
  split; [split; [done|split; [done|split; [done|split; rewrite lookup_insert_ne by congruence; done]]]|].
  exists []. by rewrite app_nil_r.
Qed.

Lemma bind_runs t : runs_to Iunit (glBindTexture t) [] (Itex t).
Proof. piece. Qed.
End Run.

Lemma render_runs sh sc sg view viewPos vw vh bs :
  building_instances sc = Some bs ->
  exists prog, render sc sg sh view viewPos vw vh = Some prog /\
    forall E, runs_to sh view [Perspective (lit 45) (fl_div (lit vw) (lit vh)) (fl_lit 1 10) (lit 200)] E
      (Iebo sh E) prog (frame_draws sc sg bs) (Inotex sh view
        [Perspective (lit 45) (fl_div (lit vw) (lit vh)) (fl_lit 1 10) (lit 200)] E).
Proof.
  intros Hb. unfold render. rewrite Hb. eexists. split; [reflexivity|]. intros E.
  set (proj := [Perspective (lit 45) (fl_div (lit vw) (lit vh)) (fl_lit 1 10) (lit 200)]).
  apply (runs_to_seq _ _ _ _ _ (Iprog sh E) _ _ _ []); [apply use_runs|].
  apply (runs_to_seq _ _ _ _ _ (Iview sh view E) _ _ _ []); [apply view_runs|].
  apply (runs_to_seq _ _ _ _ _ (I0 sh view proj E) _ _ _ []); [apply proj_runs|].
  apply (runs_to_seq _ _ _ _ _ (I0 sh view proj E) _ _ _ []); [apply vec3_runs; done|].
  apply (runs_to_seq _ _ _ _ _ (I0 sh view proj E) _ _ _ []); [apply vec3_runs; done|].
  apply (runs_to_seq _ _ _ _ _ (I0 sh view proj E) _ _ _ [_]); [apply ground_runs|].
  unfold frame_draws.
  rewrite <- (flat_map_singleton (road_draw sc sg)), <- (flat_map_singleton (building_draw sc sg)).
  apply (runs_to_seq _ _ _ _ _ (Iunit sh view proj E) _ _ _ []); [apply unit_start|].
  apply (runs_to_seq _ _ _ _ _ (Itex sh view proj E (roadTex sg)) _ _ _ []); [apply bind_runs|].
  apply (runs_to_seq _ _ _ _ _ (Itex sh view proj E (roadTex sg))); [by apply runs_to_mapM, road_runs|].
  apply (runs_to_seq _ _ _ _ _ (I0 sh view proj E) _ _ _ [_]).
  { eapply runs_to_weaken; [|done|apply pond_runs]. by intros ? []. }
  apply (runs_to_seq _ _ _ _ _ (Iunit sh view proj E) _ _ _ []); [apply unit_start|].
  apply (runs_to_seq _ _ _ _ _ (Iunit sh view proj E)); [by apply runs_to_mapM, building_runs|].
  apply (runs_to_seq _ _ _ _ _ (Inotex sh view proj E) _ _ _ []).
  { eapply runs_to_weaken; [|done|apply notex_start]. by intros ? []. }
  apply (runs_to_seq _ _ _ _ _ (Inotex sh view proj E)); [by apply runs_to_mapM, tree_runs|].
  apply (runs_to_seq _ _ _ _ _ (Inotex sh view proj E) _ _ _ []).
  { eapply runs_to_weaken; [|done|apply notex_start]. by intros ? []. }
  apply (runs_to_seq _ _ _ _ _ (Inotex sh view proj E)); [by apply runs_to_mapM, lamp_runs|].
  apply car_runs.
Qed.

(** ** What the frame contains *)

Lemma building_instances_length sc bs :
  building_instances sc = Some bs -> length bs = length (buildingCells sc).
Proof.
  unfold building_instances. intros Hb%mapM_Some. apply Forall2_length in Hb.
  by rewrite <- Hb, length_seq.
Qed.

Lemma map_mesh_boxes sc sg (f : cell -> list idraw) (k : nat) l :
  (forall c, map i_mesh (f c) = repeat (cubeMesh sg) k) ->
  map i_mesh (flat_map f l) = repeat (cubeMesh sg) (k * length l).
Proof.
  intros Hf. induction l as [|c l IH]; cbn [flat_map length]; [by rewrite Nat.mul_0_r|].
  rewrite map_app, Hf, IH, <- repeat_app. f_equal. lia.
Qed.

(** The meshes of the frame, in order: the ground cube, one quad per
    road cell, the pond, then cubes: one per building, two per tree, two
    per lamp and four for the car. *)
Lemma frame_meshes sc sg bs :
  map i_mesh (frame_draws sc sg bs) =
    [cubeMesh sg] ++ repeat (quadMesh sg) (length (roadCells sc)) ++ [pondMesh sg] ++
    repeat (cubeMesh sg) (length bs + 2 * length (treeCells sc) + 2 * length (streetLamps sc) + 4).
Proof.
  unfold frame_draws. rewrite !map_app, !map_map.
  rewrite (map_mesh_boxes sc sg _ 2), (map_mesh_boxes sc sg _ 2).
  2, 3: intros c; first [unfold tree_draws | unfold lamp_draws]; by destruct (cellToWorld sc c.1 c.2).
  rewrite (map_const_repeat _ (quadMesh sg) (roadCells sc)), (map_const_repeat _ (cubeMesh sg) bs) by (intros; reflexivity).
  replace (map i_mesh (car_draws sc sg)) with (repeat (cubeMesh sg) 4)
    by (unfold car_draws; by destruct (cellToWorld sc (carPosition sc).1 (carPosition sc).2)).
  cbn [app]. f_equal. f_equal. f_equal. rewrite <- !repeat_app. f_equal. lia.
Qed.

(** Every draw of the frame is flat-colored, or textured with a texture
    that loaded. *)
Lemma frame_textures sc sg bs :
  Forall (fun i => i_useTex i = lit 0 \/ exists t, t <> 0 /\ i_useTex i = lit 1 /\ i_tex i = Some t)
    (frame_draws sc sg bs).
Proof.
  assert (Htex : forall t, texFlag t = lit 0 \/ exists t', t' <> 0 /\ texFlag t = lit 1 /\ Some t = Some t').
  { intros t. unfold texFlag. destruct (Z.eqb_spec t 0); [by left|right; by exists t]. }
  assert (Hbox : forall l, Forall (fun i => i_useTex i = lit 0) l ->
            Forall (fun i => i_useTex i = lit 0 \/ exists t, t <> 0 /\ i_useTex i = lit 1 /\ i_tex i = Some t) l).
  { intros l Hl. eapply Forall_impl; [exact Hl|]. intros i Hi. by left. }
  unfold frame_draws. repeat apply Forall_app_2.
  - constructor; [by left|constructor].
  - apply Forall_forall. intros i (c&<-&_)%list_elem_of_In%in_map_iff. apply Htex.
  - constructor; [apply Htex|constructor].
  - apply Forall_forall. intros i (b&<-&_)%list_elem_of_In%in_map_iff. apply Htex.
  - apply Hbox, Forall_flat_map_intro. intros c _. unfold tree_draws.
    destruct (cellToWorld sc c.1 c.2). repeat constructor.
  - apply Hbox, Forall_flat_map_intro. intros c _. unfold lamp_draws.
    destruct (cellToWorld sc c.1 c.2). repeat constructor.
  - apply Hbox. unfold car_draws. destruct (cellToWorld sc (carPosition sc).1 (carPosition sc).2).
    repeat constructor.
Qed.

(** The building loop reads in range exactly when [buildingHeights] and
    [buildingTypes] are at least as long as [buildingCells]. *)
Lemma building_instances_some sc :
  (length (buildingCells sc) <= length (buildingHeights sc))%nat ->
  (length (buildingCells sc) <= length (buildingTypes sc))%nat ->
  exists bs, building_instances sc = Some bs.
Proof.
  intros Hh Ht. unfold building_instances.
  assert (Hall : forall i, i ∈ seq 0 (length (buildingCells sc)) ->
            exists b, (c ← buildingCells sc !! i; h ← buildingHeights sc !! i;
                       t ← buildingTypes sc !! i; Some (c, h, t)) = Some b).
  { intros i Hi%list_elem_of_In%in_seq.
    destruct (lookup_lt_is_Some_2 (buildingCells sc) i) as [c Hc]; [lia|].
    destruct (lookup_lt_is_Some_2 (buildingHeights sc) i) as [h Hh']; [lia|].
    destruct (lookup_lt_is_Some_2 (buildingTypes sc) i) as [t Ht']; [lia|].
    exists (c, h, t). by rewrite Hc, Hh', Ht'. }
  induction (seq 0 (length (buildingCells sc))) as [|i l IH]; [by exists []|].
  destruct (Hall i) as [b Hb]; [set_solver|]. destruct IH as [bs Hbs]; [intros j Hj; apply Hall; set_solver|].
  exists (b :: bs). cbn. rewrite Hb, Hbs. done.
Qed.

Lemma matches_vaos sh view proj E new ds :
  Forall2 (matches sh view proj E) new ds -> map d_vao new = map (fun i => vao (i_mesh i)) ds.
Proof. induction 1 as [|d i new ds [Hv _] _ IH]; cbn; congruence. Qed.

(** The vertex arrays of the frame, in order: the ground cube, one quad
    per road cell, the pond, then cubes: one per building, two per
    tree, two per lamp and four for the car. *)
Definition frame_vaos sc sg : list Z :=
  [vao (cubeMesh sg)] ++ repeat (vao (quadMesh sg)) (length (roadCells sc)) ++
  [vao (pondMesh sg)] ++
  repeat (vao (cubeMesh sg)) (length (buildingCells sc) + 2 * length (treeCells sc) +
                              2 * length (streetLamps sc) + 4).

Lemma matches_frame_vaos sh view proj E sc sg bs new :
  building_instances sc = Some bs -> Forall2 (matches sh view proj E) new (frame_draws sc sg bs) ->
  map d_vao new = frame_vaos sc sg.
Proof.
  intros Hbs Hm. rewrite (matches_vaos _ _ _ _ _ _ Hm), <- (map_map i_mesh vao), frame_meshes.
  rewrite (building_instances_length _ _ Hbs), !map_app, !map_repeat. done.
Qed.

Lemma matches_uniforms sh view proj E new ds :
  Forall2 (matches sh view proj E) new ds ->
  map (fun d => (d_uniforms d !! (id sh, "model"), d_uniforms d !! (id sh, "baseColor"))) new =
  map (fun i => (Some (UMat (i_model i)), Some (UVec3 (i_color i)))) ds.
Proof. induction 1 as [|d i new ds (_&_&_&_&_&_&Hm&Hc&_) _ IH]; cbn; [done|]. by rewrite Hm, Hc, IH. Qed.

(** [C11] [render] issues the draws of the render contract, one for one
    and in its order (ground, roads, pond, buildings, trees, lamps,
    car): the vertex array of each draw is the contract's (the cube for
    the ground, the buildings, the trees, the lamps and the car, the
    quad for the roads, the fan for the pond: one draw per road cell and
    per building, two per tree, two per lamp and four for the car), and
    its [model] matrix and [baseColor] are the contract's, which places
    each building, trunk, foliage, pole, lamp head and car part. *)
Theorem render_draw_order sh sc sg view viewPos vw vh st :
  program_linked st (id sh) = true ->
  (length (buildingCells sc) <= length (buildingHeights sc))%nat ->
  (length (buildingCells sc) <= length (buildingTypes sc))%nat ->
  exists bs prog, building_instances sc = Some bs /\ render sc sg sh view viewPos vw vh = Some prog /\
  exists new, gl_draws (prog st).2 = gl_draws st ++ new /\
    map d_vao new = frame_vaos sc sg /\
    map (fun d => (d_uniforms d !! (id sh, "model"), d_uniforms d !! (id sh, "baseColor"))) new =
    map (fun i => (Some (UMat (i_model i)), Some (UVec3 (i_color i)))) (frame_draws sc sg bs).
Proof.
  intros Hl Hh Ht. destruct (building_instances_some sc Hh Ht) as [bs Hbs].
  destruct (render_runs sh sc sg view viewPos vw vh bs Hbs) as (prog&Hr&Hrun).
  exists bs, prog. split; [done|]. split; [done|].
  destruct (Hrun (gl_ebo st) st (conj eq_refl Hl)) as [_ (new&Hd&Hm)]. exists new. split; [done|].
  split; [exact (matches_frame_vaos _ _ _ _ _ _ _ _ Hbs Hm) | exact (matches_uniforms _ _ _ _ _ _ Hm)].
Qed.

(** [C12] A failed texture load degrades to flat color: every draw of
    [render] either has [useTexture = 0], or has [useTexture = 1] with
    a texture that loaded (a nonzero name) bound to unit 0. *)
Theorem render_textures sh sc sg view viewPos vw vh st :
  program_linked st (id sh) = true ->
  (length (buildingCells sc) <= length (buildingHeights sc))%nat ->
  (length (buildingCells sc) <= length (buildingTypes sc))%nat ->
  exists prog, render sc sg sh view viewPos vw vh = Some prog /\
  exists new, gl_draws (prog st).2 = gl_draws st ++ new /\
    Forall (fun d => d_uniforms d !! (id sh, "useTexture") = Some (UFloat (lit 0)) \/
              exists t, t <> 0 /\ d_uniforms d !! (id sh, "useTexture") = Some (UFloat (lit 1)) /\
                        d_textures d !! 0 = Some t) new.
Proof.
  intros Hl Hh Ht. destruct (building_instances_some sc Hh Ht) as [bs Hbs].
  destruct (render_runs sh sc sg view viewPos vw vh bs Hbs) as (prog&Hr&Hrun).
  exists prog. split; [done|].
  destruct (Hrun (gl_ebo st) st (conj eq_refl Hl)) as [_ (new&Hd&Hm)]. exists new. split; [done|].
  pose proof (frame_textures sc sg bs) as Hf. clear Hd Hrun Hr.
  induction Hm as [|d i new ds (_&_&_&_&_&_&_&_&Hu&Htex) _ IH]; [constructor|].
  apply Forall_cons in Hf as [[Hi|(t&Ht0&Hi&Hti)] Hf]; constructor; auto.
  - left. by rewrite Hu, Hi.
  - right. exists t. rewrite Hu, Hi. auto.
Qed.

(** ** The OpenGL objects [init] creates *)

Lemma loadTexture_frame path st :
  let '(t, st') := loadTexture path st in
  gl_next st <= gl_next st' /\ gl_bufs st' = gl_bufs st /\ gl_ebo st' = gl_ebo st /\
  gl_attribs st' = gl_attribs st /\ shading_same st st'.
Proof.
  unfold loadTexture. destruct (stbi_load path).
  - destruct st. gl_run. repeat split; cbn; lia.
  - cbv [mret glM_ret]. repeat split; lia.
Qed.

Lemma loadTexture_valid path st m :
  mesh_valid st m -> mesh_valid (loadTexture path st).2 m.
Proof.
  pose proof (loadTexture_frame path st) as Hf. destruct (loadTexture path st) as [t st'].
  destruct Hf as (Hn&Hb&He&Ha&_). cbn [snd]. apply mesh_valid_frame; [|done].
  intros k _. rewrite Hb, He, Ha. done.
Qed.

Lemma loadTexture_shading path st : shading_same st (loadTexture path st).2.
Proof. pose proof (loadTexture_frame path st) as Hf. destruct (loadTexture path st). apply Hf. Qed.

(** [initFull] builds three drawable meshes and computes the layout of
    [Layout.init]. *)
Lemma initFull_spec sc s cs nb sty tw th bw bh sw shh pr ns nt no st :
  0 <= gl_next st ->
  let '(r, st') := initFull sc s cs nb sty tw th bw bh sw shh pr ns nt no st in
  exists sc' sg s', r = Some (sc', sg, s') /\
    (sc', s') = init sc s cs nb sty tw th bw bh sw shh pr ns nt no /\
    mesh_valid st' (cubeMesh sg) /\ mesh_valid st' (quadMesh sg) /\ mesh_valid st' (pondMesh sg) /\
    shading_same st st'.
Proof.
  intros Hn. unfold initFull, init. cbv [mbind glM_bind mret glM_ret].
  pose proof (makeCube_valid st Hn) as Hc. pose proof (makeCube_shading st) as Pc.
  destruct (makeCube st) as [cube st1]. destruct Hc as (Hc1&_&Hn1&_).
  pose proof (makeQuadXZ_valid st1 ltac:(lia)) as Hq. pose proof (makeQuadXZ_shading st1) as Pq.
  destruct (makeQuadXZ st1) as [quad st2]. destruct Hq as (Hq2&_&Hn2&Hk2).
  destruct (generateFuturisticLayout _ s) as [sc2 s2].
  destruct (cellToWorld sc2 (pond_cx sc2) (pond_cy sc2)) as [wx wz].
  pose proof (makeCircleFan_valid wx wz (lit (pond_r sc2)) 64 st2 ltac:(lia) ltac:(lia)) as Hp.
  pose proof (makeCircleFan_shading wx wz (lit (pond_r sc2)) 64 st2) as Pp.
  destruct (makeCircleFan _ _ _ 64 st2) as [opond st3]. destruct Hp as (pond&->&Hp3&_&_&Hk3).
  do 5 (match goal with |- context [loadTexture ?path ?st0] =>
          pose proof (loadTexture_valid path st0) as ?; pose proof (loadTexture_shading path st0) as ?;
          destruct (loadTexture path st0) as [? ?] eqn:?
        end).
  repeat match goal with E : loadTexture _ _ = (_, _) |- _ =>
    apply (f_equal snd) in E; cbn [snd] in E; subst end.
  eexists _, _, _. split; [reflexivity|]. split; [reflexivity|].
  cbn [cubeMesh quadMesh pondMesh].
  split; [|split; [|split]]; [repeat apply loadTexture_valid; auto ..|].
  cbn [snd] in Pc, Pq, Pp.
  repeat (eapply shading_same_trans; [eassumption|]). apply shading_same_refl.
Qed.

Lemma frame_mesh_cases sc sg bs i :
  i ∈ frame_draws sc sg bs -> i_mesh i = cubeMesh sg \/ i_mesh i = quadMesh sg \/ i_mesh i = pondMesh sg.
Proof.
  intros Hi. assert (Hm : i_mesh i ∈ map i_mesh (frame_draws sc sg bs))
    by (apply list_elem_of_In, in_map, list_elem_of_In, Hi).
  rewrite frame_meshes in Hm. repeat rewrite elem_of_app in Hm.
  destruct Hm as [Hm|[Hm|[Hm|Hm]]];
    [apply list_elem_of_singleton in Hm | apply list_elem_of_In, repeat_spec in Hm
    |apply list_elem_of_singleton in Hm | apply list_elem_of_In, repeat_spec in Hm]; auto.
Qed.

(** A draw that is defined: it draws a mesh whose buffers hold its
    vertices and indices, through its element buffer, with its count. *)
Definition draw_ok (st : state F) (d : draw F) : Prop :=
  exists m, mesh_valid st m /\ d_vao d = vao m /\ d_ebo d = Some (ebo m) /\ d_count d = elemCount m.

(** The number of draws of a frame. *)
Definition frame_size sc : nat :=
  1 + length (roadCells sc) + 1 + length (buildingCells sc) + 2 * length (treeCells sc) +
  2 * length (streetLamps sc) + 4.

Lemma frame_draws_length sc sg bs :
  building_instances sc = Some bs -> length (frame_draws sc sg bs) = frame_size sc.
Proof.
  intros Hbs. rewrite <- (length_map i_mesh), frame_meshes, (building_instances_length _ _ Hbs).
  unfold frame_size. rewrite !length_app, !repeat_length. cbn [length]. lia.
Qed.

(** Every draw of [render] is defined when the three meshes are, and
    there are [frame_size] of them. *)
Lemma render_valid sh sc sg view viewPos vw vh bs st :
  building_instances sc = Some bs -> program_linked st (id sh) = true ->
  mesh_valid st (cubeMesh sg) -> mesh_valid st (quadMesh sg) -> mesh_valid st (pondMesh sg) ->
  exists new, gl_draws (render_body sh sc sg view viewPos vw vh bs st).2 = gl_draws st ++ new /\
    length new = frame_size sc /\ Forall (draw_ok st) new.
Proof.
  intros Hbs HL Hc Hq Hp.
  destruct (render_runs sh sc sg view viewPos vw vh bs Hbs) as (prog&Hr&Hrun).
  rewrite (render_body_eq _ _ _ _ _ _ _ _ Hbs) in Hr. injection Hr as <-.
  destruct (Hrun (gl_ebo st) st (conj eq_refl HL)) as [_ (new&Hd&Hm)]. exists new. split; [done|].
  split; [by rewrite (Forall2_length _ _ _ Hm), (frame_draws_length _ _ _ Hbs)|].
  assert (Hin : forall i, i ∈ frame_draws sc sg bs -> i_mesh i ∈ [cubeMesh sg; quadMesh sg; pondMesh sg]).
  { intros i Hi. apply frame_mesh_cases in Hi. set_solver. }
  clear Hd Hrun. induction Hm as [|d i new ds (Hv&He&Hc0&_) _ IH]; [constructor|].
  constructor.
  - assert (Hmv : mesh_valid st (i_mesh i)).
    { assert (Hmi : i_mesh i ∈ [cubeMesh sg; quadMesh sg; pondMesh sg]) by (apply Hin; set_solver).
      repeat rewrite elem_of_cons in Hmi. rewrite elem_of_nil in Hmi.
      destruct Hmi as [->|[->|[->|[]]]]; done. }
    exists (i_mesh i). split; [done|]. split; [done|]. split; [|done].
    rewrite He. destruct Hmv as (?&?&Hebo&_). exact Hebo.
  - apply IH. intros i' Hi'. apply Hin. set_solver.
Qed.

(** [init] gives the building vectors one entry per building. *)
Lemma init_instances sc s cs nb sty tw th bw bh sw shh pr ns nt no :
  exists bs, building_instances (fst (init sc s cs nb sty tw th bw bh sw shh pr ns nt no)) = Some bs.
Proof.
  pose proof (init_buildings sc s cs nb sty ns nt no tw th bw bh sw shh pr) as (_&Hl&_&Hh).
  apply building_instances_some; [rewrite Hh, length_map|]; lia.
Qed.

(** [C2] Drawing the scene [init] builds is safe: on an OpenGL context
    that has handed out no negative name, [init] succeeds with the layout
    of [Layout.init], and every draw of the next [render] is defined (the
    building vectors have one entry per building) and draws one of the
    three meshes [init] built, through the element buffer tied to its
    vertex array, with its element count, all of whose indices name
    vertices of its vertex buffer. *)
Theorem init_render_safe sc s cs nb sty tw th bw bh sw shh pr ns nt no st sh view viewPos vw vh :
  0 <= gl_next st -> program_linked st (id sh) = true ->
  let '(r, st1) := initFull sc s cs nb sty tw th bw bh sw shh pr ns nt no st in
  exists sc' sg s', r = Some (sc', sg, s') /\
    (sc', s') = init sc s cs nb sty tw th bw bh sw shh pr ns nt no /\
    exists prog, render sc' sg sh view viewPos vw vh = Some prog /\
    exists new, gl_draws (prog st1).2 = gl_draws st1 ++ new /\
      Forall (fun d => exists m, mesh_valid st1 m /\ d_vao d = vao m /\
                d_ebo d = Some (ebo m) /\ d_count d = elemCount m) new.
Proof.
  intros Hn HL. pose proof (initFull_spec sc s cs nb sty tw th bw bh sw shh pr ns nt no st Hn) as Hi.
  destruct (initFull _ _ _ _ _ _ _ _ _ _ _ _ _ _ _ st) as [r st1].
  destruct Hi as (sc'&sg&s'&->&Hinit&Hc&Hq&Hp&Hsh).
  exists sc', sg, s'. split; [done|]. split; [done|].
  destruct (init_instances sc s cs nb sty tw th bw bh sw shh pr ns nt no) as [bs Hbs].
  rewrite <- Hinit in Hbs. cbn [fst] in Hbs.
  rewrite (render_body_eq _ _ _ _ _ _ _ _ Hbs). eexists. split; [reflexivity|].
  assert (HL1 : program_linked st1 (id sh) = true) by (by rewrite (shading_same_linked _ _ _ Hsh)).
  destruct (render_valid sh sc' sg view viewPos vw vh bs st1 Hbs HL1 Hc Hq Hp) as (new&Hd&_&Hok).
  exists new. split; [exact Hd|exact Hok].
Qed.

(** ** [render] creates, changes and deletes no object

    It binds, sets uniforms and draws: the name counter, the buffers,
    the vertex arrays' element buffers and attribute pointers and the
    program objects stay as they were. *)
Definition objs_same (st st' : state F) : Prop :=
  gl_next st' = gl_next st /\ gl_bufs st' = gl_bufs st /\ gl_ebo st' = gl_ebo st /\
  gl_attribs st' = gl_attribs st /\ gl_programs st' = gl_programs st.

Lemma objs_same_refl st : objs_same st st.
Proof. done. Qed.

Lemma objs_same_trans a b c : objs_same a b -> objs_same b c -> objs_same a c.
Proof. intros (?&?&?&?&?) (?&?&?&?&?). repeat split; congruence. Qed.

Local Abbreviation steady := (keeps (fun _ : state F => True) objs_same (fun _ : draw F => True)).

Lemma steady_call (m : glM F unit) :
  (forall st, objs_same st (m st).2 /\ gl_draws (m st).2 = gl_draws st) -> steady m.
Proof. intros Hm. apply keeps_nodraw. intros st _. split; [done|]. apply Hm. Qed.

Lemma steady_bindVA v : steady (glBindVertexArray v).
Proof. apply steady_call. by intros []. Qed.
Lemma steady_active u : steady (glActiveTexture u).
Proof. apply steady_call. by intros []. Qed.
Lemma steady_bindTex t : steady (glBindTexture t).
Proof. apply steady_call. by intros []. Qed.
Lemma steady_use p : steady (glUseProgram p).
Proof. apply steady_call. intros []. unfold glUseProgram, modify. by case_match. Qed.
Lemma steady_uniform p name v : steady (glUniform p name v).
Proof. apply steady_call. intros []. unfold glUniform, modify. by case_match. Qed.
Lemma steady_draw c : steady (glDrawElements c).
Proof.
  intros [] _. split; [done|]. split; [done|]. eexists. split; [reflexivity|]. by repeat constructor.
Qed.

Create HintDb steady.
#[local] Hint Resolve objs_same_refl objs_same_trans steady_bindVA steady_active steady_bindTex
  steady_use steady_uniform steady_draw : steady.

Lemma render_steady sh sc sg view viewPos vw vh bs st :
  objs_same st (render_body sh sc sg view viewPos vw vh bs st).2.
Proof.
  assert (Hs : steady (render_body sh sc sg view viewPos vw vh bs))
    by (render_pieces; keeps_tac ltac:(eauto with steady)).
  exact (proj1 (proj2 (Hs st I))).
Qed.

(** [mesh_valid] and [program_linked] read only the objects. *)
Lemma mesh_valid_same st st' m : objs_same st st' -> mesh_valid st m -> mesh_valid st' m.
Proof.
  intros (Hn&Hb&He&Ha&_). apply mesh_valid_frame; [|lia]. intros k _. by rewrite Hb, He, Ha.
Qed.

Lemma objs_same_sym st st' : objs_same st st' -> objs_same st' st.
Proof. intros (?&?&?&?&?). repeat split; congruence. Qed.

Lemma program_linked_same st st' p :
  objs_same st st' -> program_linked st' p = program_linked st p.
Proof. intros (_&_&_&_&Hp). unfold program_linked. by rewrite Hp. Qed.

Lemma draw_ok_same st st' d : objs_same st st' -> draw_ok st d -> draw_ok st' d.
Proof. intros Hs (m&Hm&?). exists m. split; [by eapply mesh_valid_same|done]. Qed.

(** ** A program that did not link *)

(** When the shader program did not link, [glUseProgram] fails and
    every [glUniform*] gets location [-1]: the draws run with whatever
    program was current and the uniforms as they were.  [quiet m] says
    that [m] keeps the current program, the uniforms and the link
    failure, and that each draw it issues reads that program and those
    uniforms. *)
Section Unlinked.
Variables (sh : Shader) (P0 : Z) (U0 : gmap (Z * string) (uval F)).
Hypothesis Hid : id sh <> 0.

Definition Iu (st : state F) : Prop :=
  gl_program st = P0 /\ gl_uniforms st = U0 /\ program_linked st (id sh) = false.

Local Abbreviation quiet :=
  (keeps Iu (fun _ _ => True) (fun d : draw F => d_program d = P0 /\ d_uniforms d = U0)).

(** A call that changes neither the program, the uniforms, the program
    objects nor the draws is quiet. *)
Lemma quiet_frame (m : glM F unit) :
  (forall st, gl_program (m st).2 = gl_program st /\ gl_uniforms (m st).2 = gl_uniforms st /\
              gl_programs (m st).2 = gl_programs st /\ gl_draws (m st).2 = gl_draws st) ->
  quiet m.
Proof.
  intros Hm. apply keeps_nodraw. intros st (Hp&Hu&Hl). destruct (Hm st) as (Hp'&Hu'&Hl'&Hd').
  unfold Iu, program_linked in *. by rewrite Hp', Hu', Hl'.
Qed.

Lemma quiet_bindVA v : quiet (glBindVertexArray v).
Proof. apply quiet_frame. by intros []. Qed.

Lemma quiet_active u : quiet (glActiveTexture u).
Proof. apply quiet_frame. by intros []. Qed.

Lemma quiet_bindTex t : quiet (glBindTexture t).
Proof. apply quiet_frame. by intros []. Qed.

Lemma quiet_use : quiet (glUseProgram (id sh)).
Proof. apply keeps_nodraw. intros st Hst. pose proof Hst as (_&_&Hl). by rewrite glUseProgram_unlinked. Qed.

Lemma quiet_uniform name v : quiet (glUniform (id sh) name v).
Proof. apply keeps_nodraw. intros st Hst. pose proof Hst as (_&_&Hl). by rewrite glUniform_unlinked. Qed.

Lemma quiet_draw c : quiet (glDrawElements c).
Proof.
  intros [] (Hp&Hu&Hl). cbn in Hp, Hu. subst. gl_run. split; [done|]. split; [done|].
  eexists. split; [reflexivity|]. by repeat constructor.
Qed.

End Unlinked.

Create HintDb quiet.
#[local] Hint Resolve quiet_bindVA quiet_active quiet_bindTex quiet_use quiet_uniform quiet_draw
  : quiet.

(** [render]'s code on a program that did not link keeps [Iu] and
    draws with the program and the uniforms it found. *)
Lemma render_quiet sh sc sg view viewPos vw vh bs st :
  id sh <> 0 -> program_linked st (id sh) = false ->
  Iu sh (gl_program st) (gl_uniforms st) (render_body sh sc sg view viewPos vw vh bs st).2 /\
  exists new, gl_draws (render_body sh sc sg view viewPos vw vh bs st).2 = gl_draws st ++ new /\
    Forall (fun d => d_program d = gl_program st /\ d_uniforms d = gl_uniforms st) new.
Proof.
  intros Hid Hl.
  assert (Hq : keeps (Iu sh (gl_program st) (gl_uniforms st)) (fun _ _ => True)
                 (fun d => d_program d = gl_program st /\ d_uniforms d = gl_uniforms st)
                 (render_body sh sc sg view viewPos vw vh bs))
    by (render_pieces; keeps_tac ltac:(eauto with quiet)).
  destruct (Hq st (conj eq_refl (conj eq_refl Hl))) as (HI&_&Hd). split; [exact HI|exact Hd].
Qed.

(** [render]'s code respects [geom_eq]: what its draws draw does not
    depend on the program objects, the current program or the
    uniforms. *)
Lemma render_geom sh sc sg view viewPos vw vh bs :
  geom_resp (render_body sh sc sg view viewPos vw vh bs).
Proof. render_pieces. geom_tac. Qed.

(** The state [st] with a linked program named [p]: it differs from
    [st] only in the program objects. *)
Definition with_linked (p : Z) (st : state F) : state F :=
  mkState (gl_next st) (gl_vao st) (gl_array st) (gl_bufs st) (gl_ebo st) (gl_attribs st)
    (gl_enabled st) (gl_unit st) (gl_tex st) (gl_program st) (gl_uniforms st) (gl_draws st)
    (gl_shaders st) (<[p := mkProgramObj [] true false]> (gl_programs st)).

Lemma with_linked_spec p st :
  geom_eq (with_linked p st) st /\ program_linked (with_linked p st) p = true /\
  gl_draws (with_linked p st) = gl_draws st /\ gl_ebo (with_linked p st) = gl_ebo st.
Proof.
  unfold with_linked, program_linked, geom_eq. cbn. rewrite lookup_insert_eq.
  repeat split.
Qed.

(** The draws [render] appends have the geometry of the contract's
    frame from any state: they are those of a run with the program
    linked. *)
Lemma render_shape sh sc sg view viewPos vw vh bs st new :
  building_instances sc = Some bs ->
  gl_draws (render_body sh sc sg view viewPos vw vh bs st).2 = gl_draws st ++ new ->
  length new = frame_size sc /\ map d_vao new = frame_vaos sc sg.
Proof.
  intros Hbs Hn. destruct (with_linked_spec (id sh) st) as (Hgeo&Hl1&Hd1&He1).
  destruct (render_runs sh sc sg view viewPos vw vh bs Hbs) as (prog&Hr&Hrun).
  rewrite (render_body_eq _ _ _ _ _ _ _ _ Hbs) in Hr. injection Hr as <-.
  destruct (Hrun (gl_ebo st) (with_linked (id sh) st) (conj He1 Hl1)) as [_ (new1&Hn1&Hm)].
  pose proof (render_geom sh sc sg view viewPos vw vh bs _ _ Hgeo) as (_&_&_&_&_&_&_&_&_&Hs).
  cbv beta in Hs. rewrite Hn1, Hd1, Hn, !map_app in Hs. apply app_inv_head in Hs.
  split.
  - rewrite <- (length_map draw_shape new), <- Hs, length_map, (Forall2_length _ _ _ Hm).
    exact (frame_draws_length _ _ _ Hbs).
  - rewrite <- (matches_frame_vaos _ _ _ _ _ _ _ _ Hbs Hm).
    replace (map d_vao new) with (map (fun x => x.1.1.1) (map draw_shape new)) by (by rewrite map_map).
    rewrite <- Hs, map_map. done.
Qed.

(** [C19] When the shader program did not link (the error [Shader::Shader]
    reports), [render] still issues every draw of the frame, [frame_size]
    of them with the contract's vertex arrays in order, but each one runs
    with the program that was current before and with no uniform
    changed: [shader.use()] fails and every [set*] is dropped. *)
Theorem render_unlinked sh sc sg view viewPos vw vh st :
  id sh <> 0 -> program_linked st (id sh) = false ->
  (length (buildingCells sc) <= length (buildingHeights sc))%nat ->
  (length (buildingCells sc) <= length (buildingTypes sc))%nat ->
  exists prog, render sc sg sh view viewPos vw vh = Some prog /\
  exists new, gl_draws (prog st).2 = gl_draws st ++ new /\
    length new = frame_size sc /\ map d_vao new = frame_vaos sc sg /\
    Forall (fun d => d_program d = gl_program st /\ d_uniforms d = gl_uniforms st) new.
Proof.
  intros Hid Hl Hh Ht. destruct (building_instances_some sc Hh Ht) as [bs Hbs].
  rewrite (render_body_eq _ _ _ _ _ _ _ _ Hbs). eexists. split; [reflexivity|].
  destruct (render_quiet sh sc sg view viewPos vw vh bs st Hid Hl) as [_ (new&Hn&Hq)].
  destruct (render_shape sh sc sg view viewPos vw vh bs st new Hbs Hn) as [Hlen Hv].
  exists new. done.
Qed.

(** ** Uniform types

    [render] sets each uniform with the [glUniform*] call that fits the
    type the GLSL sources declare it with: [mat4] with a matrix, [vec3]
    with a vector, [float] with a float, the [sampler2D] with an int. *)
Definition uniforms_typed (p : Z) (U : gmap (Z * string) (uval F)) : Prop :=
  forall name v, U !! (p, name) = Some v -> typed_set name v = true.

Local Abbreviation typed p :=
  (keeps (fun st : state F => uniforms_typed p (gl_uniforms st)) (fun _ _ => True)
         (fun d : draw F => uniforms_typed p (d_uniforms d))).

Lemma typed_frame p (m : glM F unit) :
  (forall st, gl_uniforms (m st).2 = gl_uniforms st /\ gl_draws (m st).2 = gl_draws st) -> typed p m.
Proof. intros Hm. apply keeps_nodraw. intros st HU. destruct (Hm st) as [-> ->]. done. Qed.

Lemma typed_bindVA p v : typed p (glBindVertexArray v).
Proof. apply typed_frame. by intros []. Qed.
Lemma typed_active p u : typed p (glActiveTexture u).
Proof. apply typed_frame. by intros []. Qed.
Lemma typed_bindTex p t : typed p (glBindTexture t).
Proof. apply typed_frame. by intros []. Qed.
Lemma typed_use p q : typed p (glUseProgram q).
Proof. apply typed_frame. intros []. unfold glUseProgram, modify. by case_match. Qed.

Lemma typed_draw p c : typed p (glDrawElements c).
Proof.
  intros [] HU. split; [done|]. split; [done|]. eexists. split; [reflexivity|]. by repeat constructor.
Qed.

Lemma typed_uniform p q name v : typed_set name v = true -> typed p (glUniform q name v).
Proof.
  intros Hv. apply keeps_nodraw. intros st HU. unfold glUniform, modify. cbn.
  destruct (_ && _); [|done]. split; [|done]. cbn. intros name' v'.
  destruct (decide ((p, name') = (q, name))) as [[= -> ->]|Hne].
  - rewrite lookup_insert_eq. by intros [= <-].
  - rewrite lookup_insert_ne by congruence. apply HU.
Qed.

Create HintDb typed.
#[local] Hint Resolve typed_bindVA typed_active typed_bindTex typed_use typed_draw : typed.

(** [C17] Every uniform [render] sets has the type its declaration in the
    GLSL sources gives it: from a state where the program's uniforms are
    well typed, every draw of [render] runs with well-typed uniforms. *)
Theorem render_uniform_types sh sc sg view viewPos vw vh st :
  uniforms_typed (id sh) (gl_uniforms st) ->
  (length (buildingCells sc) <= length (buildingHeights sc))%nat ->
  (length (buildingCells sc) <= length (buildingTypes sc))%nat ->
  exists prog, render sc sg sh view viewPos vw vh = Some prog /\
  exists new, gl_draws (prog st).2 = gl_draws st ++ new /\
    Forall (fun d => uniforms_typed (id sh) (d_uniforms d)) new.
Proof.
  intros HU Hh Ht. destruct (building_instances_some sc Hh Ht) as [bs Hbs].
  rewrite (render_body_eq _ _ _ _ _ _ _ _ Hbs). eexists. split; [reflexivity|].
  assert (Hty : typed (id sh) (render_body sh sc sg view viewPos vw vh bs))
    by (render_pieces; keeps_tac ltac:(first [apply typed_uniform; vm_compute; reflexivity
                                              | eauto with typed])).
  exact (proj2 (proj2 (Hty st HU))).
Qed.

(** ** What [~CityScene] frees *)

(** Deleting only removes: a buffer that is gone stays gone, and a
    texture unit's binding is only ever cleared. *)
Definition shrinks (st st' : state F) : Prop :=
  (forall k, gl_bufs st !! k = None -> gl_bufs st' !! k = None) /\
  (forall u t, gl_tex st' !! u = Some t -> gl_tex st !! u = Some t) /\
  gl_programs st' = gl_programs st /\ gl_program st' = gl_program st.

Lemma shrinks_gone a b k : shrinks a b -> gl_bufs a !! k = None -> gl_bufs b !! k = None.
Proof. intros [Hb _]. apply Hb. Qed.

Lemma shrinks_unbound a b t : shrinks a b -> (forall u, gl_tex a !! u <> Some t) ->
  forall u, gl_tex b !! u <> Some t.
Proof. intros (_&Ht&_) Ha u Hu. exact (Ha u (Ht u t Hu)). Qed.

Lemma shrinks_programs a b :
  shrinks a b -> gl_programs b = gl_programs a /\ gl_program b = gl_program a.
Proof. intros (_&_&Hp). exact Hp. Qed.

Lemma deleteMesh_shrinks m st : shrinks st (deleteMesh m st).2.
Proof.
  unfold deleteMesh. destruct st. gl_run.
  destruct (vao m =? 0); [done|].
  destruct (vbo m =? 0), (ebo m =? 0); (split; [|split; [|split; reflexivity]]); cbn; intros *;
    rewrite ?lookup_delete_None; tauto.
Qed.

Lemma deleteTexture_shrinks t st : shrinks st (deleteTexture t st).2.
Proof.
  unfold deleteTexture. destruct st. gl_run. destruct (t =? 0); [done|].
  split; [done|]. split; [|done]. cbn. intros u t' Hu. exact (map_lookup_filter_Some_1_1 _ _ _ _ Hu).
Qed.

(** [deleteMesh] of a mesh with names frees its vertex buffer. *)
Lemma deleteMesh_frees m st : vao m <> 0 -> vbo m <> 0 -> gl_bufs (deleteMesh m st).2 !! vbo m = None.
Proof.
  intros Hv Hb. unfold deleteMesh. rewrite (proj2 (Z.eqb_neq _ _) Hv). destruct st. gl_run.
  rewrite (proj2 (Z.eqb_neq _ _) Hv), (proj2 (Z.eqb_neq _ _) Hb).
  destruct (ebo m =? 0); cbn; rewrite ?lookup_delete_None; auto.
Qed.

Lemma deleteTexture_frees t st : t <> 0 -> forall u, gl_tex (deleteTexture t st).2 !! u <> Some t.
Proof.
  intros Ht u. unfold deleteTexture. rewrite (proj2 (Z.eqb_neq _ _) Ht). destruct st. gl_run.
  rewrite (proj2 (Z.eqb_neq _ _) Ht). cbn. intros Hu.
  by apply map_lookup_filter_Some in Hu as [_ ?].
Qed.

Lemma gone_not_valid st m : gl_bufs st !! vbo m = None -> ~ mesh_valid st m.
Proof. intros Hn (verts&idx&_&_&_&Hv&_). congruence. Qed.

(** Runs the destructor call by call, recording what each call frees
    and that it only removes. *)
Ltac destroy_steps :=
  repeat match goal with
  | |- context [deleteMesh ?m ?s] =>
      pose proof (deleteMesh_shrinks m s); pose proof (deleteMesh_frees m s);
      destruct (deleteMesh m s) as [[] ?] eqn:?
  | |- context [deleteTexture ?t ?s] =>
      pose proof (deleteTexture_shrinks t s); pose proof (deleteTexture_frees t s);
      destruct (deleteTexture t s) as [[] ?] eqn:?
  end.

(** [C16] The destructor frees the scene's objects: after [~CityScene]
    no vertex buffer of its three meshes holds data any more, so none of
    them can be drawn, and no texture unit still has one of its five
    textures bound. *)
Theorem destroyScene_frees sg st :
  let st' := (destroyScene sg st).2 in
  Forall (fun m => vao m <> 0 -> vbo m <> 0 -> gl_bufs st' !! vbo m = None /\ ~ mesh_valid st' m)
    [cubeMesh sg; quadMesh sg; pondMesh sg] /\
  Forall (fun t => t <> 0 -> forall u, gl_tex st' !! u <> Some t)
    [buildingTex sg; towerTex sg; skyscraperTex sg; roadTex sg; pondTex sg].
Proof.
  unfold destroyScene. cbv [mbind glM_bind]. destroy_steps. cbn [snd] in *.
  split; rewrite !Forall_cons, Forall_nil; repeat split.
  1-6: try apply gone_not_valid; eauto 12 using shrinks_gone.
  all: intros Ht; repeat first [match goal with H : _ -> ?G |- ?G => exact (H Ht) end
                              | eapply shrinks_unbound; [eassumption|]].
Qed.

(** The destructor deletes the cube's vertex buffer and leaves the
    program objects and the current program alone. *)
Lemma destroyScene_cube sg st :
  vao (cubeMesh sg) <> 0 -> vbo (cubeMesh sg) <> 0 ->
  gl_bufs (destroyScene sg st).2 !! vbo (cubeMesh sg) = None /\
  gl_programs (destroyScene sg st).2 = gl_programs st /\
  gl_program (destroyScene sg st).2 = gl_program st.
Proof.
  intros Hv Hb. unfold destroyScene. cbv [mbind glM_bind]. destroy_steps. cbn [snd] in *.
  split; [eauto 12 using shrinks_gone|].
  repeat match goal with H : shrinks _ _ |- _ => apply shrinks_programs in H as [? ?] end.
  split; congruence.
Qed.

End Frame.

(** ** Concrete instances

    The spec's example layout drawn with exact rationals as floats; the
    shader program main.cpp builds from [vertexSrc] and [fragmentSrc]
    on a fresh context, with a driver that accepts any nonempty source
    and links a vertex and a fragment shader (the program gets name 3);
    OpenGL objects with fixed names; a decoder that can read only the
    road image, and degree-five Taylor polynomials for [cosf] and
    [sinf]. *)

#[local] Instance stbi_road_only : Stbi :=
  { stbi_load := fun p => if String.eqb p "assets/road.jpg" then Some (512, 512) else None }.

#[local] Instance q_math : CMath Q :=
  { cosf := fun x => (1 - x * x / 2 + x * x * x * x / 24)%Q;
    sinf := fun x => (x - x * x * x / 6 + x * x * x * x * x / 120)%Q }.

#[local] Existing Instance glsl_accepting.

Definition ex_st : state Q := snd (newShader vertexSrc fragmentSrc GL.empty).
Definition ex_sh : Shader := mkShader 3.
Definition ex_sc : CityScene Q (list (list bool)) := fst example_run.
Definition ex_sg : SceneGL :=
  mkSceneGL (mkMesh 4 5 6 36) (mkMesh 7 8 9 6) (mkMesh 10 11 12 192) 13 14 15 16 17.
Definition ex_view : mat Q := [Translate (0, 0, -80)%Q].

Lemma ex_shader :
  fst (newShader (F := Q) vertexSrc fragmentSrc GL.empty) = (ex_sh, []) /\
  program_linked ex_st (id ex_sh) = true /\ gl_next ex_st = 3.
Proof. vm_compute. auto. Qed.

Definition ex_bad_st : state Q :=
  snd (newShader (H := glsl_rejecting) vertexSrc fragmentSrc GL.empty).

Lemma render_unlinked_witness :
  id ex_sh <> 0 /\ program_linked ex_bad_st (id ex_sh) = false /\
  exists prog, render ex_sc ex_sg ex_sh ex_view (0, 0, 80)%Q 800 600 = Some prog /\
  exists new, gl_draws (prog ex_bad_st).2 = gl_draws ex_bad_st ++ new /\
    length new = frame_size ex_sc /\ map d_vao new = frame_vaos ex_sc ex_sg /\
    Forall (fun d => d_program d = gl_program ex_bad_st /\ d_uniforms d = gl_uniforms ex_bad_st) new.
Proof.
  assert (Hid : id ex_sh <> 0) by (cbn; lia).
  assert (Hl : program_linked ex_bad_st (id ex_sh) = false) by (vm_compute; reflexivity).
  assert (Hh : (length (buildingCells ex_sc) <= length (buildingHeights ex_sc))%nat)
    by (apply Nat.leb_le; vm_compute; reflexivity).
  assert (Ht : (length (buildingCells ex_sc) <= length (buildingTypes ex_sc))%nat)
    by (apply Nat.leb_le; vm_compute; reflexivity).
  split; [exact Hid|]. split; [exact Hl|].
  exact (render_unlinked ex_sh ex_sc ex_sg ex_view (0, 0, 80)%Q 800 600 ex_bad_st Hid Hl Hh Ht).
Defined.

Lemma ex_lengths :
  (length (buildingCells ex_sc) <= length (buildingHeights ex_sc))%nat /\
  (length (buildingCells ex_sc) <= length (buildingTypes ex_sc))%nat.
Proof. split; apply Nat.leb_le; vm_compute; reflexivity. Qed.

Lemma render_draw_order_witness :
  program_linked ex_st (id ex_sh) = true /\
  exists bs prog, building_instances ex_sc = Some bs /\
    render ex_sc ex_sg ex_sh ex_view (0, 0, 80)%Q 800 600 = Some prog /\
  exists new, gl_draws (prog ex_st).2 = gl_draws ex_st ++ new /\
    map d_vao new = frame_vaos ex_sc ex_sg /\
    map (fun d => (d_uniforms d !! (id ex_sh, "model"), d_uniforms d !! (id ex_sh, "baseColor"))) new =
    map (fun i => (Some (UMat (i_model i)), Some (UVec3 (i_color i)))) (frame_draws ex_sc ex_sg bs).
Proof.
  destruct ex_lengths as [Hh Ht]. destruct ex_shader as (_&Hl&_).
  split; [exact Hl|]. eapply render_draw_order; eassumption.
Defined.

Lemma render_textures_witness :
  program_linked ex_st (id ex_sh) = true /\
  exists prog, render ex_sc ex_sg ex_sh ex_view (0, 0, 80)%Q 800 600 = Some prog /\
  exists new, gl_draws (prog ex_st).2 = gl_draws ex_st ++ new /\
    Forall (fun d => d_uniforms d !! (id ex_sh, "useTexture") = Some (UFloat (lit 0)) \/
              exists t, t <> 0 /\ d_uniforms d !! (id ex_sh, "useTexture") = Some (UFloat (lit 1)) /\
                        d_textures d !! 0 = Some t) new.
Proof.
  destruct ex_lengths as [Hh Ht]. destruct ex_shader as (_&Hl&_).
  split; [exact Hl|]. eapply render_textures; eassumption.
Defined.

Lemma init_render_safe_witness :
  0 <= gl_next ex_st /\ program_linked ex_st (id ex_sh) = true /\
  let '(r, st1) := initFull (Rs := Z) freshScene 1 1 5 1 (20#1) (60#1) (12#1) (40#1) (15#1)
                     (90#1) (5#1) 0 0 0 ex_st in
  exists sc' sg s', r = Some (sc', sg, s') /\
    (sc', s') = init freshScene 1 1 5 1 (20#1) (60#1) (12#1) (40#1) (15#1) (90#1) (5#1) 0 0 0 /\
    exists prog, render sc' sg ex_sh ex_view (0, 0, 80)%Q 800 600 = Some prog /\
    exists new, gl_draws (prog st1).2 = gl_draws st1 ++ new /\
      Forall (fun d => exists m, mesh_valid st1 m /\ d_vao d = vao m /\
                d_ebo d = Some (ebo m) /\ d_count d = elemCount m) new.
Proof.
  destruct ex_shader as (_&Hl&Hn3).
  assert (Hn : 0 <= gl_next ex_st) by (rewrite Hn3; lia).
  split; [exact Hn|]. split; [exact Hl|].
  pose proof (init_render_safe freshScene 1 1 5 1 (20#1) (60#1) (12#1) (40#1) (15#1) (90#1) (5#1)
           0 0 0 ex_st ex_sh ex_view (0, 0, 80)%Q 800 600 Hn Hl) as Hr. exact Hr.
Defined.

Lemma render_uniform_types_witness :
  uniforms_typed (id ex_sh) (gl_uniforms ex_st) /\
  exists prog, render ex_sc ex_sg ex_sh ex_view (0, 0, 80)%Q 800 600 = Some prog /\
  exists new, gl_draws (prog ex_st).2 = gl_draws ex_st ++ new /\
    Forall (fun d => uniforms_typed (id ex_sh) (d_uniforms d)) new.
Proof.
  destruct ex_lengths as [Hh Ht].
  assert (HU : uniforms_typed (id ex_sh) (gl_uniforms ex_st))
    by (intros name v; vm_compute; discriminate).
  split; [exact HU|]. exact (render_uniform_types ex_sh ex_sc ex_sg ex_view (0, 0, 80)%Q 800 600 ex_st HU Hh Ht).
Defined.

End Render.
