(* ===== verification/Main.v ===== *)
(** * [main] (main.cpp lines 84-245)

    [main] initializes GLFW, opens the window and initializes GLEW (each
    can fail, with exit code [-1]), builds the shader program from
    [vertexSrc] and [fragmentSrc], reads the configuration from
    [std::cin], runs [CityScene::init] on a default-constructed scene and
    loops until the window closes: poll the events (the callbacks of
    [Camera.handle]), read the framebuffer size and make it the viewport,
    [camera.update(0.016f)], [scene.update(0.016f)],
    [scene.render(shader, camera)].  The platform's answers are the
    record [Platform]; the window's side of one iteration (the events
    and the framebuffer size) is a [WinFrame], and the frames until the
    window closes are a list.  After the loop, [glfwDestroyWindow] and
    [glfwTerminate] destroy the window and its context ([Glfw]), [main]
    returns [0], and the destructors of its locals run ([scope_exit]).
    The outcome of [main] is its exit code with GLFW's state and the
    OpenGL state at the return and after the destructors, a prompt loop
    that never ends ([Blocked]), an uncaught exception ([Aborted]), or
    undefined behaviour ([Undefined]: [mode->width] on the [NULL] that
    [glfwGetVideoMode] returns without a monitor, or a read past a
    building vector in [render]).  [glEnable(GL_DEPTH_TEST)], [glClearColor], [glClear] and
    [glfwSwapBuffers] touch no state of the model. *)

From S2P Require Import Prelude Grid Rng Layout SceneInit Camera Cli GL Shader CameraView Mesh Render.
From stdpp Require Import gmap strings.
From Stdlib Require Import QArith.

Open Scope Z_scope.

Module Main.
Import Grid Rng Layout Camera GL Shader CameraView Mesh Render.
Open Scope Z_scope.

(** [glfwInit()]; [glfwGetVideoMode(glfwGetPrimaryMonitor()) != NULL]
    (a primary monitor with a video mode); [glfwCreateWindow(...) !=
    NULL]; [glewInit() == GLEW_OK]. *)
Record Platform := mkPlatform {
  glfw_ok : bool; vidmode_ok : bool; window_created : bool; glew_ok : bool
}.

(** The window opens: the video mode is there to size it and
    [glfwCreateWindow] succeeds. *)
Definition window_ok (p : Platform) : bool := vidmode_ok p && window_created p.

(** One iteration of the loop as the window delivers it: the events
    [glfwPollEvents] dispatches, and [glfwGetFramebufferSize]. *)
Record WinFrame := mkWinFrame { events : list event; fb_width : Z; fb_height : Z }.

(** What the loop changes: the OpenGL state, the camera and the
    callbacks' globals, and the scene. *)
Record World := mkWorld {
  w_gl : state Q; w_input : Input; w_scene : CityScene Q (list (list bool))
}.

(** GLFW's side of the process: whether the library is initialized, and
    whether the window exists, and with it the OpenGL context that line
    96 makes current. *)
Record Glfw := mkGlfw { glfw_inited : bool; window_open : bool }.

(** [glfwDestroyWindow(win)]: the window and its context are gone. *)
Definition glfwDestroyWindow (g : Glfw) : Glfw := mkGlfw (glfw_inited g) false.

(** [glfwTerminate()]: destroys the remaining windows and their contexts. *)
Definition glfwTerminate (g : Glfw) : Glfw := mkGlfw false false.

(** How far [main] gets before the loop: a [return -1] with GLFW as it
    stands then; the prompt loop that never ends; the [std::length_error]
    [makeCircleFan] would throw out of [scene.init], which nothing
    catches; or the loop's start. *)
Inductive setup :=
| SetupExit (code : Z) (g : Glfw)
| SetupUndefined
| SetupBlocked
| SetupThrow
| SetupDone (sh : Shader) (sg : SceneGL) (w : World).

(** How [main] ends.  [Exited code g st st'] is the exit code, GLFW when
    [main] returns, the OpenGL state at the [return], and the OpenGL
    state after the destructors of [main]'s locals; [Aborted] is
    [std::terminate] on an uncaught exception. *)
Inductive outcome :=
| Exited (code : Z) (g : Glfw) (st st' : state Q)
| Blocked
| Aborted
| Undefined.

Section Main.
Context `{CMath Q} `{Stbi} `{Glsl} {Rs : Type} `{CRand Rs}.

(** Lines 84-223: the platform, [Shader shader(vertexSrc, fragmentSrc)]
    (its errors are printed and ignored), the prompts, and
    [scene.init(...)] with the answers, on a fresh scene, with the C
    generator in its initial state [srand(1)].  The camera assignments
    of lines 226-228 are those of [main_input]. *)
Definition main_setup (p : Platform) (fuel : nat) (u : Cli.Uninit) (ins : Cli.istream) : setup :=
  if negb (glfw_ok p) then SetupExit (-1) (mkGlfw false false)
  else if negb (vidmode_ok p) then SetupUndefined
  else if negb (window_created p) then SetupExit (-1) (glfwTerminate (mkGlfw true false))
  else if negb (glew_ok p) then SetupExit (-1) (mkGlfw true true)
  else
    let '((sh, _), st1) := newShader vertexSrc fragmentSrc GL.empty in
    match Cli.readConfig fuel u ins with
    | None => SetupBlocked
    | Some (a, _) =>
        let '(r, st2) :=
          initFull freshScene (srand 1) (Cli.citySize a) (Cli.numBuildings a) (Cli.buildingStyle a)
            (Cli.towerWidth a) (Cli.towerHeight a) (Cli.buildingWidth a) (Cli.buildingHeight a)
            (Cli.skyscraperWidth a) (Cli.skyscraperHeight a) (Cli.pondRadius a)
            (Cli.numSkyscrapers a) (Cli.numTowers a) (Cli.numOfficeBuildings a) st1 in
        match r with
        | None => SetupThrow
        | Some (sc, sg, _) => SetupDone sh sg (mkWorld st2 main_input sc)
        end
    end.

(** Lines 236-248, one iteration: the callbacks, [glViewport(0, 0,
    width, height)] (which [render] reads back with [glGetIntegerv]),
    [camera.update(0.016f)], [scene.update(0.016f)] and
    [scene.render(shader, camera)] with the camera's [viewMatrix()] and
    [position()]. *)
Definition main_frame (sh : Shader) (sg : SceneGL) (w : World) (fr : WinFrame) : option World :=
  let inp := Camera.frame (fold_left handle (events fr) (w_input w)) in
  let sc := Layout.update (w_scene w) (16 # 1000) in
  prog ← render sc sg sh (viewMatrix (camera inp)) (position (camera inp)) (fb_width fr) (fb_height fr);
  Some (mkWorld (prog (w_gl w)).2 inp sc).

(** [while (!glfwWindowShouldClose(win)) { ... }] over the frames until
    the window closes. *)
Fixpoint main_loop (sh : Shader) (sg : SceneGL) (w : World) (frs : list WinFrame) : option World :=
  match frs with
  | [] => Some w
  | fr :: frs => w' ← main_frame sh sg w fr; main_loop sh sg w' frs
  end.

(** The end of [main]'s scope: the destructors of its locals in reverse
    order of construction, [scene] ([~CityScene]) then [shader]
    ([~Shader]). *)
Definition scope_exit (sh : Shader) (sg : SceneGL) : glM Q unit := destroyScene sg ;; deleteShader sh.

(** [main]: the setup; the loop; lines 241-243, [glfwDestroyWindow(win)],
    [glfwTerminate()] and [return 0]; then [scope_exit]. *)
Definition main (p : Platform) (fuel : nat) (u : Cli.Uninit) (ins : Cli.istream)
    (frs : list WinFrame) : outcome :=
  match main_setup p fuel u ins with
  | SetupExit c g => Exited c g GL.empty GL.empty
  | SetupUndefined => Undefined
  | SetupBlocked => Blocked
  | SetupThrow => Aborted
  | SetupDone sh sg w =>
      match main_loop sh sg w frs with
      | Some w' =>
          Exited 0 (glfwTerminate (glfwDestroyWindow (mkGlfw true true)))
            (w_gl w') (scope_exit sh sg (w_gl w')).2
      | None => Undefined
      end
  end.
End Main.


(** ** Properties *)

Section Props.
Context `{CMath Q} `{Stbi} `{Glsl} {Rs : Type} `{CRand Rs}.
Implicit Types (sc : CityScene Q (list (list bool))) (w : World).

(** [scene.update] moves the water only: the draw list of [render]
    does not change from frame to frame. *)
Lemma update_instances sc dt :
  building_instances (Layout.update sc dt) = building_instances sc /\
  frame_size (Layout.update sc dt) = frame_size sc.
Proof. done. Qed.

(** One frame, as [render]'s code on the frame's state. *)
Lemma main_frame_body sh sg w fr bs :
  building_instances (w_scene w) = Some bs ->
  let inp := Camera.frame (fold_left handle (events fr) (w_input w)) in
  let sc := Layout.update (w_scene w) (16 # 1000) in
  main_frame sh sg w fr =
    Some (mkWorld (render_body sh sc sg (viewMatrix (camera inp)) (position (camera inp))
                     (fb_width fr) (fb_height fr) bs (w_gl w)).2 inp sc).
Proof.
  intros Hbs inp sc. unfold main_frame.
  rewrite (render_body_eq _ _ _ _ _ _ _ _ (eq_trans (proj1 (update_instances _ _)) Hbs)). done.
Qed.

(** One frame with a linked program: it creates and deletes no
    object and adds [frame_size] defined draws. *)
Lemma main_frame_linked sh sg w fr :
  program_linked (w_gl w) (id sh) = true ->
  mesh_valid (w_gl w) (cubeMesh sg) -> mesh_valid (w_gl w) (quadMesh sg) ->
  mesh_valid (w_gl w) (pondMesh sg) -> is_Some (building_instances (w_scene w)) ->
  exists w1, main_frame sh sg w fr = Some w1 /\ objs_same (w_gl w) (w_gl w1) /\
    w_scene w1 = Layout.update (w_scene w) (16 # 1000) /\
    exists new, gl_draws (w_gl w1) = gl_draws (w_gl w) ++ new /\
      length new = frame_size (w_scene w) /\ Forall (draw_ok (w_gl w)) new.
Proof.
  intros HL Hc Hq Hp [bs Hbs]. rewrite (main_frame_body _ _ _ _ _ Hbs).
  eexists. split; [reflexivity|]. cbn [w_gl w_scene]. split; [apply render_steady|].
  split; [reflexivity|]. rewrite <- (proj2 (update_instances (w_scene w) (16 # 1000))).
  apply render_valid; [|done..]. by rewrite (proj1 (update_instances _ _)).
Qed.

(** One frame with a program that did not link. *)
Lemma main_frame_unlinked sh sg w fr :
  id sh <> 0 -> program_linked (w_gl w) (id sh) = false -> is_Some (building_instances (w_scene w)) ->
  exists w1, main_frame sh sg w fr = Some w1 /\
    w_scene w1 = Layout.update (w_scene w) (16 # 1000) /\
    Iu sh (gl_program (w_gl w)) (gl_uniforms (w_gl w)) (w_gl w1) /\
    exists new, gl_draws (w_gl w1) = gl_draws (w_gl w) ++ new /\
      Forall (fun d => d_program d = gl_program (w_gl w) /\ d_uniforms d = gl_uniforms (w_gl w)) new.
Proof.
  intros Hid HL [bs Hbs]. rewrite (main_frame_body _ _ _ _ _ Hbs).
  eexists. split; [reflexivity|]. cbn [w_gl w_scene]. split; [reflexivity|]. by apply render_quiet.
Qed.

(** The loop with a linked program: it runs every frame, creates and
    deletes no object, and each frame adds [frame_size] draws, all
    defined. *)
Lemma main_loop_linked sh sg w frs :
  program_linked (w_gl w) (id sh) = true ->
  mesh_valid (w_gl w) (cubeMesh sg) -> mesh_valid (w_gl w) (quadMesh sg) ->
  mesh_valid (w_gl w) (pondMesh sg) ->
  is_Some (building_instances (w_scene w)) ->
  exists w', main_loop sh sg w frs = Some w' /\ objs_same (w_gl w) (w_gl w') /\
    exists new, gl_draws (w_gl w') = gl_draws (w_gl w) ++ new /\
      length new = (length frs * frame_size (w_scene w))%nat /\ Forall (draw_ok (w_gl w)) new.
Proof.
  revert w. induction frs as [|fr frs IH]; intros w HL Hc Hq Hp Hbs.
  { exists w. split; [done|]. split; [apply objs_same_refl|]. exists []. by rewrite app_nil_r. }
  destruct (main_frame_linked sh sg w fr HL Hc Hq Hp Hbs) as (w1&Hf&Hs1&Hsc1&n1&Hd1&Hl1&Hok1).
  cbn [main_loop]. rewrite Hf. cbn [mbind option_bind].
  destruct (IH w1) as (w'&Hl&Hs2&n2&Hd2&Hl2&Hok2).
  { by rewrite (program_linked_same _ _ _ Hs1). }
  1-3: by eapply mesh_valid_same.
  { by rewrite Hsc1, (proj1 (update_instances _ _)). }
  exists w'. split; [done|]. split; [by eapply objs_same_trans|].
  exists (n1 ++ n2). rewrite Hd2, Hd1, app_assoc. split; [done|]. split.
  - rewrite length_app, Hl1, Hl2, Hsc1, (proj2 (update_instances _ _)). cbn [length]. lia.
  - apply Forall_app. split; [done|].
    eapply Forall_impl; [exact Hok2|]. intros d. apply draw_ok_same, objs_same_sym, Hs1.
Qed.

(** The loop with a program that did not link: it runs every frame and
    each draw runs with the program and the uniforms of the start. *)
Lemma main_loop_unlinked sh sg w frs :
  id sh <> 0 -> program_linked (w_gl w) (id sh) = false -> is_Some (building_instances (w_scene w)) ->
  exists w', main_loop sh sg w frs = Some w' /\
    exists new, gl_draws (w_gl w') = gl_draws (w_gl w) ++ new /\
      Forall (fun d => d_program d = gl_program (w_gl w) /\ d_uniforms d = gl_uniforms (w_gl w)) new.
Proof.
  intros Hid. revert w. induction frs as [|fr frs IH]; intros w HL Hbs.
  { exists w. split; [done|]. exists []. by rewrite app_nil_r. }
  destruct (main_frame_unlinked sh sg w fr Hid HL Hbs) as (w1&Hf&Hsc1&(Hp1&Hu1&HL1)&n1&Hd1&Hok1).
  cbn [main_loop]. rewrite Hf. cbn [mbind option_bind].
  destruct (IH w1 HL1) as (w'&Hl&n2&Hd2&Hok2).
  { by rewrite Hsc1, (proj1 (update_instances _ _)). }
  exists w'. split; [done|]. exists (n1 ++ n2). rewrite Hd2, Hd1, app_assoc. split; [done|].
  apply Forall_app. split; [done|]. by rewrite <- Hp1, <- Hu1.
Qed.
(** The callbacks keep the camera within its bounds. *)
Lemma fold_handle_ok evs i : cam_ok (camera i) -> cam_ok (camera (fold_left handle evs i)).
Proof. revert i. induction evs as [|e evs IH]; intros i Hi; [done|]. apply IH, handle_ok, Hi. Qed.

(** One frame, linked or not: it creates and deletes no object, and
    the camera is the one the frame's events and [camera.update] give. *)
Lemma main_frame_steady sh sg w fr :
  is_Some (building_instances (w_scene w)) ->
  exists w1, main_frame sh sg w fr = Some w1 /\ objs_same (w_gl w) (w_gl w1) /\
    w_scene w1 = Layout.update (w_scene w) (16 # 1000) /\
    w_input w1 = Camera.frame (fold_left handle (events fr) (w_input w)).
Proof.
  intros [bs Hbs]. rewrite (main_frame_body _ _ _ _ _ Hbs).
  eexists. split; [reflexivity|]. cbn [w_gl w_scene w_input]. split; [apply render_steady|]. done.
Qed.

(** The loop, linked or not, runs every frame, creates and deletes no
    object, and keeps the camera within its bounds. *)
Lemma main_loop_steady sh sg w frs :
  is_Some (building_instances (w_scene w)) -> cam_ok (camera (w_input w)) ->
  exists w', main_loop sh sg w frs = Some w' /\ objs_same (w_gl w) (w_gl w') /\
    cam_ok (camera (w_input w')).
Proof.
  revert w. induction frs as [|fr frs IH]; intros w Hbs Hc.
  { exists w. split; [done|]. split; [apply objs_same_refl|done]. }
  destruct (main_frame_steady sh sg w fr Hbs) as (w1&Hf&Hs1&Hsc1&Hi1).
  cbn [main_loop]. rewrite Hf. cbn [mbind option_bind].
  destruct (IH w1) as (w'&Hl&Hs2&Hc2).
  { by rewrite Hsc1, (proj1 (update_instances _ _)). }
  { rewrite Hi1. exact (handle_ok _ Frame (fold_handle_ok _ _ Hc)). }
  exists w'. split; [done|]. split; [by eapply objs_same_trans|done].
Qed.

(** [main]'s link status: both sources compile and the driver links
    them. *)
Definition shader_ok : bool :=
  glsl_compiles VERTEX_SHADER vertexSrc && glsl_compiles FRAGMENT_SHADER fragmentSrc &&
  glsl_links [(VERTEX_SHADER, vertexSrc); (FRAGMENT_SHADER, fragmentSrc)].

(** The scene [main] builds from the answers [a]. *)
Definition main_scene (a : Cli.Answers) : CityScene Q (list (list bool)) :=
  fst (init freshScene (srand 1) (Cli.citySize a) (Cli.numBuildings a) (Cli.buildingStyle a)
         (Cli.towerWidth a) (Cli.towerHeight a) (Cli.buildingWidth a) (Cli.buildingHeight a)
         (Cli.skyscraperWidth a) (Cli.skyscraperHeight a) (Cli.pondRadius a)
         (Cli.numSkyscrapers a) (Cli.numTowers a) (Cli.numOfficeBuildings a)).

(** When the platform comes up and the prompts get their answers, [main]
    reaches the loop with program 3 (linked iff [shader_ok]) not in
    use, no uniform set, no draw issued, the three meshes drawable and
    the scene of [init]. *)
Lemma main_setup_done p fuel u ins a ins' :
  glfw_ok p = true -> window_ok p = true -> glew_ok p = true ->
  Cli.readConfig fuel u ins = Some (a, ins') ->
  exists sh sg w, main_setup p fuel u ins = SetupDone sh sg w /\
    id sh = 3 /\ is_Some (gl_programs (w_gl w) !! id sh) /\ program_linked (w_gl w) (id sh) = shader_ok /\
    gl_program (w_gl w) = 0 /\ gl_uniforms (w_gl w) = ∅ /\ gl_draws (w_gl w) = [] /\
    mesh_valid (w_gl w) (cubeMesh sg) /\ mesh_valid (w_gl w) (quadMesh sg) /\
    mesh_valid (w_gl w) (pondMesh sg) /\ w_scene w = main_scene a /\ w_input w = main_input.
Proof.
  intros Hg Hw He Hr. apply andb_true_iff in Hw as [Hv Hw].
  unfold main_setup. rewrite Hg, Hv, Hw, He. cbn [negb].
  pose proof (newShader_spec (F := Q) vertexSrc fragmentSrc GL.empty) as Hs.
  destruct (newShader vertexSrc fragmentSrc GL.empty) as [[sh errs] st1].
  destruct Hs as (Hid&Hn&Hp&_&Hd&Hprog&Hu&_). cbn [gl_next GL.empty] in Hid, Hn, Hp.
  rewrite Hr.
  match goal with |- context [initFull ?sc ?s ?cs ?nb ?sty ?tw ?th ?bw ?bh ?sw ?shh ?pr ?ns ?nt ?no st1] =>
    pose proof (initFull_spec sc s cs nb sty tw th bw bh sw shh pr ns nt no st1 ltac:(lia)) as Hi;
    destruct (initFull sc s cs nb sty tw th bw bh sw shh pr ns nt no st1) as [r st2] end.
  destruct Hi as (sc&sg&s'&->&Hinit&Hc&Hq&Hpd&Hsh).
  exists sh, sg, (mkWorld st2 main_input sc). split; [reflexivity|]. cbn [w_gl w_scene].
  pose proof Hsh as (Hp2&Hu2&Hps&Hd2). split; [lia|].
  split; [rewrite Hps, Hp, Hid, lookup_insert_eq; by eexists|]. split.
  { rewrite (shading_same_linked _ _ _ Hsh). unfold program_linked.
    rewrite Hp, Hid, lookup_insert_eq. reflexivity. }
  split; [by rewrite Hp2, Hprog|]. split; [by rewrite Hu2, Hu|]. split; [by rewrite Hd2, Hd|].
  do 3 (split; [done|]). unfold main_scene. by rewrite <- Hinit.
Qed.

Lemma main_input_ok : cam_ok (camera main_input).
Proof. unfold cam_ok. cbn. repeat split; discriminate. Qed.

(** [main] with a linked program: it exits with [0] after the frames,
    having drawn each frame in full with defined draws only. *)
Lemma main_run_linked p fuel u ins a ins' frs :
  glfw_ok p = true -> window_ok p = true -> glew_ok p = true ->
  Cli.readConfig fuel u ins = Some (a, ins') -> shader_ok = true ->
  exists st st', main p fuel u ins frs = Exited 0 (mkGlfw false false) st st' /\
    Forall (draw_ok st) (gl_draws st) /\
    length (gl_draws st) = (length frs * frame_size (main_scene a))%nat.
Proof.
  intros Hg Hw He Hr Hok.
  destruct (main_setup_done p fuel u ins a ins' Hg Hw He Hr)
    as (sh&sg&w&Hset&_&_&HL&_&_&Hd&Hc&Hq&Hp&Hsc&_).
  destruct (main_loop_linked sh sg w frs) as (w'&Hl&Hs&new&Hd'&Hlen&Hok');
    [congruence|done|done|done|..].
  { rewrite Hsc. apply init_instances. }
  exists (w_gl w'), (scope_exit sh sg (w_gl w')).2. unfold main. rewrite Hset, Hl. split; [reflexivity|].
  rewrite Hd', Hd. split.
  - eapply Forall_impl; [exact Hok'|]. intros d. by apply draw_ok_same.
  - by rewrite <- Hsc.
Qed.
(** [C1] Running the program is safe: when GLFW, the window and GLEW come
    up, the prompts get valid answers and the driver compiles and links
    the two shaders, [main] runs every frame until the window closes and
    returns [0], and every draw it issued is defined: it draws one of
    the three meshes [init] built, through the element buffer tied to
    its vertex array, with its element count, all of whose indices name
    vertices of its vertex buffer. *)
Theorem main_safe p fuel u ins a ins' frs :
  glfw_ok p = true -> window_ok p = true -> glew_ok p = true ->
  Cli.readConfig fuel u ins = Some (a, ins') -> shader_ok = true ->
  exists st st', main p fuel u ins frs = Exited 0 (mkGlfw false false) st st' /\
    Forall (draw_ok st) (gl_draws st).
Proof.
  intros Hg Hw He Hr Hok.
  destruct (main_run_linked p fuel u ins a ins' frs Hg Hw He Hr Hok) as (st&st'&Hm&Hd&_).
  by exists st, st'.
Qed.

(** [C13] The loop redraws the whole city every frame: after [n] frames
    [main] has issued exactly [n] times the draws of one frame (ground,
    roads, pond, buildings, two per tree, two per lamp, four for the
    car), whatever the events; [scene.update] only moves the water. *)
Theorem main_redraws p fuel u ins a ins' frs :
  glfw_ok p = true -> window_ok p = true -> glew_ok p = true ->
  Cli.readConfig fuel u ins = Some (a, ins') -> shader_ok = true ->
  exists st st', main p fuel u ins frs = Exited 0 (mkGlfw false false) st st' /\
    length (gl_draws st) = (length frs * frame_size (main_scene a))%nat.
Proof.
  intros Hg Hw He Hr Hok.
  destruct (main_run_linked p fuel u ins a ins' frs Hg Hw He Hr Hok) as (st&st'&Hm&_&Hl).
  by exists st, st'.
Qed.

(** [C18] A shader that fails to compile or link does not stop the
    program: [Shader::Shader] prints the errors, main prints "Shaders
    built successfully", and the loop runs to the end, but every draw
    runs with no program in use (program 0) and no uniform set. *)
Theorem main_unlinked p fuel u ins a ins' frs :
  glfw_ok p = true -> window_ok p = true -> glew_ok p = true ->
  Cli.readConfig fuel u ins = Some (a, ins') -> shader_ok = false ->
  exists st st', main p fuel u ins frs = Exited 0 (mkGlfw false false) st st' /\
    Forall (fun d => d_program d = 0 /\ d_uniforms d = ∅) (gl_draws st).
Proof.
  intros Hg Hw He Hr Hok.
  destruct (main_setup_done p fuel u ins a ins' Hg Hw He Hr)
    as (sh&sg&w&Hset&Hid&_&HL&Hp&Hu&Hd&_&_&_&Hsc&_).
  destruct (main_loop_unlinked sh sg w frs) as (w'&Hl&new&Hd'&Hok');
    [by rewrite Hid|congruence|..].
  { rewrite Hsc. apply init_instances. }
  exists (w_gl w'), (scope_exit sh sg (w_gl w')).2. unfold main. rewrite Hset, Hl. split; [reflexivity|].
  rewrite Hd', Hd, <- Hp, <- Hu. exact Hok'.
Qed.

(** [C20] A word that is not a number as the first answer leaves [main]
    blocked in the city-size prompt: it never reaches [init], for any
    number of iterations of the prompt loop. *)
Theorem main_junk_blocks p fuel u t frs :
  glfw_ok p = true -> window_ok p = true -> glew_ok p = true ->
  main p fuel u (Cli.mkStream (Cli.TJunk :: t) false) frs = Blocked.
Proof.
  intros Hg Hw He. apply andb_true_iff in Hw as [Hv Hw].
  unfold main, main_setup. rewrite Hg, Hv, Hw, He. cbn [negb].
  destruct (newShader vertexSrc fragmentSrc GL.empty) as [[sh errs] st1].
  by rewrite Cli.readConfig_junk_hangs.
Qed.

(** [~Shader] after [~CityScene]: the cube's vertex buffer is deleted,
    and the program is deleted when it is not the current one, and only
    flagged for deletion when it is (as after a rendered frame). *)
Lemma scope_exit_frees sh sg st :
  id sh <> 0 -> vao (cubeMesh sg) <> 0 -> vbo (cubeMesh sg) <> 0 ->
  gl_bufs (scope_exit sh sg st).2 !! vbo (cubeMesh sg) = None /\
  gl_programs (scope_exit sh sg st).2 !! id sh =
    if gl_program st =? id sh
    then (fun po => mkProgramObj (p_shaders po) (p_linked po) true) <$> gl_programs st !! id sh
    else None.
Proof.
  intros Hid Hv Hb. unfold scope_exit. cbv [mbind glM_bind].
  destruct (destroyScene_cube sg st Hv Hb) as (Hg&Hps&Hp).
  destruct (destroyScene sg st) as [[] st1]. cbn [snd] in Hg, Hps, Hp.
  unfold deleteShader. rewrite (proj2 (Z.eqb_neq _ _) Hid), <- Hps, <- Hp.
  unfold glDeleteProgram. cbv [mbind glM_bind get mret glM_ret].
  destruct (gl_programs st1 !! id sh) as [po|] eqn:Ep; cbn [fmap option_fmap option_map].
  - destruct (gl_program st1 =? id sh); destruct st1; gl_run; cbn in *;
      (split; [done|]); [apply lookup_insert_eq | apply lookup_delete_eq].
  - destruct (gl_program st1 =? id sh); cbn; (split; [done|]); done.
Qed.

(** The exits before the loop: without GLFW [main] returns [-1] with
    nothing to release; when the window cannot be created it terminates
    GLFW first; when GLEW fails it returns [-1] with GLFW initialized and
    the window open. *)
Lemma main_early_exits p fuel u ins frs :
  (glfw_ok p = false -> main p fuel u ins frs = Exited (-1) (mkGlfw false false) GL.empty GL.empty) /\
  (glfw_ok p = true -> vidmode_ok p = false -> main p fuel u ins frs = Undefined) /\
  (glfw_ok p = true -> vidmode_ok p = true -> window_created p = false ->
     main p fuel u ins frs = Exited (-1) (mkGlfw false false) GL.empty GL.empty) /\
  (glfw_ok p = true -> window_ok p = true -> glew_ok p = false ->
     main p fuel u ins frs = Exited (-1) (mkGlfw true true) GL.empty GL.empty).
Proof.
  unfold main, main_setup, window_ok. split; [|split; [|split]]; intros Hg; rewrite Hg; [done|..].
  - intros Hv. by rewrite Hv.
  - intros Hv Hw. by rewrite Hv, Hw.
  - intros [Hv Hw]%andb_true_iff He. by rewrite Hv, Hw, He.
Qed.
End Props.

(** ** A concrete run

    A platform where everything comes up, the answers of the spec's
    example, one frame of an 800 x 600 window with a right-button drag,
    the rational trigonometry of [CameraView], a decoder that reads
    only the road image, and the two drivers of [Shader]. *)

#[local] Existing Instances ratcirc Render.stbi_road_only.

Definition ex_platform : Platform := mkPlatform true true true true.

Definition ex_tokens : Cli.istream :=
  Cli.mkStream [Cli.TInt 7; Cli.TInt 1; Cli.TInt 1; Cli.TInt 30; Cli.TInt 5; Cli.TReal 4;
                Cli.TReal 90; Cli.TReal 5] false.

Definition ex_frames : list WinFrame :=
  [mkWinFrame [MouseButton MOUSE_BUTTON_RIGHT PRESS; CursorPos 10 0; CursorPos 20 5] 800 600].

Lemma ex_config : Cli.readConfig 2 Cli.u0 ex_tokens = Some (Cli.example_answers, Cli.mkStream [] false).
Proof. vm_compute. reflexivity. Qed.

Lemma main_safe_witness :
  glfw_ok ex_platform = true /\ Cli.readConfig 2 Cli.u0 ex_tokens = Some (Cli.example_answers, Cli.mkStream [] false) /\
  shader_ok (H1 := glsl_accepting) = true /\
  exists st st', main (H1 := glsl_accepting) ex_platform 2 Cli.u0 ex_tokens ex_frames = Exited 0 (mkGlfw false false) st st' /\
    Forall (draw_ok st) (gl_draws st).
Proof.
  assert (Hok : shader_ok (H1 := glsl_accepting) = true) by (vm_compute; reflexivity).
  split; [reflexivity|]. split; [exact ex_config|]. split; [exact Hok|].
  exact (main_safe (H1 := glsl_accepting) ex_platform 2 Cli.u0 ex_tokens Cli.example_answers
           (Cli.mkStream [] false) ex_frames eq_refl eq_refl eq_refl ex_config Hok).
Defined.

Lemma main_redraws_witness :
  glfw_ok ex_platform = true /\ shader_ok (H1 := glsl_accepting) = true /\
  exists st st', main (H1 := glsl_accepting) ex_platform 2 Cli.u0 ex_tokens ex_frames = Exited 0 (mkGlfw false false) st st' /\
    length (gl_draws st) = (length ex_frames * frame_size (main_scene Cli.example_answers))%nat.
Proof.
  assert (Hok : shader_ok (H1 := glsl_accepting) = true) by (vm_compute; reflexivity).
  split; [reflexivity|]. split; [exact Hok|].
  exact (main_redraws (H1 := glsl_accepting) ex_platform 2 Cli.u0 ex_tokens Cli.example_answers
           (Cli.mkStream [] false) ex_frames eq_refl eq_refl eq_refl ex_config Hok).
Defined.

Lemma main_unlinked_witness :
  glfw_ok ex_platform = true /\ shader_ok (H1 := glsl_rejecting) = false /\
  exists st st', main (H1 := glsl_rejecting) ex_platform 2 Cli.u0 ex_tokens ex_frames = Exited 0 (mkGlfw false false) st st' /\
    Forall (fun d => d_program d = 0 /\ d_uniforms d = ∅) (gl_draws st).
Proof.
  assert (Hok : shader_ok (H1 := glsl_rejecting) = false) by (vm_compute; reflexivity).
  split; [reflexivity|]. split; [exact Hok|].
  exact (main_unlinked (H1 := glsl_rejecting) ex_platform 2 Cli.u0 ex_tokens Cli.example_answers
           (Cli.mkStream [] false) ex_frames eq_refl eq_refl eq_refl ex_config Hok).
Defined.

Lemma main_junk_blocks_witness :
  glfw_ok ex_platform = true /\
  main (H1 := glsl_accepting) ex_platform 5 Cli.u0 (Cli.mkStream [Cli.TJunk; Cli.TInt 1] false) ex_frames = Blocked.
Proof.
  split; [reflexivity|].
  exact (main_junk_blocks (H1 := glsl_accepting) ex_platform 5 Cli.u0 [Cli.TInt 1] ex_frames
           eq_refl eq_refl eq_refl).
Defined.

(** The example's frame has 1 + 82 + 1 + 5 + 2 * 8 + 2 * 19 + 4 draws (the center
    cell is listed twice among the 82 road cells). *)
Example ex_frame_size : frame_size (main_scene Cli.example_answers) = 147%nat.
Proof. vm_compute. reflexivity. Qed.

End Main.
